(* ===== verification/_CoqProject ===== *)
-Q . S2P
Prelude.v
Double.v
VtParser.v
Utf8.v
TerminalFramebuffer.v
FramebufferWf.v
TerminalDispatcher.v
DispatcherProps.v
TerminalFunctions.v
FunctionSafety.v
TerminalEmulator.v
TerminalDisplay.v
EmulatorSafety.v
ScreenProps.v
SequenceProps.v
EmulatorProps.v
TerminalEffects.v
DisplayProps.v
DisplayFrame.v
TransportFragment.v
Octets.v
FragmentProps.v
StateSync.v
StateSyncProps.v
ScreenSync.v
NetworkTransport.v
TransportProps.v
PacketQueues.v
QueueProps.v
HoleReassembly.v
ReassemblyProps.v
NetworkConnection.v
ConnectionProps.v
SproutConnection.v
SproutProps.v
CellSim.v
CellSimProps.v
NatcpServer.v
NatcpProps.v
NatcpStart.v
CryptoOcb.v
CryptoProps.v
CryptoRoundtrip.v
CryptoKeys.v
VerusServer.v
VerusProps.v
VerusClient.v
SproutProcess.v
SproutProcessProps.v
SproutModel.v
Utilities.v
SelectLoop.v
NetworkBind.v
CellRelay.v
CellRelayProps.v
PacketSocket.v
CryptoTools.v
BulkSender.v
BulkSenderProps.v
VerusArgs.v
TermEmu.v
TermEmuProps.v
