(* ===== verification/Prelude.v ===== *)
(** * NATCP repository: verification library

    The repository holds NATCP (a TCP sender whose rate and window are set
    from a trace of the cellular link, [src/src]) together with the schemes it
    is measured against: Alfalfa/Sprout ([src/alfalfa], a transport protocol
    for cellular links built on the code of Mosh, the mobile shell) and Verus
    ([src/verus]).  This library models NATCP's server and client, Verus's
    server and client, and Alfalfa, where most of the repository's own logic
    is.  Alfalfa is layered; from the wire up:

    - _Authenticated encryption_ ([CryptoOcb]; [crypto/ocb.cc], [ae.h]): the
      OCB mode of RFC 7253 over AES, in the configuration of the file, with
      its incremental interface and for both byte orders.
    - _Keys_ ([CryptoKeys]; [crypto/crypto.{h,cc}], [base64.cc]): keys with
      their printable form, and the session that sets up the cipher.
      [CryptoTools] ([examples/encrypt.cc], [decrypt.cc]) uses both from the
      command line.
    - _Datagram connection_ (file [NetworkConnection]; sources
      [crypto/crypto.{h,cc}], [network/network.{h,cc}],
      [sprout/receiver.{hh,cc}]): nonces and session framing, the packet format,
      the sender's sequence numbers, round-trip estimation, and the
      receiver's count of octets received or lost, which feeds the
      forecaster; [NetworkBind] has the constructors, with the search for a free
      port.
    - _Probability model_ ([SproutProcess]; [sprout/sampledfunction.{hh,cc}],
      [process.{hh,cc}], [processforecaster.{hh,cc}], [mypoisson.hh]; and
      [SproutModel], which puts it behind the receiver): the distribution of
      the link's rate, its evolution and observation, and the quantiles of
      what will be delivered.
    - _Sprout connection_ ([SproutConnection]; [network/sproutconn.{h,cc}]):
      delivery forecasts in front of packets, the estimate of octets in
      flight, and the window-limited outgoing queue, over [Connection].
    - _Transport_ ([NetworkTransport]; [network/transportstate.h],
      [transportsender.{h,cc}], [networktransport.{h,cc}]): state
      synchronization.  The sender keeps numbered states and sends
      differences; the receiver rebuilds the states from them.
      Instructions are cut into fragments by [TransportFragment]
      ([network/transportfragment.{h,cc}]).
    - _Synchronized states_ ([StateSync]; [statesync/user.{h,cc}], [flood.h],
      [completeterminal.{h,cc}]): the user's keystrokes and the server's
      screen.  The transport layer is written against the class [SyncState],
      as the source's is against its template parameters; the difference of two
      screens is a string of the display encoder.
    - _Display encoder_ ([TerminalDisplay]; [terminal/terminaldisplay.{h,cc}],
      [terminaldisplayinit.cc]): writes the escape sequences that turn one
      screen into another.
    - _Terminal emulator_: a host octet goes through the UTF-8 decoder
      ([Utf8]; [terminal/parser.{h,cc}]), the DEC ANSI state machine
      ([VtParser]; [terminal/parser*.{h,cc}]), the parameter collector and
      function registry ([TerminalDispatcher];
      [terminal/terminaldispatcher.{h,cc}]) and a terminal function
      ([TerminalFunctions]; [terminal/terminalfunctions.cc]) or the printing
      code ([TerminalEmulator]; [terminal/terminal.{h,cc}],
      [terminaluserinput.{h,cc}], [parseraction.cc]) to the screen
      ([TerminalFramebuffer]; [terminal/terminalframebuffer.{h,cc}]).
    - _Packet queues_ ([PacketQueues]; [network/codel.{h,cc}],
      [ingress-queue.h], [pkt-classifier.{h,cc}], [queue-gang.{h,cc}]): the tunnel's
      queue per flow, CoDel on each of them, deficit round robin over them.
    - _Packet reassembly_ ([HoleReassembly]; [network/reassembly.{hh,cc}]):
      the hole list of RFC 815 for the tunnel's fragments.
    - _Packet sockets_ ([PacketSocket]; [network/packetsocket.{hh,cc}]): the
      filter for hardware addresses.
    - _Link emulators_ ([CellSim]; the classes [DelayQueue] of
      [examples/cellsim.cc] and [examples/cellproxy.cc]): a delay, then
      service at the times of a recorded schedule.  [CellRelay] is their main
      program, written against the class [LinkQueue] that both implement.
    - _Utilities_ ([Utilities]; [util/swrite.cc], [util/timestamp.cc] and the
      sending part of [examples/sproutbt2.cc]) and the event wait
      ([SelectLoop]; [util/select.{h,cc}]).
    - _Programs_ over these: the bulk sender ([BulkSender];
      [examples/sproutbt2.cc]) and the terminal emulator ([TermEmu];
      [examples/termemu.cc]).

    _NATCP_ is [NatcpServer]: the client's query and the C string functions
    both programs use ([Client], [CString]; [src/src/client.c]), the flow
    record ([Flow]; [flow.{h,cc}]), the trace file, the thread that answers a
    request with data and the thread that follows the trace and sets the
    socket's options ([Server]; [server.cc]), and the interleavings of the two
    threads' accesses to the variables they share ([Threads]).  [NatcpStart] is
    what comes before and after: [start_server], and the client's loops.

    _Verus_ is [VerusServer] ([verus_server.cpp], [verus.hpp]: the windows, the
    lists of packets in flight and missing, the timeout, the epochs and the
    delay profile, as steps of the five threads over the shared variables) and
    [VerusClient] ([verus_client.cpp]).  A handler is one step, as it is under
    its lock; the sending thread, which takes its locks piecemeal, moves in
    smaller steps.  [VerusArgs] has the command lines of both programs.

    ** Conventions of the model

    A C++ class is a Module with a record [t] (or [mk…]) of its members and
    one definition per method, under the method's name; object state is passed
    explicitly.  A statement that does not complete normally is a [fault] of
    the error monad [result] of this file: a failed assertion, an index or
    iterator outside its container, a null pointer, an exception, a
    conversion of a floating-point value that does not fit.  Integers are [Z], with
    the wrap-around of their width written out ([u16], [u64], [i32], …);
    octets are numbers from 0 to 255; [double] is IEEE binary64 as
    computed by [SpecFloat] (file [Double]).  A pointer into the screen is a
    (row, column) pair, an iterator into a queue is a position; both are
    checked where they are used.  [timestamp()] is the frozen clock of the
    source, one value [now] per call.  [wp] and [safe] of this file are the
    weakest preconditions in which invariants are stated and proved.

    ** Interfaces

    Code that is not in the repository, or is generated at build time, is a
    type class; its laws, where a theorem needs them, are a second class,
    and each has an instance with which the witnesses run:
    [Mbrtowc]/[MbrtowcLaws] (the C library's decoder; instance [RFC3629]),
    [Wcwidth]/[WcwidthLaws]/[SpacingLaws], [InstructionCodec], [UserCodec],
    [HostCodec]/[HostCodecLaws] and [ForecastCodec] (protocol-buffer
    serializations; parsing inverts printing), [Sscanf] (the conversions of a
    trace line), [AES]/[AESLaws] (the block cipher of OpenSSL: decryption
    inverts encryption), [Base64]/[Base64Laws] (its base64 filter; instance
    [Rfc4648]), [Boost] (the Poisson and normal distributions),
    [Alglib] (spline fitting and evaluation), [Stod] ([std::stod]).  [DeliveryModel] is what the
    Sprout receiver asks of its probability model; [SproutModel] implements it
    and proves its laws [DeliveryLaws].
    The answers of the terminfo database, the results of [sendto], [send] and
    [setsockopt] and the readings of the clock are arguments; for a whole program
    they are gathered in a record [world], one for each round of its loop.

    ** Loops

    Loops over a container are structural.  The others carry fuel, and
    running out of it is the fault [OutOfFuel], which the theorems
    exclude: [Utf8.UTF8Parser.input_loop] (every round parses an octet or clears the
    buffer; C10), [Dispatcher.parse_loop] (a semicolon per round; C7),
    [Display.put_cells] and [Display.force_cells] (a column per round; C2),
    [Fragmenter.split_payload] (an octet per round when the MTU exceeds the header;
    C15), [CoDel.drop_loop] (a queued packet per round; C19),
    [Reassembly.scan] (twice the number of holes; C21), [Receiver.advance] (the
    milliseconds to go, of which a tick takes several; C25),
    [SproutConnection.tick_loop] (a queued packet per round; C26),
    [Sproutbt2.burst] (a packet of 1440 octets per round; C27), [Swrite.loop] (an
    octet per round), [ConnectionSetup.search] (a port per round; C37),
    [VerusArgs.loop] (an argument per round), [Server.control_loop] (a line of the trace per round;
    C31), [Verus.create_missing] (a number per round), [Verus.expire_loop] (a
    missing packet per round) and [Verus.find_N] (the divisor falls from fifteen;
    all three C8), [decimal] (the bit length, which bounds the number of
    digits; C13).  [Verus.calcDelayCurve] repeats its search with a smaller
    delay; the number of rounds is an argument, and C8 names it as the
    only loop that may need more.  The data thread of NATCP runs as long as
    the list of results of [send] that it is given; C32 gives a number of
    results that is enough.  A program's endless loop over [select] is a fixpoint over
    the list of answers that the system gives, one for each round; its theorems
    hold for every such list.

    ** Theorems

    - [ScreenSync] (C1): over the interfaces of encoder and codec, every
      client copy built from differences shows the server's screen.
    - [TerminalEffects], [DisplayProps], [DisplayFrame] (C2): the effect on a
      terminal of each string the encoder writes, and of the whole frame:
      encoder and emulator are inverse to each other on what is displayed.
      Drawable screens have one-column cells (with their combining
      characters): after a two-column cell the encoder skips the next.
    - [CryptoProps], [CryptoRoundtrip], [CryptoKeys] (C5, C6, C38): [ocb.cc] computes the
      encryption of RFC 7253, which is written out from the document, for any
      sequence of messages in any number of calls; decryption inverts it and
      refuses every other tag; printable keys name exactly the keys.
    - [VerusProps], [VerusClient] (C8, C36), [VerusArgs]: in every interleaving of the
      threads the bookkeeping of packets is consistent as long as the last
      acknowledged number does not go back, and a run in which the timeout
      takes it back ([verus_timeout_regress]); the client answers every packet
      once and in order; what the command lines mean ([verus_arguments]).
    - [VtParser], [Utf8] (C9-C11): the parser is total on every octet
      stream, emits only actions its consumers accept, can be
      resynchronised from every state, and decodes UTF-8 text.
    - [SproutProcessProps], [SproutModel] (C12, C22, C23): the probability
      model keeps its shape and stays inside its vectors, implements the
      receiver's interface, computes the quantiles and the convolution it is
      meant to; the components of the receiver ([receiver_components]); and the
      observation that stops the program ([impossible_observation]).
    - [FramebufferWf], [DispatcherProps], [FunctionSafety],
      [EmulatorSafety] (C7): the representation invariant of the screen is
      kept by every method, every registered function and every host
      string; the only assertion that host output can fail is named,
      and a string that fails it is given ([combining_assertion_reachable]);
      without characters of width zero there is none ([emulator_never_faults]).
    - [ScreenProps], [SequenceProps], [EmulatorProps] (C13):
      what the screen operations do, cell by cell; that the escape string of
      [Renditions::sgr] selects the rendition it was written for,
      through the whole emulator; printing, key translation, parameters,
      the cursor position report.
    - [FragmentProps] (C14, C15): wire format, fragmentation, and reassembly
      from any arrival order and multiplicity.
    - [StateSyncProps], [TransportProps] (C3, C16-C18): differences
      rebuild the stream; over a network that loses, delays, duplicates and
      reorders, sender and receiver agree on every numbered state (a step
      relation and an invariant by induction on it); the sender's iterator is
      not invalidated; and two ways in which the guarantee fails outside the
      theorem's premises ([empty_ack_desynchronises], [thrown_away_reference]).
    - [QueueProps] (C19, C20, C40): what CoDel may drop, the round-robin
      invariant, and two faults of the queue gang.
    - [ReassemblyProps] (C21), [ConnectionProps] (C24, C25, C28), [SproutProps]
      (C26): hole-list reassembly, packet format, the receiver's count,
      the treatment of out-of-order packets, and what a tick sends.
    - [TermEmuProps] (C4): what the terminal emulator program writes makes the
      user's terminal show the screen inside; it joins C2 and C7 with the
      event wait, and [resized_back_loses] is a run outside its premises.
    - [Utilities], [SelectLoop], [BulkSenderProps] (C27): what a round of the
      bulk sender sends, what the event wait reports, and the whole program,
      which is heard of in every interval.
    - [CellSimProps] (C29), [CellRelayProps] (C30): the emulated link is an
      ordered queue with a minimum delay and a bounded rate; the program is
      two of them between two sockets.
    - [NetworkBind] (C37), [CryptoTools] (C39), [PacketSocket]: to what the
      server is bound and what its client needs to know; encryption from the
      command line, which every key undoes; which packets a filter passes on
      ([packet_filter]).
    - [NatcpProps] (C31-C34), [NatcpStart] (C35): the control thread visits every line
      of the trace once, the data thread ends and sends what was asked for,
      client and server agree on the request, the threads agree on the start
      time; and the arithmetic, the requests and the results for which
      the code fails; how the server starts.

    ** What is not modelled

    Socket, terminal, file, process and thread operations beyond their results,
    and printing; zlib (and the class [Compressor], a wrapper of it that nothing
    uses), AES, the base64 filter and the random device, which are libraries and
    the system; the vector-instruction variants of the block operations and the
    unused AES back ends in [ocb.cc]; the protocol-buffer form of Sprout's model;
    ALGLIB, a vendored library; tap devices and the wrappers of the locale and of
    pseudo-terminals, which are system calls only; two example programs for tests
    ([ntester.cc], [parse.cc]); of NATCP the signal handler, scheduling priorities
    and the client's socket set-up; of Verus socket set-up, logs and shutdown. *)

From stdpp Require Export base tactics decidable option list strings numbers gmap.


(** ** Scope and integer conventions *)

Declare Scope natcp_scope.
Delimit Scope natcp_scope with natcp.
Global Open Scope Z_scope.

(** ** Faults

    A C++ statement that does not complete normally is a value of [fault]:
    a failed [assert]/[fatal_assert], an index or iterator outside its
    container (undefined behaviour), a null dereference, a thrown
    exception, a floating-point value outside the range of the integer type
    it is converted to, or a model that ran out of loop fuel. *)

Inductive fault : Set :=
  | AssertFailed (what : string)
  | OutOfRange
  | NullDeref
  | Thrown (what : string)
  | BadConversion
  | OutOfFuel.

#[export] Instance fault_eq_dec : EqDecision fault.
Proof. solve_decision. Defined.

Inductive result (A : Type) : Type :=
  | Ok (a : A)
  | Fault (f : fault).
Arguments Ok {A} _.
Arguments Fault {A} _.

#[export] Instance result_ret : MRet result := fun A a => Ok a.
#[export] Instance result_bind : MBind result := fun A B k m =>
  match m with Ok a => k a | Fault f => Fault f end.
#[export] Instance result_fmap : FMap result := fun A B g m =>
  match m with Ok a => Ok (g a) | Fault f => Fault f end.

Definition assert_that (b : bool) (what : string) : result unit :=
  if b then Ok tt else Fault (AssertFailed what).

(** ** Weakest preconditions

    [wp E m P]: the computation [m] either returns a value satisfying [P]
    or stops with a fault satisfying [E].  [safe m P] allows no fault. *)

Definition wp {A} (E : fault → Prop) (m : result A) (P : A → Prop) : Prop :=
  match m with Ok a => P a | Fault f => E f end.

Abbreviation safe := (wp (fun _ => False)).

Section wp_rules.
Context {A B : Type}.
Implicit Types (E : fault → Prop) (m : result A).

Lemma wp_ret E (a : A) (P : A → Prop) : P a → wp E (mret a) P.
Proof. exact id. Qed.

Lemma wp_ok E (a : A) (P : A → Prop) : P a → wp E (Ok a) P.
Proof. exact id. Qed.

Lemma wp_bind E m (k : A → result B) (P : B → Prop) :
  wp E m (fun a => wp E (k a) P) → wp E (m ≫= k) P.
Proof. by destruct m. Qed.

Lemma wp_mono E E' m (P Q : A → Prop) :
  wp E m P → (∀ f, E f → E' f) → (∀ a, P a → Q a) → wp E' m Q.
Proof. destruct m; simpl; auto. Qed.

Lemma wp_weaken E m (P Q : A → Prop) :
  wp E m P → (∀ a, P a → Q a) → wp E m Q.
Proof. intros H HPQ. by eapply wp_mono. Qed.

Lemma safe_wp E m (P Q : A → Prop) :
  safe m P → (∀ a, P a → Q a) → wp E m Q.
Proof. intros H HPQ. by eapply wp_mono. Qed.

Lemma wp_fmap E (g : A → B) m (P : B → Prop) :
  wp E m (fun a => P (g a)) → wp E (g <$> m) P.
Proof. by destruct m. Qed.

Lemma safe_inv m (P : A → Prop) : safe m P ↔ ∃ a, m = Ok a ∧ P a.
Proof. destruct m as [a|f]; simpl; [naive_solver|split; [done|by intros (?&?&?)]]. Qed.

Lemma wp_inv E m (P : A → Prop) a : wp E m P → m = Ok a → P a.
Proof. by intros H ->. Qed.
End wp_rules.

(** When any fault is allowed, an operand matters only by its value. *)
Lemma any_bind {A B} (m : result A) (k : A → result B) P :
  (∀ a, wp (fun _ => True) (k a) P) → wp (fun _ => True) (m ≫= k) P.
Proof. intros Hk. by destruct m; [apply Hk|]. Qed.

Lemma wp_assert {E} b what (P : unit → Prop) :
  b = true → P tt → wp E (assert_that b what) P.
Proof. by intros ->. Qed.

(** [wp_step] takes one bind apart and looks for a specification of its
    head in the [wp_specs] hint database. *)

Create HintDb wp_specs discriminated.
Create HintDb natcp discriminated.

Ltac wp_head := first [apply wp_ok | apply wp_ret].
Ltac wp_apply H := eapply safe_wp; [eapply H|cbn beta].

(** ** Case analysis on boolean conditions *)

(** [split_ifs] destructs the boolean conditions of the goal, innermost
    first. *)
Ltac destruct_cond b :=
  lazymatch type of b with bool => idtac end;
  lazymatch b with
  | context [if _ then _ else _] => fail
  | _ => destruct b eqn:?
  end.

Ltac split_ifs :=
  repeat match goal with
  | |- context [if ?b then _ else _] => destruct_cond b
  end.

Ltac split_ifs_in H :=
  repeat match type of H with
  | context [if ?b then _ else _] => destruct_cond b
  end.

(** [z_bools] evaluates the integer comparisons of the goal that [lia] can
    decide in the context. *)
Ltac z_bools :=
  repeat match goal with
  | |- context [?a <? ?b] =>
      first [rewrite (proj2 (Z.ltb_lt a b)) by lia | rewrite (proj2 (Z.ltb_ge a b)) by lia]
  | |- context [?a <=? ?b] =>
      first [rewrite (proj2 (Z.leb_le a b)) by lia | rewrite (proj2 (Z.leb_gt a b)) by lia]
  | |- context [?a =? ?b] =>
      first [rewrite (proj2 (Z.eqb_eq a b)) by lia | rewrite (proj2 (Z.eqb_neq a b)) by lia]
  end.

(** Splits the conjunctions that are written as such, and no definition *)
Ltac conjs := repeat lazymatch goal with |- _ ∧ _ => split end.

(** [z_props] turns the boolean comparisons of the context into
    propositions; [b_lia] is [lia] after it. *)
Ltac z_props :=
  repeat match goal with
  | H : (_ && _) = true |- _ => apply andb_true_iff in H as [? ?]
  | H : (_ && _) = false |- _ => apply andb_false_iff in H as [?|?]
  | H : (_ || _) = true |- _ => apply orb_true_iff in H as [?|?]
  | H : (_ || _) = false |- _ => apply orb_false_iff in H as [? ?]
  | H : negb _ = true |- _ => apply negb_true_iff in H
  | H : negb _ = false |- _ => apply negb_false_iff in H
  | H : (_ <=? _) = true |- _ => apply Z.leb_le in H
  | H : (_ <=? _) = false |- _ => apply Z.leb_gt in H
  | H : (_ <? _) = true |- _ => apply Z.ltb_lt in H
  | H : (_ <? _) = false |- _ => apply Z.ltb_ge in H
  | H : (_ =? _) = true |- _ => apply Z.eqb_eq in H
  | H : (_ =? _) = false |- _ => apply Z.eqb_neq in H
  end.

Ltac b_lia := exfalso; z_props; lia.

(** ** Machine integers

    A [w]-bit unsigned value is a [Z]; [uwrap w] is the reduction that the
    conversion to an unsigned [w]-bit type performs. *)

Definition uwrap (w x : Z) : Z := x mod 2 ^ w.
Abbreviation u8 := (uwrap 8).
Abbreviation u16 := (uwrap 16).
Abbreviation u32 := (uwrap 32).
Abbreviation u64 := (uwrap 64).

Lemma uwrap_range w x : 0 ≤ w → 0 ≤ uwrap w x < 2 ^ w.
Proof. intros ?. apply Z.mod_pos_bound, Z.pow_pos_nonneg; lia. Qed.

Lemma uwrap_small w x : 0 ≤ x < 2 ^ w → uwrap w x = x.
Proof. apply Z.mod_small. Qed.

(** The conversion to a signed 32-bit [int]. *)
Definition to_int (x : Z) : Z := (x + 2 ^ 31) mod 2 ^ 32 - 2 ^ 31.

Lemma to_int_small x : - 2 ^ 31 ≤ x < 2 ^ 31 → to_int x = x.
Proof. intros ?. unfold to_int. rewrite Z.mod_small; lia. Qed.

(** ** Vectors

    [std::vector], [std::deque] and [std::string] are lists indexed by [Z].
    An access through [operator[]] or an iterator outside the container is
    undefined behaviour in the source and a fault here. *)

Section vectors.
Context {A : Type}.
Implicit Types (l : list A) (i n : Z) (x : A).

Definition zlen l : Z := Z.of_nat (length l).

Definition in_range i l : bool := (0 <=? i) && (i <? zlen l).

Definition vec_get l i : result A :=
  if i <? 0 then Fault OutOfRange
  else match l !! Z.to_nat i with Some x => Ok x | None => Fault OutOfRange end.

Definition vec_set l i x : result (list A) :=
  if in_range i l then Ok (<[Z.to_nat i := x]> l) else Fault OutOfRange.

(** [v[i] = f(v[i])], the update of an element through a pointer to it *)
Definition vec_alter (f : A → result A) l i : result (list A) :=
  x ← vec_get l i; y ← f x; vec_set l i y.

(** [v.insert(v.begin()+i, x)] *)
Definition vec_insert l i x : result (list A) :=
  if (0 <=? i) && (i <=? zlen l)
  then Ok (take (Z.to_nat i) l ++ x :: drop (Z.to_nat i) l)
  else Fault OutOfRange.

(** [v.erase(v.begin()+i)] *)
Definition vec_erase l i : result (list A) :=
  if in_range i l then Ok (delete (Z.to_nat i) l) else Fault OutOfRange.

(** [v.push_back(x)] *)
Definition vec_push l x : list A := l ++ [x].

(** [v.pop_back()] *)
Definition vec_pop_back l : result (list A) :=
  match l with [] => Fault OutOfRange | _ => Ok (take (length l - 1) l) end.

(** [v.resize(n, x)] *)
Definition vec_resize n x l : list A := resize (Z.to_nat n) x l.

Lemma in_range_spec i l : in_range i l = true ↔ 0 ≤ i < zlen l.
Proof. unfold in_range. rewrite andb_true_iff, Z.leb_le, Z.ltb_lt. done. Qed.

Lemma zlen_nonneg l : 0 ≤ zlen l.
Proof. unfold zlen; lia. Qed.

Lemma zlen_app l k : zlen (l ++ k) = zlen l + zlen k.
Proof. unfold zlen. rewrite length_app. lia. Qed.

Lemma zlen_cons x l : zlen (x :: l) = 1 + zlen l.
Proof. unfold zlen. simpl. lia. Qed.

Lemma zlen_nil : zlen ([] : list A) = 0.
Proof. done. Qed.

Lemma zlen_push l x : zlen (vec_push l x) = zlen l + 1.
Proof. unfold vec_push. by rewrite zlen_app. Qed.

Lemma zlen_resize n x l : 0 ≤ n → zlen (vec_resize n x l) = n.
Proof. intros ?. unfold zlen, vec_resize. rewrite length_resize. lia. Qed.

Lemma vec_get_spec E (P : A → Prop) l i :
  0 ≤ i < zlen l → (∀ x, l !! Z.to_nat i = Some x → P x) → wp E (vec_get l i) P.
Proof.
  intros Hi HP. unfold vec_get. destruct (Z.ltb_spec i 0); [lia|].
  destruct (lookup_lt_is_Some_2 l (Z.to_nat i)) as [x Hx]; [unfold zlen in Hi; lia|].
  rewrite Hx. by apply HP.
Qed.

Lemma vec_get_Ok l i x : vec_get l i = Ok x ↔ 0 ≤ i ∧ l !! Z.to_nat i = Some x.
Proof.
  unfold vec_get. destruct (Z.ltb_spec i 0); [naive_solver lia|].
  destruct (l !! Z.to_nat i); naive_solver.
Qed.

Lemma vec_get_middle l k i x : i = zlen l → vec_get (l ++ x :: k) i = Ok x.
Proof.
  intros ->. apply vec_get_Ok. split; [apply zlen_nonneg|]. unfold zlen. rewrite Nat2Z.id.
  by rewrite lookup_app_r, Nat.sub_diag.
Qed.

Lemma vec_set_Ok l i x : 0 ≤ i < zlen l → vec_set l i x = Ok (<[Z.to_nat i := x]> l).
Proof. intros Hi. unfold vec_set. by rewrite (proj2 (in_range_spec _ _) Hi). Qed.

Lemma vec_alter_Ok f l i x y :
  0 ≤ i → l !! Z.to_nat i = Some x → f x = Ok y →
  vec_alter f l i = Ok (<[Z.to_nat i := y]> l).
Proof.
  intros Hi Hx Hf. unfold vec_alter.
  rewrite (proj2 (vec_get_Ok l i x)) by done. simpl. rewrite Hf. simpl.
  apply vec_set_Ok. apply lookup_lt_Some in Hx. unfold zlen. lia.
Qed.

(** Altering one element keeps the length and any elementwise property. *)
Lemma vec_alter_spec E (Q : A → Prop) f l i :
  0 ≤ i < zlen l → Forall Q l →
  (∀ x, Q x → wp E (f x) Q) →
  wp E (vec_alter f l i) (fun l' => zlen l' = zlen l ∧ Forall Q l').
Proof.
  intros Hi HQ Hf. unfold vec_alter.
  apply wp_bind, vec_get_spec; [done|]. intros x Hx.
  apply wp_bind. eapply wp_weaken.
  { apply Hf. rewrite Forall_lookup in HQ. eauto. }
  intros y Hy. rewrite vec_set_Ok by done. simpl. split.
  - unfold zlen. by rewrite length_insert.
  - by apply Forall_insert.
Qed.

Lemma vec_set_twice l i x y l' : vec_set l i x = Ok l' → vec_set l' i y = vec_set l i y.
Proof.
  unfold vec_set. destruct (in_range i l) eqn:Hi; [|done]. intros [= <-].
  assert (in_range i (<[Z.to_nat i:=x]> l) = true) as ->.
  { unfold in_range, zlen in *. by rewrite length_insert. }
  by rewrite list_insert_insert_eq.
Qed.

(** Two updates of the same element are one. *)
Lemma vec_alter_fuse f g l i :
  (l' ← vec_alter f l i; vec_alter g l' i) = vec_alter (fun x => y ← f x; g y) l i.
Proof.
  unfold vec_alter. destruct (vec_get l i) as [x|] eqn:Hx; simpl; [|done].
  destruct (f x) as [y|]; simpl; [|done].
  destruct (vec_set l i y) as [l'|] eqn:Hl'; simpl.
  - assert (vec_get l' i = Ok y) as ->.
    { unfold vec_set in Hl'. destruct (in_range i l) eqn:Hr; [|done]. simplify_eq.
      apply in_range_spec in Hr. apply vec_get_Ok. split; [lia|].
      apply list_lookup_insert_eq. unfold zlen in Hr. lia. }
    simpl. destruct (g y); simpl; [|done]. by eapply vec_set_twice.
  - unfold vec_set in *. apply vec_get_Ok in Hx as [Hi Hx]. apply lookup_lt_Some in Hx.
    destruct (in_range i l) eqn:Hr; [done|]. unfold in_range, zlen in Hr. lia.
Qed.

Lemma vec_insert_Ok l i x :
  0 ≤ i ≤ zlen l →
  vec_insert l i x = Ok (take (Z.to_nat i) l ++ x :: drop (Z.to_nat i) l).
Proof.
  intros Hi. unfold vec_insert.
  by rewrite (proj2 (Z.leb_le _ _)), (proj2 (Z.leb_le _ _)) by lia.
Qed.

Lemma vec_erase_Ok l i :
  0 ≤ i < zlen l → vec_erase l i = Ok (delete (Z.to_nat i) l).
Proof. intros Hi. unfold vec_erase. by rewrite (proj2 (in_range_spec _ _) Hi). Qed.

Lemma vec_insert_spec E (Q : A → Prop) l i x :
  0 ≤ i ≤ zlen l → Forall Q l → Q x →
  wp E (vec_insert l i x) (fun l' => zlen l' = zlen l + 1 ∧ Forall Q l').
Proof.
  intros Hi HQ Hx. rewrite vec_insert_Ok by done. simpl. split.
  - unfold zlen in *. rewrite length_app. simpl. rewrite length_take, length_drop. lia.
  - apply Forall_app; split; [by apply Forall_take|].
    constructor; [done|by apply Forall_drop].
Qed.

Lemma vec_erase_spec E (Q : A → Prop) l i :
  0 ≤ i < zlen l → Forall Q l →
  wp E (vec_erase l i) (fun l' => zlen l' = zlen l - 1 ∧ Forall Q l').
Proof.
  intros Hi HQ. rewrite vec_erase_Ok by done. simpl. split.
  - unfold zlen in *. rewrite length_delete; [lia|].
    apply lookup_lt_is_Some_2. lia.
  - by apply Forall_delete.
Qed.

Lemma vec_pop_back_spec E (Q : A → Prop) l :
  0 < zlen l → Forall Q l →
  wp E (vec_pop_back l) (fun l' => zlen l' = zlen l - 1 ∧ Forall Q l').
Proof.
  intros Hi HQ. destruct l as [|x l]; [done|]. split.
  - unfold zlen. rewrite length_take. simpl. lia.
  - by apply Forall_take.
Qed.
End vectors.

(** Elements of a list after one was inserted at [m] and one erased. *)
Section insert_erase.
Context {A : Type}.
Implicit Types (l : list A) (x : A) (i j m r b : nat).

Lemma lookup_inserted l m x i :
  (m ≤ length l)%nat →
  (take m l ++ x :: drop m l) !! i =
    if decide (i < m)%nat then l !! i
    else if decide (i = m) then Some x else l !! (i - 1)%nat.
Proof.
  intros Hm. assert (length (take m l) = m) as Hlen by (rewrite length_take; lia).
  case_decide.
  - rewrite lookup_app_l by lia. by rewrite lookup_take_lt.
  - rewrite lookup_app_r by lia. rewrite Hlen. case_decide.
    + by replace (i - m)%nat with 0%nat by lia.
    + replace (i - m)%nat with (S (i - m - 1))%nat by lia. simpl.
      rewrite lookup_drop. f_equal. lia.
Qed.

(** Erasing [r] after inserting behind [b]: a scroll towards the front. *)
Lemma lookup_shift_up l r b x i :
  (r ≤ b < length l)%nat →
  delete r (take (S b) l ++ x :: drop (S b) l) !! i =
    if decide (i < r)%nat then l !! i
    else if decide (i < b)%nat then l !! S i
    else if decide (i = b) then Some x else l !! i.
Proof.
  intros Hr. rewrite list_lookup_delete, lookup_inserted by lia.
  repeat case_decide; try lia; try done; f_equal; lia.
Qed.

(** Erasing behind [b] after inserting at [r]: a scroll towards the back. *)
Lemma lookup_shift_down l r b x i :
  (r ≤ b < length l)%nat →
  delete (S b) (take r l ++ x :: drop r l) !! i =
    if decide (i < r)%nat then l !! i
    else if decide (i = r) then Some x
    else if decide (i ≤ b)%nat then l !! (i - 1)%nat else l !! i.
Proof.
  intros Hr. rewrite list_lookup_delete, lookup_inserted by lia.
  repeat case_decide; try lia; try done; f_equal; lia.
Qed.
End insert_erase.

(** ** Loops

    [for_range lo hi body s] is [for (int i = lo; i < hi; i++) body]. *)

Fixpoint for_up {St} (n : nat) (i : Z) (body : Z → St → result St) (s : St) : result St :=
  match n with
  | O => Ok s
  | S n' => s' ← body i s; for_up n' (i + 1) body s'
  end.

Definition for_range {St} (lo hi : Z) (body : Z → St → result St) (s : St) : result St :=
  for_up (Z.to_nat (hi - lo)) lo body s.

(** [for (x : l) body] *)
Fixpoint for_each {A St} (l : list A) (body : A → St → result St) (s : St) : result St :=
  match l with
  | [] => Ok s
  | x :: l' => s' ← body x s; for_each l' body s'
  end.

Lemma for_up_spec {St} E (P : Z → St → Prop) n i body (s : St) :
  P i s →
  (∀ j s, i ≤ j < i + Z.of_nat n → P j s → wp E (body j s) (P (j + 1))) →
  wp E (for_up n i body s) (P (i + Z.of_nat n)).
Proof.
  revert i s. induction n as [|n IH]; intros i s HP Hbody; simpl.
  - by rewrite Z.add_0_r.
  - apply wp_bind. eapply wp_weaken; [apply Hbody; [lia|done]|].
    intros s' HP'. replace (i + Z.of_nat (S n)) with (i + 1 + Z.of_nat n) by lia.
    apply IH; [done|]. intros j s'' Hj. apply Hbody. lia.
Qed.

Lemma for_range_spec {St} E (P : Z → St → Prop) lo hi body (s : St) :
  lo ≤ hi → P lo s →
  (∀ j s, lo ≤ j < hi → P j s → wp E (body j s) (P (j + 1))) →
  wp E (for_range lo hi body s) (P hi).
Proof.
  intros Hle HP Hbody. unfold for_range.
  replace hi with (lo + Z.of_nat (Z.to_nat (hi - lo))) at 2 by lia.
  apply for_up_spec; [done|]. intros j s' Hj. apply Hbody. lia.
Qed.

(** The same with an invariant that does not mention the index. *)
Lemma for_range_inv {St} E (P : St → Prop) lo hi body (s : St) :
  P s →
  (∀ j s, lo ≤ j < hi → P s → wp E (body j s) P) →
  wp E (for_range lo hi body s) P.
Proof.
  intros HP Hbody. unfold for_range.
  apply (for_up_spec E (fun _ => P)); [done|].
  intros j s' Hj. apply Hbody. lia.
Qed.

Lemma for_each_spec {A St} E (P : St → Prop) (l : list A) body (s : St) :
  P s → (∀ x s, x ∈ l → P s → wp E (body x s) P) → wp E (for_each l body s) P.
Proof.
  revert s. induction l as [|x l IH]; intros s HP Hbody; simpl; [done|].
  apply wp_bind. eapply wp_weaken; [apply Hbody; [left|done]|].
  intros s' HP'. apply IH; [done|]. intros y s'' Hy. apply Hbody. by right.
Qed.

(** [for (int i = lo; i < hi; i++) l[i] = g(i)] *)
Lemma for_range_set {A} E (g : Z → A) lo hi (l : list A) :
  0 ≤ lo → hi ≤ zlen l →
  wp E (for_range lo hi (fun i l => vec_set l i (g i)) l)
    (fun l' => zlen l' = zlen l ∧
       ∀ i : nat, l' !! i = if (lo <=? Z.of_nat i) && (Z.of_nat i <? hi)
                            then Some (g (Z.of_nat i)) else l !! i).
Proof.
  intros Hlo Hhi. destruct (decide (lo ≤ hi)) as [Hle|Hgt].
  2:{ unfold for_range. replace (Z.to_nat (hi - lo)) with 0%nat by lia. simpl.
      split; [done|]. intros i. split_ifs; [lia|done]. }
  apply (for_range_spec E (fun j l' => zlen l' = zlen l ∧
    ∀ i : nat, l' !! i = if (lo <=? Z.of_nat i) && (Z.of_nat i <? j)
                         then Some (g (Z.of_nat i)) else l !! i)); [done| |].
  - split; [done|]. intros i. split_ifs; [lia|done].
  - intros j l' Hj [Hlen Hl']. rewrite vec_set_Ok by lia. simpl. split.
    { unfold zlen in *. by rewrite length_insert. }
    intros i. destruct (decide (i = Z.to_nat j)) as [->|Hne].
    + rewrite list_lookup_insert_eq by (unfold zlen in *; lia).
      rewrite !Z2Nat.id by lia. by z_bools.
    + rewrite list_lookup_insert_ne, Hl' by done. split_ifs; try lia; done.
Qed.

(** [for (auto &x : l) x = f(x)], the in-place traversal of a container *)
Fixpoint map_result {A B} (f : A → result B) (l : list A) : result (list B) :=
  match l with
  | [] => Ok []
  | x :: l' => y ← f x; ys ← map_result f l'; Ok (y :: ys)
  end.

Lemma map_result_spec {A B} E (P : A → Prop) (Q : B → Prop) (f : A → result B) l :
  Forall P l → (∀ x, P x → wp E (f x) Q) →
  wp E (map_result f l) (fun l' => zlen l' = zlen l ∧ Forall Q l').
Proof.
  intros HP Hf. induction HP as [|x l Hx _ IH]; simpl; [done|].
  apply wp_bind. eapply wp_weaken; [by apply Hf|]. intros y Hy.
  apply wp_bind. eapply wp_weaken; [exact IH|]. intros ys [Hlen Hys]. simpl.
  rewrite !zlen_cons, Hlen. by auto.
Qed.

(** The same with the position known to the specification *)
Lemma map_result_wp {A B} E (Q : nat → A → B → Prop) (f : A → result B) l :
  (∀ i x, l !! i = Some x → wp E (f x) (Q i x)) →
  wp E (map_result f l) (fun l' => zlen l' = zlen l ∧ ∀ i x y, l !! i = Some x → l' !! i = Some y → Q i x y).
Proof.
  revert Q. induction l as [|x l IH]; intros Q Hf; cbn [map_result]; [done|].
  apply wp_bind. eapply wp_weaken; [by apply (Hf 0%nat)|]. intros y Hy.
  apply wp_bind. eapply wp_weaken; [apply (IH (fun i => Q (S i))); intros i z; apply (Hf (S i))|].
  intros ys [Hlen Hys]. apply wp_ok. rewrite !zlen_cons. split; [lia|]. intros [|i] a b Ha Hb; [|by apply (Hys i)].
  injection Ha as <-. by injection Hb as <-.
Qed.

Lemma map_result_id {A} (f : A → result A) l :
  Forall (fun x => f x = Ok x) l → map_result f l = Ok l.
Proof. induction 1 as [|x l Hx _ IH]; simpl; [done|]. rewrite Hx. simpl. by rewrite IH. Qed.

(** Element-wise comparison of two containers by the element's
    [operator==]. *)
Fixpoint list_eqb {A} (eqb : A → A → bool) (x y : list A) : bool :=
  match x, y with
  | [], [] => true
  | a :: x', b :: y' => eqb a b && list_eqb eqb x' y'
  | _, _ => false
  end.

Lemma list_eqb_spec {A} (eqb : A → A → bool) :
  (∀ a b, eqb a b = true ↔ a = b) → ∀ x y, list_eqb eqb x y = true ↔ x = y.
Proof.
  intros Heq x. induction x as [|a x IH]; intros [|b y]; simpl; try done.
  rewrite andb_true_iff, Heq, IH. naive_solver.
Qed.

(** ** Record update

    [with_field r f v] elaborates to the record [r] with the field [f]
    replaced by [v]; a record type takes part by an [Eta] instance. *)

Class Eta (R : Type) := eta : R → R.

Ltac with_field r f v :=
  let R := type of r in
  let inst := constr:(_ : Eta R) in
  let h := head_of inst in
  let e := eval cbv beta delta [h] in (inst r) in
  let t := eval pattern (f r) in e in
  lazymatch t with
  | ?g _ => let u := eval cbv beta in (g v) in exact u
  end
with head_of t :=
  lazymatch t with
  | ?f _ => head_of f
  | ?f => f
  end.

(** ** Byte strings *)

Definition bytes_of_string (s : string) : list Z :=
  (fun c => Z.of_N (Ascii.N_of_ascii c)) <$> String.list_ascii_of_string s.

(** [snprintf(buf, n, ...)] keeps at most [n - 1] characters *)
Definition snprintf (n : Z) (s : list Z) : list Z := take (Z.to_nat (n - 1)) s.

Lemma snprintf_short n s : zlen s < n → snprintf n s = s.
Proof. intros Hs. unfold snprintf, zlen in *. rewrite take_ge; [done|lia]. Qed.

(** Decimal digits of a non-negative number, most significant first: the
    output of [%d].  The fuel is the bit length, which bounds the number
    of decimal digits. *)
Fixpoint decimal_aux (fuel : nat) (n : Z) (acc : list Z) : list Z :=
  match fuel with
  | O => acc
  | S fuel' =>
      let acc' := (48 + n mod 10) :: acc in
      if n <? 10 then acc' else decimal_aux fuel' (n / 10) acc'
  end.

Definition decimal (n : Z) : list Z :=
  if n <? 0 then 45 :: decimal_aux (Z.to_nat (Z.log2 (- n)) + 1) (- n) []
  else decimal_aux (Z.to_nat (Z.log2 n) + 1) n [].

(** Value of a digit string, most significant digit first. *)
Definition digits_value (l : list Z) : Z :=
  fold_left (fun acc c => 10 * acc + (c - 48)) l 0.

Definition is_digit (c : Z) : bool := (48 <=? c) && (c <=? 57).

Lemma digits_value_acc s acc :
  fold_left (fun acc c => 10 * acc + (c - 48)) s acc = acc * 10 ^ zlen s + digits_value s.
Proof.
  unfold digits_value. revert acc. induction s as [|c s IH]; intros acc; simpl.
  - rewrite zlen_nil. lia.
  - rewrite IH, (IH (10 * 0 + (c - 48))). rewrite zlen_cons, Z.pow_add_r by (unfold zlen; lia). lia.
Qed.

Lemma digits_value_nonneg s : forallb is_digit s = true → 0 ≤ digits_value s.
Proof.
  assert (∀ acc, 0 ≤ acc → forallb is_digit s = true →
    0 ≤ fold_left (fun acc c => 10 * acc + (c - 48)) s acc) as Hgen.
  { induction s as [|c s IH]; intros acc Hacc Hs; simpl in *; [done|].
    apply andb_true_iff in Hs as [Hc Hs]. unfold is_digit in Hc. apply IH; [lia|done]. }
  by apply Hgen.
Qed.

(** The decimal representation is read back. *)
Lemma digits_value_cons c s : digits_value (c :: s) = (c - 48) * 10 ^ zlen s + digits_value s.
Proof. unfold digits_value at 1. cbn [fold_left]. rewrite digits_value_acc. lia. Qed.

Lemma decimal_aux_spec fuel n acc :
  0 ≤ n < 2 ^ Z.of_nat fuel → forallb is_digit acc = true →
  digits_value (decimal_aux fuel n acc) = n * 10 ^ zlen acc + digits_value acc
  ∧ forallb is_digit (decimal_aux fuel n acc) = true.
Proof.
  revert n acc. induction fuel as [|fuel IH]; intros n acc Hn Hacc; cbn [decimal_aux].
  { change (2 ^ Z.of_nat 0) with 1 in Hn. replace n with 0 by lia. split; [lia|done]. }
  pose proof (Z.mod_pos_bound n 10 eq_refl) as Hm.
  pose proof (Z.div_mod n 10 (ltac:(done))) as Hdm.
  assert (forallb is_digit ((48 + n mod 10) :: acc) = true) as Hacc'.
  { cbn [forallb]. rewrite Hacc. unfold is_digit. lia. }
  destruct (n <? 10) eqn:Hsmall.
  - split; [|done]. rewrite digits_value_cons. rewrite Z.mod_small by lia. lia.
  - rewrite Nat2Z.inj_succ, Z.pow_succ_r in Hn by lia.
    destruct (IH (n / 10) ((48 + n mod 10) :: acc)) as [-> Hd]; [lia|done|]. split; [|done].
    rewrite digits_value_cons, zlen_cons, Z.pow_add_r by (unfold zlen; lia). nia.
Qed.

Lemma decimal_spec n :
  0 ≤ n → digits_value (decimal n) = n ∧ forallb is_digit (decimal n) = true.
Proof.
  intros Hn. unfold decimal. z_bools.
  destruct (decimal_aux_spec (Z.to_nat (Z.log2 n) + 1) n []) as [-> ?]; [|done|].
  - rewrite Nat2Z.inj_add, Z2Nat.id by apply Z.log2_nonneg.
    destruct (decide (n = 0)) as [->|]; [done|].
    pose proof (Z.log2_spec n). change (Z.of_nat 1) with 1. unfold Z.succ in *. lia.
  - split; [|done]. rewrite zlen_nil. unfold digits_value. cbn [fold_left]. lia.
Qed.

Lemma decimal_aux_length fuel n acc k :
  1 ≤ k → 0 ≤ n < 10 ^ k → zlen (decimal_aux fuel n acc) ≤ k + zlen acc.
Proof.
  revert n acc k. induction fuel as [|fuel IH]; intros n acc k Hk Hn; cbn [decimal_aux]; [lia|].
  destruct (n <? 10) eqn:Hsmall; [rewrite zlen_cons; lia|].
  assert (k ≠ 1) as Hk1. { intros ->. change (10 ^ 1) with 10 in Hn. lia. }
  replace k with (Z.succ (k - 1)) in Hn by lia. rewrite Z.pow_succ_r in Hn by lia.
  pose proof (IH (n / 10) ((48 + n mod 10) :: acc) (k - 1)) as Hrec. rewrite zlen_cons in Hrec.
  pose proof (Z.div_mod n 10 (ltac:(done))). pose proof (Z.mod_pos_bound n 10 eq_refl).
  lia.
Qed.

Lemma decimal_length n k : 1 ≤ k → 0 ≤ n < 10 ^ k → zlen (decimal n) ≤ k.
Proof.
  intros Hk Hn. unfold decimal. z_bools.
  pose proof (decimal_aux_length (Z.to_nat (Z.log2 n) + 1) n [] k Hk Hn) as Hl.
  rewrite zlen_nil in Hl. lia.
Qed.
