(* ===== verification/Double.v ===== *)
(** * Double-precision numbers

    The type [double] of the sources: IEEE 754 binary64 with rounding to
    nearest even, as computed by the Standard Library's [SpecFloat], and its
    conversions from and to integers. *)

From Stdlib Require Export SpecFloat.
From S2P Require Import Prelude.

Module Double.

Definition double : Set := spec_float.

Definition of_Z (z : Z) : double := binary_normalize 53 1024 z 0 false.
Definition add (x y : double) : double := SFadd 53 1024 x y.
Definition sub (x y : double) : double := SFsub 53 1024 x y.
Definition mul (x y : double) : double := SFmul 53 1024 x y.
Definition div (x y : double) : double := SFdiv 53 1024 x y.
Definition sqrt (x : double) : double := SFsqrt 53 1024 x.
Definition fabs (x : double) : double := SFabs x.
Definition ltb (x y : double) : bool := SFltb x y.

Definition leb (x y : double) : bool := SFleb x y.
Definition eqb (x y : double) : bool := SFeqb x y.

Definition is_nan (x : double) : bool := match x with S754_nan => true | _ => false end.

(** [fmax] and [fmin]: the other argument when one is NaN *)
Definition fmax (x y : double) : double :=
  if is_nan x then y else if is_nan y then x else if ltb x y then y else x.
Definition fmin (x y : double) : double :=
  if is_nan x then y else if is_nan y then x else if ltb y x then y else x.

(** A decimal constant of the sources, [n / d], correctly rounded *)
Definition of_ratio (n d : Z) : double := div (of_Z n) (of_Z d).

(** The integer part, truncated towards zero; none of an infinity or NaN *)
Definition trunc (x : double) : option Z :=
  match x with
  | S754_zero _ => Some 0
  | S754_finite s m e =>
      let a := if 0 <=? e then Z.shiftl (Z.pos m) e else Z.shiftr (Z.pos m) (- e) in
      Some (if s then - a else a)
  | _ => None
  end.

(** [ceil], as an integer *)
Definition ceil (x : double) : option Z :=
  match x with
  | S754_finite s m e =>
      let v := if s then Z.neg m else Z.pos m in
      Some (if 0 <=? e then Z.shiftl v e else - Z.shiftr (- v) (- e))
  | _ => trunc x
  end.

(** The implicit conversion to [uint64_t], undefined outside its range *)
Definition to_u64 (x : double) : result Z :=
  match trunc x with
  | Some z => if (0 <=? z) && (z <? 2 ^ 64) then Ok z else Fault BadConversion
  | None => Fault BadConversion
  end.

(** The conversions to [int], [int64_t] and [unsigned int], undefined
    outside their ranges *)
Definition to_range (lo hi : Z) (x : double) : result Z :=
  match trunc x with
  | Some z => if (lo <=? z) && (z <? hi) then Ok z else Fault BadConversion
  | None => Fault BadConversion
  end.

Definition to_i32 (x : double) : result Z := to_range (- 2 ^ 31) (2 ^ 31) x.
Definition to_i64 (x : double) : result Z := to_range (- 2 ^ 63) (2 ^ 63) x.
Definition to_u32 (x : double) : result Z := to_range 0 (2 ^ 32) x.

End Double.
