(* ===== verification/VtParser.v ===== *)
(** * The escape-sequence parser

    [src/alfalfa/src/terminal]: [parseraction.h], [parsertransition.h],
    [parserstate.h], [parserstatefamily.h], [parserstate.cc] and the class
    [Parser] of [parser.h]/[parser.cc].  The parser is Williams's DEC ANSI
    state machine: fourteen states, a rule that applies in every state, one
    rule per state, and entry/exit actions.  [ParserProps] below proves that
    the machine never dereferences a null action, that what it emits meets
    the assertions of its consumers, and that its string-collecting states
    are properly bracketed. *)

From S2P Require Import Prelude.

Module Parser.

(** ** Actions ([parseraction.h]) *)

Inductive ActionKind : Set :=
  | Ignore | Print | Execute | Clear | Collect | Param
  | Esc_Dispatch | CSI_Dispatch
  | Hook | Put | Unhook
  | OSC_Start | OSC_Put | OSC_End
  | UserByte (c : Z)
  | Resize (width height : Z).

#[export] Instance ActionKind_eq_dec : EqDecision ActionKind.
Proof. solve_decision. Defined.

Record Action : Set := mkAction {
  kind : ActionKind;
  char_present : bool;
  ch : Z;
  handled : bool }.

#[export] Instance Action_eq_dec : EqDecision Action.
Proof. solve_decision. Defined.

(** [new K]: the base-class constructor *)
Definition new_action (k : ActionKind) : Action :=
  {| kind := k; char_present := false; ch := -1; handled := false |}.

Definition set_handled (a : Action) : Action :=
  {| kind := kind a; char_present := char_present a; ch := ch a; handled := true |}.

Definition set_char (c : Z) (a : Action) : Action :=
  {| kind := kind a; char_present := true; ch := c; handled := handled a |}.

(** [Action::operator==] compares the base-class members only;
    [UserByte] and [Resize] compare their own members instead. *)
Definition Action_eqb (x y : Action) : bool :=
  eqb (char_present x) (char_present y) && (ch x =? ch y)
  && eqb (handled x) (handled y).

Definition UserByte_eqb (x y : Z) : bool := x =? y.

Definition Resize_eqb (x y : Z * Z) : bool :=
  (fst x =? fst y) && (snd x =? snd y).

(** ** States ([parserstate.h], [parserstatefamily.h]) *)

Inductive State : Set :=
  | Ground
  | Escape | Escape_Intermediate
  | CSI_Entry | CSI_Param | CSI_Intermediate | CSI_Ignore
  | DCS_Entry | DCS_Param | DCS_Intermediate | DCS_Passthrough | DCS_Ignore
  | OSC_String | SOS_PM_APC_String.

#[export] Instance State_eq_dec : EqDecision State.
Proof. solve_decision. Defined.

(** ** Transitions ([parsertransition.h]): null pointers are [None] *)

Record Transition : Set := mkTransition {
  action : option Action;
  next_state : option State }.

(** [Transition( new K, &family->s_S )] *)
Definition act_goto (k : ActionKind) (s : State) : Transition :=
  {| action := Some (new_action k); next_state := Some s |}.
(** [Transition( new K )] *)
Definition act_only (k : ActionKind) : Transition :=
  {| action := Some (new_action k); next_state := None |}.
(** [Transition( &family->s_S )] *)
Definition goto (s : State) : Transition := act_goto Ignore s.
(** [Transition()] *)
Definition stay : Transition := act_only Ignore.
(** [Transition( NULL, NULL )] *)
Definition null_transition : Transition :=
  {| action := None; next_state := None |}.

(** ** State rules ([parserstate.cc]) *)

Definition between (lo c hi : Z) : bool := (lo <=? c) && (c <=? hi).

Definition anywhere_rule (c : Z) : Transition :=
  if (c =? 0x18) || (c =? 0x1A) || between 0x80 c 0x8F
     || between 0x91 c 0x97 || (c =? 0x99) || (c =? 0x9A)
  then act_goto Execute Ground
  else if c =? 0x9C then goto Ground
  else if c =? 0x1B then goto Escape
  else if (c =? 0x98) || (c =? 0x9E) || (c =? 0x9F) then goto SOS_PM_APC_String
  else if c =? 0x90 then goto DCS_Entry
  else if c =? 0x9D then goto OSC_String
  else if c =? 0x9B then goto CSI_Entry
  else null_transition.

Definition C0_prime (c : Z) : bool :=
  (c <=? 0x17) || (c =? 0x19) || between 0x1C c 0x1F.

Definition GLGR (c : Z) : bool := between 0x20 c 0x7F || between 0xA0 c 0xFF.

Definition Ground_rule (c : Z) : Transition :=
  if C0_prime c then act_only Execute
  else if GLGR c then act_only Print
  else stay.

Definition Escape_rule (c : Z) : Transition :=
  if C0_prime c then act_only Execute
  else if between 0x20 c 0x2F then act_goto Collect Escape_Intermediate
  else if between 0x30 c 0x4F || between 0x51 c 0x57 || (c =? 0x59)
          || (c =? 0x5A) || (c =? 0x5C) || between 0x60 c 0x7E
  then act_goto Esc_Dispatch Ground
  else if c =? 0x5B then goto CSI_Entry
  else if c =? 0x5D then goto OSC_String
  else if c =? 0x50 then goto DCS_Entry
  else if (c =? 0x58) || (c =? 0x5E) || (c =? 0x5F) then goto SOS_PM_APC_String
  else stay.

Definition Escape_Intermediate_rule (c : Z) : Transition :=
  if C0_prime c then act_only Execute
  else if between 0x20 c 0x2F then act_only Collect
  else if between 0x30 c 0x7E then act_goto Esc_Dispatch Ground
  else stay.

Definition CSI_Entry_rule (c : Z) : Transition :=
  if C0_prime c then act_only Execute
  else if between 0x40 c 0x7E then act_goto CSI_Dispatch Ground
  else if between 0x30 c 0x39 || (c =? 0x3B) then act_goto Param CSI_Param
  else if between 0x3C c 0x3F then act_goto Collect CSI_Param
  else if c =? 0x3A then goto CSI_Ignore
  else if between 0x20 c 0x2F then act_goto Collect CSI_Intermediate
  else stay.

Definition CSI_Param_rule (c : Z) : Transition :=
  if C0_prime c then act_only Execute
  else if between 0x30 c 0x39 || (c =? 0x3B) then act_only Param
  else if (c =? 0x3A) || between 0x3C c 0x3F then goto CSI_Ignore
  else if between 0x20 c 0x2F then act_goto Collect CSI_Intermediate
  else if between 0x40 c 0x7E then act_goto CSI_Dispatch Ground
  else stay.

Definition CSI_Intermediate_rule (c : Z) : Transition :=
  if C0_prime c then act_only Execute
  else if between 0x20 c 0x2F then act_only Collect
  else if between 0x40 c 0x7E then act_goto CSI_Dispatch Ground
  else if between 0x30 c 0x3F then goto CSI_Ignore
  else stay.

Definition CSI_Ignore_rule (c : Z) : Transition :=
  if C0_prime c then act_only Execute
  else if between 0x40 c 0x7E then goto Ground
  else stay.

Definition DCS_Entry_rule (c : Z) : Transition :=
  if between 0x20 c 0x2F then act_goto Collect DCS_Intermediate
  else if c =? 0x3A then goto DCS_Ignore
  else if between 0x30 c 0x39 || (c =? 0x3B) then act_goto Param DCS_Param
  else if between 0x3C c 0x3F then act_goto Collect DCS_Param
  else if between 0x40 c 0x7E then goto DCS_Passthrough
  else stay.

Definition DCS_Param_rule (c : Z) : Transition :=
  if between 0x30 c 0x39 || (c =? 0x3B) then act_only Param
  else if (c =? 0x3A) || between 0x3C c 0x3F then goto DCS_Ignore
  else if between 0x20 c 0x2F then act_goto Collect DCS_Intermediate
  else if between 0x40 c 0x7E then goto DCS_Passthrough
  else stay.

Definition DCS_Intermediate_rule (c : Z) : Transition :=
  if between 0x20 c 0x2F then act_only Collect
  else if between 0x40 c 0x7E then goto DCS_Passthrough
  else if between 0x30 c 0x3F then goto DCS_Ignore
  else stay.

Definition DCS_Passthrough_rule (c : Z) : Transition :=
  if C0_prime c || between 0x20 c 0x7E then act_only Put
  else if c =? 0x9C then goto Ground
  else stay.

Definition DCS_Ignore_rule (c : Z) : Transition :=
  if c =? 0x9C then goto Ground else stay.

Definition OSC_String_rule (c : Z) : Transition :=
  if between 0x20 c 0x7F then act_only OSC_Put
  else if (c =? 0x9C) || (c =? 0x07) then goto Ground
  else stay.

Definition SOS_PM_APC_String_rule (c : Z) : Transition :=
  if c =? 0x9C then goto Ground else stay.

(** The virtual methods [input_state_rule], [enter] and [exit]. *)
Definition input_state_rule (s : State) : Z → Transition :=
  match s with
  | Ground => Ground_rule
  | Escape => Escape_rule
  | Escape_Intermediate => Escape_Intermediate_rule
  | CSI_Entry => CSI_Entry_rule
  | CSI_Param => CSI_Param_rule
  | CSI_Intermediate => CSI_Intermediate_rule
  | CSI_Ignore => CSI_Ignore_rule
  | DCS_Entry => DCS_Entry_rule
  | DCS_Param => DCS_Param_rule
  | DCS_Intermediate => DCS_Intermediate_rule
  | DCS_Passthrough => DCS_Passthrough_rule
  | DCS_Ignore => DCS_Ignore_rule
  | OSC_String => OSC_String_rule
  | SOS_PM_APC_String => SOS_PM_APC_String_rule
  end.

Definition State_enter (s : State) : Action :=
  new_action match s with
  | Escape | CSI_Entry | DCS_Entry => Clear
  | DCS_Passthrough => Hook
  | OSC_String => OSC_Start
  | _ => Ignore
  end.

Definition State_exit (s : State) : Action :=
  new_action match s with
  | DCS_Passthrough => Unhook
  | OSC_String => OSC_End
  | _ => Ignore
  end.

(** [State::input]: the action is dereferenced, which a null transition
    would not survive. *)
Definition State_input (s : State) (c : Z) : result Transition :=
  let any := anywhere_rule c in
  let ret :=
    match next_state any with
    | Some _ => any
    | None => if 0xA0 <=? c then input_state_rule s 0x41 else input_state_rule s c
    end in
  match action ret with
  | None => Fault NullDeref
  | Some a => Ok {| action := Some (set_char c a); next_state := next_state ret |}
  end.

(** ** The parser ([parser.cc]) *)

(** [typeid( *act ) == typeid( Parser::Ignore )] *)
Definition is_ignore (k : ActionKind) : bool :=
  match k with Ignore => true | _ => false end.

Definition append_or_delete (act : option Action) (vec : list Action) : result (list Action) :=
  match act with
  | None => Fault (AssertFailed "act")
  | Some a => Ok (if is_ignore (kind a) then vec else vec_push vec a)
  end.

(** [Parser::input]: exit action, transition action, entry action. *)
Definition input (s : State) (c : Z) : result (list Action * State) :=
  tx ← State_input s c;
  match next_state tx with
  | Some s' =>
      ret ← append_or_delete (Some (State_exit s)) [];
      ret ← append_or_delete (action tx) ret;
      ret ← append_or_delete (Some (State_enter s')) ret;
      Ok (ret, s')
  | None =>
      ret ← append_or_delete (action tx) [];
      Ok (ret, s)
  end.

Definition is_grounded (s : State) : bool := bool_decide (s = Ground).

(** A run over a sequence of characters. *)
Fixpoint run (s : State) (cs : list Z) : result (list Action * State) :=
  match cs with
  | [] => Ok ([], s)
  | c :: cs' =>
      '(acts, s1) ← input s c;
      '(rest, s2) ← run s1 cs';
      Ok (acts ++ rest, s2)
  end.

End Parser.

(** ** Properties of the parser *)

Module ParserProps.
Import Parser.

(** What the consumers of an action assert about it: [Dispatcher::newparamchar]
    wants a digit or a semicolon, [Dispatcher::dispatch] wants a control
    character of at most eight bits, and everything that reads [ch] wants
    [char_present].  The user-input and resize actions do not come from the
    parser. *)
Definition action_ok (a : Action) : bool :=
  match kind a with
  | Param => char_present a && ((ch a =? 59) || is_digit (ch a))
  | Execute => ch a <=? 255
  | Print | Collect | Esc_Dispatch | CSI_Dispatch | OSC_Put => char_present a
  | UserByte _ | Resize _ _ => false
  | _ => true
  end.

(** The string-collecting scope an action stream is in. *)
Inductive scope : Set := Outside | InOSC | InDCS.

Definition scope_of (s : State) : scope :=
  match s with OSC_String => InOSC | DCS_Passthrough => InDCS | _ => Outside end.

(** [OSC_Put] only between [OSC_Start] and [OSC_End], [Put] only between
    [Hook] and [Unhook], and nothing else inside either. *)
Definition scope_step (m : scope) (a : Action) : option scope :=
  match m, kind a with
  | Outside, OSC_Start => Some InOSC
  | Outside, Hook => Some InDCS
  | Outside, (OSC_Put | OSC_End | Put | Unhook) => None
  | Outside, _ => Some Outside
  | InOSC, OSC_Put => Some InOSC
  | InOSC, OSC_End => Some Outside
  | InDCS, Put => Some InDCS
  | InDCS, Unhook => Some Outside
  | _, _ => None
  end.

Fixpoint replay {M} (step : M → Action → option M) (m : M) (acts : list Action) : option M :=
  match acts with
  | [] => Some m
  | a :: acts' => m' ← step m a; replay step m' acts'
  end.

(** States in which a sequence is being collected, hence [Clear] has been
    emitted since the last dispatch. *)
Definition collecting (s : State) : bool :=
  match s with
  | Escape | Escape_Intermediate | CSI_Entry | CSI_Param | CSI_Intermediate
  | DCS_Entry | DCS_Param | DCS_Intermediate => true
  | _ => false
  end.

Definition clear_step (armed : bool) (a : Action) : option bool :=
  match kind a with
  | Clear => Some true
  | Param | Collect => if armed then Some true else None
  | Esc_Dispatch | CSI_Dispatch => if armed then Some false else None
  | _ => Some armed
  end.

Definition step_ok (s : State) (out : list Action * State) : Prop :=
  let '(acts, s') := out in
  (length acts ≤ 2)%nat
  ∧ forallb action_ok acts = true
  ∧ replay scope_step (scope_of s) acts = Some (scope_of s')
  ∧ ∀ armed, (collecting s = true → armed = true) →
      ∃ armed', replay clear_step armed acts = Some armed'
        ∧ (collecting s' = true → armed' = true).

Lemma replay_app {M} (step : M → Action → option M) m xs ys :
  replay step m (xs ++ ys) = (m' ← replay step m xs; replay step m' ys).
Proof.
  revert m. induction xs as [|x xs IH]; intros m; simpl; [done|].
  destruct (step m x); simpl; [apply IH|done].
Qed.

Ltac close_step :=
  cbn; split_and!; [lia|unfold action_ok, is_digit, between in *; cbn; lia|reflexivity|
    intros armed Harmed; try rewrite (Harmed eq_refl); cbn; eexists; split; [reflexivity|];
    try done].

(** One step: no fault, at most two actions, each acceptable to its
    consumer, bracketed and cleared. *)
Lemma input_spec s c : safe (input s c) (step_ok s).
Proof.
  unfold input, State_input, anywhere_rule.
  split_ifs; destruct s; try close_step.
  all: cbn; unfold Ground_rule, Escape_rule, Escape_Intermediate_rule, CSI_Entry_rule,
    CSI_Param_rule, CSI_Intermediate_rule, CSI_Ignore_rule, DCS_Entry_rule, DCS_Param_rule,
    DCS_Intermediate_rule, DCS_Passthrough_rule, DCS_Ignore_rule, OSC_String_rule,
    SOS_PM_APC_String_rule, C0_prime; split_ifs; close_step.
Qed.

Lemma run_spec s cs :
  safe (run s cs) (fun '(acts, s') =>
    forallb action_ok acts = true
    ∧ replay scope_step (scope_of s) acts = Some (scope_of s')
    ∧ ∀ armed, (collecting s = true → armed = true) →
        ∃ armed', replay clear_step armed acts = Some armed'
          ∧ (collecting s' = true → armed' = true)).
Proof.
  revert s. induction cs as [|c cs IH]; intros s; simpl.
  { split_and!; eauto. }
  apply wp_bind. eapply wp_weaken; [apply input_spec|].
  intros [acts s1] (_ & Hok & Hsc & Hcl). apply wp_bind.
  eapply wp_weaken; [apply IH|]. intros [rest s2] (Hok' & Hsc' & Hcl').
  simpl. rewrite forallb_app, Hok, Hok', replay_app, Hsc. split_and!; [done..|].
  intros armed Ha. destruct (Hcl armed Ha) as (a1 & H1 & Ha1).
  destruct (Hcl' a1 Ha1) as (a2 & H2 & Ha2).
  exists a2. rewrite replay_app, H1. done.
Qed.

(** C9.  Whatever characters arrive, the parser reads no null action and
    fails no assertion, and the actions it emits from the ground state
    satisfy the assertions of the code that consumes them; OSC and DCS
    strings are bracketed by their start and end actions with nothing else
    between, and every parameter, collected character and dispatch follows
    a [Clear] with no dispatch in between. *)
Theorem run_from_ground (cs : list Z) :
  ∃ acts s',
    run Ground cs = Ok (acts, s')
    ∧ forallb action_ok acts = true
    ∧ replay scope_step Outside acts = Some (scope_of s')
    ∧ is_Some (replay clear_step false acts).
Proof.
  destruct (proj1 (safe_inv _ _) (run_spec Ground cs)) as ([acts s'] & H1 & H2 & H3 & H4).
  exists acts, s'. split_and!; [done..|].
  destruct (H4 false) as (a & Ha & _); [done|]. by exists a.
Qed.

(** The parser resynchronises: in every state CAN (0x18) executes and
    grounds it, ESC starts a fresh sequence with cleared parameters, and
    ESC [[] is a control sequence introducer, whatever came before. *)
Theorem resynchronise (s : State) :
  (∃ acts, input s 0x18 = Ok (acts ++ [set_char 0x18 (new_action Execute)], Ground))
  ∧ (∃ acts, input s 0x1B = Ok (acts ++ [new_action Clear], Escape))
  ∧ (∃ acts, run s [0x1B; 0x5B] = Ok (acts ++ [new_action Clear], CSI_Entry)).
Proof.
  destruct s; split_and!; cbv -[app];
    first [by exists []|by eexists [_]|by eexists [_; _]].
Qed.

(** In the ground state every graphic character, including every
    character above the C1 controls, is printed unchanged. *)
Theorem ground_prints (c : Z) :
  0x20 ≤ c ≤ 0x7F ∨ 0xA0 ≤ c →
  input Ground c = Ok ([set_char c (new_action Print)], Ground).
Proof.
  intros Hc. unfold input, State_input, anywhere_rule, between.
  split_ifs; try lia; cbn; [done|].
  unfold Ground_rule, C0_prime, GLGR, between. split_ifs; [lia|done|lia].
Qed.

Lemma ground_prints_witness :
  (0x20 ≤ 0x61 ≤ 0x7F ∨ 0xA0 ≤ 0x61)
  ∧ input Ground 0x61 = Ok ([set_char 0x61 (new_action Print)], Ground).
Proof. split; [lia|apply (ground_prints 0x61); lia]. Defined.

End ParserProps.
