(* ===== verification/Utf8.v ===== *)
(** * The UTF-8 front end of the parser

    Class [UTF8Parser] of [src/alfalfa/src/terminal/parser.h] and
    [parser.cc].  The C library's [mbrtowc] is an interface ([Mbrtowc] with
    its laws [MbrtowcLaws]); the theorems about [UTF8Parser::input] are
    proved against it, and the instance [rfc3629] is a decoder for which
    the laws hold and the encode/decode round trip is proved. *)

From S2P Require Import Prelude VtParser.

(** ** The multibyte decoder the source calls *)

(** The four outcomes the source distinguishes: return value [0] (the
    character is NUL), [(size_t) -1] with [errno == EILSEQ], [(size_t) -2],
    and [n] bytes consumed for the wide character [c]. *)
Inductive mbresult : Set :=
  | MbNul
  | MbInvalid
  | MbIncomplete
  | MbChar (n : nat) (c : Z).

#[export] Instance mbresult_eq_dec : EqDecision mbresult.
Proof. solve_decision. Defined.

Class Mbrtowc := mbrtowc : list Z → mbresult.

Module UTF8Parser.
Import Parser.

Definition BUF_SIZE : Z := 8.

(** [buf] holds the first [buf_len] bytes of the array; the bytes beyond
    are never read. *)
Record UTF8Parser : Set := mkUTF8Parser {
  parser : State;
  buf : list Z }.

Definition buf_len (p : UTF8Parser) : Z := zlen (buf p).

(** The constructor *)
Definition init : UTF8Parser := {| parser := Ground; buf := [] |}.

Definition is_grounded (p : UTF8Parser) : bool := Parser.is_grounded (parser p).

(** [pwc] as handed to [Parser::input]: code points outside Unicode and
    surrogates become U+FFFD. *)
Definition sanitize (pwc : Z) : Z :=
  let pwcheck := u64 pwc in
  let pwc1 := if 0x10FFFF <? pwcheck then 0xFFFD else pwc in
  if (0xD800 <=? pwcheck) && (pwcheck <=? 0xDFFF) then 0xFFFD else pwc1.

Section input.
Context `{Mbrtowc}.

(** One iteration of the decoding loop that consumes something: the new
    buffer, [bytes_parsed] and [pwc]; [None] when the bytes are the prefix
    of a longer character. *)
Definition decode_one (b : list Z) : result (option (list Z * Z * Z)) :=
  match mbrtowc b with
  | MbNul =>
      assert_that (zlen b =? 1) "buf_len == 1";;
      Ok (Some ([], 1, 0))
  | MbInvalid =>
      if 1 <? zlen b then
        last ← vec_get b (zlen b - 1);
        Ok (Some ([last], zlen b - 1, 0xFFFD))
      else Ok (Some ([], 1, 0xFFFD))
  | MbIncomplete => Ok None
  | MbChar n c =>
      assert_that (Z.of_nat n <=? zlen b) "bytes_parsed <= buf_len";;
      Ok (Some (drop n b, Z.of_nat n, c))
  end.

Fixpoint input_loop (fuel : nat) (orig_buf_len total_bytes_parsed : Z)
    (p : UTF8Parser) (ret : list Action) : result (list Action * UTF8Parser) :=
  match fuel with
  | O => Fault OutOfFuel
  | S fuel' =>
      if total_bytes_parsed =? orig_buf_len then Ok (ret, p)
      else
        assert_that (total_bytes_parsed <? orig_buf_len) "total_bytes_parsed < orig_buf_len";;
        assert_that (0 <? buf_len p) "buf_len > 0";;
        d ← decode_one (buf p);
        match d with
        | None => input_loop fuel' orig_buf_len (total_bytes_parsed + buf_len p) p ret
        | Some (buf', bytes_parsed, pwc) =>
            '(vec, st) ← Parser.input (parser p) (sanitize pwc);
            input_loop fuel' orig_buf_len (total_bytes_parsed + bytes_parsed)
              {| parser := st; buf := buf' |} (ret ++ vec)
        end
  end.

(** [UTF8Parser::input]: every iteration accounts for at least one byte,
    so the number of buffered bytes plus the final test bounds the loop. *)
Definition input (p : UTF8Parser) (c : Z) : result (list Action * UTF8Parser) :=
  assert_that (buf_len p <? BUF_SIZE) "buf_len < BUF_SIZE";;
  let p' := {| parser := parser p; buf := vec_push (buf p) c |} in
  input_loop (S (length (buf p'))) (buf_len p') 0 p' [].

(** Feeding a byte string. *)
Fixpoint run (p : UTF8Parser) (bs : list Z) : result (list Action * UTF8Parser) :=
  match bs with
  | [] => Ok ([], p)
  | b :: bs' =>
      '(acts, p1) ← input p b;
      '(rest, p2) ← run p1 bs';
      Ok (acts ++ rest, p2)
  end.
End input.
End UTF8Parser.

(** What the C standard and the platform guarantee of [mbrtowc] called in
    the initial shift state: it reports NUL exactly on a NUL byte, the
    bytes consumed are among those given and alone decide the outcome,
    wide characters are 32-bit, and an incomplete character is shorter
    than [MB_CUR_MAX], which the constructor asserts to be at most
    [BUF_SIZE]. *)
Class MbrtowcLaws `{Mbrtowc} : Prop := {
  mb_nul b : mbrtowc b = MbNul ↔ ∃ rest, b = 0 :: rest;
  mb_char_bounds b n c :
    mbrtowc b = MbChar n c → (1 ≤ n ≤ length b)%nat ∧ - 2 ^ 31 ≤ c < 2 ^ 31;
  mb_char_prefix b n c m :
    mbrtowc b = MbChar n c → (n ≤ m ≤ length b)%nat → mbrtowc (take m b) = MbChar n c;
  mb_incomplete_short b :
    mbrtowc b = MbIncomplete → zlen b < UTF8Parser.BUF_SIZE }.

(** ** Properties of the front end, against the interface *)

Module Utf8Props.
Import UTF8Parser.

(** Unicode scalar values. *)
Definition scalar (c : Z) : bool :=
  (0 <=? c) && (c <=? 0x10FFFF) && negb ((0xD800 <=? c) && (c <=? 0xDFFF)).

Section props.
Context `{MbrtowcLaws}.

(** The buffer between calls is empty or an incomplete character. *)
Definition buf_ok (b : list Z) : Prop := b = [] ∨ mbrtowc b = MbIncomplete.

Definition wf (p : UTF8Parser) : Prop := buf_ok (buf p).

Lemma u64_wchar c :
  - 2 ^ 31 ≤ c < 2 ^ 31 → (0 ≤ c ∧ u64 c = c) ∨ (c < 0 ∧ 2 ^ 63 < u64 c).
Proof.
  intros Hc. unfold uwrap. destruct (Z.ltb_spec c 0).
  - right. split; [done|]. rewrite <- (Z.mod_unique c (2 ^ 64) (-1) (c + 2 ^ 64)); lia.
  - left. split; [done|]. apply Z.mod_small; lia.
Qed.

Lemma sanitize_scalar c : - 2 ^ 31 ≤ c < 2 ^ 31 → scalar (sanitize c) = true.
Proof.
  intros Hc. unfold sanitize, scalar.
  destruct (u64_wchar c Hc) as [[? ->]|[??]]; split_ifs; lia.
Qed.

Lemma sanitize_id c : scalar c = true → sanitize c = c.
Proof.
  unfold scalar, sanitize, uwrap. intros Hc.
  rewrite Z.mod_small by lia. split_ifs; lia.
Qed.

(** What one octet amounts to: nothing yet, one code point, or the
    replacement character and then the last octet on its own. *)
Definition decodes_last (cps b' : list Z) : Prop :=
  buf_ok b' ∧ (cps = [] ∨ ∃ c, scalar c = true ∧ cps = [c]).

Definition decodes (cps b' : list Z) : Prop :=
  ∃ pre last, cps = pre ++ last ∧ (pre = [] ∨ pre = [0xFFFD]) ∧ decodes_last last b'.

Lemma loop_done fuel n p ret : input_loop (S fuel) n n p ret = Ok (ret, p).
Proof. simpl. by rewrite Z.eqb_refl. Qed.

(** One iteration of the loop. *)
Lemma loop_step fuel n t p ret d :
  t < n → 0 < zlen (buf p) → decode_one (buf p) = Ok d →
  input_loop (S fuel) n t p ret =
    match d with
    | None => input_loop fuel n (t + zlen (buf p)) p ret
    | Some (b', k, pwc) =>
        '(vec, st) ← Parser.input (parser p) (sanitize pwc);
        input_loop fuel n (t + k) {| parser := st; buf := b' |} (ret ++ vec)
    end.
Proof.
  intros Ht Hb Hd. cbn [input_loop]. unfold buf_len.
  rewrite (proj2 (Z.eqb_neq t n)), (proj2 (Z.ltb_lt t n)),
    (proj2 (Z.ltb_lt 0 (zlen (buf p)))) by lia.
  cbn [assert_that mbind result_bind]. by rewrite Hd.
Qed.

(** An iteration that yields a character and finishes the loop. *)
Lemma loop_last fuel n t st b pwc k b' ret acts st' :
  t < n → 0 < zlen b → decode_one b = Ok (Some (b', k, pwc)) → t + k = n →
  Parser.run st [sanitize pwc] = Ok (acts, st') →
  input_loop (S (S fuel)) n t {| parser := st; buf := b |} ret
  = Ok (ret ++ acts, {| parser := st'; buf := b' |}).
Proof.
  intros Ht Hb Hd <- Hrun. erewrite loop_step by done. cbn [parser].
  simpl in Hrun. destruct (Parser.input st (sanitize pwc)) as [[vec st1]|]; [|done].
  cbn in Hrun |- *. rewrite Z.eqb_refl. simplify_eq. by rewrite app_nil_r.
Qed.

Lemma loop_incomplete fuel n t p ret :
  t < n → 0 < zlen (buf p) → mbrtowc (buf p) = MbIncomplete → t + zlen (buf p) = n →
  input_loop (S (S fuel)) n t p ret = Ok (ret, p).
Proof.
  intros Ht Hb Hd <-. erewrite loop_step; [|done..|by unfold decode_one; rewrite Hd].
  apply loop_done.
Qed.

(** The last octet examined on its own, or a whole buffered character. *)
Lemma decode_char b n c :
  buf_ok (take (length b - 1) b) → (0 < length b)%nat →
  mbrtowc b = MbChar n c → n = length b ∧ drop n b = [].
Proof.
  intros Hok Hlen Hc. destruct (mb_char_bounds b n c Hc) as [Hn _].
  assert (n = length b) as ->; [|split; [done|by rewrite drop_all]].
  destruct (decide (n = length b)) as [|Hne]; [done|exfalso].
  pose proof (mb_char_prefix b n c (length b - 1) Hc ltac:(lia)) as Hpre.
  destruct Hok as [Hnil|Hinc]; [|congruence].
  apply (f_equal length) in Hnil. rewrite length_take in Hnil. simpl in Hnil. lia.
Qed.

Lemma decode_nul b :
  buf_ok (take (length b - 1) b) → mbrtowc b = MbNul → b = [0].
Proof.
  intros Hok Hnul. apply mb_nul in Hnul as [[|x rest] ->]; [done|exfalso].
  destruct Hok as [Hnil|Hinc].
  - simpl in Hnil. done.
  - assert (mbrtowc (0 :: take (length rest) (x :: rest)) = MbNul) as Hn by (apply mb_nul; eauto).
    simpl in Hinc. congruence.
Qed.

(** A buffer all but the last octet of which was incomplete, when the
    decoder accepts it, rejects its single octet, or wants more. *)
Lemma loop_accept fuel n st b ret :
  (0 < length b)%nat → buf_ok (take (length b - 1) b) →
  (mbrtowc b = MbInvalid → length b = 1%nat) →
  ∃ cps b', decodes_last cps b' ∧
    ∀ acts st', Parser.run st cps = Ok (acts, st') →
      input_loop (S (S fuel)) n (n - zlen b) {| parser := st; buf := b |} ret
      = Ok (ret ++ acts, {| parser := st'; buf := b' |}).
Proof.
  intros Hlen Hok Hinv. assert (0 < zlen b) by (unfold zlen; lia).
  destruct (mbrtowc b) as [| | |k c] eqn:Hb.
  - pose proof (decode_nul b Hok Hb) as ->. exists [0], []. split.
    { split; [by left|]. right. by exists 0. }
    intros acts st' Hrun. eapply loop_last with (pwc := 0) (k := 1); try done; try lia.
    + unfold decode_one. by rewrite Hb.
    + by change (zlen [0]) with 1; lia.
  - specialize (Hinv eq_refl). exists [0xFFFD], []. split.
    { split; [by left|]. right. by exists 0xFFFD. }
    intros acts st' Hrun. eapply loop_last with (pwc := 0xFFFD) (k := 1); try done; try lia.
    + unfold decode_one. rewrite Hb. unfold zlen. rewrite Hinv. done.
    + unfold zlen. lia.
  - exists [], b. split; [split; [by right|by left]|].
    intros acts st' [= <- <-]. rewrite app_nil_r.
    apply loop_incomplete; unfold buf_len; simpl; try done; lia.
  - destruct (decode_char b k c Hok Hlen Hb) as [Hk Hdrop].
    exists [sanitize c], []. split.
    { split; [by left|]. right. eexists; split; [|done].
      by apply sanitize_scalar, (mb_char_bounds b k c). }
    intros acts st' Hrun. eapply loop_last with (pwc := c) (k := zlen b); try done; try lia.
    unfold decode_one. rewrite Hb, Hdrop. unfold zlen. subst k.
    by rewrite Z.leb_refl.
Qed.

(** One octet is decoded without a fault: the parser sees at most two
    scalar values, the first of two being U+FFFD. *)
Lemma input_refines p c :
  wf p → ∃ cps b', decodes cps b' ∧
    ∀ acts st', Parser.run (parser p) cps = Ok (acts, st') →
      input p c = Ok (acts, {| parser := st'; buf := b' |}).
Proof.
  destruct p as [st b]. unfold wf, input. cbn [buf parser]. intros Hwf.
  assert ((buf_len {| parser := st; buf := b |} <? BUF_SIZE) = true) as ->.
  { apply Z.ltb_lt. unfold buf_len. cbn [buf].
    destruct Hwf as [->|Hinc]; [done|by apply mb_incomplete_short]. }
  cbn [assert_that mbind result_bind]. unfold vec_push, buf_len. cbn [buf].
  set (b1 := b ++ [c]). assert (length b1 = S (length b)) as Hlen.
  { unfold b1. rewrite length_app. simpl. lia. }
  assert (take (length b1 - 1) b1 = b) as Htake.
  { rewrite Hlen. unfold b1. replace (S (length b) - 1)%nat with (length b) by lia.
    by rewrite take_app_length. }
  destruct (decide (mbrtowc b1 = MbInvalid ∧ length b1 ≠ 1%nat)) as [[Hinv Hne]|Hacc].
  - (* reject, then look at the last octet alone *)
    destruct b as [|x b]; [done|]. rewrite Hlen.
    destruct (safe_inv (Parser.input st 0xFFFD) (ParserProps.step_ok st)) as [Hs _].
    destruct (Hs (ParserProps.input_spec _ _)) as ([vec st1] & Hin & _). clear Hs.
    destruct (loop_accept (length b) (zlen b1) st1 [c] vec) as (cps1 & b1' & Hdec1 & Hrun1).
    { simpl; lia. } { by left. } { done. }
    exists (0xFFFD :: cps1), b1'. split.
    { exists [0xFFFD], cps1. auto. }
    intros acts st' Hacts. simpl in Hacts. rewrite Hin in Hacts. cbn [mbind result_bind] in Hacts.
    destruct (Parser.run st1 cps1) as [[rest st2]|] eqn:Hr; simpl in Hacts; [|done].
    simplify_eq. change (length (x :: b)) with (S (length b)).
    assert (1 < zlen b1) by (unfold zlen; lia).
    rewrite (loop_step _ _ _ _ _ (Some ([c], zlen b1 - 1, 0xFFFD))); cbn [buf parser]; [|lia..|].
    { change (sanitize 0xFFFD) with 0xFFFD. rewrite Hin. cbn [mbind result_bind].
      replace (0 + (zlen b1 - 1)) with (zlen b1 - zlen [c]) by (change (zlen [c]) with 1; lia).
      exact (Hrun1 _ _ eq_refl). }
    unfold decode_one. rewrite Hinv, (proj2 (Z.ltb_lt 1 _)) by lia.
    assert (vec_get b1 (zlen b1 - 1) = Ok c) as ->; [|done].
    apply vec_get_Ok. split; [lia|]. unfold zlen. rewrite Hlen. unfold b1.
    rewrite lookup_app_r by (simpl; lia).
    by replace (Z.to_nat _ - _)%nat with 0%nat by (simpl; lia).
  - destruct (loop_accept (length b) (zlen b1) st b1 []) as (cps & b' & Hdec & Hrun).
    { lia. } { by rewrite Htake. } { intros Hi. destruct (decide (length b1 = 1%nat)); tauto. }
    exists cps, b'. split; [by exists [], cps; auto|].
    intros acts st' Hr. rewrite Hlen. rewrite Z.sub_diag in Hrun. by apply Hrun.
Qed.

Lemma high_char_one_action st c acts st' :
  0xA0 ≤ c → Parser.input st c = Ok (acts, st') → (length acts ≤ 1)%nat.
Proof.
  intros Hc. unfold Parser.input, Parser.State_input, Parser.anywhere_rule, Parser.between.
  z_bools. cbn. destruct st; cbn; intros; simplify_eq; simpl; lia.
Qed.

(** Feeding one octet keeps the buffer well formed and emits at most three
    actions. *)
Lemma input_ok p c :
  wf p → safe (input p c) (fun '(acts, p') =>
    wf p' ∧ forallb ParserProps.action_ok acts = true ∧ (length acts ≤ 3)%nat).
Proof.
  intros Hwf. destruct (input_refines p c Hwf) as (cps & b' & Hdec & Hin).
  destruct (proj1 (safe_inv _ _) (ParserProps.run_spec (parser p) cps))
    as ([acts st'] & Hrun & Hacts & _).
  rewrite (Hin _ _ Hrun). simpl.
  destruct Hdec as (pre & last & -> & Hpre & Hb & Hlast). split_and!; [done..|].
  assert (∀ st l acts st', l = [] ∨ (∃ c, scalar c = true ∧ l = [c]) →
    Parser.run st l = Ok (acts, st') → (length acts ≤ 2)%nat) as Hone.
  { intros st l a s' [->|(x & _ & ->)]; simpl; [intros; simplify_eq; simpl; lia|].
    pose proof (ParserProps.input_spec st x) as Hsp.
    destruct (Parser.input st x) as [[v s1]|]; [|done]. destruct Hsp as [? _].
    cbn. intros; simplify_eq. rewrite app_nil_r. lia. }
  destruct Hpre as [->| ->].
  - rewrite app_nil_l in Hrun. specialize (Hone _ _ _ _ Hlast Hrun). lia.
  - simpl in Hrun. destruct (Parser.input _ _) as [[v s1]|] eqn:Hi; simpl in Hrun; [|done].
    destruct (Parser.run s1 last) as [[r s2]|] eqn:Hr; simpl in Hrun; [|done].
    simplify_eq. apply high_char_one_action in Hi; [|lia].
    specialize (Hone _ _ _ _ Hlast Hr). rewrite length_app. lia.
Qed.

(** The whole stream: no assertion of [UTF8Parser::input] fails and its
    loop terminates on every octet, whatever the octets are; what reaches
    the escape-sequence parser is a sequence of Unicode scalar values. *)
Lemma run_refines p bs :
  wf p → ∃ cps acts p',
    run p bs = Ok (acts, p') ∧ wf p'
    ∧ forallb scalar cps = true
    ∧ Parser.run (parser p) cps = Ok (acts, parser p').
Proof.
  revert p. induction bs as [|c bs IH]; intros p Hwf.
  { by exists [], [], p. }
  destruct (input_refines p c Hwf) as (cps & b' & Hdec & Hin).
  destruct (proj1 (safe_inv _ _) (ParserProps.run_spec (parser p) cps))
    as ([acts st'] & Hrun & _).
  destruct Hdec as (pre & last & -> & Hpre & Hb & Hlast).
  destruct (IH {| parser := st'; buf := b' |} Hb) as (cps2 & acts2 & p2 & H1 & H2 & H3 & H4).
  exists ((pre ++ last) ++ cps2), (acts ++ acts2), p2. split_and!; [|done| |].
  - simpl. rewrite (Hin _ _ Hrun). simpl. by rewrite H1.
  - rewrite !forallb_app, H3, andb_true_r.
    destruct Hpre as [->| ->], Hlast as [->|(x & Hx & ->)]; simpl; by rewrite ?Hx.
  - clear -Hrun H4. revert acts Hrun. generalize (parser p).
    induction (pre ++ last) as [|x l IHl]; intros st acts Hrun; simpl in *.
    { simplify_eq. done. }
    destruct (Parser.input st x) as [[v s1]|]; simpl in *; [|done].
    destruct (Parser.run s1 l) as [[r s2]|] eqn:Hr; simpl in *; [|done].
    simplify_eq. rewrite (IHl s1 _ Hr). simpl. by rewrite app_assoc.
Qed.

End props.
End Utf8Props.

(** ** A decoder for RFC 3629 *)

Module RFC3629.

Definition cont (b : Z) : bool := Parser.between 0x80 b 0xBF.

(** The second octet is restricted after E0, ED, F0 and F4 (no overlong
    forms, no surrogates, nothing above U+10FFFF). *)
Definition second (b0 b1 : Z) : bool :=
  if b0 =? 0xE0 then Parser.between 0xA0 b1 0xBF
  else if b0 =? 0xED then Parser.between 0x80 b1 0x9F
  else if b0 =? 0xF0 then Parser.between 0x90 b1 0xBF
  else if b0 =? 0xF4 then Parser.between 0x80 b1 0x8F
  else cont b1.

Definition decode (b : list Z) : mbresult :=
  match b with
  | [] => MbIncomplete
  | b0 :: r =>
      if b0 =? 0 then MbNul
      else if Parser.between 1 b0 0x7F then MbChar 1 b0
      else if Parser.between 0xC2 b0 0xDF then
        match r with
        | [] => MbIncomplete
        | b1 :: _ => if cont b1 then MbChar 2 ((b0 - 0xC0) * 64 + (b1 - 0x80)) else MbInvalid
        end
      else if Parser.between 0xE0 b0 0xEF then
        match r with
        | [] => MbIncomplete
        | b1 :: r1 =>
            if second b0 b1 then
              match r1 with
              | [] => MbIncomplete
              | b2 :: _ =>
                  if cont b2
                  then MbChar 3 ((b0 - 0xE0) * 4096 + (b1 - 0x80) * 64 + (b2 - 0x80))
                  else MbInvalid
              end
            else MbInvalid
        end
      else if Parser.between 0xF0 b0 0xF4 then
        match r with
        | [] => MbIncomplete
        | b1 :: r1 =>
            if second b0 b1 then
              match r1 with
              | [] => MbIncomplete
              | b2 :: r2 =>
                  if cont b2 then
                    match r2 with
                    | [] => MbIncomplete
                    | b3 :: _ =>
                        if cont b3
                        then MbChar 4 ((b0 - 0xF0) * 262144 + (b1 - 0x80) * 4096
                                       + (b2 - 0x80) * 64 + (b3 - 0x80))
                        else MbInvalid
                    end
                  else MbInvalid
              end
            else MbInvalid
        end
      else MbInvalid
  end.

#[export] Instance rfc3629 : Mbrtowc := decode.

(** The shortest encoding of a scalar value. *)
Definition encode (c : Z) : list Z :=
  if c <? 0x80 then [c]
  else if c <? 0x800 then [0xC0 + c / 64; 0x80 + c mod 64]
  else if c <? 0x10000 then
    [0xE0 + c / 4096; 0x80 + c / 64 mod 64; 0x80 + c mod 64]
  else
    [0xF0 + c / 262144; 0x80 + c / 4096 mod 64; 0x80 + c / 64 mod 64; 0x80 + c mod 64].

End RFC3629.

Module Utf8Theorems.
Import UTF8Parser Utf8Props RFC3629.

Lemma decode_incomplete_short b : decode b = MbIncomplete → (length b < 4)%nat.
Proof.
  destruct b as [|b0 [|b1 [|b2 [|b3 r]]]]; simpl; try lia.
  intros Hd. exfalso. split_ifs_in Hd; done.
Qed.

Lemma decode_char_prefix b n c :
  decode b = MbChar n c →
  (1 ≤ n ≤ length b)%nat ∧ 0 ≤ c < 2 ^ 31
  ∧ ∀ m, (n ≤ m ≤ length b)%nat → decode (take m b) = MbChar n c.
Proof.
  unfold decode, second, cont, Parser.between.
  destruct b as [|b0 [|b1 [|b2 [|b3 r]]]]; intros Hd; split_ifs_in Hd; simplify_eq;
    (split_and!; [simpl; lia|simpl; lia|lia|lia|]);
    intros [|[|[|[|m]]]] Hm; simpl in Hm; try lia; simpl; split_ifs; try lia; done.
Qed.

#[export] Instance rfc3629_laws : MbrtowcLaws.
Proof.
  constructor; unfold mbrtowc, rfc3629.
  - intros b. split; [|by intros [rest ->]].
    destruct b as [|b0 r]; [done|]. simpl. intros Hd.
    destruct (b0 =? 0) eqn:E; [apply Z.eqb_eq in E as ->; eauto|].
    exfalso. unfold second, cont, Parser.between in Hd.
    repeat (case_match; try done).
  - intros b n c Hd. destruct (decode_char_prefix b n c Hd) as (? & ? & _). split; [done|lia].
  - intros b n c m Hd. by apply decode_char_prefix.
  - intros b Hd. apply decode_incomplete_short in Hd. unfold zlen, BUF_SIZE. lia.
Qed.

(** C10.  Any octet stream, well formed or not, is decoded without failing
    an assertion or running past the buffer, the decoding loop terminates
    on each octet, and the escape-sequence parser is fed a sequence of
    Unicode scalar values only. *)
Theorem utf8_total `{MbrtowcLaws} (bs : list Z) :
  ∃ cps acts p',
    run init bs = Ok (acts, p') ∧ wf p'
    ∧ forallb scalar cps = true
    ∧ Parser.run Parser.Ground cps = Ok (acts, parser p').
Proof. apply (run_refines init). by left. Qed.

Lemma utf8_total_witness :
  MbrtowcLaws ∧
  ∃ cps acts p',
    run init [0xE2; 0x82; 0x41] = Ok (acts, p') ∧ wf p'
    ∧ forallb scalar cps = true
    ∧ Parser.run Parser.Ground cps = Ok (acts, parser p').
Proof. split; [exact rfc3629_laws|apply (utf8_total [0xE2; 0x82; 0x41])]. Defined.

(** One octet yields at most three actions, as the comment in
    [Complete::act] says. *)
Theorem octet_three_actions `{MbrtowcLaws} (p : UTF8Parser) (c : Z) :
  wf p → ∃ acts p', input p c = Ok (acts, p') ∧ wf p' ∧ (length acts ≤ 3)%nat.
Proof.
  intros Hwf. destruct (proj1 (safe_inv _ _) (input_ok p c Hwf)) as ([a p'] & H1 & H2 & _ & H3).
  by exists a, p'.
Qed.

(** An OSC string cut short by ESC in the middle of a character: the
    replacement character, the end of the string and the new sequence. *)
Lemma octet_three_actions_witness :
  wf {| parser := Parser.OSC_String; buf := [0xE2] |}
  ∧ ∃ acts p', input {| parser := Parser.OSC_String; buf := [0xE2] |} 0x1B = Ok (acts, p')
    ∧ wf p' ∧ (length acts ≤ 3)%nat.
Proof.
  split; [by right|].
  apply (octet_three_actions {| parser := Parser.OSC_String; buf := [0xE2] |} 0x1B).
  by right.
Defined.

(** Feeding the octets of one character. *)
Lemma input_more st b x :
  zlen b < BUF_SIZE → decode (b ++ [x]) = MbIncomplete →
  input {| parser := st; buf := b |} x = Ok ([], {| parser := st; buf := b ++ [x] |}).
Proof.
  intros Hb Hd. unfold input, buf_len, vec_push. cbn [buf parser].
  rewrite (proj2 (Z.ltb_lt _ _)) by done. cbn [assert_that mbind result_bind].
  rewrite length_app, Nat.add_comm. simpl (S _).
  apply loop_incomplete; cbn [buf]; rewrite ?zlen_app; unfold zlen; simpl; try done; lia.
Qed.

Lemma input_last st b x c acts st' :
  zlen b < BUF_SIZE → scalar c = true →
  decode (b ++ [x]) = MbChar (S (length b)) c ∨ (b = [] ∧ x = 0 ∧ c = 0) →
  Parser.input st c = Ok (acts, st') →
  input {| parser := st; buf := b |} x = Ok (acts, {| parser := st'; buf := [] |}).
Proof.
  intros Hb Hc Hd Hin. unfold input, buf_len, vec_push. cbn [buf parser].
  rewrite (proj2 (Z.ltb_lt _ _)) by done. cbn [assert_that mbind result_bind].
  assert (length (b ++ [x]) = S (length b)) as Hlen by (rewrite length_app; simpl; lia).
  rewrite Hlen. rewrite <- (app_nil_l acts).
  apply (loop_last _ _ _ _ _ c (zlen (b ++ [x]))); [unfold zlen; lia..| |lia|].
  - unfold decode_one, mbrtowc, rfc3629. destruct Hd as [->|(-> & -> & ->)]; [|done].
    unfold zlen. rewrite Hlen, Z.leb_refl. cbn. by rewrite <- Hlen, drop_all.
  - rewrite sanitize_id by done. simpl. rewrite Hin. simpl. by rewrite app_nil_r.
Qed.

(** Each proper prefix of an encoding is incomplete and the whole decodes
    to the character it encodes. *)
Lemma decode_encode c n :
  scalar c = true → c ≠ 0 → (1 ≤ n ≤ length (encode c))%nat →
  decode (take n (encode c)) =
    if (n =? length (encode c))%nat then MbChar n c else MbIncomplete.
Proof.
  unfold scalar, encode. intros Hc Hc0.
  destruct (Z.ltb_spec c 0x80); [|destruct (Z.ltb_spec c 0x800);
    [|destruct (Z.ltb_spec c 0x10000)]]; intros Hn.
  all: destruct n as [|[|[|[|[|n]]]]]; simpl in Hn; try lia.
  all: cbn [take decode length Nat.eqb]; unfold second, cont, Parser.between.
  all: Z.div_mod_to_equations; z_bools; split_ifs; try lia; cbn [andb]; f_equal; lia.
Qed.

Lemma run_encode_aux st c acts st' k b :
  scalar c = true → c ≠ 0 → Parser.input st c = Ok (acts, st') →
  encode c = b ++ k → k ≠ [] →
  run {| parser := st; buf := b |} k = Ok (acts, {| parser := st'; buf := [] |}).
Proof.
  intros Hc Hc0 Hin. assert (length (encode c) ≤ 4)%nat as Hlen.
  { unfold encode. split_ifs; simpl; lia. }
  revert b. induction k as [|x k IH]; intros b Henc Hk; [done|]. cbn [run].
  assert (length (encode c) = length b + S (length k))%nat as Hl.
  { rewrite Henc, length_app. done. }
  assert (decode (b ++ [x]) =
    if (S (length b) =? length (encode c))%nat then MbChar (S (length b)) c
    else MbIncomplete) as Hd.
  { rewrite <- decode_encode by (done || lia). f_equal. rewrite Henc.
    change (x :: k) with ([x] ++ k). rewrite app_assoc, take_app_le by (rewrite length_app; simpl; lia).
    rewrite take_ge; [done|rewrite length_app; simpl; lia]. }
  destruct k as [|y k].
  - rewrite (input_last st b x c acts st'); [|unfold zlen, BUF_SIZE; lia|done| |done].
    { simpl. by rewrite app_nil_r. }
    left. rewrite Hd, (proj2 (Nat.eqb_eq _ _)); [done|simpl in Hl; lia].
  - rewrite input_more; [|unfold zlen, BUF_SIZE; lia|].
    { cbn [mbind result_bind]. rewrite IH; [done| |done]. by rewrite Henc, <- app_assoc. }
    rewrite Hd, (proj2 (Nat.eqb_neq _ _)); [done|simpl in Hl; lia].
Qed.

Lemma run_encode st c acts st' :
  scalar c = true → Parser.input st c = Ok (acts, st') →
  run {| parser := st; buf := [] |} (encode c) = Ok (acts, {| parser := st'; buf := [] |}).
Proof.
  intros Hc Hin. destruct (decide (c = 0)) as [->|Hc0].
  - change (encode 0) with [0]. cbn [run].
    rewrite (input_last st [] 0 0 acts st'); [by simpl; rewrite app_nil_r|done|done|by right|done].
  - apply (run_encode_aux _ c); [done..|]. unfold encode. by split_ifs.
Qed.

Lemma run_app p xs ys :
  run p (xs ++ ys) =
    ('(a1, p1) ← run p xs; '(a2, p2) ← run p1 ys; Ok (a1 ++ a2, p2)).
Proof.
  revert p. induction xs as [|x xs IH]; intros p; simpl.
  { by destruct (run p ys) as [[??]|]. }
  destruct (input p x) as [[v p1]|]; simpl; [|done]. rewrite IH.
  destruct (run p1 xs) as [[a p2]|]; simpl; [|done].
  destruct (run p2 ys) as [[b p3]|]; simpl; [|done]. by rewrite app_assoc.
Qed.

Lemma run_text st cps :
  forallb scalar cps = true →
  run {| parser := st; buf := [] |} (cps ≫= encode) =
    ('(acts, st') ← Parser.run st cps; Ok (acts, {| parser := st'; buf := [] |})).
Proof.
  revert st. induction cps as [|c cps IH]; intros st Hok; simpl; [done|].
  simpl in Hok. apply andb_true_iff in Hok as [Hc Hok]. rewrite run_app.
  destruct (proj1 (safe_inv _ _) (ParserProps.input_spec st c)) as ([a s1] & Hin & _).
  rewrite (run_encode st c a s1 Hc Hin), Hin. simpl. rewrite IH by done.
  by destruct (Parser.run s1 cps) as [[??]|].
Qed.

(** ASCII octets are their own characters. *)
Lemma run_ascii st bs :
  Forall (fun b => 0 ≤ b < 128) bs →
  run {| parser := st; buf := [] |} bs =
    ('(acts, st') ← Parser.run st bs; Ok (acts, {| parser := st'; buf := [] |})).
Proof.
  intros Hbs. rewrite <- run_text.
  - f_equal. induction Hbs as [|b bs Hb _ IH]; [done|].
    change ((b :: bs) ≫= encode) with (encode b ++ (bs ≫= encode)). rewrite <- IH.
    unfold encode. by z_bools.
  - apply List.forallb_forall. intros b Hb%list_elem_of_In. rewrite Forall_forall in Hbs.
    apply Hbs in Hb. unfold scalar. lia.
Qed.

(** C11.  Round trip: sending the UTF-8 encoding of a text through the front
    end drives the escape-sequence parser exactly as the text itself, and
    leaves no octet buffered. *)
Theorem utf8_roundtrip (st : Parser.State) (cps : list Z) :
  forallb scalar cps = true →
  run {| parser := st; buf := [] |} (cps ≫= encode) =
    ('(acts, st') ← Parser.run st cps; Ok (acts, {| parser := st'; buf := [] |})).
Proof. apply run_text. Qed.

Lemma utf8_roundtrip_witness :
  forallb scalar [0x48; 0xE9; 0x20AC; 0x1F600] = true
  ∧ run init ([0x48; 0xE9; 0x20AC; 0x1F600] ≫= encode) =
    ('(acts, st') ← Parser.run Parser.Ground [0x48; 0xE9; 0x20AC; 0x1F600];
     Ok (acts, {| parser := st'; buf := [] |})).
Proof.
  split; [reflexivity|].
  apply (utf8_roundtrip Parser.Ground [0x48; 0xE9; 0x20AC; 0x1F600]). reflexivity.
Defined.

End Utf8Theorems.
