(* ===== verification/TerminalFramebuffer.v ===== *)
(** * The terminal framebuffer

    [src/alfalfa/src/terminal/terminalframebuffer.h] and
    [terminalframebuffer.cc]: one module per class, one definition per
    method.  Pointers into the grid are (row, column) coordinates and an
    access through them is bounds-checked, so that a method that would
    leave the grid is a fault.  Method bodies that only read and write
    plain members are total functions. *)

From S2P Require Import Prelude.

(** ** Class [Renditions] *)

Module Renditions.

Record t : Set := mk {
  bold : bool;
  underlined : bool;
  blink : bool;
  inverse : bool;
  invisible : bool;
  foreground_color : Z;
  background_color : Z }.

#[export] Instance t_eq_dec : EqDecision t.
Proof. solve_decision. Defined.

#[export] Instance t_eta : Eta t := fun r =>
  mk (bold r) (underlined r) (blink r) (inverse r) (invisible r)
    (foreground_color r) (background_color r).

Definition set_bold (v : bool) (r : t) : t := ltac:(with_field r bold v).
Definition set_underlined (v : bool) (r : t) : t := ltac:(with_field r underlined v).
Definition set_blink (v : bool) (r : t) : t := ltac:(with_field r blink v).
Definition set_inverse (v : bool) (r : t) : t := ltac:(with_field r inverse v).
Definition set_invisible (v : bool) (r : t) : t := ltac:(with_field r invisible v).
Definition with_foreground (v : Z) (r : t) : t := ltac:(with_field r foreground_color v).
Definition with_background (v : Z) (r : t) : t := ltac:(with_field r background_color v).

(** The constructor *)
Definition make (s_background : Z) : t :=
  mk false false false false false 0 s_background.

Definition eqb (x y : t) : bool :=
  Bool.eqb (bold x) (bold y) && Bool.eqb (underlined x) (underlined y)
  && Bool.eqb (blink x) (blink y) && Bool.eqb (inverse x) (inverse y)
  && Bool.eqb (invisible x) (invisible y)
  && (foreground_color x =? foreground_color y)
  && (background_color x =? background_color y).

Definition set_rendition (num : Z) (r : t) : t :=
  if num =? 0 then mk false false false false false 0 0
  else if num =? 39 then with_foreground 0 r
  else if num =? 49 then with_background 0 r
  else if (30 <=? num) && (num <=? 37) then with_foreground num r
  else if (40 <=? num) && (num <=? 47) then with_background num r
  else if (90 <=? num) && (num <=? 97) then with_foreground (num - 90 + 38) r
  else if (100 <=? num) && (num <=? 107) then with_background (num - 100 + 48) r
  else if (num =? 1) || (num =? 22) then set_bold (num =? 1) r
  else if (num =? 4) || (num =? 24) then set_underlined (num =? 4) r
  else if (num =? 5) || (num =? 25) then set_blink (num =? 5) r
  else if (num =? 7) || (num =? 27) then set_inverse (num =? 7) r
  else if (num =? 8) || (num =? 28) then set_invisible (num =? 8) r
  else r.

Definition set_foreground_color (num : Z) (r : t) : t :=
  if (0 <=? num) && (num <=? 255) then with_foreground (30 + num) r else r.

Definition set_background_color (num : Z) (r : t) : t :=
  if (0 <=? num) && (num <=? 255) then with_background (40 + num) r else r.

(** The SGR escape string that selects the rendition; 27 is ESC, 91 is
    the left bracket, 59 a semicolon, 109 [m]. *)
Definition sgr (r : t) : list Z :=
  [27; 91; 48]
  ++ (if bold r then bytes_of_string ";1" else [])
  ++ (if underlined r then bytes_of_string ";4" else [])
  ++ (if blink r then bytes_of_string ";5" else [])
  ++ (if inverse r then bytes_of_string ";7" else [])
  ++ (if invisible r then bytes_of_string ";8" else [])
  ++ (if negb (foreground_color r =? 0) && (foreground_color r <=? 37)
      then snprintf 8 (59 :: decimal (foreground_color r)) else [])
  ++ (if negb (background_color r =? 0) && (background_color r <=? 47)
      then snprintf 8 (59 :: decimal (background_color r)) else [])
  ++ [109]
  ++ (if 37 <? foreground_color r
      then snprintf 64 ([27] ++ bytes_of_string "[38;5;"
             ++ decimal (foreground_color r - 30) ++ [109]) else [])
  ++ (if 47 <? background_color r
      then snprintf 64 ([27] ++ bytes_of_string "[48;5;"
             ++ decimal (background_color r - 40) ++ [109]) else []).

Definition standard_posterization : list Z := [
  0; 1; 2; 3; 4; 5; 6; 7; 7; 1; 2; 3; 4; 5; 6; 7;
  0; 4; 4; 4; 4; 4; 0; 0; 4; 4; 4; 4; 2; 6; 6; 6;
  6; 4; 2; 2; 6; 6; 6; 6; 2; 2; 2; 6; 6; 6; 2; 2;
  2; 2; 6; 6; 1; 4; 4; 4; 4; 4; 0; 0; 4; 4; 4; 4;
  2; 2; 6; 6; 4; 5; 2; 2; 6; 6; 6; 6; 2; 2; 2; 6;
  6; 6; 2; 2; 2; 2; 6; 6; 1; 5; 5; 4; 4; 4; 1; 1;
  5; 5; 5; 5; 3; 3; 7; 5; 5; 5; 2; 2; 2; 6; 7; 7;
  2; 2; 2; 6; 6; 6; 2; 2; 2; 2; 6; 6; 1; 5; 5; 5;
  5; 5; 1; 1; 5; 5; 5; 5; 3; 1; 7; 5; 5; 5; 3; 3;
  3; 7; 7; 7; 3; 3; 2; 7; 6; 7; 3; 2; 2; 2; 6; 6;
  1; 5; 5; 5; 5; 5; 1; 1; 5; 5; 5; 5; 3; 1; 1; 5;
  5; 5; 3; 3; 7; 7; 7; 7; 3; 3; 3; 7; 7; 7; 3; 3;
  3; 3; 7; 7; 1; 1; 5; 5; 5; 5; 1; 1; 5; 5; 5; 5;
  1; 1; 1; 5; 5; 5; 3; 7; 7; 7; 7; 7; 3; 3; 3; 7;
  7; 7; 3; 3; 3; 3; 7; 7; 0; 0; 0; 0; 0; 0; 0; 0;
  0; 0; 1; 1; 7; 7; 7; 7; 7; 7; 7; 7; 7; 7; 7; 7 ].

Definition posterize (r : t) : result t :=
  r1 ← (if foreground_color r =? 0 then Ok r
        else p ← vec_get standard_posterization (foreground_color r - 30);
             Ok (with_foreground (30 + p) r));
  if background_color r1 =? 0 then Ok r1
  else p ← vec_get standard_posterization (background_color r1 - 40);
       Ok (with_background (40 + p) r1).

End Renditions.

(** ** Class [Cell] *)

Module Cell.

Record t : Set := mk {
  contents : list Z;
  fallback : bool;
  width : Z;
  renditions : Renditions.t;
  wrap : bool }.

#[export] Instance t_eta : Eta t := fun c =>
  mk (contents c) (fallback c) (width c) (renditions c) (wrap c).

Definition set_contents (v : list Z) (c : t) : t := ltac:(with_field c contents v).
Definition set_fallback (v : bool) (c : t) : t := ltac:(with_field c fallback v).
Definition set_width (v : Z) (c : t) : t := ltac:(with_field c width v).
Definition set_renditions (v : Renditions.t) (c : t) : t := ltac:(with_field c renditions v).
Definition set_wrap (v : bool) (c : t) : t := ltac:(with_field c wrap v).

(** The constructor *)
Definition make (background_color : Z) : t :=
  mk [] false 1 (Renditions.make background_color) false.

Definition reset (background_color : Z) (c : t) : t :=
  set_wrap false (set_renditions (Renditions.make background_color)
    (set_width 1 (set_fallback false (set_contents [] c)))).

Definition eqb (x y : t) : bool :=
  list_eqb Z.eqb (contents x) (contents y)
  && Bool.eqb (fallback x) (fallback y)
  && (width x =? width y)
  && Renditions.eqb (renditions x) (renditions y)
  && Bool.eqb (wrap x) (wrap y).

Definition is_blank (c : t) : bool :=
  match contents c with
  | [] => true
  | [x] => (x =? 0x20) || (x =? 0xA0)
  | _ => false
  end.

Definition contents_match (c other : t) : bool :=
  (is_blank c && is_blank other) || list_eqb Z.eqb (contents c) (contents other).

Definition debug_contents (c : t) : Z :=
  match contents c with [] => 95 | x :: _ => x end.

(** [Cell::compare]: whether the cells differ; the source also prints what
    differs. *)
Definition compare (c other : t) : bool :=
  negb (contents_match c other)
  || negb (Bool.eqb (fallback c) (fallback other))
  || negb (width c =? width other)
  || negb (Renditions.eqb (renditions c) (renditions other))
  || negb (Bool.eqb (wrap c) (wrap other)).

End Cell.

(** ** Class [Row]: its only member is the vector of cells *)

Module Row.

Abbreviation t := (list Cell.t).

Definition make (s_width background_color : Z) : t :=
  replicate (Z.to_nat s_width) (Cell.make background_color).

Definition insert_cell (col background_color : Z) (cells : t) : result t :=
  cells ← vec_insert cells col (Cell.make background_color);
  vec_pop_back cells.

Definition delete_cell (col background_color : Z) (cells : t) : result t :=
  vec_erase (vec_push cells (Cell.make background_color)) col.

Definition reset (background_color : Z) (cells : t) : t :=
  Cell.reset background_color <$> cells.

Definition eqb (x y : t) : bool := list_eqb Cell.eqb x y.

(** [cells.back()] of an empty vector is undefined *)
Definition get_wrap (cells : t) : result bool :=
  c ← vec_get cells (zlen cells - 1); Ok (Cell.wrap c).

Definition set_wrap (w : bool) (cells : t) : result t :=
  vec_alter (fun c => Ok (Cell.set_wrap w c)) cells (zlen cells - 1).

End Row.

(** ** Class [SavedCursor] *)

Module SavedCursor.

Record t : Set := mk {
  cursor_col : Z;
  cursor_row : Z;
  renditions : Renditions.t;
  auto_wrap_mode : bool;
  origin_mode : bool }.

Definition make : t := mk 0 0 (Renditions.make 0) true false.

End SavedCursor.

(** ** Class [DrawState] *)

Module DrawState.

Record t : Set := mk {
  width : Z;
  height : Z;
  cursor_col : Z;
  cursor_row : Z;
  combining_char_col : Z;
  combining_char_row : Z;
  default_tabs : bool;
  tabs : list bool;
  scrolling_region_top_row : Z;
  scrolling_region_bottom_row : Z;
  renditions : Renditions.t;
  save : SavedCursor.t;
  next_print_will_wrap : bool;
  origin_mode : bool;
  auto_wrap_mode : bool;
  insert_mode : bool;
  cursor_visible : bool;
  reverse_video : bool;
  application_mode_cursor_keys : bool }.

#[export] Instance t_eta : Eta t := fun d =>
  mk (width d) (height d) (cursor_col d) (cursor_row d)
    (combining_char_col d) (combining_char_row d) (default_tabs d) (tabs d)
    (scrolling_region_top_row d) (scrolling_region_bottom_row d)
    (renditions d) (save d) (next_print_will_wrap d) (origin_mode d)
    (auto_wrap_mode d) (insert_mode d) (cursor_visible d) (reverse_video d)
    (application_mode_cursor_keys d).

Definition set_width (v : Z) (d : t) : t := ltac:(with_field d width v).
Definition set_height (v : Z) (d : t) : t := ltac:(with_field d height v).
Definition set_cursor_col (v : Z) (d : t) : t := ltac:(with_field d cursor_col v).
Definition set_cursor_row (v : Z) (d : t) : t := ltac:(with_field d cursor_row v).
Definition set_combining_char_col (v : Z) (d : t) : t := ltac:(with_field d combining_char_col v).
Definition set_combining_char_row (v : Z) (d : t) : t := ltac:(with_field d combining_char_row v).
Definition set_default_tabs (v : bool) (d : t) : t := ltac:(with_field d default_tabs v).
Definition set_tabs (v : list bool) (d : t) : t := ltac:(with_field d tabs v).
Definition set_top_row (v : Z) (d : t) : t := ltac:(with_field d scrolling_region_top_row v).
Definition set_bottom_row (v : Z) (d : t) : t := ltac:(with_field d scrolling_region_bottom_row v).
Definition set_renditions (v : Renditions.t) (d : t) : t := ltac:(with_field d renditions v).
Definition set_save (v : SavedCursor.t) (d : t) : t := ltac:(with_field d save v).
Definition set_next_print_will_wrap (v : bool) (d : t) : t := ltac:(with_field d next_print_will_wrap v).
Definition set_origin_mode (v : bool) (d : t) : t := ltac:(with_field d origin_mode v).
Definition set_auto_wrap_mode (v : bool) (d : t) : t := ltac:(with_field d auto_wrap_mode v).
Definition set_insert_mode (v : bool) (d : t) : t := ltac:(with_field d insert_mode v).
Definition set_cursor_visible (v : bool) (d : t) : t := ltac:(with_field d cursor_visible v).
Definition set_reverse_video (v : bool) (d : t) : t := ltac:(with_field d reverse_video v).
Definition set_application_mode_cursor_keys (v : bool) (d : t) : t :=
  ltac:(with_field d application_mode_cursor_keys v).

Definition reinitialize_tabs (start : Z) (d : t) : result t :=
  assert_that (default_tabs d) "default_tabs";;
  tb ← for_range start (zlen (tabs d)) (fun i tb => vec_set tb i (i mod 8 =? 0)) (tabs d);
  Ok (set_tabs tb d).

(** The constructor *)
Definition make (s_width s_height : Z) : result t :=
  reinitialize_tabs 0
    (mk s_width s_height 0 0 0 0 true (replicate (Z.to_nat s_width) false)
       0 (s_height - 1) (Renditions.make 0) SavedCursor.make
       false false true false true false false).

Definition new_grapheme (d : t) : t :=
  set_combining_char_row (cursor_row d) (set_combining_char_col (cursor_col d) d).

Definition limit_top (d : t) : Z :=
  if origin_mode d then scrolling_region_top_row d else 0.

Definition limit_bottom (d : t) : Z :=
  if origin_mode d then scrolling_region_bottom_row d else height d - 1.

Definition snap_cursor_to_border (d : t) : t :=
  let d := if cursor_row d <? limit_top d then set_cursor_row (limit_top d) d else d in
  let d := if limit_bottom d <? cursor_row d then set_cursor_row (limit_bottom d) d else d in
  let d := if cursor_col d <? 0 then set_cursor_col 0 d else d in
  if width d <=? cursor_col d then set_cursor_col (width d - 1) d else d.

Definition move_row (N : Z) (relative : bool) (d : t) : t :=
  let d := if relative then set_cursor_row (cursor_row d + N) d
           else set_cursor_row (N + limit_top d) d in
  set_next_print_will_wrap false (new_grapheme (snap_cursor_to_border d)).

Definition move_col (N : Z) (relative implicit : bool) (d : t) : t :=
  let d := if implicit then new_grapheme d else d in
  let d := if relative then set_cursor_col (cursor_col d + N) d else set_cursor_col N d in
  let d := if implicit then set_next_print_will_wrap (width d <=? cursor_col d) d else d in
  let d := snap_cursor_to_border d in
  if implicit then d else set_next_print_will_wrap false (new_grapheme d).

Definition set_tab (d : t) : result t :=
  tb ← vec_set (tabs d) (cursor_col d) true; Ok (set_tabs tb d).

Definition clear_tab (col : Z) (d : t) : result t :=
  tb ← vec_set (tabs d) col false; Ok (set_tabs tb d).

Definition clear_default_tabs (d : t) : t := set_default_tabs false d.

(** The search loop of [get_next_tab] from column [i], [n] columns left. *)
Fixpoint next_tab_from (n : nat) (i : Z) (tb : list bool) : result Z :=
  match n with
  | O => Ok (-1)
  | S n' =>
      b ← vec_get tb i;
      if (b : bool) then Ok i else next_tab_from n' (i + 1) tb
  end.

Definition get_next_tab (d : t) : result Z :=
  next_tab_from (Z.to_nat (width d - (cursor_col d + 1))) (cursor_col d + 1) (tabs d).

Definition set_scrolling_region (top bottom : Z) (d : t) : t :=
  if height d <? 1 then d
  else
    let d := set_bottom_row bottom (set_top_row top d) in
    let d := if scrolling_region_top_row d <? 0 then set_top_row 0 d else d in
    let d := if height d <=? scrolling_region_bottom_row d
             then set_bottom_row (height d - 1) d else d in
    let d := if scrolling_region_bottom_row d <? scrolling_region_top_row d
             then set_bottom_row (scrolling_region_top_row d) d else d in
    if origin_mode d then new_grapheme (snap_cursor_to_border d) else d.

Definition set_foreground_color (x : Z) (d : t) : t :=
  set_renditions (Renditions.set_foreground_color x (renditions d)) d.
Definition set_background_color (x : Z) (d : t) : t :=
  set_renditions (Renditions.set_background_color x (renditions d)) d.
Definition add_rendition (x : Z) (d : t) : t :=
  set_renditions (Renditions.set_rendition x (renditions d)) d.
Definition get_background_rendition (d : t) : Z :=
  Renditions.background_color (renditions d).

Definition save_cursor (d : t) : t :=
  set_save (SavedCursor.mk (cursor_col d) (cursor_row d) (renditions d)
              (auto_wrap_mode d) (origin_mode d)) d.

Definition restore_cursor (d : t) : t :=
  let s := save d in
  let d := set_cursor_col (SavedCursor.cursor_col s) d in
  let d := set_cursor_row (SavedCursor.cursor_row s) d in
  let d := set_renditions (SavedCursor.renditions s) d in
  let d := set_auto_wrap_mode (SavedCursor.auto_wrap_mode s) d in
  let d := set_origin_mode (SavedCursor.origin_mode s) d in
  new_grapheme (snap_cursor_to_border d).

Definition clear_saved_cursor (d : t) : t := set_save SavedCursor.make d.

Definition resize (s_width s_height : Z) (d : t) : result t :=
  let d :=
    if negb (width d =? s_width) || negb (height d =? s_height)
    then set_bottom_row (s_height - 1) (set_top_row 0 d) else d in
  let d := set_tabs (vec_resize s_width false (tabs d)) d in
  d ← (if default_tabs d then reinitialize_tabs (width d) d else Ok d);
  let d := set_height s_height (set_width s_width d) in
  let d := snap_cursor_to_border d in
  Ok (if (width d <=? combining_char_col d) || (height d <=? combining_char_row d)
      then set_combining_char_row (-1) (set_combining_char_col (-1) d) else d).

(** [operator==]: "only compare fields that affect display" *)
Definition eqb (x y : t) : bool :=
  (width x =? width y) && (height x =? height y)
  && (cursor_col x =? cursor_col y) && (cursor_row x =? cursor_row y)
  && Bool.eqb (cursor_visible x) (cursor_visible y)
  && Bool.eqb (reverse_video x) (reverse_video y)
  && Renditions.eqb (renditions x) (renditions y).

End DrawState.

(** ** Class [Framebuffer] *)

Module Framebuffer.

Record t : Set := mk {
  rows : list Row.t;
  icon_name : list Z;
  window_title : list Z;
  bell_count : Z;
  ds : DrawState.t }.

#[export] Instance t_eta : Eta t := fun f =>
  mk (rows f) (icon_name f) (window_title f) (bell_count f) (ds f).

Definition set_rows (v : list Row.t) (f : t) : t := ltac:(with_field f rows v).
Definition set_icon_name (v : list Z) (f : t) : t := ltac:(with_field f icon_name v).
Definition set_window_title (v : list Z) (f : t) : t := ltac:(with_field f window_title v).
Definition set_bell_count (v : Z) (f : t) : t := ltac:(with_field f bell_count v).
Definition set_ds (v : DrawState.t) (f : t) : t := ltac:(with_field f ds v).

(** A method of [DrawState] called on the member [ds]. *)
Definition on_ds (g : DrawState.t → DrawState.t) (f : t) : t := set_ds (g (ds f)) f.
Definition on_ds_result (g : DrawState.t → result DrawState.t) (f : t) : result t :=
  d ← g (ds f); Ok (set_ds d f).

Definition newrow (f : t) : Row.t :=
  Row.make (DrawState.width (ds f)) (DrawState.get_background_rendition (ds f)).

(** The constructor *)
Definition make (s_width s_height : Z) : result t :=
  d ← DrawState.make s_width s_height;
  assert_that (0 <? s_height) "s_height > 0";;
  assert_that (0 <? s_width) "s_width > 0";;
  Ok (mk (replicate (Z.to_nat s_height) (Row.make s_width 0)) [] [] 0 d).

(** [get_mutable_row( row )->g()] and [get_mutable_cell( row, col )->g()]:
    [-1] stands for the cursor's row or column. *)
Definition row_index (row : Z) (f : t) : Z :=
  if row =? -1 then DrawState.cursor_row (ds f) else row.
Definition col_index (col : Z) (f : t) : Z :=
  if col =? -1 then DrawState.cursor_col (ds f) else col.

Definition get_row (row : Z) (f : t) : result Row.t := vec_get (rows f) (row_index row f).

Definition get_cell (row col : Z) (f : t) : result Cell.t :=
  r ← vec_get (rows f) (row_index row f); vec_get r (col_index col f).

Definition update_row (row : Z) (g : Row.t → result Row.t) (f : t) : result t :=
  rs ← vec_alter g (rows f) (row_index row f); Ok (set_rows rs f).

Definition update_cell (row col : Z) (g : Cell.t → Cell.t) (f : t) : result t :=
  update_row row (fun r => vec_alter (fun c => Ok (g c)) r (col_index col f)) f.

Definition insert_line (before_row : Z) (f : t) : result t :=
  let top := DrawState.scrolling_region_top_row (ds f) in
  let bottom := DrawState.scrolling_region_bottom_row (ds f) in
  if (before_row <? top) || (bottom + 1 <? before_row) then Ok f
  else
    rs ← vec_insert (rows f) before_row (newrow f);
    rs ← vec_erase rs (bottom + 1);
    Ok (set_rows rs f).

Definition delete_line (row : Z) (f : t) : result t :=
  let top := DrawState.scrolling_region_top_row (ds f) in
  let bottom := DrawState.scrolling_region_bottom_row (ds f) in
  if (row <? top) || (bottom <? row) then Ok f
  else
    let insertbefore := bottom + 1 in
    rs ← (if insertbefore =? DrawState.height (ds f)
          then Ok (vec_push (rows f) (newrow f))
          else vec_insert (rows f) insertbefore (newrow f));
    rs ← vec_erase rs row;
    Ok (set_rows rs f).

Definition scroll (N : Z) (f : t) : result t :=
  if 0 <=? N then
    for_range 0 N (fun _ f =>
      f ← delete_line (DrawState.scrolling_region_top_row (ds f)) f;
      Ok (on_ds (DrawState.move_row (-1) true) f)) f
  else
    for_range 0 (- N) (fun _ f =>
      rs ← vec_insert (rows f) (DrawState.scrolling_region_top_row (ds f)) (newrow f);
      rs ← vec_erase rs (DrawState.scrolling_region_bottom_row (ds f) + 1);
      Ok (on_ds (DrawState.move_row 1 true) (set_rows rs f))) f.

Definition move_rows_autoscroll (n : Z) (f : t) : result t :=
  let d := ds f in
  let row := DrawState.cursor_row d in
  let top := DrawState.scrolling_region_top_row d in
  let bottom := DrawState.scrolling_region_bottom_row d in
  if (row <? top) || (bottom <? row) then Ok (on_ds (DrawState.move_row n true) f)
  else
    f ← (if bottom <? row + n then scroll (row + n - bottom) f
         else if row + n <? top then scroll (row + n - top) f
         else Ok f);
    Ok (on_ds (DrawState.move_row n true) f).

(** [get_combining_cell]: the coordinates of the cell, or null *)
Definition get_combining_cell (f : t) : option (Z * Z) :=
  let d := ds f in
  if (DrawState.combining_char_col d <? 0) || (DrawState.combining_char_row d <? 0)
     || (DrawState.width d <=? DrawState.combining_char_col d)
     || (DrawState.height d <=? DrawState.combining_char_row d)
  then None
  else Some (DrawState.combining_char_row d, DrawState.combining_char_col d).

Definition apply_renditions_to_current_cell (f : t) : result t :=
  update_cell (-1) (-1) (Cell.set_renditions (DrawState.renditions (ds f))) f.

Definition insert_cell (row col : Z) (f : t) : result t :=
  rs ← vec_alter (Row.insert_cell col (DrawState.get_background_rendition (ds f))) (rows f) row;
  Ok (set_rows rs f).

Definition delete_cell (row col : Z) (f : t) : result t :=
  rs ← vec_alter (Row.delete_cell col (DrawState.get_background_rendition (ds f))) (rows f) row;
  Ok (set_rows rs f).

(** [reset_cell( get_mutable_cell( row, col ) )] and
    [reset_row( get_mutable_row( row ) )] *)
Definition reset_cell (row col : Z) (f : t) : result t :=
  update_cell row col (Cell.reset (DrawState.get_background_rendition (ds f))) f.

Definition reset_row (row : Z) (f : t) : result t :=
  update_row row (fun r => Ok (Row.reset (DrawState.get_background_rendition (ds f)) r)) f.

Definition reset (f : t) : result t :=
  let width := DrawState.width (ds f) in
  let height := DrawState.height (ds f) in
  d ← DrawState.make width height;
  let f := set_ds d f in
  let f := set_rows (replicate (Z.to_nat height) (newrow f)) f in
  Ok (set_window_title [] f).

Definition soft_reset (f : t) : t :=
  on_ds (fun d =>
    let d := DrawState.set_insert_mode false d in
    let d := DrawState.set_origin_mode false d in
    let d := DrawState.set_cursor_visible true d in
    let d := DrawState.set_application_mode_cursor_keys false d in
    let d := DrawState.set_scrolling_region 0 (DrawState.height d - 1) d in
    let d := DrawState.add_rendition 0 d in
    DrawState.clear_saved_cursor d) f.

Definition posterize (f : t) : result t :=
  rs ← map_result (map_result (fun c =>
         r ← Renditions.posterize (Cell.renditions c); Ok (Cell.set_renditions r c))) (rows f);
  Ok (set_rows rs f).

Definition resize (s_width s_height : Z) (f : t) : result t :=
  assert_that (0 <? s_width) "s_width > 0";;
  assert_that (0 <? s_height) "s_height > 0";;
  let rs := vec_resize s_height (newrow f) (rows f) in
  rs ← map_result (fun r =>
         r ← Row.set_wrap false r;
         Ok (vec_resize s_width (Cell.make (DrawState.get_background_rendition (ds f))) r)) rs;
  on_ds_result (DrawState.resize s_width s_height) (set_rows rs f).

(** [for ( i = s.rbegin(); i != s.rend(); i++ ) title.push_front( *i )] *)
Definition push_front_all (s title : list Z) : list Z :=
  fold_left (fun acc c => c :: acc) (reverse s) title.

Definition prefix_window_title (s : list Z) (f : t) : t :=
  let f := if list_eqb Z.eqb (icon_name f) (window_title f)
           then set_icon_name (push_front_all s (icon_name f)) f else f in
  set_window_title (push_front_all s (window_title f)) f.

(** [bell_count] is an [unsigned int] *)
Definition ring_bell (f : t) : t := set_bell_count (u32 (bell_count f + 1)) f.

Definition eqb (x y : t) : bool :=
  list_eqb Row.eqb (rows x) (rows y)
  && list_eqb Z.eqb (window_title x) (window_title y)
  && (bell_count x =? bell_count y)
  && DrawState.eqb (ds x) (ds y).

End Framebuffer.
