(* ===== verification/FramebufferWf.v ===== *)
(** * Well-formedness of the framebuffer

    The representation invariant of [terminalframebuffer.h] and the proof
    that every method keeps it and never leaves the grid. *)

From S2P Require Import Prelude TerminalFramebuffer.

(** ** The invariant *)

Definition color_ok (base c : Z) : Prop := c = 0 ∨ base ≤ c ≤ base + 255.

Definition rend_ok (r : Renditions.t) : Prop :=
  color_ok 30 (Renditions.foreground_color r)
  ∧ color_ok 40 (Renditions.background_color r).

(** A cell is one or two columns wide, an empty cell is one column wide,
    and a cell holds at most sixteen characters. *)
Definition cell_ok (c : Cell.t) : Prop :=
  rend_ok (Cell.renditions c)
  ∧ (Cell.width c = 1 ∨ (Cell.width c = 2 ∧ Cell.contents c ≠ []))
  ∧ zlen (Cell.contents c) ≤ 16.

Definition row_ok (w : Z) (r : Row.t) : Prop := zlen r = w ∧ Forall cell_ok r.

Definition ds_ok (d : DrawState.t) : Prop :=
  (0 < DrawState.width d ∧ 0 < DrawState.height d)
  ∧ (0 ≤ DrawState.cursor_col d < DrawState.width d)
  ∧ (0 ≤ DrawState.cursor_row d < DrawState.height d)
  ∧ ((DrawState.combining_char_col d = -1 ∧ DrawState.combining_char_row d = -1)
     ∨ (0 ≤ DrawState.combining_char_col d < DrawState.width d
        ∧ 0 ≤ DrawState.combining_char_row d < DrawState.height d))
  ∧ zlen (DrawState.tabs d) = DrawState.width d
  ∧ 0 ≤ DrawState.scrolling_region_top_row d
      ≤ DrawState.scrolling_region_bottom_row d
  ∧ DrawState.scrolling_region_bottom_row d < DrawState.height d
  ∧ rend_ok (DrawState.renditions d)
  ∧ rend_ok (SavedCursor.renditions (DrawState.save d)).

Definition fb_ok (f : Framebuffer.t) : Prop :=
  ds_ok (Framebuffer.ds f)
  ∧ zlen (Framebuffer.rows f) = DrawState.height (Framebuffer.ds f)
  ∧ Forall (row_ok (DrawState.width (Framebuffer.ds f))) (Framebuffer.rows f).

(** The invariant is decidable, so that it can be checked by evaluation. *)
#[export] Instance color_ok_dec b c : Decision (color_ok b c).
Proof. unfold color_ok. apply _. Defined.
#[export] Instance rend_ok_dec r : Decision (rend_ok r).
Proof. unfold rend_ok. apply _. Defined.
#[export] Instance cell_ok_dec c : Decision (cell_ok c).
Proof. unfold cell_ok. apply _. Defined.
#[export] Instance row_ok_dec w r : Decision (row_ok w r).
Proof. unfold row_ok. apply _. Defined.
#[export] Instance ds_ok_dec d : Decision (ds_ok d).
Proof. unfold ds_ok. apply _. Defined.
#[export] Instance fb_ok_dec f : Decision (fb_ok f).
Proof. unfold fb_ok. apply _. Defined.

Ltac by_eval := apply (bool_decide_unpack _); vm_compute; exact I.

(** ** Renditions *)

Lemma color_ok_0 b : color_ok b 0.
Proof. by left. Qed.

Lemma rend_ok_make b : color_ok 40 b → rend_ok (Renditions.make b).
Proof. intros Hb. split; [by left|done]. Qed.

Ltac rend_tac :=
  unfold rend_ok, color_ok in *; cbn in *; split_ifs; cbn in *; lia.

Lemma set_rendition_ok n r : rend_ok r → rend_ok (Renditions.set_rendition n r).
Proof. unfold Renditions.set_rendition. intros [??]. split_ifs; rend_tac. Qed.

Lemma set_foreground_color_ok n r :
  rend_ok r → rend_ok (Renditions.set_foreground_color n r).
Proof. unfold Renditions.set_foreground_color. intros [??]. split_ifs; rend_tac. Qed.

Lemma set_background_color_ok n r :
  rend_ok r → rend_ok (Renditions.set_background_color n r).
Proof. unfold Renditions.set_background_color. intros [??]. split_ifs; rend_tac. Qed.

#[export] Hint Resolve color_ok_0 rend_ok_make set_rendition_ok set_foreground_color_ok
  set_background_color_ok : natcp.

Lemma cell_ok_make b : color_ok 40 b → cell_ok (Cell.make b).
Proof. intros. split_and!; [by apply rend_ok_make|by left|by vm_compute]. Qed.

Lemma cell_ok_reset b c : color_ok 40 b → cell_ok (Cell.reset b c).
Proof. intros. split_and!; [by apply rend_ok_make|by left|by vm_compute]. Qed.

Lemma row_ok_make w b : 0 ≤ w → color_ok 40 b → row_ok w (Row.make w b).
Proof.
  intros ??. split.
  - unfold Row.make, zlen. rewrite length_replicate. lia.
  - by apply Forall_replicate, cell_ok_make.
Qed.

Lemma row_ok_reset w b r : row_ok w r → color_ok 40 b → row_ok w (Row.reset b r).
Proof.
  intros [Hl Hc] Hb. split.
  - unfold Row.reset, zlen. by rewrite length_fmap.
  - unfold Row.reset. apply Forall_fmap. eapply Forall_impl; [exact Hc|].
    intros c _. by apply cell_ok_reset.
Qed.

#[export] Hint Resolve cell_ok_make cell_ok_reset row_ok_make row_ok_reset : natcp.

(** ** Draw state *)

(** What a method of the draw state keeps: the invariant and the size. *)
Definition ds_step (d d' : DrawState.t) : Prop :=
  ds_ok d' ∧ DrawState.width d' = DrawState.width d
  ∧ DrawState.height d' = DrawState.height d.

Definition ds_keeps (g : DrawState.t → DrawState.t) : Prop :=
  ∀ d, ds_ok d → ds_step d (g d).

(** A guarded assignment as an assignment of a minimum or a maximum. *)
Lemma clamp_row_low x d :
  (if DrawState.cursor_row d <? x then DrawState.set_cursor_row x d else d)
  = DrawState.set_cursor_row (Z.max x (DrawState.cursor_row d)) d.
Proof. destruct d. cbn. split_ifs; unfold DrawState.set_cursor_row; cbn; f_equal; lia. Qed.

Lemma clamp_row_high x d :
  (if x <? DrawState.cursor_row d then DrawState.set_cursor_row x d else d)
  = DrawState.set_cursor_row (Z.min x (DrawState.cursor_row d)) d.
Proof. destruct d. cbn. split_ifs; unfold DrawState.set_cursor_row; cbn; f_equal; lia. Qed.

Lemma clamp_col_low x d :
  (if DrawState.cursor_col d <? x then DrawState.set_cursor_col x d else d)
  = DrawState.set_cursor_col (Z.max x (DrawState.cursor_col d)) d.
Proof. destruct d. cbn. split_ifs; unfold DrawState.set_cursor_col; cbn; f_equal; lia. Qed.

Lemma clamp_col_high x d :
  (if x <=? DrawState.cursor_col d then DrawState.set_cursor_col (x - 1) d else d)
  = DrawState.set_cursor_col (Z.min (x - 1) (DrawState.cursor_col d)) d.
Proof. destruct d. cbn. split_ifs; unfold DrawState.set_cursor_col; cbn; f_equal; lia. Qed.

Lemma clamp_top x d :
  (if DrawState.scrolling_region_top_row d <? x then DrawState.set_top_row x d else d)
  = DrawState.set_top_row (Z.max x (DrawState.scrolling_region_top_row d)) d.
Proof. destruct d. cbn. split_ifs; unfold DrawState.set_top_row; cbn; f_equal; lia. Qed.

Lemma clamp_bottom_high x d :
  (if x <=? DrawState.scrolling_region_bottom_row d then DrawState.set_bottom_row (x - 1) d else d)
  = DrawState.set_bottom_row (Z.min (x - 1) (DrawState.scrolling_region_bottom_row d)) d.
Proof. destruct d. cbn. split_ifs; unfold DrawState.set_bottom_row; cbn; f_equal; lia. Qed.

Lemma clamp_bottom_low x d :
  (if DrawState.scrolling_region_bottom_row d <? x then DrawState.set_bottom_row x d else d)
  = DrawState.set_bottom_row (Z.max x (DrawState.scrolling_region_bottom_row d)) d.
Proof. destruct d. cbn. split_ifs; unfold DrawState.set_bottom_row; cbn; f_equal; lia. Qed.

(** [snap_cursor_to_border] clamps the cursor to the margins and the
    columns. *)
Lemma snap_eq d :
  DrawState.snap_cursor_to_border d =
    DrawState.set_cursor_col (Z.min (DrawState.width d - 1) (Z.max 0 (DrawState.cursor_col d)))
      (DrawState.set_cursor_row
         (Z.min (DrawState.limit_bottom d) (Z.max (DrawState.limit_top d) (DrawState.cursor_row d))) d).
Proof.
  unfold DrawState.snap_cursor_to_border.
  by rewrite clamp_row_low, clamp_row_high, clamp_col_low, clamp_col_high.
Qed.

(** [set_scrolling_region] clamps the region to the screen. *)
Lemma set_scrolling_region_eq top bottom d :
  1 ≤ DrawState.height d →
  DrawState.set_scrolling_region top bottom d =
    let t := Z.max 0 top in
    let d' := DrawState.set_bottom_row (Z.max t (Z.min (DrawState.height d - 1) bottom))
                (DrawState.set_top_row t d) in
    if DrawState.origin_mode d then DrawState.new_grapheme (DrawState.snap_cursor_to_border d')
    else d'.
Proof.
  intros Hh. unfold DrawState.set_scrolling_region. z_bools.
  by rewrite clamp_top, clamp_bottom_high, clamp_bottom_low.
Qed.

(** Unfold a draw-state method to the record it builds. *)
Ltac ds_unfold :=
  unfold DrawState.move_row, DrawState.move_col, DrawState.restore_cursor, DrawState.save_cursor, DrawState.clear_saved_cursor,
    DrawState.add_rendition, DrawState.set_foreground_color, DrawState.set_background_color,
    DrawState.clear_default_tabs, DrawState.new_grapheme;
  rewrite ?snap_eq; unfold DrawState.limit_top, DrawState.limit_bottom;
  cbn -[Z.min Z.max].

Ltac ds_go :=
  unfold ds_step, ds_ok; ds_unfold; split_ifs; cbn -[Z.min Z.max] in *;
  split_and!; first [ done | lia | eauto with natcp ].

Ltac ds_prove :=
  intros d (Hsz & Hcc & Hcr & Hcomb & Htabs & Hreg & Hbot & Hrend & Hsave); ds_go.

Lemma move_row_keeps n rel : ds_keeps (DrawState.move_row n rel).
Proof. destruct rel; ds_prove. Qed.

Lemma move_col_keeps n rel imp : ds_keeps (DrawState.move_col n rel imp).
Proof. destruct rel, imp; ds_prove. Qed.

Lemma restore_cursor_keeps : ds_keeps DrawState.restore_cursor.
Proof. ds_prove. Qed.

Lemma save_cursor_keeps : ds_keeps DrawState.save_cursor.
Proof. ds_prove. Qed.

Lemma clear_saved_cursor_keeps : ds_keeps DrawState.clear_saved_cursor.
Proof. ds_prove. Qed.

Lemma add_rendition_keeps n : ds_keeps (DrawState.add_rendition n).
Proof. ds_prove. Qed.

Lemma set_foreground_color_keeps n : ds_keeps (DrawState.set_foreground_color n).
Proof. ds_prove. Qed.

Lemma set_background_color_keeps n : ds_keeps (DrawState.set_background_color n).
Proof. ds_prove. Qed.

Lemma clear_default_tabs_keeps : ds_keeps DrawState.clear_default_tabs.
Proof. ds_prove. Qed.

(** A margin may start at any row of the screen; the bottom is clamped. *)
Lemma set_scrolling_region_ok top bottom d :
  ds_ok d → top < DrawState.height d →
  ds_step d (DrawState.set_scrolling_region top bottom d).
Proof.
  intros (Hsz & Hcc & Hcr & Hcomb & Htabs & Hreg & Hbot & Hrend & Hsave) Htop.
  rewrite set_scrolling_region_eq by lia. ds_go.
Qed.

(** Tab stops. *)
Lemma reinitialize_tabs_spec E start d :
  DrawState.default_tabs d = true → 0 ≤ start →
  wp E (DrawState.reinitialize_tabs start d) (fun d' =>
    d' = DrawState.set_tabs (DrawState.tabs d') d
    ∧ zlen (DrawState.tabs d') = zlen (DrawState.tabs d)
    ∧ ∀ i : nat, DrawState.tabs d' !! i =
        if (start <=? Z.of_nat i) && (Z.of_nat i <? zlen (DrawState.tabs d))
        then Some (Z.of_nat i mod 8 =? 0) else DrawState.tabs d !! i).
Proof.
  intros Hd Hs. unfold DrawState.reinitialize_tabs. rewrite Hd. cbn [assert_that mbind result_bind].
  apply wp_bind. eapply wp_weaken; [apply for_range_set; lia|].
  intros tb [Hlen Htb]. by split_and!.
Qed.

Lemma set_tabs_step tb d :
  ds_ok d → zlen tb = DrawState.width d → ds_step d (DrawState.set_tabs tb d).
Proof. intros (?&?&?&?&?&?&?&?&?) ?. unfold ds_step, ds_ok. cbn. split_and!; first [done|lia]. Qed.

Lemma set_tab_ok E d :
  ds_ok d → wp E (DrawState.set_tab d) (ds_step d).
Proof.
  intros Hd. pose proof Hd as (?&?&?&?&?&?). unfold DrawState.set_tab.
  rewrite vec_set_Ok by lia. apply set_tabs_step; [done|].
  unfold zlen in *. by rewrite length_insert.
Qed.

Lemma clear_tab_ok E col d :
  ds_ok d → 0 ≤ col < DrawState.width d → wp E (DrawState.clear_tab col d) (ds_step d).
Proof.
  intros Hd ?. pose proof Hd as (?&?&?&?&?&?). unfold DrawState.clear_tab.
  rewrite vec_set_Ok by lia. apply set_tabs_step; [done|].
  unfold zlen in *. by rewrite length_insert.
Qed.

(** [get_next_tab] finds the first tab stop to the right, if any. *)
Lemma next_tab_from_spec E n i (tb : list bool) :
  0 ≤ i → i + Z.of_nat n ≤ zlen tb →
  wp E (DrawState.next_tab_from n i tb) (fun r =>
    (r = -1 ∧ ∀ j, i ≤ j < i + Z.of_nat n → tb !! Z.to_nat j = Some false)
    ∨ (i ≤ r < i + Z.of_nat n ∧ tb !! Z.to_nat r = Some true
       ∧ ∀ j, i ≤ j < r → tb !! Z.to_nat j = Some false)).
Proof.
  revert i. induction n as [|n IH]; intros i Hi Hn; simpl.
  { left. split; [done|]. intros j ?. lia. }
  apply wp_bind, vec_get_spec; [lia|]. intros [] Hb.
  { simpl. right. split_and!; [lia..|done|]. intros j ?. lia. }
  eapply wp_weaken; [apply IH; lia|]. intros r [[-> Hr]|(Hr & Ht & Hj)].
  - left. split; [done|]. intros j ?. destruct (decide (j = i)) as [->|]; [done|].
    apply Hr. lia.
  - right. split_and!; [lia..|done|]. intros j ?.
    destruct (decide (j = i)) as [->|]; [done|]. apply Hj. lia.
Qed.

Lemma get_next_tab_spec E d :
  ds_ok d → wp E (DrawState.get_next_tab d) (fun r =>
    (r = -1 ∧ ∀ j, DrawState.cursor_col d < j < DrawState.width d →
       DrawState.tabs d !! Z.to_nat j = Some false)
    ∨ (DrawState.cursor_col d < r < DrawState.width d
       ∧ DrawState.tabs d !! Z.to_nat r = Some true
       ∧ ∀ j, DrawState.cursor_col d < j < r → DrawState.tabs d !! Z.to_nat j = Some false)).
Proof.
  intros (?&?&?&?&?&?). unfold DrawState.get_next_tab.
  eapply wp_weaken; [apply next_tab_from_spec; lia|].
  intros r [[-> Hr]|(Hr & Ht & Hj)]; [left|right]; split_and!; try lia; try done.
  - intros j ?. apply Hr. lia.
  - intros j ?. apply Hj. lia.
Qed.

(** Construction and resizing. *)
Lemma ds_make_spec E w h :
  0 < w → 0 < h →
  wp E (DrawState.make w h) (fun d =>
    ds_ok d ∧ DrawState.width d = w ∧ DrawState.height d = h
    ∧ DrawState.renditions d = Renditions.make 0
    ∧ DrawState.cursor_row d = 0 ∧ DrawState.cursor_col d = 0
    ∧ ∀ i : nat, Z.of_nat i < w → DrawState.tabs d !! i = Some (Z.of_nat i mod 8 =? 0)).
Proof.
  intros Hw Hh. unfold DrawState.make.
  eapply wp_weaken; [apply reinitialize_tabs_spec; [done|lia]|].
  intros d (Heq & Hlen & Htabs). rewrite Heq in Hlen, Htabs |- *. cbn in *.
  assert (zlen (replicate (Z.to_nat w) false) = w) as Hl.
  { unfold zlen. rewrite length_replicate. lia. }
  split_and!; try done.
  - unfold ds_ok. cbn. split_and!; first [done|lia|by apply rend_ok_make, color_ok_0].
  - intros i Hi. cbn. rewrite Htabs, Hl. by z_bools.
Qed.

Lemma ds_resize_spec E w h d :
  ds_ok d → 0 < w → 0 < h →
  wp E (DrawState.resize w h d) (fun d' =>
    ds_ok d' ∧ DrawState.width d' = w ∧ DrawState.height d' = h
    ∧ DrawState.renditions d' = DrawState.renditions d).
Proof.
  intros (Hsz & Hcc & Hcr & Hcomb & Htabs & Hreg & Hbot & Hrend & Hsave) Hw Hh.
  unfold DrawState.resize.
  set (d1 := if _ : bool then _ else d).
  assert (∃ t b, d1 = DrawState.set_bottom_row b (DrawState.set_top_row t d)
     ∧ 0 ≤ t ≤ b ∧ b < h) as (t & b & Hd1 & Htb).
  { unfold d1. split_ifs.
    - exists 0, (h - 1). split; [done|lia].
    - exists (DrawState.scrolling_region_top_row d), (DrawState.scrolling_region_bottom_row d).
      split; [by destruct d|lia]. }
  rewrite Hd1. clear d1 Hd1. cbn [DrawState.tabs DrawState.set_bottom_row DrawState.set_top_row].
  set (tb0 := vec_resize w false (DrawState.tabs d)).
  assert (zlen tb0 = w) as Htb0 by (apply zlen_resize; lia).
  apply wp_bind.
  apply (wp_weaken _ _ (fun d' => ∃ tb, zlen tb = w ∧
    d' = DrawState.set_tabs tb (DrawState.set_bottom_row b (DrawState.set_top_row t d)))).
  { cbn [DrawState.default_tabs DrawState.set_tabs DrawState.set_bottom_row DrawState.set_top_row].
    destruct (DrawState.default_tabs d) eqn:Hdef; [|by exists tb0].
    eapply wp_weaken; [apply reinitialize_tabs_spec; [done|cbn; lia]|].
    intros d' (Heq & Hlen & _). cbn in Hlen. exists (DrawState.tabs d').
    split; [lia|]. by rewrite Heq. }
  intros d' (tb & Hltb & ->). apply wp_ok. clear tb0 Htb0.
  rewrite !snap_eq. unfold DrawState.limit_top, DrawState.limit_bottom.
  cbn -[Z.min Z.max]. split_ifs; cbn -[Z.min Z.max]; (split; [|done]);
    unfold ds_ok; cbn -[Z.min Z.max]; split_and!; first [done|lia].
Qed.

(** ** Framebuffer *)

Abbreviation fb_width f := (DrawState.width (Framebuffer.ds f)).
Abbreviation fb_height f := (DrawState.height (Framebuffer.ds f)).

(** A method that only writes cells, and one that keeps the size. *)
Definition fb_grid (f f' : Framebuffer.t) : Prop :=
  fb_ok f' ∧ Framebuffer.ds f' = Framebuffer.ds f.

Definition fb_kept (f f' : Framebuffer.t) : Prop :=
  fb_ok f' ∧ fb_width f' = fb_width f ∧ fb_height f' = fb_height f.

Lemma fb_grid_kept f f' : fb_grid f f' → fb_kept f f'.
Proof. intros [? Heq]. unfold fb_kept. by rewrite Heq. Qed.

Lemma fb_kept_trans f g h : fb_kept f g → fb_kept g h → fb_kept f h.
Proof. intros (_ & ? & ?) (? & ? & ?). split_and!; [done|congruence..]. Qed.

Lemma fb_kept_refl f : fb_ok f → fb_kept f f.
Proof. by intros ?. Qed.

Lemma fb_bg_ok f : fb_ok f → color_ok 40 (DrawState.get_background_rendition (Framebuffer.ds f)).
Proof. intros [(_&_&_&_&_&_&_&[_ ?]&_) _]. done. Qed.

Lemma fb_row_ok f : fb_ok f → row_ok (fb_width f) (Framebuffer.newrow f).
Proof.
  intros Hf. apply row_ok_make; [|by apply fb_bg_ok].
  destruct Hf as [(?&_) _]. lia.
Qed.

#[export] Hint Resolve fb_bg_ok fb_row_ok fb_kept_refl : natcp.

Lemma set_ds_ok f d :
  fb_ok f → ds_step (Framebuffer.ds f) d → fb_kept f (Framebuffer.set_ds d f).
Proof.
  intros (_ & Hrows & Hcells) (Hd & Hw & Hh). unfold fb_kept, fb_ok. cbn.
  by rewrite Hw, Hh.
Qed.

Lemma on_ds_ok g f : ds_keeps g → fb_ok f → fb_kept f (Framebuffer.on_ds g f).
Proof. intros Hg Hf. apply set_ds_ok; [done|]. apply Hg, Hf. Qed.

Lemma on_ds_result_ok E g f :
  fb_ok f → wp E (g (Framebuffer.ds f)) (ds_step (Framebuffer.ds f)) →
  wp E (Framebuffer.on_ds_result g f) (fb_kept f).
Proof.
  intros Hf Hg. apply wp_bind. eapply wp_weaken; [exact Hg|].
  intros d Hd. by apply set_ds_ok.
Qed.

Lemma set_rows_ok f rs :
  fb_ok f → zlen rs = fb_height f → Forall (row_ok (fb_width f)) rs →
  fb_grid f (Framebuffer.set_rows rs f).
Proof. intros (? & _) ??. by split_and!. Qed.

Lemma update_row_ok E row g f :
  fb_ok f → 0 ≤ Framebuffer.row_index row f < fb_height f →
  (∀ r, row_ok (fb_width f) r → wp E (g r) (row_ok (fb_width f))) →
  wp E (Framebuffer.update_row row g f) (fb_grid f).
Proof.
  intros Hf Hr Hg. pose proof Hf as (_ & Hlen & Hrows). unfold Framebuffer.update_row.
  apply wp_bind. eapply wp_weaken.
  { apply (vec_alter_spec _ (row_ok (fb_width f))); [lia|done|exact Hg]. }
  intros rs [??]. apply set_rows_ok; [done|lia|done].
Qed.

Lemma update_cell_ok E row col g f :
  fb_ok f → 0 ≤ Framebuffer.row_index row f < fb_height f →
  0 ≤ Framebuffer.col_index col f < fb_width f →
  (∀ c, cell_ok c → cell_ok (g c)) →
  wp E (Framebuffer.update_cell row col g f) (fb_grid f).
Proof.
  intros Hf Hr Hc Hg. apply update_row_ok; [done..|]. intros r [Hlen Hcells].
  eapply wp_weaken; [apply (vec_alter_spec _ cell_ok); [lia|done|]|].
  - intros c Hcell. by apply Hg.
  - intros r' [??]. split; [lia|done].
Qed.

(** Two updates of the same cell are one. *)
Lemma update_row_fuse row g h f :
  (f' ← Framebuffer.update_row row g f; Framebuffer.update_row row h f')
  = Framebuffer.update_row row (fun r => r' ← g r; h r') f.
Proof.
  unfold Framebuffer.update_row. rewrite <- vec_alter_fuse.
  by destruct (vec_alter g (Framebuffer.rows f) (Framebuffer.row_index row f)).
Qed.

Lemma vec_alter_ext {A} (g h : A → result A) l i :
  (∀ x, g x = h x) → vec_alter g l i = vec_alter h l i.
Proof. intros Heq. unfold vec_alter. destruct (vec_get l i); simpl; [by rewrite Heq|done]. Qed.

Lemma update_cell_fuse row col g h f :
  (f' ← Framebuffer.update_cell row col g f; Framebuffer.update_cell row col h f')
  = Framebuffer.update_cell row col (fun c => h (g c)) f.
Proof.
  unfold Framebuffer.update_cell.
  transitivity (f' ← Framebuffer.update_row row
      (fun r => vec_alter (fun c => Ok (g c)) r (Framebuffer.col_index col f)) f;
    Framebuffer.update_row row
      (fun r => vec_alter (fun c => Ok (h c)) r (Framebuffer.col_index col f)) f').
  { unfold Framebuffer.update_row.
    by match goal with |- context [vec_alter ?a (Framebuffer.rows f) ?i] =>
      destruct (vec_alter a (Framebuffer.rows f) i) end. }
  rewrite update_row_fuse. unfold Framebuffer.update_row. f_equal.
  apply vec_alter_ext. intros r. by rewrite vec_alter_fuse.
Qed.

(** Row and column [-1] are the cursor's, which is on the screen. *)
Lemma index_cursor f : fb_ok f →
  0 ≤ Framebuffer.row_index (-1) f < fb_height f
  ∧ 0 ≤ Framebuffer.col_index (-1) f < fb_width f.
Proof.
  intros ((_&?&?&_)&_). unfold Framebuffer.row_index, Framebuffer.col_index. cbn. lia.
Qed.

Lemma index_row f y : 0 ≤ y → Framebuffer.row_index y f = y.
Proof. intros. unfold Framebuffer.row_index. by z_bools. Qed.

Lemma index_col f x : 0 ≤ x → Framebuffer.col_index x f = x.
Proof. intros. unfold Framebuffer.col_index. by z_bools. Qed.

Lemma reset_cell_ok E row col f :
  fb_ok f → 0 ≤ Framebuffer.row_index row f < fb_height f →
  0 ≤ Framebuffer.col_index col f < fb_width f →
  wp E (Framebuffer.reset_cell row col f) (fb_grid f).
Proof. intros. apply update_cell_ok; auto with natcp. Qed.

Lemma reset_row_ok E row f :
  fb_ok f → 0 ≤ Framebuffer.row_index row f < fb_height f →
  wp E (Framebuffer.reset_row row f) (fb_grid f).
Proof. intros. apply update_row_ok; auto with natcp. intros. apply wp_ok. auto with natcp. Qed.

Lemma row_set_wrap_ok E w b r :
  0 < w → row_ok w r → wp E (Row.set_wrap b r) (row_ok w).
Proof.
  intros Hw [Hlen Hc]. unfold Row.set_wrap.
  eapply wp_weaken; [apply (vec_alter_spec _ cell_ok); [lia|done|by intros]|].
  intros r' [??]. split; [lia|done].
Qed.

Lemma row_insert_cell_ok E w col bg r :
  row_ok w r → 0 ≤ col < w → color_ok 40 bg → wp E (Row.insert_cell col bg r) (row_ok w).
Proof.
  intros [Hlen Hc] Hcol Hbg. apply wp_bind. eapply wp_weaken.
  { apply (vec_insert_spec _ cell_ok); [lia|done|by apply cell_ok_make]. }
  intros r1 [??]. eapply wp_weaken; [apply (vec_pop_back_spec _ cell_ok); [lia|done]|].
  intros r2 [??]. split; [lia|done].
Qed.

Lemma row_delete_cell_ok E w col bg r :
  row_ok w r → 0 ≤ col < w → color_ok 40 bg → wp E (Row.delete_cell col bg r) (row_ok w).
Proof.
  intros [Hlen Hc] Hcol Hbg. unfold Row.delete_cell.
  eapply wp_weaken; [apply (vec_erase_spec _ cell_ok); [rewrite zlen_push; lia|]|].
  - apply Forall_app. split; [done|]. by constructor; [apply cell_ok_make|].
  - intros r' [Hl ?]. rewrite zlen_push in Hl. split; [lia|done].
Qed.

Lemma insert_cell_ok E row col f :
  fb_ok f → 0 ≤ row < fb_height f → 0 ≤ col < fb_width f →
  wp E (Framebuffer.insert_cell row col f) (fb_grid f).
Proof.
  intros Hf Hr Hc. pose proof Hf as (_ & Hlen & Hrows). apply wp_bind. eapply wp_weaken.
  { apply (vec_alter_spec _ (row_ok (fb_width f))); [lia|done|].
    intros r Hok. apply row_insert_cell_ok; auto with natcp. }
  intros rs [??]. apply set_rows_ok; [done|lia|done].
Qed.

Lemma delete_cell_ok E row col f :
  fb_ok f → 0 ≤ row < fb_height f → 0 ≤ col < fb_width f →
  wp E (Framebuffer.delete_cell row col f) (fb_grid f).
Proof.
  intros Hf Hr Hc. pose proof Hf as (_ & Hlen & Hrows). apply wp_bind. eapply wp_weaken.
  { apply (vec_alter_spec _ (row_ok (fb_width f))); [lia|done|].
    intros r Hok. apply row_delete_cell_ok; auto with natcp. }
  intros rs [??]. apply set_rows_ok; [done|lia|done].
Qed.

(** *** Lines *)

(** [delete_line] inside the scrolling region, as one list expression. *)
Lemma delete_line_eq row f :
  fb_ok f →
  DrawState.scrolling_region_top_row (Framebuffer.ds f) ≤ row
    ≤ DrawState.scrolling_region_bottom_row (Framebuffer.ds f) →
  Framebuffer.delete_line row f =
    Ok (Framebuffer.set_rows
      (let b := Z.to_nat (DrawState.scrolling_region_bottom_row (Framebuffer.ds f)) in
       delete (Z.to_nat row) (take (S b) (Framebuffer.rows f) ++ Framebuffer.newrow f
         :: drop (S b) (Framebuffer.rows f))) f).
Proof.
  intros ((?&?&?&?&?&?&?&?&?) & Hlen & Hrows) Hrow. unfold Framebuffer.delete_line. z_bools. cbn [orb].
  set (b := DrawState.scrolling_region_bottom_row _) in *.
  assert (S (Z.to_nat b) = Z.to_nat (b + 1)) as -> by lia.
  assert (zlen (take (Z.to_nat (b + 1)) (Framebuffer.rows f) ++ Framebuffer.newrow f
    :: drop (Z.to_nat (b + 1)) (Framebuffer.rows f)) = zlen (Framebuffer.rows f) + 1) as Hl.
  { rewrite zlen_app, zlen_cons. unfold zlen. rewrite length_take, length_drop.
    unfold zlen in Hlen. lia. }
  destruct (b + 1 =? _) eqn:Hb; cbn [mbind result_bind].
  - apply Z.eqb_eq in Hb. unfold vec_push.
    rewrite take_ge, drop_ge in Hl |- * by (unfold zlen in Hlen; lia).
    by rewrite vec_erase_Ok by lia.
  - rewrite vec_insert_Ok by lia. cbn [mbind result_bind]. by rewrite vec_erase_Ok by lia.
Qed.

Lemma insert_line_eq row f :
  fb_ok f →
  DrawState.scrolling_region_top_row (Framebuffer.ds f) ≤ row
    ≤ DrawState.scrolling_region_bottom_row (Framebuffer.ds f) + 1 →
  Framebuffer.insert_line row f =
    Ok (Framebuffer.set_rows
      (delete (S (Z.to_nat (DrawState.scrolling_region_bottom_row (Framebuffer.ds f))))
         (take (Z.to_nat row) (Framebuffer.rows f) ++ Framebuffer.newrow f
           :: drop (Z.to_nat row) (Framebuffer.rows f))) f).
Proof.
  intros ((?&?&?&?&?&?&?&?&?) & Hlen & Hrows) Hrow. unfold Framebuffer.insert_line. z_bools. cbn [orb].
  rewrite vec_insert_Ok by lia. cbn [mbind result_bind]. rewrite vec_erase_Ok.
  - cbn [mbind result_bind]. do 3 f_equal. lia.
  - rewrite zlen_app, zlen_cons. unfold zlen in *. rewrite length_take, length_drop. lia.
Qed.

(** Replacing one line by a fresh one keeps the grid well formed. *)
Lemma shifted_rows_ok f (m n : nat) :
  fb_ok f → Z.of_nat m ≤ fb_height f → Z.of_nat n ≤ fb_height f →
  fb_grid f (Framebuffer.set_rows
    (delete n (take m (Framebuffer.rows f) ++ Framebuffer.newrow f
      :: drop m (Framebuffer.rows f))) f).
Proof.
  intros Hf Hm Hn. pose proof Hf as (_ & Hlen & Hrows). apply set_rows_ok; [done| |].
  - unfold zlen in *. rewrite length_delete.
    + rewrite length_app. simpl. rewrite length_take, length_drop. lia.
    + apply lookup_lt_is_Some_2. rewrite length_app. simpl. rewrite length_take, length_drop. lia.
  - apply Forall_delete, Forall_app. split; [by apply Forall_take|].
    constructor; [by apply fb_row_ok|by apply Forall_drop].
Qed.

Lemma delete_line_ok E row f :
  fb_ok f → wp E (Framebuffer.delete_line row f) (fb_grid f).
Proof.
  intros Hf. destruct (decide (DrawState.scrolling_region_top_row (Framebuffer.ds f) ≤ row
    ≤ DrawState.scrolling_region_bottom_row (Framebuffer.ds f))) as [Hin|Hout].
  - rewrite delete_line_eq by done. pose proof Hf as ((?&?&?&?&?&?&?&?&?)&_).
    apply wp_ok, shifted_rows_ok; [done|lia..].
  - unfold Framebuffer.delete_line. destruct (_ || _) eqn:?; [by split|lia].
Qed.

Lemma insert_line_ok E row f :
  fb_ok f → wp E (Framebuffer.insert_line row f) (fb_grid f).
Proof.
  intros Hf. destruct (decide (DrawState.scrolling_region_top_row (Framebuffer.ds f) ≤ row
    ≤ DrawState.scrolling_region_bottom_row (Framebuffer.ds f) + 1)) as [Hin|Hout].
  - rewrite insert_line_eq by done. pose proof Hf as ((?&?&?&?&?&?&?&?&?)&_).
    apply wp_ok, shifted_rows_ok; [done|lia..].
  - unfold Framebuffer.insert_line. destruct (_ || _) eqn:?; [by split|lia].
Qed.

(** [scroll] with a negative argument inserts at the top margin, as
    [insert_line] does. *)
Lemma scroll_down_body f :
  fb_ok f →
  (rs ← vec_insert (Framebuffer.rows f) (DrawState.scrolling_region_top_row (Framebuffer.ds f))
          (Framebuffer.newrow f);
   rs ← vec_erase rs (DrawState.scrolling_region_bottom_row (Framebuffer.ds f) + 1);
   Ok (Framebuffer.on_ds (DrawState.move_row 1 true) (Framebuffer.set_rows rs f)))
  = (f' ← Framebuffer.insert_line (DrawState.scrolling_region_top_row (Framebuffer.ds f)) f;
     Ok (Framebuffer.on_ds (DrawState.move_row 1 true) f')).
Proof.
  intros ((?&?&?&?&?&?&?&?&?) & _). unfold Framebuffer.insert_line. z_bools. cbn [orb].
  destruct (vec_insert _ _ _); simpl; [|done]. by destruct (vec_erase _ _).
Qed.

Lemma scroll_ok E n f : fb_ok f → wp E (Framebuffer.scroll n f) (fb_kept f).
Proof.
  intros Hf. unfold Framebuffer.scroll. destruct (0 <=? n).
  - apply for_range_inv; [by apply fb_kept_refl|]. intros _ g _ Hg.
    apply wp_bind. eapply wp_weaken; [apply delete_line_ok, Hg|].
    intros g' Hg'. apply wp_ok. eapply fb_kept_trans; [exact Hg|].
    eapply fb_kept_trans; [by apply fb_grid_kept|].
    apply on_ds_ok; [apply move_row_keeps|apply Hg'].
  - apply for_range_inv; [by apply fb_kept_refl|]. intros _ g _ Hg.
    rewrite scroll_down_body by apply Hg.
    apply wp_bind. eapply wp_weaken; [apply insert_line_ok, Hg|].
    intros g' Hg'. apply wp_ok. eapply fb_kept_trans; [exact Hg|].
    eapply fb_kept_trans; [by apply fb_grid_kept|].
    apply on_ds_ok; [apply move_row_keeps|apply Hg'].
Qed.

Lemma move_rows_autoscroll_ok E n f :
  fb_ok f → wp E (Framebuffer.move_rows_autoscroll n f) (fb_kept f).
Proof.
  intros Hf. unfold Framebuffer.move_rows_autoscroll.
  destruct (_ || _); [apply wp_ok, on_ds_ok; [apply move_row_keeps|done]|].
  apply wp_bind. apply (wp_weaken _ _ (fb_kept f)).
  - split_ifs; first [by apply scroll_ok|by apply wp_ok, fb_kept_refl].
  - intros g Hg. apply wp_ok. eapply fb_kept_trans; [exact Hg|].
    apply on_ds_ok; [apply move_row_keeps|apply Hg].
Qed.

(** *** Whole-screen operations *)

Lemma fb_make_spec E w h :
  0 < w → 0 < h →
  wp E (Framebuffer.make w h) (fun f => fb_ok f ∧ fb_width f = w ∧ fb_height f = h).
Proof.
  intros Hw Hh. unfold Framebuffer.make.
  apply wp_bind. eapply wp_weaken; [by apply ds_make_spec|].
  intros d (Hd & Hdw & Hdh & _). z_bools. cbn [assert_that mbind result_bind].
  apply wp_ok. unfold fb_ok. cbn. split_and!; try done.
  - unfold zlen. rewrite length_replicate. lia.
  - rewrite Hdw. apply Forall_replicate, row_ok_make; [lia|by left].
Qed.

Lemma reset_ok E f : fb_ok f → wp E (Framebuffer.reset f) (fb_kept f).
Proof.
  intros Hf. pose proof Hf as ((?&_)&_). unfold Framebuffer.reset.
  apply wp_bind. eapply wp_weaken; [apply ds_make_spec; lia|].
  intros d (Hd & Hdw & Hdh & Hr & _). apply wp_ok.
  unfold fb_kept, fb_ok, Framebuffer.newrow, DrawState.get_background_rendition. cbn.
  rewrite Hr, Hdw, Hdh. cbn. split_and!; try done.
  - unfold zlen. rewrite length_replicate. lia.
  - apply Forall_replicate, row_ok_make; [lia|by left].
Qed.

Lemma set_modes_keeps im om cv ak :
  ds_keeps (fun d => DrawState.set_application_mode_cursor_keys ak
    (DrawState.set_cursor_visible cv (DrawState.set_origin_mode om
      (DrawState.set_insert_mode im d)))).
Proof. ds_prove. Qed.

Lemma soft_reset_ok f : fb_ok f → fb_kept f (Framebuffer.soft_reset f).
Proof.
  intros Hf. apply on_ds_ok; [|done]. intros d Hd. cbv beta zeta.
  destruct (set_modes_keeps false false true false d Hd) as (Hd1 & Hw1 & Hh1).
  set (d1 := DrawState.set_application_mode_cursor_keys _ _) in *.
  destruct (set_scrolling_region_ok 0 (DrawState.height d1 - 1) d1 Hd1) as (Hd2 & Hw2 & Hh2).
  { destruct Hd1 as [? _]. lia. }
  destruct (add_rendition_keeps 0 _ Hd2) as (Hd3 & Hw3 & Hh3).
  destruct (clear_saved_cursor_keeps _ Hd3) as (Hd4 & Hw4 & Hh4).
  split_and!; [done|congruence..].
Qed.

Lemma fb_resize_spec E w h f :
  fb_ok f → 0 < w → 0 < h →
  wp E (Framebuffer.resize w h f) (fun f' => fb_ok f' ∧ fb_width f' = w ∧ fb_height f' = h).
Proof.
  intros Hf Hw Hh. pose proof Hf as (Hd & Hlen & Hrows). pose proof Hd as ((Hpos & _) & _).
  unfold Framebuffer.resize. z_bools. cbn [assert_that mbind result_bind].
  apply wp_bind. eapply wp_weaken.
  { apply (map_result_spec _ (row_ok (fb_width f)) (row_ok w)).
    - unfold vec_resize. apply Forall_resize; [by apply fb_row_ok|done].
    - intros r Hr. apply wp_bind. eapply wp_weaken; [by apply row_set_wrap_ok|].
      intros r' [Hl Hc]. apply wp_ok. split; [apply zlen_resize; lia|].
      apply Forall_resize; [|done]. by apply cell_ok_make, fb_bg_ok. }
  intros rs [Hl Hrs]. unfold Framebuffer.on_ds_result. cbn [Framebuffer.ds Framebuffer.set_rows].
  apply wp_bind. eapply wp_weaken; [by apply ds_resize_spec|].
  intros d (Hd' & Hdw & Hdh & _). apply wp_ok. unfold fb_ok. cbn. split_and!; try done.
  - rewrite Hl, zlen_resize; lia.
  - by rewrite Hdw.
Qed.

(** Posterizing indexes the 256-entry table with a palette colour. *)
Lemma posterization_table (i : nat) :
  (i < 256)%nat → ∃ p, Renditions.standard_posterization !! i = Some p ∧ 0 ≤ p ≤ 7.
Proof.
  intros Hi. assert (Forall (fun p => 0 ≤ p ≤ 7) Renditions.standard_posterization) as Hall.
  { by_eval. }
  destruct (lookup_lt_is_Some_2 Renditions.standard_posterization i Hi) as [p Hp].
  exists p. split; [done|]. rewrite Forall_lookup in Hall. eauto.
Qed.

Lemma rend_posterize_ok E r :
  rend_ok r → wp E (Renditions.posterize r) (fun r' =>
    rend_ok r'
    ∧ (Renditions.foreground_color r' = 0 ∨ 30 ≤ Renditions.foreground_color r' ≤ 37)
    ∧ (Renditions.background_color r' = 0 ∨ 40 ≤ Renditions.background_color r' ≤ 47)).
Proof.
  intros [Hf Hb]. unfold Renditions.posterize. apply wp_bind.
  apply (wp_weaken _ _ (fun r1 =>
    (Renditions.foreground_color r1 = 0 ∨ 30 ≤ Renditions.foreground_color r1 ≤ 37)
    ∧ Renditions.background_color r1 = Renditions.background_color r)).
  - destruct (Z.eqb_spec (Renditions.foreground_color r) 0) as [E0|E0]; [by split; [left|]|].
    destruct Hf as [?|Hf]; [done|]. apply wp_bind, vec_get_spec.
    { change (zlen Renditions.standard_posterization) with 256. lia. }
    intros p Hp. destruct (posterization_table (Z.to_nat (Renditions.foreground_color r - 30)))
      as (p' & Hp' & ?); [lia|]. simplify_eq. apply wp_ok. cbn. split; [right; lia|done].
  - intros r1 [Hf1 Hb1]. rewrite Hb1.
    destruct (Z.eqb_spec (Renditions.background_color r) 0) as [E0|E0].
    { apply wp_ok. rewrite Hb1, E0. unfold rend_ok, color_ok. split_and!; lia. }
    destruct Hb as [?|Hb]; [done|]. apply wp_bind, vec_get_spec.
    { change (zlen Renditions.standard_posterization) with 256. lia. }
    intros p Hp. destruct (posterization_table (Z.to_nat (Renditions.background_color r - 40)))
      as (p' & Hp' & ?); [lia|]. simplify_eq. apply wp_ok. cbn.
    unfold rend_ok, color_ok. cbn. split_and!; lia.
Qed.

Lemma posterize_ok E f : fb_ok f → wp E (Framebuffer.posterize f) (fb_grid f).
Proof.
  intros Hf. pose proof Hf as (_ & Hlen & Hrows). unfold Framebuffer.posterize.
  apply wp_bind. eapply wp_weaken.
  { apply (map_result_spec _ (row_ok (fb_width f)) (row_ok (fb_width f))); [done|].
    intros r [Hl Hc]. eapply wp_weaken.
    - apply (map_result_spec _ cell_ok cell_ok); [done|].
      intros c (Hr & Hw & Hn). apply wp_bind. eapply wp_weaken; [by apply rend_posterize_ok|].
      intros r' [Hr' _]. apply wp_ok. by split_and!.
    - intros r' [Hl' Hc']. split; [lia|done]. }
  intros rs [Hl Hrs]. apply wp_ok, set_rows_ok; [done|lia|done].
Qed.

(** The combining cell, when there is one, is on the screen. *)
Lemma combining_cell_range f y x :
  fb_ok f → Framebuffer.get_combining_cell f = Some (y, x) →
  y = DrawState.combining_char_row (Framebuffer.ds f)
  ∧ x = DrawState.combining_char_col (Framebuffer.ds f)
  ∧ 0 ≤ y < fb_height f ∧ 0 ≤ x < fb_width f.
Proof.
  intros _. unfold Framebuffer.get_combining_cell. split_ifs; intros; simplify_eq.
  split_and!; lia.
Qed.

Lemma get_cell_ok E row col f :
  fb_ok f → 0 ≤ Framebuffer.row_index row f < fb_height f →
  0 ≤ Framebuffer.col_index col f < fb_width f →
  wp E (Framebuffer.get_cell row col f) cell_ok.
Proof.
  intros (_ & Hlen & Hrows) Hr Hc. rewrite Forall_lookup in Hrows.
  unfold Framebuffer.get_cell. apply wp_bind, vec_get_spec; [by rewrite Hlen|]. intros r [Hl Hcells]%Hrows.
  rewrite Forall_lookup in Hcells. apply vec_get_spec; [by rewrite Hl|]. eauto.
Qed.

(** ** Cells by coordinates *)

Definition cell_at (f : Framebuffer.t) (y x : nat) : option Cell.t :=
  Framebuffer.rows f !! y ≫= fun r => r !! x.

Lemma get_cell_at row col f c :
  Framebuffer.get_cell row col f = Ok c ↔
  0 ≤ Framebuffer.row_index row f ∧ 0 ≤ Framebuffer.col_index col f
  ∧ cell_at f (Z.to_nat (Framebuffer.row_index row f)) (Z.to_nat (Framebuffer.col_index col f))
    = Some c.
Proof.
  unfold Framebuffer.get_cell, cell_at. split.
  - destruct (vec_get (Framebuffer.rows f) _) as [r|] eqn:Hr; [|done]. intros Hc.
    apply vec_get_Ok in Hr as [? Hr], Hc as [??]. by rewrite Hr.
  - intros (? & ? & Hc). destruct (Framebuffer.rows f !! _) as [r|] eqn:Hr; [|done].
    rewrite (proj2 (vec_get_Ok _ _ r)) by done. by apply vec_get_Ok.
Qed.

Lemma update_cell_at row col g f c :
  Framebuffer.get_cell row col f = Ok c →
  ∃ f', Framebuffer.update_cell row col g f = Ok f'
    ∧ f' = Framebuffer.set_rows (Framebuffer.rows f') f
    ∧ ∀ y x, cell_at f' y x =
        if decide (y = Z.to_nat (Framebuffer.row_index row f)
                   ∧ x = Z.to_nat (Framebuffer.col_index col f))
        then Some (g c) else cell_at f y x.
Proof.
  intros (Hy & Hx & Hc)%get_cell_at. unfold cell_at in *.
  destruct (Framebuffer.rows f !! _) as [r|] eqn:Hr; [|done]. simpl in Hc.
  unfold Framebuffer.update_cell, Framebuffer.update_row.
  rewrite (vec_alter_Ok _ _ _ r (<[Z.to_nat (Framebuffer.col_index col f) := g c]> r));
    [|done..|by erewrite vec_alter_Ok].
  eexists. split_and!; [done..|]. intros y x. cbn.
  apply lookup_lt_Some in Hr as Hy', Hc as Hx'.
  destruct (decide (y = Z.to_nat (Framebuffer.row_index row f))) as [->|Hne].
  - rewrite list_lookup_insert_eq, Hr by done. simpl. case_decide as Hd.
    + destruct Hd as [_ ->]. by rewrite list_lookup_insert_eq.
    + rewrite list_lookup_insert_ne by naive_solver. done.
  - rewrite list_lookup_insert_ne by done. case_decide; naive_solver.
Qed.

(** A grid update that is sound for the cell it finds. *)
Lemma update_cell_found E row col g f :
  fb_ok f → 0 ≤ Framebuffer.row_index row f < fb_height f →
  0 ≤ Framebuffer.col_index col f < fb_width f →
  (∀ c, Framebuffer.get_cell row col f = Ok c → cell_ok c → cell_ok (g c)) →
  wp E (Framebuffer.update_cell row col g f) (fb_grid f).
Proof.
  intros Hf Hr Hc Hg. pose proof (get_cell_ok (fun _ => False) row col f Hf Hr Hc) as Hget.
  apply safe_inv in Hget as (c & Hget & Hok).
  assert (Framebuffer.update_cell row col g f = Framebuffer.update_cell row col (fun _ => g c) f) as ->.
  { apply get_cell_at in Hget as (_ & _ & Hget). unfold cell_at in Hget.
    unfold Framebuffer.update_cell, Framebuffer.update_row.
    destruct (Framebuffer.rows f !! _) as [r|] eqn:Er; [|done]. simpl in Hget.
    by rewrite (vec_alter_Ok _ _ _ r (<[Z.to_nat (Framebuffer.col_index col f) := g c]> r)),
      (vec_alter_Ok (fun r => vec_alter (fun _ => Ok (g c)) r _) _ _ r
        (<[Z.to_nat (Framebuffer.col_index col f) := g c]> r))
      by first [done|lia|by erewrite vec_alter_Ok by first [done|lia]]. }
  apply update_cell_ok; auto.
Qed.
