(* ===== verification/TerminalDispatcher.v ===== *)
(** * The dispatcher

    [src/alfalfa/src/terminal/terminaldispatcher.h] and
    [terminaldispatcher.cc]: parameter collection and parsing, the registry
    of terminal functions and the dispatch of an escape, control-sequence or
    control character to its function.  The terminal functions themselves
    are in [TerminalFunctions]; here they are values of the type
    [terminal_function] held in the registry. *)

From S2P Require Import Prelude VtParser TerminalFramebuffer.

(** ** [strtol( s, &endptr, 10 )] of the C library, 64-bit [long] *)

Module Strtol.

Definition LONG_MAX : Z := 2 ^ 63 - 1.
Definition LONG_MIN : Z := - 2 ^ 63.

Fixpoint take_while (P : Z → bool) (s : list Z) : list Z :=
  match s with
  | c :: s' => if P c then c :: take_while P s' else []
  | [] => []
  end.

Definition is_space (c : Z) : bool := (c =? 32) || ((9 <=? c) && (c <=? 13)).

(** The value, the number of characters consumed ([endptr - s]) and
    whether [errno] was set to [ERANGE]. *)
Definition strtol (s : list Z) : Z * Z * bool :=
  let ws := take_while is_space s in
  let s1 := drop (length ws) s in
  let '(neg, s2) :=
    match s1 with
    | c :: r => if c =? 45 then (true, r) else if c =? 43 then (false, r) else (false, s1)
    | [] => (false, s1)
    end in
  let digits := take_while is_digit s2 in
  match digits with
  | [] => (0, 0, false)
  | _ =>
      let v := if (neg : bool) then - digits_value digits else digits_value digits in
      let consumed := zlen s - zlen s2 + zlen digits in
      if LONG_MAX <? v then (LONG_MAX, consumed, true)
      else if v <? LONG_MIN then (LONG_MIN, consumed, true)
      else (v, consumed, false)
  end.

(** [strchr( s, c )]: the suffix starting at the first [c], or null *)
Fixpoint strchr (s : list Z) (c : Z) : option (list Z) :=
  match s with
  | [] => None
  | x :: s' => if x =? c then Some s else strchr s' c
  end.

End Strtol.

(** ** Class [Dispatcher] *)

Module Dispatcher.
Import Strtol.

Record t : Set := mk {
  params : list Z;
  parsed_params : list Z;
  parsed : bool;
  dispatch_chars : list Z;
  OSC_string : list Z;
  terminal_to_host : list Z }.

#[export] Instance t_eta : Eta t := fun d =>
  mk (params d) (parsed_params d) (parsed d) (dispatch_chars d) (OSC_string d)
    (terminal_to_host d).

Definition set_params (v : list Z) (d : t) : t := ltac:(with_field d params v).
Definition set_parsed_params (v : list Z) (d : t) : t := ltac:(with_field d parsed_params v).
Definition set_parsed (v : bool) (d : t) : t := ltac:(with_field d parsed v).
Definition set_dispatch_chars (v : list Z) (d : t) : t := ltac:(with_field d dispatch_chars v).
Definition set_OSC_string (v : list Z) (d : t) : t := ltac:(with_field d OSC_string v).
Definition set_terminal_to_host (v : list Z) (d : t) : t := ltac:(with_field d terminal_to_host v).

Definition PARAM_MAX : Z := 65535.

(** The constructor *)
Definition make : t := mk [] [] false [] [] [].

Definition append_to_host (s : list Z) (d : t) : t :=
  set_terminal_to_host (terminal_to_host d ++ s) d.

Definition newparamchar (act : Parser.Action) (d : t) : result (Parser.Action * t) :=
  assert_that (Parser.char_present act) "act->char_present";;
  assert_that ((Parser.ch act =? 59) || is_digit (Parser.ch act)) "act->ch == ';' or digit";;
  let '(act, d) :=
    if zlen (params d) <? 100
    then (Parser.set_handled act, set_params (vec_push (params d) (u8 (Parser.ch act))) d)
    else (act, d) in
  Ok (act, set_parsed false d).

Definition collect (act : Parser.Action) (d : t) : result (Parser.Action * t) :=
  assert_that (Parser.char_present act) "act->char_present";;
  if (zlen (dispatch_chars d) <? 8) && (Parser.ch act <=? 255)
  then Ok (Parser.set_handled act,
           set_dispatch_chars (vec_push (dispatch_chars d) (u8 (Parser.ch act))) d)
  else Ok (act, d).

Definition clear (act : Parser.Action) (d : t) : Parser.Action * t :=
  (Parser.set_handled act, set_parsed false (set_dispatch_chars [] (set_params [] d))).

(** One parameter segment of [parse_params]: the value to push, if any.
    [errno] is zero or [ERANGE]. *)
Definition parse_segment (segment_begin : list Z) : option Z :=
  let '(val, consumed, erange) := strtol segment_begin in
  let val := if consumed =? 0 then -1 else val in
  let '(val, errno) := if (PARAM_MAX <? val) || erange then (-1, false) else (val, erange) in
  if negb errno || (consumed =? 0) then Some val else None.

Definition push_param (v : option Z) (parsed : list Z) : list Z :=
  match v with Some x => vec_push parsed x | None => parsed end.

(** The loop over the semicolons, then "get last param".  Each iteration
    moves past one semicolon, so the length of the string is enough fuel. *)
Fixpoint parse_loop (fuel : nat) (segment_begin parsed : list Z) : result (list Z) :=
  match fuel with
  | O => Fault OutOfFuel
  | S fuel' =>
      match strchr segment_begin 59 with
      | None => Ok (push_param (parse_segment segment_begin) parsed)
      | Some segment_end =>
          parse_loop fuel' (drop 1 segment_end) (push_param (parse_segment segment_begin) parsed)
      end
  end.

Definition parse_params (d : t) : result t :=
  if parsed d then Ok d
  else
    ps ← parse_loop (S (length (params d))) (params d) [];
    Ok (set_parsed true (set_parsed_params ps d)).

Definition getparam (N : Z) (defaultval : Z) (d : t) : result (Z * t) :=
  d ← (if parsed d then Ok d else parse_params d);
  ret ← (if N <? zlen (parsed_params d) then vec_get (parsed_params d) N else Ok defaultval);
  Ok (if ret <? 1 then defaultval else ret, d).

Definition param_count (d : t) : result (Z * t) :=
  d ← (if parsed d then Ok d else parse_params d);
  Ok (zlen (parsed_params d), d).

(** [Dispatcher::str]; 34 is the double quote *)
Definition str (d : t) : list Z :=
  snprintf 64 (bytes_of_string "[dispatch=" ++ [34] ++ dispatch_chars d ++ [34]
    ++ bytes_of_string " params=" ++ [34] ++ params d ++ [34] ++ bytes_of_string "]").

Definition OSC_put (act : Parser.Action) (d : t) : result (Parser.Action * t) :=
  assert_that (Parser.char_present act) "act->char_present";;
  if zlen (OSC_string d) <? 256
  then Ok (Parser.set_handled act, set_OSC_string (vec_push (OSC_string d) (Parser.ch act)) d)
  else Ok (act, d).

Definition OSC_start (act : Parser.Action) (d : t) : Parser.Action * t :=
  (Parser.set_handled act, set_OSC_string [] d).

Definition eqb (x y : t) : bool :=
  list_eqb Z.eqb (params x) (params y)
  && list_eqb Z.eqb (parsed_params x) (parsed_params y)
  && Bool.eqb (parsed x) (parsed y)
  && list_eqb Z.eqb (dispatch_chars x) (dispatch_chars y)
  && list_eqb Z.eqb (OSC_string x) (OSC_string y)
  && list_eqb Z.eqb (terminal_to_host x) (terminal_to_host y).

End Dispatcher.

(** ** The registry of terminal functions *)

Definition terminal_function : Type :=
  Framebuffer.t → Dispatcher.t → result (Framebuffer.t * Dispatcher.t).

Inductive Function_Type : Set := ESCAPE | CSI | CONTROL.

Module Function.
Record t : Type := mk {
  function : terminal_function;
  clears_wrap_state : bool }.
End Function.

Abbreviation dispatch_map_t := (gmap (list Z) Function.t).

Module DispatchRegistry.

Record t : Type := mk {
  escape : dispatch_map_t;
  csi : dispatch_map_t;
  control : dispatch_map_t }.

Definition make : t := mk ∅ ∅ ∅.

(** [std::map::insert] does not replace an existing entry. *)
Definition map_insert (k : list Z) (f : Function.t) (m : dispatch_map_t) : dispatch_map_t :=
  match m !! k with Some _ => m | None => <[k := f]> m end.

Definition register_function (type : Function_Type) (dispatch_chars : list Z)
    (f : Function.t) (r : t) : t :=
  match type with
  | ESCAPE => mk (map_insert dispatch_chars f (escape r)) (csi r) (control r)
  | CSI => mk (escape r) (map_insert dispatch_chars f (csi r)) (control r)
  | CONTROL => mk (escape r) (csi r) (map_insert dispatch_chars f (control r))
  end.

Definition map_of (type : Function_Type) (r : t) : dispatch_map_t :=
  match type with ESCAPE => escape r | CSI => csi r | CONTROL => control r end.

(** The static [Function] objects of a source file, in order: each
    constructor registers itself. *)
Definition registration : Type := Function_Type * list Z * Function.t.

Definition register_all (l : list registration) (r : t) : t :=
  fold_left (fun r '(type, chars, f) => register_function type chars f r) l r.

End DispatchRegistry.

(** [Dispatcher::dispatch] *)
Definition set_wrap_pending (b : bool) (fb : Framebuffer.t) : Framebuffer.t :=
  Framebuffer.on_ds (DrawState.set_next_print_will_wrap b) fb.

Definition dispatch (reg : DispatchRegistry.t) (type : Function_Type) (act : Parser.Action)
    (fb : Framebuffer.t) (d : Dispatcher.t)
    : result (Parser.Action * Framebuffer.t * Dispatcher.t) :=
  d ← match type with
      | ESCAPE | CSI =>
          assert_that (Parser.char_present act) "act->char_present";;
          '(_, d) ← Dispatcher.collect
                      (Parser.set_char (Parser.ch act) (Parser.new_action Parser.Collect)) d;
          Ok d
      | CONTROL => Ok d
      end;
  let map := DispatchRegistry.map_of type reg in
  key ← match type with
        | CONTROL =>
            assert_that (Parser.ch act <=? 255) "act->ch <= 255";;
            Ok [u8 (Parser.ch act)]
        | _ => Ok (Dispatcher.dispatch_chars d)
        end;
  match map !! key with
  | None => Ok (act, set_wrap_pending false fb, d)
  | Some f =>
      let act := Parser.set_handled act in
      let fb := if Function.clears_wrap_state f then set_wrap_pending false fb else fb in
      '(fb, d) ← Function.function f fb d;
      Ok (act, fb, d)
  end.
