(* ===== verification/DispatcherProps.v ===== *)
(** * Properties of the dispatcher

    Parameter strings are parsed as the semicolon-separated list of decimal
    numbers they denote, parameters are bounded, and the dispatcher keeps
    its buffers bounded. *)

From S2P Require Import Prelude VtParser TerminalFramebuffer TerminalDispatcher.

Module DispatcherLemmas.
Import Strtol Dispatcher.

(** ** What [parse_params] computes *)

Definition param_char (c : Z) : bool := (c =? 59) || is_digit c.

(** The segments between semicolons: always at least one. *)
Fixpoint segments (s : list Z) : list (list Z) :=
  match s with
  | [] => [[]]
  | c :: s' =>
      if c =? 59 then [] :: segments s'
      else match segments s' with
           | seg :: rest => (c :: seg) :: rest
           | [] => [[c]]
           end
  end.

(** An empty segment and one above [PARAM_MAX] count as missing. *)
Definition segment_value (seg : list Z) : Z :=
  match seg with
  | [] => -1
  | _ => if PARAM_MAX <? digits_value seg then -1 else digits_value seg
  end.

Lemma digit_not_space c : is_digit c = true → is_space c = false.
Proof. unfold is_digit, is_space. lia. Qed.

Lemma take_while_all P s t :
  forallb P s = true → match t with [] => True | c :: _ => P c = false end →
  take_while P (s ++ t) = s.
Proof.
  intros Hs Ht. induction s as [|c s IH]; simpl in *.
  - destruct t; [done|]. simpl. by rewrite Ht.
  - apply andb_true_iff in Hs as [-> Hs]. by rewrite IH.
Qed.

(** A segment followed by the end of the string or a semicolon. *)
Lemma strtol_segment seg t :
  forallb is_digit seg = true → (t = [] ∨ ∃ r, t = 59 :: r) →
  strtol (seg ++ t) =
    if decide (seg = []) then (0, 0, false)
    else if LONG_MAX <? digits_value seg then (LONG_MAX, zlen seg, true)
    else (digits_value seg, zlen seg, false).
Proof.
  intros Hseg Ht. unfold strtol.
  assert (take_while is_space (seg ++ t) = []) as ->.
  { destruct seg as [|c seg]; simpl in *.
    - by destruct Ht as [->|[r ->]].
    - apply andb_true_iff in Hseg as [Hc _]. by rewrite digit_not_space. }
  change (drop (length []) (seg ++ t)) with (seg ++ t).
  cbv zeta.
  assert (match seg ++ t with
          | c :: r => if c =? 45 then (true, r) else if c =? 43 then (false, r)
                      else (false, seg ++ t)
          | [] => (false, seg ++ t)
          end = (false, seg ++ t)) as ->.
  { destruct seg as [|c seg]; simpl in *.
    - by destruct Ht as [->|[r ->]].
    - apply andb_true_iff in Hseg as [Hc _]. unfold is_digit in Hc. by z_bools. }
  rewrite take_while_all; [|done|by destruct Ht as [->|[r ->]]].
  destruct seg as [|c seg]; [done|]. case_decide; [done|].
  pose proof (digits_value_nonneg _ Hseg) as Hnn.
  replace (zlen ((c :: seg) ++ t) - zlen ((c :: seg) ++ t) + zlen (c :: seg))
    with (zlen (c :: seg)) by lia.
  destruct (LONG_MAX <? _); [done|]. unfold LONG_MIN. z_bools. done.
Qed.

Lemma strtol_decimal n : 0 ≤ n ≤ LONG_MAX → strtol (decimal n) = (n, zlen (decimal n), false).
Proof.
  intros Hn. destruct (decimal_spec n) as [Hv Hd]; [lia|].
  rewrite <- (app_nil_r (decimal n)), strtol_segment by auto. rewrite app_nil_r, Hv.
  destruct (decide (decimal n = [])) as [He|_]; [rewrite He in Hv; cbn in Hv; subst n; by vm_compute|].
  by rewrite (proj2 (Z.ltb_ge _ _)) by lia.
Qed.

Lemma parse_segment_value seg t :
  forallb is_digit seg = true → (t = [] ∨ ∃ r, t = 59 :: r) →
  parse_segment (seg ++ t) = Some (segment_value seg).
Proof.
  intros Hseg Ht. unfold parse_segment. rewrite strtol_segment by done.
  destruct seg as [|c seg]; [done|]. case_decide; [done|].
  assert ((zlen (c :: seg) =? 0) = false) as Hz.
  { rewrite zlen_cons. pose proof (zlen_nonneg seg). lia. }
  unfold segment_value. unfold LONG_MAX, PARAM_MAX in *.
  destruct (2 ^ 63 - 1 <? digits_value (c :: seg)) eqn:E1; cbn [fst snd]; rewrite Hz.
  - rewrite orb_true_r. cbn [negb orb].
    by rewrite (proj2 (Z.ltb_lt 65535 (digits_value (c :: seg)))) by lia.
  - rewrite orb_false_r. by destruct (65535 <? digits_value (c :: seg)).
Qed.

Lemma segments_spec s :
  forallb param_char s = true →
  ∃ seg rest, segments s = seg :: rest ∧ forallb is_digit seg = true ∧
    ((s = seg ∧ rest = [] ∧ strchr s 59 = None)
     ∨ ∃ s', s = seg ++ 59 :: s' ∧ rest = segments s' ∧ strchr s 59 = Some (59 :: s')).
Proof.
  induction s as [|c s IH]; intros Hs; simpl in *.
  { exists [], []. split_and!; try done. by left. }
  apply andb_true_iff in Hs as [Hc Hs].
  destruct (c =? 59) eqn:Ec.
  { apply Z.eqb_eq in Ec as ->. exists [], (segments s). split_and!; try done.
    right. by exists s. }
  destruct (IH Hs) as (seg & rest & -> & Hd & Hcase).
  unfold param_char in Hc. rewrite Ec in Hc. simpl in Hc.
  exists (c :: seg), rest. split_and!; [done|simpl; by rewrite Hc|].
  destruct Hcase as [(-> & -> & ->)|(s' & -> & -> & ->)]; [by left|].
  right. by exists s'.
Qed.

Lemma parse_loop_spec fuel s acc :
  forallb param_char s = true → (length s < fuel)%nat →
  parse_loop fuel s acc = Ok (acc ++ (segment_value <$> segments s)).
Proof.
  revert s acc. induction fuel as [|fuel IH]; intros s acc Hs Hf; [lia|]. simpl.
  destruct (segments_spec s Hs) as (seg & rest & Hseg & Hd & Hcase). rewrite Hseg.
  destruct Hcase as [(-> & -> & ->)|(s' & -> & -> & ->)].
  - assert (parse_segment seg = Some (segment_value seg)) as ->; [|done].
    rewrite <- (app_nil_r seg) at 1. apply parse_segment_value; auto.
  - rewrite parse_segment_value by eauto. cbn [drop push_param]. rewrite drop_0, IH.
    + simpl. unfold vec_push. by rewrite <- app_assoc.
    + rewrite forallb_app in Hs. simpl in Hs. by apply andb_true_iff in Hs as [_ Hs].
    + rewrite length_app, length_cons in Hf. lia.
Qed.

(** ** The invariant of the dispatcher *)

Definition param_ok (p : Z) : Prop := -1 ≤ p ≤ PARAM_MAX.

Definition disp_ok (d : t) : Prop :=
  zlen (params d) ≤ 100
  ∧ forallb param_char (params d) = true
  ∧ zlen (dispatch_chars d) ≤ 8
  ∧ zlen (OSC_string d) ≤ 256
  ∧ (parsed d = true → parsed_params d = segment_value <$> segments (params d)).

#[export] Instance disp_ok_dec d : Decision (disp_ok d).
Proof. unfold disp_ok. apply _. Defined.

Lemma segment_value_ok seg : forallb is_digit seg = true → param_ok (segment_value seg).
Proof.
  intros Hs. pose proof (digits_value_nonneg seg Hs). unfold segment_value, param_ok.
  destruct seg; [by vm_compute|]. destruct (_ <? _) eqn:E; unfold PARAM_MAX in *; lia.
Qed.

Lemma segments_digits s :
  forallb param_char s = true → Forall (fun seg => forallb is_digit seg = true) (segments s).
Proof.
  induction s as [|c s IH]; intros Hs; simpl in *; [by repeat constructor|].
  apply andb_true_iff in Hs as [Hc Hs]. specialize (IH Hs).
  destruct (c =? 59) eqn:Ec; [by constructor|].
  unfold param_char in Hc. rewrite Ec in Hc. simpl in Hc.
  destruct (segments s) as [|seg rest]; [by repeat constructor; simpl; rewrite Hc|].
  inversion IH as [|?? Hseg Hrest]; subst. constructor; [simpl; by rewrite Hc|done].
Qed.

(** What a reader of the parameters gets: the parsed list, and a
    dispatcher that differs only in having it cached. *)
Definition parsed_as (d d' : t) : Prop :=
  d' = set_parsed true (set_parsed_params (segment_value <$> segments (params d)) d).

Lemma parse_params_spec d : disp_ok d → ∃ d', parse_params d = Ok d' ∧ parsed_as d d'.
Proof.
  intros (_ & Hp & _ & _ & Hpp). unfold parse_params, parsed_as.
  destruct (parsed d) eqn:E.
  - eexists. split; [done|]. rewrite <- Hpp by done. destruct d; cbn in *. by subst.
  - rewrite parse_loop_spec by (done || lia). eexists. by split.
Qed.

Lemma parsed_as_ok d d' : disp_ok d → parsed_as d d' → disp_ok d'.
Proof. intros (?&?&?&?&?) ->. by split_and!. Qed.

Lemma ensure_parsed d :
  disp_ok d → ∃ d', (if parsed d then Ok d else parse_params d) = Ok d' ∧ parsed_as d d'.
Proof.
  intros Hd. destruct (parsed d) eqn:E; [|by apply parse_params_spec].
  destruct (parse_params_spec d Hd) as (d' & Hd' & Has). unfold parse_params in Hd'.
  rewrite E in Hd'. simplify_eq. eauto.
Qed.

(** The value [getparam] returns. *)
Definition param_value (ps : list Z) (n : nat) (def : Z) : Z :=
  let v := default def (ps !! n) in if v <? 1 then def else v.

Lemma getparam_eq (n : nat) def d :
  disp_ok d → ∃ d', parsed_as d d' ∧
    getparam (Z.of_nat n) def d =
      Ok (param_value (segment_value <$> segments (params d)) n def, d').
Proof.
  intros Hd. destruct (ensure_parsed d Hd) as (d' & Hd' & Has). exists d'. split; [done|].
  unfold getparam. rewrite Hd'. cbn [mbind result_bind]. rewrite Has. cbn [parsed_params set_parsed set_parsed_params].
  set (ps := segment_value <$> segments (params d)). unfold param_value.
  destruct (Z.of_nat n <? zlen ps) eqn:E.
  - destruct (lookup_lt_is_Some_2 ps n) as [x Hx]; [unfold zlen in E; lia|].
    rewrite (proj2 (vec_get_Ok ps (Z.of_nat n) x)); [by rewrite Hx|].
    split; [lia|by rewrite Nat2Z.id].
  - rewrite lookup_ge_None_2; [done|unfold zlen in E; lia].
Qed.

Lemma param_value_range d n def :
  disp_ok d →
  let v := param_value (segment_value <$> segments (params d)) n def in
  v = def ∨ 1 ≤ v ≤ PARAM_MAX.
Proof.
  intros (_ & Hp & _). cbn zeta. unfold param_value.
  destruct ((segment_value <$> segments (params d)) !! n) as [v|] eqn:E; simpl.
  2:{ destruct (def <? 1); by left. }
  destruct (v <? 1) eqn:Ev; [by left|right].
  apply list_lookup_fmap_Some in E as (seg & -> & Hseg).
  pose proof (segments_digits _ Hp) as Hd. rewrite Forall_lookup in Hd.
  pose proof (segment_value_ok seg (Hd _ _ Hseg)) as [??]. lia.
Qed.

(** The specification the terminal functions use. *)
Lemma getparam_spec E n def d :
  disp_ok d → 0 ≤ n →
  wp E (getparam n def d) (fun '(v, d') =>
    disp_ok d' ∧ dispatch_chars d' = dispatch_chars d ∧ (v = def ∨ 1 ≤ v ≤ PARAM_MAX)).
Proof.
  intros Hd Hn. destruct (getparam_eq (Z.to_nat n) def d Hd) as (d' & Has & Heq).
  rewrite Z2Nat.id in Heq by done. rewrite Heq. apply wp_ok.
  split_and!; [by eapply parsed_as_ok|by rewrite Has|by apply param_value_range].
Qed.

Lemma param_count_spec E d :
  disp_ok d →
  wp E (param_count d) (fun '(n, d') =>
    disp_ok d' ∧ dispatch_chars d' = dispatch_chars d ∧ n = zlen (segments (params d))).
Proof.
  intros Hd. unfold param_count. destruct (ensure_parsed d Hd) as (d' & -> & Has).
  cbn [mbind result_bind]. apply wp_ok.
  split_and!; [by eapply parsed_as_ok|by rewrite Has|].
  rewrite Has. cbn. unfold zlen. by rewrite length_fmap.
Qed.
End DispatcherLemmas.
