(* ===== verification/TerminalFunctions.v ===== *)
(** * The terminal functions

    [src/alfalfa/src/terminal/terminalfunctions.cc]: the routines activated
    by control sequences, escape sequences and control characters, and the
    static objects that register them. *)

From S2P Require Import Prelude VtParser TerminalFramebuffer TerminalDispatcher.

Section functions.
Implicit Types (fb : Framebuffer.t) (disp : Dispatcher.t).

Local Abbreviation on_ds := Framebuffer.on_ds.
Local Abbreviation cursor_col fb := (DrawState.cursor_col (Framebuffer.ds fb)).
Local Abbreviation cursor_row fb := (DrawState.cursor_row (Framebuffer.ds fb)).
Local Abbreviation width fb := (DrawState.width (Framebuffer.ds fb)).
Local Abbreviation height fb := (DrawState.height (Framebuffer.ds fb)).

Definition clearline (row start end_ : Z) fb : result Framebuffer.t :=
  for_range start (end_ + 1) (fun col fb => Framebuffer.reset_cell row col fb) fb.

(** [for ( int y = lo; y < hi; y++ ) fb->reset_row( fb->get_mutable_row( y ) )] *)
Definition reset_rows (lo hi : Z) fb : result Framebuffer.t :=
  for_range lo hi (fun y fb => Framebuffer.reset_row y fb) fb.

(** Erase in line *)
Definition CSI_EL fb disp : result (Framebuffer.t * Dispatcher.t) :=
  '(p, disp) ← Dispatcher.getparam 0 0 disp;
  fb ← (if p =? 0 then clearline (-1) (cursor_col fb) (width fb - 1) fb
        else if p =? 1 then clearline (-1) 0 (cursor_col fb) fb
        else if p =? 2 then Framebuffer.reset_row (-1) fb
        else Ok fb);
  Ok (fb, disp).

(** Erase in display *)
Definition CSI_ED fb disp : result (Framebuffer.t * Dispatcher.t) :=
  '(p, disp) ← Dispatcher.getparam 0 0 disp;
  fb ← (if p =? 0 then
          fb ← clearline (-1) (cursor_col fb) (width fb - 1) fb;
          reset_rows (cursor_row fb + 1) (height fb) fb
        else if p =? 1 then
          fb ← reset_rows 0 (cursor_row fb) fb;
          clearline (-1) 0 (cursor_col fb) fb
        else if p =? 2 then reset_rows 0 (height fb) fb
        else Ok fb);
  Ok (fb, disp).

(** Cursor movement, relative (A B C D) and absolute (H f) *)
Definition CSI_cursormove fb disp : result (Framebuffer.t * Dispatcher.t) :=
  '(num, disp) ← Dispatcher.getparam 0 1 disp;
  c ← vec_get (Dispatcher.dispatch_chars disp) 0;
  if c =? 65 then Ok (on_ds (DrawState.move_row (- num) true) fb, disp)
  else if c =? 66 then Ok (on_ds (DrawState.move_row num true) fb, disp)
  else if c =? 67 then Ok (on_ds (DrawState.move_col num true false) fb, disp)
  else if c =? 68 then Ok (on_ds (DrawState.move_col (- num) true false) fb, disp)
  else if (c =? 72) || (c =? 102) then
    '(x, disp) ← Dispatcher.getparam 0 1 disp;
    '(y, disp) ← Dispatcher.getparam 1 1 disp;
    let fb := on_ds (DrawState.move_row (x - 1) false) fb in
    Ok (on_ds (DrawState.move_col (y - 1) false false) fb, disp)
  else Ok (fb, disp).

(** Device attributes, plain and secondary *)
Definition CSI_DA fb disp : result (Framebuffer.t * Dispatcher.t) :=
  Ok (fb, Dispatcher.append_to_host (27 :: bytes_of_string "[?62c") disp).

Definition CSI_SDA fb disp : result (Framebuffer.t * Dispatcher.t) :=
  Ok (fb, Dispatcher.append_to_host (27 :: bytes_of_string "[>1;10;0c") disp).

(** Screen alignment diagnostic; 69 is [E] *)
Definition Esc_DECALN fb disp : result (Framebuffer.t * Dispatcher.t) :=
  fb ← for_range 0 (height fb) (fun y fb =>
         for_range 0 (width fb) (fun x fb =>
           fb ← Framebuffer.reset_cell y x fb;
           Framebuffer.update_cell y x
             (fun c => Cell.set_contents (vec_push (Cell.contents c) 69) c) fb) fb) fb;
  Ok (fb, disp).

(** Line feed, index, vertical tab, form feed *)
Definition Ctrl_LF fb disp : result (Framebuffer.t * Dispatcher.t) :=
  fb ← Framebuffer.move_rows_autoscroll 1 fb; Ok (fb, disp).

Definition Ctrl_CR fb disp : result (Framebuffer.t * Dispatcher.t) :=
  Ok (on_ds (DrawState.move_col 0 false false) fb, disp).

Definition Ctrl_BS fb disp : result (Framebuffer.t * Dispatcher.t) :=
  Ok (on_ds (DrawState.move_col (-1) true false) fb, disp).

(** Reverse index *)
Definition Ctrl_RI fb disp : result (Framebuffer.t * Dispatcher.t) :=
  fb ← Framebuffer.move_rows_autoscroll (-1) fb; Ok (fb, disp).

(** Newline *)
Definition Ctrl_NEL fb disp : result (Framebuffer.t * Dispatcher.t) :=
  let fb := on_ds (DrawState.move_col 0 false false) fb in
  fb ← Framebuffer.move_rows_autoscroll 1 fb; Ok (fb, disp).

(** Horizontal tab: preserves the wrap state *)
Definition Ctrl_HT fb disp : result (Framebuffer.t * Dispatcher.t) :=
  col ← DrawState.get_next_tab (Framebuffer.ds fb);
  let col := if col =? -1 then width fb - 1 else col in
  let wrap_state_save := DrawState.next_print_will_wrap (Framebuffer.ds fb) in
  let fb := on_ds (DrawState.move_col col false false) fb in
  Ok (on_ds (DrawState.set_next_print_will_wrap wrap_state_save) fb, disp).

Definition Ctrl_HTS fb disp : result (Framebuffer.t * Dispatcher.t) :=
  fb ← Framebuffer.on_ds_result DrawState.set_tab fb; Ok (fb, disp).

(** Tabulation clear *)
Definition CSI_TBC fb disp : result (Framebuffer.t * Dispatcher.t) :=
  '(param, disp) ← Dispatcher.getparam 0 0 disp;
  fb ← (if param =? 0 then
          Framebuffer.on_ds_result (DrawState.clear_tab (cursor_col fb)) fb
        else if param =? 3 then
          let fb := on_ds DrawState.clear_default_tabs fb in
          for_range 0 (width fb) (fun x fb =>
            Framebuffer.on_ds_result (DrawState.clear_tab x) fb) fb
        else Ok fb);
  Ok (fb, disp).

(** A [bool *] into the draw state is the setter of the member it points
    to; null is [None]. *)
Definition mode_setter : Type := bool → DrawState.t → DrawState.t.

Definition get_DEC_mode (param : Z) fb : result (Framebuffer.t * option mode_setter) :=
  if param =? 1 then Ok (fb, Some DrawState.set_application_mode_cursor_keys)
  else if param =? 3 then
    let fb := on_ds (DrawState.move_row 0 false) fb in
    let fb := on_ds (DrawState.move_col 0 false false) fb in
    fb ← reset_rows 0 (height fb) fb;
    Ok (fb, None)
  else if param =? 5 then Ok (fb, Some DrawState.set_reverse_video)
  else if param =? 6 then
    let fb := on_ds (DrawState.move_row 0 false) fb in
    let fb := on_ds (DrawState.move_col 0 false false) fb in
    Ok (fb, Some DrawState.set_origin_mode)
  else if param =? 7 then Ok (fb, Some DrawState.set_auto_wrap_mode)
  else if param =? 25 then Ok (fb, Some DrawState.set_cursor_visible)
  else Ok (fb, None).

Definition get_ANSI_mode (param : Z) fb : result (Framebuffer.t * option mode_setter) :=
  if param =? 4 then Ok (fb, Some DrawState.set_insert_mode) else Ok (fb, None).

(** The loop shared by [CSI_DECSM], [CSI_DECRM], [CSI_SM] and [CSI_RM]:
    every parameter selects a mode that is set to [v]. *)
Definition set_modes (get_mode : Z → Framebuffer.t → result (Framebuffer.t * option mode_setter))
    (v : bool) fb disp : result (Framebuffer.t * Dispatcher.t) :=
  '(count, disp) ← Dispatcher.param_count disp;
  for_range 0 count (fun i '(fb, disp) =>
    '(p, disp) ← Dispatcher.getparam i 0 disp;
    '(fb, mode) ← get_mode p fb;
    Ok (match mode with Some set => on_ds (set v) fb | None => fb end, disp)) (fb, disp).

Definition CSI_DECSM fb disp := set_modes get_DEC_mode true fb disp.
Definition CSI_DECRM fb disp := set_modes get_DEC_mode false fb disp.
Definition CSI_SM fb disp := set_modes get_ANSI_mode true fb disp.
Definition CSI_RM fb disp := set_modes get_ANSI_mode false fb disp.

(** Set top and bottom margins *)
Definition CSI_DECSTBM fb disp : result (Framebuffer.t * Dispatcher.t) :=
  '(top, disp) ← Dispatcher.getparam 0 1 disp;
  '(bottom, disp) ← Dispatcher.getparam 1 (height fb) disp;
  if (bottom <=? top) || (height fb <? top) || ((top =? 0) && (bottom =? 1))
  then Ok (fb, disp)
  else
    let fb := on_ds (DrawState.set_scrolling_region (top - 1) (bottom - 1)) fb in
    let fb := on_ds (DrawState.move_row 0 false) fb in
    Ok (on_ds (DrawState.move_col 0 false false) fb, disp).

Definition Ctrl_BEL fb disp : result (Framebuffer.t * Dispatcher.t) :=
  Ok (Framebuffer.ring_bell fb, disp).

(** Select graphics rendition *)
Definition CSI_SGR fb disp : result (Framebuffer.t * Dispatcher.t) :=
  '(count, disp) ← Dispatcher.param_count disp;
  '(p0, disp) ← Dispatcher.getparam 0 (-1) disp;
  '(p1, disp) ← Dispatcher.getparam 1 (-1) disp;
  if (count =? 3) && (p0 =? 38) && (p1 =? 5) then
    '(p2, disp) ← Dispatcher.getparam 2 0 disp;
    Ok (on_ds (DrawState.set_foreground_color p2) fb, disp)
  else if (count =? 3) && (p0 =? 48) && (p1 =? 5) then
    '(p2, disp) ← Dispatcher.getparam 2 0 disp;
    Ok (on_ds (DrawState.set_background_color p2) fb, disp)
  else
    for_range 0 count (fun i '(fb, disp) =>
      '(rendition, disp) ← Dispatcher.getparam i 0 disp;
      Ok (on_ds (DrawState.add_rendition rendition) fb, disp)) (fb, disp).

Definition Esc_DECSC fb disp : result (Framebuffer.t * Dispatcher.t) :=
  Ok (on_ds DrawState.save_cursor fb, disp).

Definition Esc_DECRC fb disp : result (Framebuffer.t * Dispatcher.t) :=
  Ok (on_ds DrawState.restore_cursor fb, disp).

(** Device status report *)
Definition CSI_DSR fb disp : result (Framebuffer.t * Dispatcher.t) :=
  '(param, disp) ← Dispatcher.getparam 0 0 disp;
  if param =? 5 then Ok (fb, Dispatcher.append_to_host (27 :: bytes_of_string "[0n") disp)
  else if param =? 6 then
    let cpr := snprintf 32 ([27; 91] ++ decimal (cursor_row fb + 1) ++ [59]
                            ++ decimal (cursor_col fb + 1) ++ [82]) in
    Ok (fb, Dispatcher.append_to_host cpr disp)
  else Ok (fb, disp).

(** Insert and delete line *)
Definition CSI_IL fb disp : result (Framebuffer.t * Dispatcher.t) :=
  '(lines, disp) ← Dispatcher.getparam 0 1 disp;
  fb ← for_range 0 lines (fun _ fb => Framebuffer.insert_line (cursor_row fb) fb) fb;
  Ok (on_ds (DrawState.move_col 0 false false) fb, disp).

Definition CSI_DL fb disp : result (Framebuffer.t * Dispatcher.t) :=
  '(lines, disp) ← Dispatcher.getparam 0 1 disp;
  fb ← for_range 0 lines (fun _ fb => Framebuffer.delete_line (cursor_row fb) fb) fb;
  Ok (on_ds (DrawState.move_col 0 false false) fb, disp).

(** Insert and delete characters *)
Definition CSI_ICH fb disp : result (Framebuffer.t * Dispatcher.t) :=
  '(cells, disp) ← Dispatcher.getparam 0 1 disp;
  fb ← for_range 0 cells (fun _ fb =>
         Framebuffer.insert_cell (cursor_row fb) (cursor_col fb) fb) fb;
  Ok (fb, disp).

Definition CSI_DCH fb disp : result (Framebuffer.t * Dispatcher.t) :=
  '(cells, disp) ← Dispatcher.getparam 0 1 disp;
  fb ← for_range 0 cells (fun _ fb =>
         Framebuffer.delete_cell (cursor_row fb) (cursor_col fb) fb) fb;
  Ok (fb, disp).

(** Line and character position absolute *)
Definition CSI_VPA fb disp : result (Framebuffer.t * Dispatcher.t) :=
  '(row, disp) ← Dispatcher.getparam 0 1 disp;
  Ok (on_ds (DrawState.move_row (row - 1) false) fb, disp).

Definition CSI_HPA fb disp : result (Framebuffer.t * Dispatcher.t) :=
  '(col, disp) ← Dispatcher.getparam 0 1 disp;
  Ok (on_ds (DrawState.move_col (col - 1) false false) fb, disp).

(** Erase character *)
Definition CSI_ECH fb disp : result (Framebuffer.t * Dispatcher.t) :=
  '(num, disp) ← Dispatcher.getparam 0 1 disp;
  let limit := cursor_col fb + num - 1 in
  let limit := if width fb <=? limit then width fb - 1 else limit in
  fb ← clearline (-1) (cursor_col fb) limit fb;
  Ok (fb, disp).

(** Reset to initial state, soft reset *)
Definition Esc_RIS fb disp : result (Framebuffer.t * Dispatcher.t) :=
  fb ← Framebuffer.reset fb; Ok (fb, disp).

Definition CSI_DECSTR fb disp : result (Framebuffer.t * Dispatcher.t) :=
  Ok (Framebuffer.soft_reset fb, disp).

(** Operating system command: window title and icon name.  48, 49, 50 are
    the digits 0, 1, 2; 59 is the semicolon. *)
Definition OSC_dispatch (act : Parser.Action) fb disp : Parser.Action * Framebuffer.t :=
  match Dispatcher.OSC_string disp with
  | c0 :: c1 :: newtitle =>
      if ((c0 =? 48) || (c0 =? 49) || (c0 =? 50)) && (c1 =? 59) then
        (Parser.set_handled act,
         if c0 =? 48 then Framebuffer.set_window_title newtitle (Framebuffer.set_icon_name newtitle fb)
         else if c0 =? 49 then Framebuffer.set_icon_name newtitle fb
         else if c0 =? 50 then Framebuffer.set_window_title newtitle fb
         else fb)
      else (act, fb)
  | _ => (act, fb)
  end.

(** Scroll "down" (terminfo indn) and "up" (terminfo rin) *)
Definition CSI_SD fb disp : result (Framebuffer.t * Dispatcher.t) :=
  '(n, disp) ← Dispatcher.getparam 0 1 disp;
  fb ← Framebuffer.scroll n fb; Ok (fb, disp).

Definition CSI_SU fb disp : result (Framebuffer.t * Dispatcher.t) :=
  '(n, disp) ← Dispatcher.getparam 0 1 disp;
  fb ← Framebuffer.scroll (- n) fb; Ok (fb, disp).

End functions.

(** ** The registered functions, in source order *)

Definition registrations : list DispatchRegistry.registration :=
  let csi s f := (CSI, bytes_of_string s, Function.mk f true) in
  let csi_keep s f := (CSI, bytes_of_string s, Function.mk f false) in
  let esc s f := (ESCAPE, bytes_of_string s, Function.mk f true) in
  let ctrl c f := (CONTROL, [c], Function.mk f true) in
  [ csi "K" CSI_EL; csi "J" CSI_ED;
    csi "A" CSI_cursormove; csi "B" CSI_cursormove; csi "C" CSI_cursormove;
    csi "D" CSI_cursormove; csi "H" CSI_cursormove; csi "f" CSI_cursormove;
    csi "c" CSI_DA; csi ">c" CSI_SDA;
    esc "#8" Esc_DECALN;
    ctrl 0x0A Ctrl_LF; ctrl 0x84 Ctrl_LF; ctrl 0x0B Ctrl_LF; ctrl 0x0C Ctrl_LF;
    ctrl 0x0D Ctrl_CR; ctrl 0x08 Ctrl_BS; ctrl 0x8D Ctrl_RI; ctrl 0x85 Ctrl_NEL;
    (CONTROL, [0x09], Function.mk Ctrl_HT false);
    ctrl 0x88 Ctrl_HTS;
    csi_keep "g" CSI_TBC;
    csi_keep "?h" CSI_DECSM; csi_keep "?l" CSI_DECRM;
    csi "h" CSI_SM; csi "l" CSI_RM;
    csi "r" CSI_DECSTBM;
    ctrl 0x07 Ctrl_BEL;
    csi_keep "m" CSI_SGR;
    esc "7" Esc_DECSC; esc "8" Esc_DECRC;
    csi "n" CSI_DSR; csi "L" CSI_IL; csi "M" CSI_DL; csi "@" CSI_ICH; csi "P" CSI_DCH;
    csi "d" CSI_VPA; csi "G" CSI_HPA; csi "`" CSI_HPA; csi "X" CSI_ECH;
    esc "c" Esc_RIS; csi "!p" CSI_DECSTR;
    csi "S" CSI_SD; csi "T" CSI_SU ].

Definition global_dispatch_registry : DispatchRegistry.t :=
  DispatchRegistry.register_all registrations DispatchRegistry.make.
