(* ===== verification/FunctionSafety.v ===== *)
(** * Safety of the terminal functions

    Every function that [terminalfunctions.cc] registers keeps the
    framebuffer and the dispatcher well formed and completes normally, for
    every parameter string. *)

From S2P Require Import Prelude VtParser TerminalFramebuffer FramebufferWf TerminalDispatcher DispatcherProps TerminalFunctions.

Module FunctionLemmas.
Import DispatcherLemmas.

(** ** Composition *)

Section kept.
Context (E : fault → Prop).
Implicit Types (f g : Framebuffer.t).

Lemma kept_after f g m : fb_kept f g → wp E m (fb_kept g) → wp E m (fb_kept f).
Proof. intros Hg Hm. eapply wp_weaken; [exact Hm|]. intros h. by apply fb_kept_trans. Qed.

Lemma grid_kept f m : wp E m (fb_grid f) → wp E m (fb_kept f).
Proof. intros Hm. eapply wp_weaken; [exact Hm|]. apply fb_grid_kept. Qed.

Lemma kept_bind {B} f m (k : Framebuffer.t → result B) P :
  wp E m (fb_kept f) → (∀ g, fb_kept f g → wp E (k g) P) → wp E (m ≫= k) P.
Proof. intros Hm Hk. apply wp_bind. eapply wp_weaken; [exact Hm|exact Hk]. Qed.

Lemma for_range_kept lo hi body f :
  fb_ok f →
  (∀ j g, lo ≤ j < hi → fb_kept f g → wp E (body j g) (fb_kept g)) →
  wp E (for_range lo hi body f) (fb_kept f).
Proof.
  intros Hf Hbody. apply for_range_inv; [by apply fb_kept_refl|].
  intros j g Hj Hg. eapply kept_after; [exact Hg|]. by apply Hbody.
Qed.

Lemma on_ds_kept g f h : ds_keeps h → fb_kept g f → fb_kept g (Framebuffer.on_ds h f).
Proof. intros Hh Hf. eapply fb_kept_trans; [exact Hf|]. apply on_ds_ok; [done|apply Hf]. Qed.

(** ** Loops over the grid *)

Lemma clearline_ok start end_ f :
  fb_ok f → 0 ≤ start → end_ < fb_width f →
  wp E (clearline (-1) start end_ f) (fb_kept f).
Proof.
  intros Hf Hs He. apply for_range_kept; [done|]. intros j g Hj (Hg & Hw & _).
  apply grid_kept, reset_cell_ok; [done|by apply index_cursor|]. rewrite index_col; lia.
Qed.

Lemma reset_rows_ok lo hi f :
  fb_ok f → 0 ≤ lo → hi ≤ fb_height f → wp E (reset_rows lo hi f) (fb_kept f).
Proof.
  intros Hf Hl Hh. apply for_range_kept; [done|]. intros j g Hj (Hg & _ & Hgh).
  apply grid_kept, reset_row_ok; [done|]. rewrite index_row; lia.
Qed.

(** [n] times an operation on the cursor's line or cell *)
Lemma repeat_kept n op f :
  fb_ok f → (∀ g, fb_ok g → wp E (op g) (fb_grid g)) →
  wp E (for_range 0 n (fun _ g => op g) f) (fb_kept f).
Proof.
  intros Hf Hop. apply for_range_kept; [done|]. intros j g _ [Hg _]. by apply grid_kept, Hop.
Qed.
End kept.

Lemma move_row_kept n rel g f :
  fb_kept g f → fb_kept g (Framebuffer.on_ds (DrawState.move_row n rel) f).
Proof. apply on_ds_kept, move_row_keeps. Qed.

Lemma move_col_kept n rel imp g f :
  fb_kept g f → fb_kept g (Framebuffer.on_ds (DrawState.move_col n rel imp) f).
Proof. apply on_ds_kept, move_col_keeps. Qed.

Lemma set_flag_keeps (v : bool) :
  ds_keeps (DrawState.set_next_print_will_wrap v)
  ∧ ds_keeps (DrawState.set_application_mode_cursor_keys v)
  ∧ ds_keeps (DrawState.set_reverse_video v)
  ∧ ds_keeps (DrawState.set_origin_mode v)
  ∧ ds_keeps (DrawState.set_auto_wrap_mode v)
  ∧ ds_keeps (DrawState.set_cursor_visible v)
  ∧ ds_keeps (DrawState.set_insert_mode v).
Proof. split_and!; ds_prove. Qed.

Lemma set_wrap_pending_kept b f : fb_ok f → fb_kept f (set_wrap_pending b f).
Proof. apply on_ds_ok, set_flag_keeps. Qed.

#[export] Hint Resolve move_row_kept move_col_kept fb_kept_refl set_wrap_pending_kept : natcp.

(** ** The functions *)

(** A control sequence is dispatched with its final character collected. *)
Definition fun_safe (type : Function_Type) (f : terminal_function) : Prop :=
  ∀ fb disp, fb_ok fb → disp_ok disp →
    (type = CSI → Dispatcher.dispatch_chars disp ≠ []) →
    safe (f fb disp) (fun '(fb', disp') => fb_kept fb fb' ∧ disp_ok disp').

Ltac fun_intro := intros f d Hf Hd Hdc.

(** Read one parameter. *)
Ltac param v :=
  apply wp_bind; eapply wp_weaken; [apply getparam_spec; [done|lia]|];
  let d := fresh "d" in let Hd := fresh "Hd" in let Hdc := fresh "Hdc" in
  let Hv := fresh "H" v in
  intros [v d] (Hd & Hdc & Hv); cbn beta iota zeta.

(** The framebuffer part of a function, then its return. *)
Ltac fb_part := eapply kept_bind; [|intros ? ?; by apply wp_ok].

Lemma append_to_host_ok s d : disp_ok d → disp_ok (Dispatcher.append_to_host s d).
Proof. by intros (?&?&?&?&?). Qed.

Lemma CSI_EL_safe ty : fun_safe ty CSI_EL.
Proof.
  fun_intro. param p. pose proof Hf as ((_&?&_)&_). fb_part.
  split_ifs; auto using wp_ok with natcp.
  - apply clearline_ok; [done|lia..].
  - apply clearline_ok; [done|lia..].
  - apply grid_kept, reset_row_ok; [done|by apply index_cursor].
Qed.

Lemma CSI_ED_safe ty : fun_safe ty CSI_ED.
Proof.
  fun_intro. param p. pose proof Hf as ((_&?&?&_)&_). fb_part.
  split_ifs; auto using wp_ok with natcp.
  - eapply kept_bind; [apply clearline_ok; [done|lia..]|]. intros g Hg.
    eapply kept_after; [exact Hg|]. pose proof (proj1 Hg) as ((_&?&?&_)&_).
    apply reset_rows_ok; [apply Hg|lia..].
  - eapply kept_bind; [apply reset_rows_ok; [done|lia..]|]. intros g Hg.
    eapply kept_after; [exact Hg|]. pose proof (proj1 Hg) as ((_&?&?&_)&_).
    apply clearline_ok; [apply Hg|lia..].
  - apply reset_rows_ok; [done|lia..].
Qed.

Lemma CSI_cursormove_safe : fun_safe CSI CSI_cursormove.
Proof.
  fun_intro. param num. specialize (Hdc eq_refl).
  destruct (Dispatcher.dispatch_chars d0) as [|c cs] eqn:Hcs; [congruence|].
  change (vec_get (c :: cs) 0) with (Ok c). cbn [mbind result_bind].
  destruct (c =? 65); [apply wp_ok; auto with natcp|].
  destruct (c =? 66); [apply wp_ok; auto with natcp|].
  destruct (c =? 67); [apply wp_ok; auto with natcp|].
  destruct (c =? 68); [apply wp_ok; auto with natcp|].
  destruct (_ || _); [|apply wp_ok; auto with natcp].
  param x. param y. apply wp_ok. auto with natcp.
Qed.

Lemma CSI_DA_safe ty : fun_safe ty CSI_DA.
Proof. fun_intro. apply wp_ok. auto using append_to_host_ok with natcp. Qed.

Lemma CSI_SDA_safe ty : fun_safe ty CSI_SDA.
Proof. fun_intro. apply wp_ok. auto using append_to_host_ok with natcp. Qed.

Lemma cell_push_ok x c :
  cell_ok c → zlen (Cell.contents c) < 16 →
  cell_ok (Cell.set_contents (vec_push (Cell.contents c) x) c).
Proof.
  intros (? & Hw & _) Hn. split_and!; [done| |cbn; rewrite zlen_push; lia].
  destruct Hw as [?|[? _]]; [by left|right]. split; [done|]. cbn. unfold vec_push.
  by destruct (Cell.contents c).
Qed.

Lemma Esc_DECALN_safe ty : fun_safe ty Esc_DECALN.
Proof.
  fun_intro. fb_part. apply for_range_kept; [done|]. intros y g Hy (Hg & _ & Hh).
  apply for_range_kept; [done|]. intros x h Hx (Hk & Hkw & Hkh).
  unfold Framebuffer.reset_cell. rewrite update_cell_fuse.
  apply grid_kept, update_cell_ok; [done|rewrite index_row; lia|rewrite index_col; lia|].
  intros c Hc. apply (cell_push_ok 69 (Cell.reset _ c)); [|by vm_compute].
  auto with natcp.
Qed.

Lemma Ctrl_LF_safe ty : fun_safe ty Ctrl_LF.
Proof. fun_intro. fb_part. by apply move_rows_autoscroll_ok. Qed.

Lemma Ctrl_RI_safe ty : fun_safe ty Ctrl_RI.
Proof. fun_intro. fb_part. by apply move_rows_autoscroll_ok. Qed.

Lemma Ctrl_CR_safe ty : fun_safe ty Ctrl_CR.
Proof. fun_intro. apply wp_ok. auto with natcp. Qed.

Lemma Ctrl_BS_safe ty : fun_safe ty Ctrl_BS.
Proof. fun_intro. apply wp_ok. auto with natcp. Qed.

Lemma Ctrl_NEL_safe ty : fun_safe ty Ctrl_NEL.
Proof.
  fun_intro. unfold Ctrl_NEL. cbv zeta. fb_part.
  eapply kept_after; [|by apply move_rows_autoscroll_ok, on_ds_ok; [apply move_col_keeps|]].
  auto with natcp.
Qed.

Lemma Ctrl_HT_safe ty : fun_safe ty Ctrl_HT.
Proof.
  fun_intro. apply wp_bind. eapply wp_weaken; [apply get_next_tab_spec, Hf|]. intros col _.
  apply wp_ok. split; [|done]. apply on_ds_kept; [apply set_flag_keeps|]. auto with natcp.
Qed.

Lemma Ctrl_HTS_safe ty : fun_safe ty Ctrl_HTS.
Proof. fun_intro. fb_part. apply on_ds_result_ok; [done|]. apply set_tab_ok, Hf. Qed.

Lemma CSI_TBC_safe ty : fun_safe ty CSI_TBC.
Proof.
  fun_intro. param p. pose proof Hf as (Hds&_). pose proof Hds as (_&?&_). fb_part.
  split_ifs; auto using wp_ok with natcp.
  - apply on_ds_result_ok; [done|]. by apply clear_tab_ok.
  - pose proof (on_ds_ok _ _ clear_default_tabs_keeps Hf) as Hk.
    eapply kept_after; [exact Hk|]. apply for_range_kept; [apply Hk|].
    intros x g Hx (Hg & Hw & _). apply on_ds_result_ok; [done|].
    apply clear_tab_ok; [apply Hg|]. rewrite Hw. lia.
Qed.

(** Mode lookup has side effects; the setter it returns keeps the state
    well formed. *)
Definition mode_safe (get : Z → Framebuffer.t → result (Framebuffer.t * option mode_setter)) :=
  ∀ p f, fb_ok f → safe (get p f) (fun '(f', m) =>
    fb_kept f f' ∧ match m with Some set => ∀ v, ds_keeps (set v) | None => True end).

Lemma home_kept f :
  fb_ok f → fb_kept f (Framebuffer.on_ds (DrawState.move_col 0 false false)
                         (Framebuffer.on_ds (DrawState.move_row 0 false) f)).
Proof. auto with natcp. Qed.

Lemma get_DEC_mode_safe : mode_safe get_DEC_mode.
Proof.
  intros p f Hf. unfold get_DEC_mode.
  split_ifs; try (apply wp_ok; split; [by auto using home_kept with natcp|];
    first [done|intros v; apply set_flag_keeps]).
  pose proof (home_kept f Hf) as Hh. eapply kept_bind.
  - eapply kept_after; [exact Hh|]. apply reset_rows_ok; [apply Hh|done|].
    apply Z.eq_le_incl. by rewrite (proj2 (proj2 Hh)).
  - intros g Hg. by apply wp_ok.
Qed.

Lemma get_ANSI_mode_safe : mode_safe get_ANSI_mode.
Proof.
  intros p f Hf. unfold get_ANSI_mode.
  split_ifs; apply wp_ok; (split; [by auto with natcp|]); [|done].
  intros v. apply set_flag_keeps.
Qed.

(** A loop that reads the parameters one by one. *)
Lemma param_loop_safe n f d body :
  fb_ok f → disp_ok d →
  (∀ i g d', 0 ≤ i → fb_ok g → disp_ok d' →
     safe (body i (g, d')) (fun '(g', d'') => fb_kept g g' ∧ disp_ok d'')) →
  safe (for_range 0 n body (f, d)) (fun '(f', d') => fb_kept f f' ∧ disp_ok d').
Proof.
  intros Hf Hd Hbody.
  apply (for_range_inv _ (fun '(f', d') => fb_kept f f' ∧ disp_ok d')).
  { auto with natcp. }
  intros i [g d'] Hi [Hg Hd']. eapply wp_weaken; [apply Hbody; [lia|apply Hg|done]|].
  intros [g' d''] [Hg' ?]. split; [by eapply fb_kept_trans|done].
Qed.

Lemma set_modes_safe get v ty : mode_safe get → fun_safe ty (set_modes get v).
Proof.
  intros Hget. fun_intro. apply wp_bind. eapply wp_weaken; [by apply param_count_spec|].
  intros [count d1] (Hd1 & _ & _). apply param_loop_safe; [done..|].
  intros i g d2 Hi Hg Hd2. param p. apply wp_bind.
  eapply wp_weaken; [by apply Hget|]. intros [g' [set|]] [Hg' Hset]; cbn beta iota.
  - apply wp_ok. split; [by apply on_ds_kept|done].
  - by apply wp_ok.
Qed.

Lemma CSI_DECSM_safe ty : fun_safe ty CSI_DECSM.
Proof. apply set_modes_safe, get_DEC_mode_safe. Qed.

Lemma CSI_DECRM_safe ty : fun_safe ty CSI_DECRM.
Proof. apply set_modes_safe, get_DEC_mode_safe. Qed.

Lemma CSI_SM_safe ty : fun_safe ty CSI_SM.
Proof. apply set_modes_safe, get_ANSI_mode_safe. Qed.

Lemma CSI_RM_safe ty : fun_safe ty CSI_RM.
Proof. apply set_modes_safe, get_ANSI_mode_safe. Qed.

Lemma CSI_DECSTBM_safe ty : fun_safe ty CSI_DECSTBM.
Proof.
  fun_intro. param tp. param bt. destruct (_ || _) eqn:Hguard.
  { apply wp_ok. auto with natcp. }
  apply wp_ok. split; [|done]. apply move_col_kept, move_row_kept.
  apply set_ds_ok; [done|]. apply set_scrolling_region_ok; [apply Hf|]. lia.
Qed.

Lemma Ctrl_BEL_safe ty : fun_safe ty Ctrl_BEL.
Proof. fun_intro. apply wp_ok. by auto with natcp. Qed.

Lemma CSI_SGR_safe ty : fun_safe ty CSI_SGR.
Proof.
  fun_intro. apply wp_bind. eapply wp_weaken; [by apply param_count_spec|].
  intros [count d1] (Hd1 & _ & _). cbn beta iota. param p0. param p1.
  destruct (_ && _).
  { param p2. apply wp_ok. split; [|done]. apply on_ds_ok; [apply set_foreground_color_keeps|done]. }
  destruct (_ && _).
  { param p2. apply wp_ok. split; [|done]. apply on_ds_ok; [apply set_background_color_keeps|done]. }
  apply param_loop_safe; [done..|]. intros i g d2' Hi Hg Hd2'. param r. apply wp_ok.
  split; [|done]. apply on_ds_ok; [apply add_rendition_keeps|done].
Qed.

Lemma Esc_DECSC_safe ty : fun_safe ty Esc_DECSC.
Proof. fun_intro. apply wp_ok. split; [apply on_ds_ok; [apply save_cursor_keeps|done]|done]. Qed.

Lemma Esc_DECRC_safe ty : fun_safe ty Esc_DECRC.
Proof. fun_intro. apply wp_ok. split; [apply on_ds_ok; [apply restore_cursor_keeps|done]|done]. Qed.

Lemma CSI_DSR_safe ty : fun_safe ty CSI_DSR.
Proof. fun_intro. param p. split_ifs; apply wp_ok; auto using append_to_host_ok with natcp. Qed.

(** The four functions that repeat an operation at the cursor. *)
Lemma cursor_line_ok (op : Z → Framebuffer.t → result Framebuffer.t) n f :
  (∀ row g, fb_ok g → safe (op row g) (fb_grid g)) → fb_ok f →
  safe (for_range 0 n (fun _ g => op (DrawState.cursor_row (Framebuffer.ds g)) g) f) (fb_kept f).
Proof. intros Hop Hf. apply repeat_kept; [done|]. intros g Hg. by apply Hop. Qed.

Lemma CSI_IL_safe ty : fun_safe ty CSI_IL.
Proof.
  fun_intro. param n. eapply kept_bind.
  { apply (cursor_line_ok Framebuffer.insert_line); [|done]. intros. by apply insert_line_ok. }
  intros g Hg. apply wp_ok. auto with natcp.
Qed.

Lemma CSI_DL_safe ty : fun_safe ty CSI_DL.
Proof.
  fun_intro. param n. eapply kept_bind.
  { apply (cursor_line_ok Framebuffer.delete_line); [|done]. intros. by apply delete_line_ok. }
  intros g Hg. apply wp_ok. auto with natcp.
Qed.

Lemma CSI_ICH_safe ty : fun_safe ty CSI_ICH.
Proof.
  fun_intro. param n. fb_part. apply repeat_kept; [done|]. intros g Hg.
  pose proof Hg as ((_&?&?&_)&_). by apply insert_cell_ok.
Qed.

Lemma CSI_DCH_safe ty : fun_safe ty CSI_DCH.
Proof.
  fun_intro. param n. fb_part. apply repeat_kept; [done|]. intros g Hg.
  pose proof Hg as ((_&?&?&_)&_). by apply delete_cell_ok.
Qed.

Lemma CSI_VPA_safe ty : fun_safe ty CSI_VPA.
Proof. fun_intro. param n. apply wp_ok. auto with natcp. Qed.

Lemma CSI_HPA_safe ty : fun_safe ty CSI_HPA.
Proof. fun_intro. param n. apply wp_ok. auto with natcp. Qed.

Lemma CSI_ECH_safe ty : fun_safe ty CSI_ECH.
Proof.
  fun_intro. param n. pose proof Hf as ((_&?&_)&_). fb_part.
  apply clearline_ok; [done|lia|]. split_ifs; lia.
Qed.

Lemma Esc_RIS_safe ty : fun_safe ty Esc_RIS.
Proof. fun_intro. fb_part. by apply reset_ok. Qed.

Lemma CSI_DECSTR_safe ty : fun_safe ty CSI_DECSTR.
Proof. fun_intro. apply wp_ok. split; [by apply soft_reset_ok|done]. Qed.

Lemma CSI_SD_safe ty : fun_safe ty CSI_SD.
Proof. fun_intro. param n. fb_part. by apply scroll_ok. Qed.

Lemma CSI_SU_safe ty : fun_safe ty CSI_SU.
Proof. fun_intro. param n. fb_part. by apply scroll_ok. Qed.

Lemma OSC_dispatch_kept act f d : fb_ok f → fb_kept f (snd (OSC_dispatch act f d)).
Proof.
  intros Hf. unfold OSC_dispatch. destruct (Dispatcher.OSC_string d) as [|c0 [|c1 t]]; cbn.
  1,2: by auto with natcp.
  split_ifs; by auto with natcp.
Qed.

(** ** The registry *)

Definition registration_safe (r : DispatchRegistry.registration) : Prop :=
  let '(type, chars, f) := r in
  fun_safe type (Function.function f) ∧ (type = CSI → chars ≠ []).

Create HintDb fun_safe discriminated.
#[export] Hint Resolve CSI_EL_safe CSI_ED_safe CSI_cursormove_safe CSI_DA_safe CSI_SDA_safe
  Esc_DECALN_safe Ctrl_LF_safe Ctrl_CR_safe Ctrl_BS_safe Ctrl_RI_safe Ctrl_NEL_safe Ctrl_HT_safe
  Ctrl_HTS_safe CSI_TBC_safe CSI_DECSM_safe CSI_DECRM_safe CSI_SM_safe CSI_RM_safe
  CSI_DECSTBM_safe Ctrl_BEL_safe CSI_SGR_safe Esc_DECSC_safe Esc_DECRC_safe CSI_DSR_safe
  CSI_IL_safe CSI_DL_safe CSI_ICH_safe CSI_DCH_safe CSI_VPA_safe CSI_HPA_safe CSI_ECH_safe
  Esc_RIS_safe CSI_DECSTR_safe CSI_SD_safe CSI_SU_safe : fun_safe.

Lemma registrations_safe : Forall registration_safe registrations.
Proof.
  unfold registrations. repeat apply Forall_cons_2; [..|apply Forall_nil_2].
  all: split; [cbn [Function.function]; solve [auto with fun_safe]|done].
Qed.

(** What a registry holds was registered. *)
Lemma register_all_lookup l r type k f :
  DispatchRegistry.map_of type (DispatchRegistry.register_all l r) !! k = Some f →
  (type, k, f) ∈ l ∨ DispatchRegistry.map_of type r !! k = Some f.
Proof.
  revert r. induction l as [|[[ty ch] g] l IH]; intros r Hk; [by right|].
  destruct (IH _ Hk) as [Hin|Hr]; [left; by right|].
  assert (DispatchRegistry.map_of type (DispatchRegistry.register_function ty ch g r) !! k = Some f →
    (type, k, f) = (ty, ch, g) ∨ DispatchRegistry.map_of type r !! k = Some f) as Hone.
  { assert (∀ m : dispatch_map_t, DispatchRegistry.map_insert ch g m !! k = Some f →
      (k = ch ∧ f = g) ∨ m !! k = Some f) as Hins.
    { intros m. unfold DispatchRegistry.map_insert. destruct (m !! ch); [by right|].
      intros [[-> ->]|[_ ?]]%lookup_insert_Some; auto. }
    destruct type, ty; cbn; try (by right); intros [[-> ->]|?]%Hins; auto. }
  destruct (Hone Hr) as [->|?]; [left; left|by right].
Qed.

Lemma registry_safe type k f :
  DispatchRegistry.map_of type global_dispatch_registry !! k = Some f →
  fun_safe type (Function.function f) ∧ (type = CSI → k ≠ []).
Proof.
  intros Hk. destruct (register_all_lookup _ _ _ _ _ Hk) as [Hin|Hin].
  - pose proof registrations_safe as Hall. rewrite Forall_forall in Hall. apply (Hall _ Hin).
  - destruct type; cbn in Hin; by rewrite lookup_empty in Hin.
Qed.

(** ** Dispatching *)

Lemma collect_ok E act d :
  Parser.char_present act = true → disp_ok d →
  wp E (Dispatcher.collect act d) (fun '(_, d') => disp_ok d').
Proof.
  intros Hch (?&?&?&?&?). unfold Dispatcher.collect. rewrite Hch. cbn [assert_that mbind result_bind].
  destruct (_ && _) eqn:Hg; apply wp_ok; [|by split_and!].
  unfold disp_ok. cbn. rewrite zlen_push. split_and!; try done; lia.
Qed.

(** An action a dispatch accepts. *)
Definition dispatchable (type : Function_Type) (act : Parser.Action) : Prop :=
  match type with
  | CONTROL => Parser.ch act ≤ 255
  | _ => Parser.char_present act = true
  end.

Lemma dispatch_safe type act f d :
  fb_ok f → disp_ok d → dispatchable type act →
  safe (dispatch global_dispatch_registry type act f d) (fun '(act', f', d') =>
    fb_kept f f' ∧ disp_ok d').
Proof.
  intros Hf Hd Hact. unfold dispatch. apply wp_bind.
  apply (wp_weaken _ _ disp_ok).
  { destruct type; cbn in Hact; try (by apply wp_ok); rewrite Hact;
      cbn [assert_that mbind result_bind];
      apply wp_bind; (eapply wp_weaken; [by apply collect_ok|]); by intros [??] ?. }
  clear d Hd. intros d Hd. apply wp_bind.
  apply (wp_weaken _ _ (fun k => type = CSI → k = Dispatcher.dispatch_chars d)).
  { destruct type; try (by apply wp_ok). cbn in Hact. z_bools. by apply wp_ok. }
  intros k Hk. destruct (DispatchRegistry.map_of type _ !! k) as [fn|] eqn:Hfn.
  2:{ apply wp_ok. auto with natcp. }
  apply registry_safe in Hfn as [Hsafe Hne]. apply wp_bind.
  assert (fb_kept f (if Function.clears_wrap_state fn then set_wrap_pending false f else f)) as Hk'.
  { destruct (Function.clears_wrap_state fn); auto with natcp. }
  eapply wp_weaken; [apply Hsafe; [apply Hk'|done|]|].
  { intros Hcsi. rewrite <- Hk by done. auto. }
  intros [f' d'] [Hf' Hd']. apply wp_ok. split; [by eapply fb_kept_trans|done].
Qed.

End FunctionLemmas.
