(* ===== verification/TerminalEmulator.v ===== *)
(** * The terminal emulator

    [src/alfalfa/src/terminal/terminal.h], [terminal.cc],
    [terminaluserinput.h], [terminaluserinput.cc], the [act_on_terminal]
    methods of [parseraction.cc], and the octet loop [Complete::act] of
    [src/alfalfa/src/statesync/completeterminal.cc].  The C library's
    [wcwidth] is an interface with the one law the source relies on. *)

From S2P Require Import Prelude VtParser Utf8 TerminalFramebuffer TerminalDispatcher TerminalFunctions.

(** ** Class [UserInput] *)

Module UserInput.

Inductive UserInputState : Set := Ground | ESC | SS3.

#[export] Instance UserInputState_eq_dec : EqDecision UserInputState.
Proof. solve_decision. Defined.

(** [UserInput::input]: the octets to send to the host and the new state.
    27 is ESC, 79 the letter O, 65 to 68 the letters A to D, 91 the left
    bracket. *)
Definition input (c : Z) (application_mode_cursor_keys : bool) (state : UserInputState)
    : list Z * UserInputState :=
  match state with
  | Ground => ([c], if c =? 0x1B then ESC else Ground)
  | ESC => if c =? 79 then ([], SS3) else ([c], Ground)
  | SS3 =>
      if negb application_mode_cursor_keys && (65 <=? c) && (c <=? 68)
      then ([91; c], Ground)
      else ([79; c], Ground)
  end.

Definition eqb (x y : UserInputState) : bool := bool_decide (x = y).

End UserInput.

(** ** Class [Emulator] *)

Class Wcwidth := wcwidth : Z → Z.

(** POSIX: the number of column positions, or -1 for a character that is
    not printable; the source asserts that there are no others. *)
Class WcwidthLaws `{Wcwidth} : Prop :=
  wcwidth_range c : wcwidth c = -1 ∨ wcwidth c = 0 ∨ wcwidth c = 1 ∨ wcwidth c = 2.

Module Emulator.

Record t : Set := mk {
  fb : Framebuffer.t;
  dispatch : Dispatcher.t;
  user : UserInput.UserInputState }.

(** The constructor *)
Definition make (s_width s_height : Z) : result t :=
  f ← Framebuffer.make (to_int s_width) (to_int s_height);
  Ok (mk f Dispatcher.make UserInput.Ground).

Definition read_octets_to_host (e : t) : list Z * t :=
  (Dispatcher.terminal_to_host (dispatch e),
   mk (fb e) (Dispatcher.set_terminal_to_host [] (dispatch e)) (user e)).

(** A call of [Dispatcher::dispatch] with the global registry. *)
Definition dispatch_as (type : Function_Type) (act : Parser.Action) (e : t)
    : result (Parser.Action * t) :=
  '(act, f, d) ← TerminalDispatcher.dispatch global_dispatch_registry type act (fb e) (dispatch e);
  Ok (act, mk f d (user e)).

Definition execute (act : Parser.Action) (e : t) : result (Parser.Action * t) :=
  dispatch_as CONTROL act e.

Definition CSI_dispatch (act : Parser.Action) (e : t) : result (Parser.Action * t) :=
  dispatch_as CSI act e.

(** 7-bit encoding of C1 control characters *)
Definition Esc_dispatch (act : Parser.Action) (e : t) : result (Parser.Action * t) :=
  if (zlen (Dispatcher.dispatch_chars (dispatch e)) =? 0)
     && (0x40 <=? Parser.ch act) && (Parser.ch act <=? 0x5F)
  then
    let act2 := {| Parser.kind := Parser.kind act; Parser.char_present := Parser.char_present act;
                   Parser.ch := Parser.ch act + 0x40; Parser.handled := Parser.handled act |} in
    '(_, e) ← dispatch_as CONTROL act2 e;
    Ok (act, e)
  else dispatch_as ESCAPE act e.

Definition OSC_end (act : Parser.Action) (e : t) : Parser.Action * t :=
  let '(act, f) := OSC_dispatch act (fb e) (dispatch e) in
  (act, mk f (dispatch e) (user e)).

Definition resize (s_width s_height : Z) (e : t) : result t :=
  f ← Framebuffer.resize (to_int s_width) (to_int s_height) (fb e);
  Ok (mk f (dispatch e) (user e)).

(** *** [Emulator::print] *)

(** The wrap to the next line before a character is placed. *)
Definition wrap_before_print (chwidth : Z) (f : Framebuffer.t) : result Framebuffer.t :=
  let d := Framebuffer.ds f in
  let next_line f :=
    Framebuffer.move_rows_autoscroll 1
      (Framebuffer.on_ds (DrawState.move_col 0 false false) f) in
  if DrawState.auto_wrap_mode d && DrawState.next_print_will_wrap d then
    f ← Framebuffer.update_row (-1) (Row.set_wrap true) f;
    next_line f
  else if DrawState.auto_wrap_mode d && (chwidth =? 2)
          && (DrawState.cursor_col d =? DrawState.width d - 1) then
    f ← Framebuffer.reset_cell (-1) (-1) f;
    f ← Framebuffer.update_row (-1) (Row.set_wrap false) f;
    next_line f
  else Ok f.

(** A character of one or two columns. *)
Definition print_graphic (ch chwidth : Z) (f : Framebuffer.t) : result Framebuffer.t :=
  f ← wrap_before_print chwidth f;
  f ← (if DrawState.insert_mode (Framebuffer.ds f)
       then for_range 0 chwidth (fun _ f =>
              Framebuffer.insert_cell (DrawState.cursor_row (Framebuffer.ds f))
                (DrawState.cursor_col (Framebuffer.ds f)) f) f
       else Ok f);
  f ← Framebuffer.reset_cell (-1) (-1) f;
  f ← Framebuffer.update_cell (-1) (-1) (fun c =>
        Cell.set_width chwidth (Cell.set_contents (vec_push (Cell.contents c) ch) c)) f;
  f ← Framebuffer.apply_renditions_to_current_cell f;
  let d := Framebuffer.ds f in
  f ← (if (chwidth =? 2) && (DrawState.cursor_col d + 1 <? DrawState.width d)
       then Framebuffer.reset_cell (DrawState.cursor_row d) (DrawState.cursor_col d + 1) f
       else Ok f);
  Ok (Framebuffer.on_ds (DrawState.move_col chwidth true true) f).

(** A combining character joins the combining cell, if it is still on the
    screen.  Cells are compared by address, that is by coordinates. *)
Definition print_combining (ch : Z) (f : Framebuffer.t) : result Framebuffer.t :=
  match Framebuffer.get_combining_cell f with
  | None => Ok f
  | Some (y, x) =>
      cell ← Framebuffer.get_cell y x f;
      f ← (if zlen (Cell.contents cell) =? 0 then
             assert_that ((DrawState.cursor_row (Framebuffer.ds f) =? y)
                          && (DrawState.cursor_col (Framebuffer.ds f) =? x))
               "this_cell == combining_cell";;
             assert_that (Cell.width cell =? 1) "combining_cell->width == 1";;
             f ← Framebuffer.update_cell y x (Cell.set_fallback true) f;
             Ok (Framebuffer.on_ds (DrawState.move_col 1 true true) f)
           else Ok f);
      if zlen (Cell.contents cell) <? 16 then
        Framebuffer.update_cell y x
          (fun c => Cell.set_contents (vec_push (Cell.contents c) ch) c) f
      else Ok f
  end.

Section emulator.
Context `{Wcwidth}.

Definition print (act : Parser.Action) (e : t) : result (Parser.Action * t) :=
  assert_that (Parser.char_present act) "act->char_present";;
  let ch := Parser.ch act in
  let chwidth := if ch =? 0 then -1 else wcwidth ch in
  _ ← Framebuffer.get_cell (-1) (-1) (fb e);
  if (chwidth =? 1) || (chwidth =? 2) then
    f ← print_graphic ch chwidth (fb e);
    Ok (Parser.set_handled act, mk f (dispatch e) (user e))
  else if chwidth =? 0 then
    f ← print_combining ch (fb e);
    Ok (Parser.set_handled act, mk f (dispatch e) (user e))
  else if chwidth =? -1 then Ok (act, e)
  else Fault (AssertFailed "false").

(** *** [act_on_terminal] *)

Definition with_dispatch (e : t) (r : Parser.Action * Dispatcher.t) : Parser.Action * t :=
  (fst r, mk (fb e) (snd r) (user e)).

Definition act_on_terminal (act : Parser.Action) (e : t) : result (Parser.Action * t) :=
  match Parser.kind act with
  | Parser.Print => print act e
  | Parser.Execute => execute act e
  | Parser.Clear => Ok (with_dispatch e (Dispatcher.clear act (dispatch e)))
  | Parser.Param => with_dispatch e <$> Dispatcher.newparamchar act (dispatch e)
  | Parser.Collect => with_dispatch e <$> Dispatcher.collect act (dispatch e)
  | Parser.CSI_Dispatch => CSI_dispatch act e
  | Parser.Esc_Dispatch => Esc_dispatch act e
  | Parser.OSC_Put => with_dispatch e <$> Dispatcher.OSC_put act (dispatch e)
  | Parser.OSC_Start => Ok (with_dispatch e (Dispatcher.OSC_start act (dispatch e)))
  | Parser.OSC_End => Ok (OSC_end act e)
  | Parser.UserByte c =>
      let '(s, u) := UserInput.input c
        (DrawState.application_mode_cursor_keys (Framebuffer.ds (fb e))) (user e) in
      Ok (Parser.set_handled act, mk (fb e) (Dispatcher.append_to_host s (dispatch e)) u)
  | Parser.Resize w h =>
      e ← resize w h e; Ok (Parser.set_handled act, e)
  | Parser.Ignore | Parser.Hook | Parser.Put | Parser.Unhook => Ok (act, e)
  end.

(** The actions of one octet, in order; [Complete::act] deletes each
    action after it was applied. *)
Definition act_all (acts : list Parser.Action) (e : t) : result t :=
  for_each acts (fun a e => snd <$> act_on_terminal a e) e.

End emulator.

(** [open] and [close]: the strings that set up the user's terminal *)
Definition open : list Z := [0x1B; 91; 63; 49; 104].
Definition close : list Z :=
  [27] ++ bytes_of_string "[?1l" ++ [27] ++ bytes_of_string "[0m"
  ++ [27] ++ bytes_of_string "[?25h".

(** [operator==]: "dispatcher and user are irrelevant for us" *)
Definition eqb (x y : t) : bool := Framebuffer.eqb (fb x) (fb y).

End Emulator.

(** ** Class [Complete]: a [UTF8Parser] feeding an [Emulator] *)

Module Complete.

Record t : Set := mk {
  parser : UTF8Parser.UTF8Parser;
  terminal : Emulator.t }.

Section complete.
Context `{Mbrtowc, Wcwidth}.

Definition make (width height : Z) : result t :=
  e ← Emulator.make width height; Ok (mk UTF8Parser.init e).

Definition act_octet (c : Z) (s : t) : result t :=
  '(actions, p) ← UTF8Parser.input (parser s) c;
  e ← Emulator.act_all actions (terminal s);
  Ok (mk p e).

(** [act( const string & )]: the reply for the host is read off at the end *)
Definition act (str : list Z) (s : t) : result (list Z * t) :=
  s ← for_each str act_octet s;
  let '(reply, e) := Emulator.read_octets_to_host (terminal s) in
  Ok (reply, mk (parser s) e).

(** [act( const Action * )] *)
Definition act_action (a : Parser.Action) (s : t) : result (list Z * t) :=
  '(_, e) ← Emulator.act_on_terminal a (terminal s);
  let '(reply, e) := Emulator.read_octets_to_host e in
  Ok (reply, mk (parser s) e).

End complete.
End Complete.
