(* ===== verification/TerminalDisplay.v ===== *)
(** * The display encoder

    [src/alfalfa/src/terminal/terminaldisplay.h], [terminaldisplay.cc] and
    [terminaldisplayinit.cc]: the octet string that turns a terminal that
    shows one frame into one that shows another.  The terminfo library is
    the argument of the constructor; [%lc] writes the UTF-8 encoding of a
    character (the programs require a UTF-8 locale). *)

From S2P Require Import Prelude Utf8 TerminalFramebuffer.

(** ** Class [FrameState]: the variables used within a [new_frame] *)

Module FrameState.

Record t : Set := mk {
  x : Z;
  y : Z;
  force_next_put : bool;
  str : list Z;
  cursor_x : Z;
  cursor_y : Z;
  current_rendition : Renditions.t;
  last_frame : Framebuffer.t }.

#[export] Instance t_eta : Eta t := fun fr =>
  mk (x fr) (y fr) (force_next_put fr) (str fr) (cursor_x fr) (cursor_y fr)
    (current_rendition fr) (last_frame fr).

Definition set_x (v : Z) (fr : t) : t := ltac:(with_field fr x v).
Definition set_y (v : Z) (fr : t) : t := ltac:(with_field fr y v).
Definition set_force (v : bool) (fr : t) : t := ltac:(with_field fr force_next_put v).
Definition set_str (v : list Z) (fr : t) : t := ltac:(with_field fr str v).
Definition set_cursor_x (v : Z) (fr : t) : t := ltac:(with_field fr cursor_x v).
Definition set_cursor_y (v : Z) (fr : t) : t := ltac:(with_field fr cursor_y v).
Definition set_rendition (v : Renditions.t) (fr : t) : t := ltac:(with_field fr current_rendition v).
Definition set_last (v : Framebuffer.t) (fr : t) : t := ltac:(with_field fr last_frame v).

(** The constructor *)
Definition make (s_last : Framebuffer.t) : t :=
  mk 0 0 false [] 0 0 (Renditions.make 0) s_last.

Definition append (s : list Z) (fr : t) : t := set_str (str fr ++ s) fr.

(** [CSI row ; column H] *)
Definition cup (row col : Z) : list Z :=
  snprintf 64 ([27; 91] ++ decimal (row + 1) ++ [59] ++ decimal (col + 1) ++ [72]).

(** The cursor is turned off, if necessary, before it is moved. *)
Definition append_silent_move (row col : Z) (fr : t) : t :=
  let fr :=
    if DrawState.cursor_visible (Framebuffer.ds (last_frame fr))
    then set_last (Framebuffer.on_ds (DrawState.set_cursor_visible false) (last_frame fr))
           (append (27 :: bytes_of_string "[?25l") fr)
    else fr in
  set_cursor_y row (set_cursor_x col (append (cup row col) fr)).

End FrameState.

(** ** Class [Display] *)

Module Display.
Import FrameState.

Record t : Set := mk {
  has_ech : bool;
  has_bce : bool;
  has_title : bool;
  posterize_colors : bool }.

(** What the constructor asks of the environment: the result of
    [setupterm] ([None] for [OK], otherwise [errret]), of
    [tigetstr( "ech" )] and [tigetflag( "bce" )], and [TERM]. *)
Inductive string_capability : Set := NotAString | Absent | Present.

Record environment : Set := mkEnv {
  setupterm : option Z;
  ech : string_capability;
  bce : Z;
  TERM : option string }.

Definition title_term_types : list string :=
  ["xterm"; "rxvt"; "kterm"; "Eterm"; "screen"]%string.

Definition title_term (term : option string) : bool :=
  match term with
  | None => false
  | Some s => existsb (fun p => String.prefix p s) title_term_types
  end.

(** The constructor; [None] is [use_environment == false]. *)
Definition make (env : option environment) : result t :=
  match env with
  | None => Ok (mk true true true false)
  | Some e =>
      _ ← match setupterm e with
          | None => Ok tt
          | Some errret =>
              Fault (Thrown
                (if errret =? 1 then "Terminal is hardcopy and cannot be used by curses applications."
                 else if errret =? 0 then "Unknown terminal type."
                 else if errret =? -1 then "Terminfo database could not be found."
                 else "Unknown terminfo error."))
          end;
      has_ech ← match ech e with
                | NotAString => Fault (Thrown "Invalid terminfo string capability ech")
                | Absent => Ok false
                | Present => Ok true
                end;
      has_bce ← (if bce e =? -1 then Fault (Thrown "Invalid terminfo boolean capability bce")
                 else Ok (negb (bce e =? 0)));
      Ok (mk has_ech has_bce (title_term (TERM e)) false)
  end.

Definition downgrade (d : t) (f : Framebuffer.t) : result Framebuffer.t :=
  if posterize_colors d then Framebuffer.posterize f else Ok f.

Definition initial_rendition : Renditions.t := Renditions.make 0.

(** [snprintf( tmp, 64, "%lc", c )], a string that a null character ends, and
    the loop [for ( i ... ) { snprintf( tmp, 64, "%lc", *i ); frame.append( tmp ); }] *)
Definition percent_lc (c : Z) : list Z := if c =? 0 then [] else RFC3629.encode c.

Definition append_chars (cs : list Z) (fr : FrameState.t) : FrameState.t :=
  append (cs ≫= percent_lc) fr.

Abbreviation width f := (DrawState.width (Framebuffer.ds f)).
Abbreviation height f := (DrawState.height (Framebuffer.ds f)).

(** *** [put_cell] *)

(** "see how far we can stretch a clear": the loop from column [col], [n]
    columns left *)
Fixpoint count_clear (n : nat) (col row : Z) (cell : Cell.t) (f : Framebuffer.t) : result Z :=
  match n with
  | O => Ok 0
  | S n' =>
      other_cell ← Framebuffer.get_cell row col f;
      if Renditions.eqb (Cell.renditions cell) (Cell.renditions other_cell)
         && (zlen (Cell.contents other_cell) =? 0)
      then rest ← count_clear n' (col + 1) row cell f; Ok (1 + rest)
      else Ok 0
  end.

(** The octets of an erasure of [count] cells *)
Definition erase_chars (count : Z) : list Z :=
  if count =? 1 then 27 :: bytes_of_string "[X"
  else snprintf 64 ([27; 91] ++ decimal count ++ [88]).

Definition put_space (fr : FrameState.t) : FrameState.t :=
  set_x (x fr + 1) (set_cursor_x (cursor_x fr + 1) (append [32] fr)).

(** An empty cell *)
Definition put_blank (d : t) (cell : Cell.t) (fr : FrameState.t) (f : Framebuffer.t)
    : result FrameState.t :=
  clear_count ← count_clear (Z.to_nat (width f - x fr)) (x fr) (y fr) cell f;
  assert_that (x fr + clear_count <=? width f) "frame.x + clear_count <= f.ds.get_width()";;
  let can_use_erase := has_bce d || Renditions.eqb (Cell.renditions cell) initial_rendition in
  if force_next_put fr then Ok (set_force false (put_space fr))
  else if (x fr + clear_count =? width f) && can_use_erase then
    Ok (set_x (x fr + clear_count) (append (27 :: bytes_of_string "[K") fr))
  else if has_ech d && can_use_erase then
    Ok (set_x (x fr + clear_count) (append (erase_chars clear_count) fr))
  else Ok (put_space fr).

(** A cell with contents; one that begins with a combining character gets
    the combiner attached to a no-break space. *)
Definition put_contents (cell : Cell.t) (fr : FrameState.t) : FrameState.t :=
  let fr := if Cell.fallback cell then append [0xC2; 0xA0] fr else fr in
  let fr := append_chars (Cell.contents cell) fr in
  set_force false
    (set_cursor_x (cursor_x fr + Cell.width cell) (set_x (x fr + Cell.width cell) fr)).

(** The move and the rendition before a cell is written *)
Definition seek (fr : FrameState.t) : FrameState.t :=
  if negb (x fr =? cursor_x fr) || negb (y fr =? cursor_y fr)
  then append_silent_move (y fr) (x fr) fr else fr.

Definition select_rendition (r : Renditions.t) (fr : FrameState.t) : FrameState.t :=
  if negb (Renditions.eqb (current_rendition fr) r)
  then set_rendition r (append (Renditions.sgr r) fr) else fr.

Definition put_cell (d : t) (initialized : bool) (f : Framebuffer.t) (fr : FrameState.t)
    : result FrameState.t :=
  cell ← Framebuffer.get_cell (y fr) (x fr) f;
  same ← (if negb (force_next_put fr) && initialized
          then c ← Framebuffer.get_cell (y fr) (x fr) (last_frame fr); Ok (Cell.eqb cell c)
          else Ok false);
  if (same : bool) then Ok (set_x (x fr + Cell.width cell) fr)
  else
    let fr := select_rendition (Cell.renditions cell) (seek fr) in
    if zlen (Cell.contents cell) =? 0 then put_blank d cell fr f
    else Ok (put_contents cell fr).

(** *** The parts of [new_frame] *)

Definition draw_bell (f : Framebuffer.t) (fr : FrameState.t) : FrameState.t :=
  if negb (Framebuffer.bell_count f =? Framebuffer.bell_count (last_frame fr))
  then append [7] fr else fr.

(** An operating system command with the given number; 27 93 is ESC ],
    59 the semicolon, 7 BEL. *)
Definition osc (n : Z) (title : list Z) (fr : FrameState.t) : FrameState.t :=
  append [7] (append_chars title (append [27; 93; n; 59] fr)).

Definition draw_title (d : t) (initialized : bool) (f : Framebuffer.t) (fr : FrameState.t)
    : FrameState.t :=
  let last := last_frame fr in
  if has_title d
     && (negb initialized
         || negb (list_eqb Z.eqb (Framebuffer.icon_name f) (Framebuffer.icon_name last))
         || negb (list_eqb Z.eqb (Framebuffer.window_title f) (Framebuffer.window_title last)))
  then
    if list_eqb Z.eqb (Framebuffer.icon_name f) (Framebuffer.window_title f)
    then osc 48 (Framebuffer.window_title f) fr
    else osc 50 (Framebuffer.window_title f) (osc 49 (Framebuffer.icon_name f) fr)
  else fr.

Definition draw_reverse_video (initialized : bool) (f : Framebuffer.t) (fr : FrameState.t)
    : FrameState.t :=
  let rv := DrawState.reverse_video (Framebuffer.ds f) in
  if negb initialized
     || negb (Bool.eqb rv (DrawState.reverse_video (Framebuffer.ds (last_frame fr))))
  then append (snprintf 64 (27 :: bytes_of_string "[?5" ++ [if rv then 104 else 108])) fr
  else fr.

(** [CSI top ; bottom r] *)
Definition stbm (top bottom : Z) : list Z :=
  snprintf 64 ([27; 91] ++ decimal top ++ [59] ++ decimal bottom ++ [114]).

(** [ESC [0m ESC [H ESC [2J] *)
Definition clear_screen : list Z :=
  [27] ++ bytes_of_string "[0m" ++ [27] ++ bytes_of_string "[H" ++ [27] ++ bytes_of_string "[2J".

(** "has size changed?": also the new value of [initialized] *)
Definition draw_size (initialized : bool) (f : Framebuffer.t) (fr : FrameState.t)
    : bool * FrameState.t :=
  let last := last_frame fr in
  if negb initialized || negb (width f =? width last) || negb (height f =? height last)
  then
    (false,
     set_rendition initial_rendition (set_cursor_x 0 (set_cursor_y 0
       (append clear_screen (append (stbm 1 (height f)) fr)))))
  else
    (initialized,
     set_rendition (DrawState.renditions (Framebuffer.ds last))
       (set_cursor_y (DrawState.cursor_row (Framebuffer.ds last))
          (set_cursor_x (DrawState.cursor_col (Framebuffer.ds last)) fr))).

(** "how big is the region that was scrolled?" *)
Fixpoint region_loop (n : nat) (region_height lines_scrolled : Z) (f last : Framebuffer.t)
    (scroll_height : Z) : result Z :=
  match n with
  | O => Ok scroll_height
  | S n' =>
      a ← Framebuffer.get_row region_height f;
      b ← Framebuffer.get_row (lines_scrolled + region_height) last;
      if Row.eqb a b
      then region_loop n' (region_height + 1) lines_scrolled f last (region_height + 1)
      else Ok scroll_height
  end.

(** [lines_scrolled] and [scroll_height], from row [row] on, [n] rows left *)
Fixpoint scroll_search (n : nat) (row : Z) (f last : Framebuffer.t) : result (Z * Z) :=
  match n with
  | O => Ok (0, 0)
  | S n' =>
      a ← Framebuffer.get_row 0 f;
      b ← Framebuffer.get_row row last;
      if Row.eqb a b then
        scroll_height ← region_loop (Z.to_nat (height f - row - 1)) 1 row f last 1;
        Ok (row, scroll_height)
      else scroll_search n' (row + 1) f last
  end.

(** "do the move in memory" *)
Definition move_rows (lines_scrolled top_margin bottom_margin : Z) (last : Framebuffer.t)
    : result Framebuffer.t :=
  for_range top_margin (bottom_margin + 1) (fun i last =>
    if i + lines_scrolled <=? bottom_margin then
      r ← Framebuffer.get_row (i + lines_scrolled) last;
      Framebuffer.update_row i (fun _ => Ok r) last
    else Framebuffer.update_row i (fun r => Ok (Row.reset 0 r)) last) last.

Definition draw_scroll (f : Framebuffer.t) (fr : FrameState.t) : result FrameState.t :=
  '(lines_scrolled, scroll_height) ←
    scroll_search (Z.to_nat (height f)) 0 f (last_frame fr);
  if scroll_height =? 0 then Ok fr
  else
    let fr := set_y scroll_height fr in
    if lines_scrolled =? 0 then Ok fr
    else
      let fr :=
        if negb (Renditions.eqb (current_rendition fr) initial_rendition)
        then set_rendition initial_rendition (append (27 :: bytes_of_string "[0m") fr) else fr in
      let top_margin := 0 in
      let bottom_margin := top_margin + lines_scrolled + scroll_height - 1 in
      assert_that (bottom_margin <? height f) "bottom_margin < f.ds.get_height()";;
      let fr := append (stbm (top_margin + 1) (bottom_margin + 1)) fr in
      let fr := append_silent_move bottom_margin 0 fr in
      let fr := append (replicate (Z.to_nat lines_scrolled) 10) fr in
      last ← move_rows lines_scrolled top_margin bottom_margin (last_frame fr);
      let fr := set_last last fr in
      let fr := append (stbm 1 (height f)) fr in
      Ok (set_cursor_x (-1) (set_cursor_y (-1) fr)).

(** The loop over the cells of a row, from [frame.x]; [put_cell] handles
    the advance.  Also the last column at which it was called. *)
Fixpoint put_cells (fuel : nat) (d : t) (initialized : bool) (f : Framebuffer.t)
    (last_x : Z) (fr : FrameState.t) : result (Z * FrameState.t) :=
  if x fr <? width f then
    match fuel with
    | O => Fault OutOfFuel
    | S fuel' =>
        let last_x := x fr in
        fr ← put_cell d initialized f fr;
        put_cells fuel' d initialized f last_x fr
    end
  else Ok (last_x, fr).

(** The same loop with every put forced *)
Fixpoint force_cells (fuel : nat) (d : t) (initialized : bool) (f : Framebuffer.t)
    (fr : FrameState.t) : result FrameState.t :=
  if x fr <? width f then
    match fuel with
    | O => Fault OutOfFuel
    | S fuel' =>
        fr ← put_cell d initialized f (set_force true fr);
        force_cells fuel' d initialized f fr
    end
  else Ok fr.

(** "we let the real cursor actually wrap around in cases where it wrapped
    around for us" *)
Definition draw_wrap (d : t) (initialized : bool) (f : Framebuffer.t) (last_x : Z)
    (fr : FrameState.t) : result FrameState.t :=
  fr ← force_cells (Z.to_nat (width f)) d initialized f (set_x last_x fr);
  Ok (set_force true (set_cursor_y (cursor_y fr + 1) (set_cursor_x 0 fr))).

(** "Turn off wrap" *)
Definition draw_unwrap (d : t) (initialized : bool) (f : Framebuffer.t) (last_x : Z)
    (fr : FrameState.t) : result FrameState.t :=
  let fr := set_x last_x fr in
  fr ← (if initialized then
          last ← Framebuffer.reset_cell (y fr) (x fr) (last_frame fr); Ok (set_last last fr)
        else Ok fr);
  let fr := append (snprintf 64 (cup (y fr) (x fr) ++ (27 :: bytes_of_string "[K"))) fr in
  put_cell d initialized f (set_force true (set_cursor_x (x fr) fr)).

Definition draw_row (d : t) (initialized : bool) (f : Framebuffer.t) (fr : FrameState.t)
    : result FrameState.t :=
  '(last_x, fr) ← put_cells (Z.to_nat (width f)) d initialized f 0 (set_x 0 fr);
  if y fr <? height f - 1 then
    row ← Framebuffer.get_row (y fr) f;
    wrap ← Row.get_wrap row;
    if (wrap : bool) then draw_wrap d initialized f last_x fr
    else
      turn_off ← (if negb initialized then Ok true
                  else row ← Framebuffer.get_row (y fr) (last_frame fr); Row.get_wrap row);
      if (turn_off : bool) then draw_unwrap d initialized f last_x fr else Ok fr
  else Ok fr.

Definition draw_rows (d : t) (initialized : bool) (f : Framebuffer.t) (fr : FrameState.t)
    : result FrameState.t :=
  for_range (y fr) (height f) (fun _ fr =>
    fr ← draw_row d initialized f fr; Ok (set_y (y fr + 1) fr)) fr.

Definition draw_cursor (initialized : bool) (f : Framebuffer.t) (fr : FrameState.t)
    : FrameState.t :=
  let row := DrawState.cursor_row (Framebuffer.ds f) in
  let col := DrawState.cursor_col (Framebuffer.ds f) in
  if negb initialized || negb (row =? cursor_y fr) || negb (col =? cursor_x fr)
  then set_cursor_y row (set_cursor_x col (append (cup row col) fr)) else fr.

Definition draw_visibility (initialized : bool) (f : Framebuffer.t) (fr : FrameState.t)
    : FrameState.t :=
  let cv := DrawState.cursor_visible (Framebuffer.ds f) in
  if negb initialized
     || negb (Bool.eqb cv (DrawState.cursor_visible (Framebuffer.ds (last_frame fr))))
  then append (27 :: bytes_of_string (if cv then "[?25h" else "[?25l")) fr else fr.

Definition draw_rendition (initialized : bool) (f : Framebuffer.t) (fr : FrameState.t)
    : FrameState.t :=
  let r := DrawState.renditions (Framebuffer.ds f) in
  if negb initialized || negb (Renditions.eqb r (current_rendition fr))
  then set_rendition r (append (Renditions.sgr r) fr) else fr.

Definition new_frame (d : t) (initialized : bool) (last f : Framebuffer.t)
    : result (list Z) :=
  let fr := FrameState.make last in
  let fr := draw_bell f fr in
  let fr := draw_title d initialized f fr in
  let fr := draw_reverse_video initialized f fr in
  let '(initialized, fr) := draw_size initialized f fr in
  let fr := set_y 0 fr in
  fr ← (if initialized then draw_scroll f fr else Ok fr);
  fr ← draw_rows d initialized f fr;
  let fr := draw_cursor initialized f fr in
  let fr := draw_visibility initialized f fr in
  let fr := draw_rendition initialized f fr in
  Ok (str fr).

End Display.
