(* ===== verification/EmulatorSafety.v ===== *)
(** * Safety of the emulator

    Whatever octets the host sends, the emulator stays well formed; the one
    assertion of [terminal.cc] that input can violate is identified, and
    shown to be reachable. *)

From S2P Require Import Prelude VtParser Utf8 TerminalFramebuffer FramebufferWf TerminalDispatcher DispatcherProps TerminalFunctions FunctionSafety TerminalEmulator.

Module EmulatorGuarantees.
Import DispatcherLemmas FunctionLemmas.

(** ** Printing *)

Lemma bind_assoc {A B C} (m : result A) (k : A → result B) (h : B → result C) :
  ((m ≫= k) ≫= h) = (m ≫= fun x => k x ≫= h).
Proof. by destruct m. Qed.

(** The cell a graphic character leaves at the cursor *)
Definition printed_cell (ch chwidth : Z) (d : DrawState.t) : Cell.t :=
  Cell.mk [ch] false chwidth (DrawState.renditions d) false.

(** The rendition applied is the one before the update. *)
Lemma apply_renditions_after g f :
  (f' ← Framebuffer.update_cell (-1) (-1) g f; Framebuffer.apply_renditions_to_current_cell f')
  = Framebuffer.update_cell (-1) (-1)
      (fun c => Cell.set_renditions (DrawState.renditions (Framebuffer.ds f)) (g c)) f.
Proof.
  rewrite <- (update_cell_fuse _ _ g (Cell.set_renditions _)).
  unfold Framebuffer.apply_renditions_to_current_cell.
  unfold Framebuffer.update_cell, Framebuffer.update_row.
  by match goal with |- context [vec_alter ?a (Framebuffer.rows f) ?i] =>
    destruct (vec_alter a (Framebuffer.rows f) i) end.
Qed.

(** The reset, the assignment and the rendition are one update. *)
Lemma place_char {B} ch chwidth f (k : Framebuffer.t → result B) :
  (f1 ← Framebuffer.reset_cell (-1) (-1) f;
   f2 ← Framebuffer.update_cell (-1) (-1) (fun c =>
          Cell.set_width chwidth (Cell.set_contents (vec_push (Cell.contents c) ch) c)) f1;
   f3 ← Framebuffer.apply_renditions_to_current_cell f2; k f3)
  = (f3 ← Framebuffer.update_cell (-1) (-1)
            (fun _ => printed_cell ch chwidth (Framebuffer.ds f)) f; k f3).
Proof.
  rewrite <- bind_assoc. unfold Framebuffer.reset_cell at 1. rewrite update_cell_fuse.
  rewrite <- bind_assoc. by rewrite apply_renditions_after.
Qed.

Lemma next_line_ok E f :
  fb_ok f → wp E (Framebuffer.move_rows_autoscroll 1
    (Framebuffer.on_ds (DrawState.move_col 0 false false) f)) (fb_kept f).
Proof.
  intros Hf. eapply kept_after; [|apply move_rows_autoscroll_ok, on_ds_ok; [apply move_col_keeps|done]].
  auto with natcp.
Qed.

Lemma set_row_wrap_ok E b f :
  fb_ok f → wp E (Framebuffer.update_row (-1) (Row.set_wrap b) f) (fb_kept f).
Proof.
  intros Hf. pose proof Hf as (((?&_)&_)&_). apply grid_kept, update_row_ok; [done|by apply index_cursor|].
  intros r Hr. by apply row_set_wrap_ok.
Qed.

Lemma wrap_before_print_ok E w f :
  fb_ok f → wp E (Emulator.wrap_before_print w f) (fb_kept f).
Proof.
  intros Hf. unfold Emulator.wrap_before_print. cbv zeta.
  destruct (_ && _).
  { eapply kept_bind; [by apply set_row_wrap_ok|]. intros g Hg.
    eapply kept_after; [exact Hg|]. apply next_line_ok, Hg. }
  destruct (_ && _); [|by apply wp_ok, fb_kept_refl].
  eapply kept_bind; [apply grid_kept, reset_cell_ok; [done|by apply index_cursor..]|]. intros g Hg.
  eapply kept_bind; [apply set_row_wrap_ok, Hg|]. intros h Hh.
  eapply kept_after; [by eapply fb_kept_trans|]. apply next_line_ok, Hh.
Qed.

Lemma printed_cell_ok ch w d :
  w = 1 ∨ w = 2 → rend_ok (DrawState.renditions d) → cell_ok (printed_cell ch w d).
Proof. intros [-> | ->] Hr; split_and!; try done; [by left|by right]. Qed.

Lemma print_graphic_ok E ch w f :
  fb_ok f → w = 1 ∨ w = 2 → wp E (Emulator.print_graphic ch w f) (fb_kept f).
Proof.
  intros Hf Hw. unfold Emulator.print_graphic.
  eapply kept_bind; [by apply wrap_before_print_ok|]. intros g Hg.
  eapply (kept_bind _ g).
  { destruct (DrawState.insert_mode _); [|apply wp_ok, fb_kept_refl, Hg].
    apply repeat_kept; [apply Hg|]. intros h Hh. pose proof Hh as ((_&?&?&_)&_).
    by apply insert_cell_ok. }
  intros h Hh. assert (fb_kept f h) as Hfh by (by eapply fb_kept_trans).
  rewrite place_char. eapply (kept_bind _ h).
  { apply grid_kept, update_cell_ok; [apply Hh|apply index_cursor, Hh..|].
    intros _ _. apply printed_cell_ok; [done|]. by destruct Hh as [((_&_&_&_&_&_&_&?&_)&_) _]. }
  intros h2 Hh2. eapply (kept_bind _ h2).
  { destruct (_ && _) eqn:Hg2; [|apply wp_ok, fb_kept_refl, Hh2].
    pose proof (proj1 Hh2) as ((_&?&?&_)&_).
    apply grid_kept, reset_cell_ok; [apply Hh2|rewrite index_row; lia|rewrite index_col; lia]. }
  intros h3 Hh3. apply wp_ok, move_col_kept. by do 2 (eapply fb_kept_trans; [eassumption|]).
Qed.

(** ** Combining characters *)

(** The assertion of [Emulator::print] that input can violate. *)
Definition combining_assertion (ft : fault) : Prop :=
  ft = AssertFailed "this_cell == combining_cell".

(** Appending to a cell that is not full, at coordinates on the screen *)
Lemma push_char_ok E y x ch f c :
  fb_ok f → 0 ≤ y < fb_height f → 0 ≤ x < fb_width f →
  Framebuffer.get_cell y x f = Ok c → zlen (Cell.contents c) < 16 →
  wp E (Framebuffer.update_cell y x
    (fun c => Cell.set_contents (vec_push (Cell.contents c) ch) c) f) (fb_kept f).
Proof.
  intros Hf Hy Hx Hget Hlen.
  apply grid_kept, update_cell_found; [done|rewrite index_row; lia|rewrite index_col; lia|].
  intros c' Hget' Hc'. assert (c' = c) as -> by congruence. by apply cell_push_ok.
Qed.

(** The fallback cell: still the same contents, now marked. *)
Lemma start_fallback E y x f c :
  fb_ok f → 0 ≤ y < fb_height f → 0 ≤ x < fb_width f → Framebuffer.get_cell y x f = Ok c →
  wp E (f' ← Framebuffer.update_cell y x (Cell.set_fallback true) f;
        Ok (Framebuffer.on_ds (DrawState.move_col 1 true true) f'))
    (fun g => fb_kept f g ∧ Framebuffer.get_cell y x g = Ok (Cell.set_fallback true c)).
Proof.
  intros Hf Hy Hx Hget.
  destruct (update_cell_at y x (Cell.set_fallback true) f c Hget) as (f' & Heq & Hrows & Hcells).
  assert (wp E (Ok f') (fb_grid f)) as Hgrid.
  { rewrite <- Heq. apply update_cell_ok; [done|rewrite index_row; lia|rewrite index_col; lia|].
    by intros ? (?&?&?). }
  rewrite Heq. cbn in Hgrid |- *. split.
  { apply move_col_kept, fb_grid_kept, Hgrid. }
  apply get_cell_at. rewrite index_row, index_col in * by lia. split_and!; [lia..|].
  change (cell_at f' (Z.to_nat y) (Z.to_nat x) = Some (Cell.set_fallback true c)).
  rewrite Hcells. by rewrite decide_True.
Qed.

Lemma print_combining_ok ch f :
  fb_ok f → wp combining_assertion (Emulator.print_combining ch f) (fb_kept f).
Proof.
  intros Hf. unfold Emulator.print_combining.
  destruct (Framebuffer.get_combining_cell f) as [[y x]|] eqn:Hcomb; [|by apply wp_ok, fb_kept_refl].
  destruct (combining_cell_range f y x Hf Hcomb) as (_ & _ & Hy & Hx).
  assert (0 ≤ Framebuffer.row_index y f < fb_height f
    ∧ 0 ≤ Framebuffer.col_index x f < fb_width f) as [Hri Hci].
  { rewrite index_row, index_col; lia. }
  destruct (proj1 (safe_inv _ _) (get_cell_ok _ y x f Hf Hri Hci)) as (c & Hget & Hc).
  rewrite Hget. cbn [mbind result_bind].
  destruct (zlen (Cell.contents c) =? 0) eqn:Hempty.
  - apply wp_bind. destruct (_ && _); [|done]. cbn [assert_that mbind result_bind].
    assert (Cell.contents c = []) as Hnil by (destruct (Cell.contents c); done).
    destruct Hc as (_ & [Hw|[_ Hne]] & _); [|done]. rewrite Hw. cbn [assert_that Z.eqb Pos.eqb].
    eapply wp_weaken; [by apply start_fallback|]. intros g [Hg Hgget]. rewrite Hnil.
    eapply kept_after; [exact Hg|]. pose proof Hg as (Hgok & Hgw & Hgh).
    eapply push_char_ok; [done|lia|lia|exact Hgget|by cbn; rewrite Hnil].
  - cbn [mbind result_bind]. destruct (_ <? 16) eqn:Hfull; [|by apply wp_ok, fb_kept_refl].
    eapply push_char_ok; [done|lia|lia|exact Hget|lia].
Qed.

(** ** The emulator *)

Definition emu_ok (e : Emulator.t) : Prop :=
  fb_ok (Emulator.fb e) ∧ disp_ok (Emulator.dispatch e).

#[export] Instance emu_ok_dec e : Decision (emu_ok e).
Proof. unfold emu_ok. apply _. Defined.

(** Same size, still well formed *)
Definition emu_kept (e e' : Emulator.t) : Prop :=
  fb_kept (Emulator.fb e) (Emulator.fb e') ∧ disp_ok (Emulator.dispatch e').

Lemma emu_kept_refl e : emu_ok e → emu_kept e e.
Proof. intros []. split; [by apply fb_kept_refl|done]. Qed.

Lemma emu_kept_trans e1 e2 e3 : emu_kept e1 e2 → emu_kept e2 e3 → emu_kept e1 e3.
Proof. intros [? _] [? ?]. split; [by eapply fb_kept_trans|done]. Qed.

Lemma emu_kept_ok e e' : emu_kept e e' → emu_ok e'.
Proof. intros [[? _] ?]. by split. Qed.

Section emulator.
Context `{WcwidthLaws}.

(** A zero-width character is needed to reach the assertion. *)
Definition emulator_fault (ft : fault) : Prop :=
  combining_assertion ft ∧ ∃ ch, wcwidth ch = 0.

Lemma print_ok act e :
  Parser.char_present act = true → emu_ok e →
  wp emulator_fault (Emulator.print act e) (fun '(_, e') => emu_kept e e').
Proof.
  intros Hch [Hf Hd]. unfold Emulator.print. rewrite Hch. cbn [assert_that mbind result_bind].
  cbv zeta. apply wp_bind. eapply wp_weaken; [apply get_cell_ok; [done|by apply index_cursor..]|].
  intros _ _. set (w := if Parser.ch act =? 0 then -1 else wcwidth (Parser.ch act)).
  assert (w = -1 ∨ w = 0 ∨ w = 1 ∨ w = 2) as Hw.
  { unfold w. destruct (_ =? 0); [by left|apply wcwidth_range]. }
  destruct (_ || _) eqn:Hg.
  { eapply kept_bind; [apply print_graphic_ok; [done|lia]|]. intros g Hg'. by apply wp_ok. }
  destruct (w =? 0) eqn:Hw0.
  { eapply kept_bind.
    - eapply wp_mono; [by apply print_combining_ok| |done]. intros ft Hft. split; [done|].
      exists (Parser.ch act). unfold w in Hw0. destruct (Parser.ch act =? 0); [done|lia].
    - intros g Hg'. by apply wp_ok. }
  assert (w = -1) as -> by lia. apply wp_ok. split; [by apply fb_kept_refl|done].
Qed.

Lemma dispatch_as_ok E type act e :
  emu_ok e → dispatchable type act →
  wp E (Emulator.dispatch_as type act e) (fun '(_, e') => emu_kept e e').
Proof.
  intros [Hf Hd] Hact. apply wp_bind. eapply safe_wp; [by apply dispatch_safe|].
  intros [[a f] d] [??]. by apply wp_ok.
Qed.

Lemma Esc_dispatch_ok E act e :
  emu_ok e → Parser.char_present act = true →
  wp E (Emulator.Esc_dispatch act e) (fun '(_, e') => emu_kept e e').
Proof.
  intros He Hch. unfold Emulator.Esc_dispatch. destruct (_ && _) eqn:Hg; [|by apply dispatch_as_ok].
  apply wp_bind. eapply wp_weaken; [apply dispatch_as_ok; [done|cbn; lia]|].
  intros [a e'] He'. by apply wp_ok.
Qed.

Lemma newparamchar_ok E act d :
  ParserProps.action_ok act = true → Parser.kind act = Parser.Param → disp_ok d →
  wp E (Dispatcher.newparamchar act d) (fun '(_, d') => disp_ok d').
Proof.
  unfold ParserProps.action_ok. intros Hact Hk (?&Hp&?&?&?). rewrite Hk in Hact.
  apply andb_true_iff in Hact as [Hch Hc]. unfold Dispatcher.newparamchar.
  rewrite Hch, Hc. cbn [assert_that mbind result_bind].
  destruct (_ <? 100) eqn:Hg; apply wp_ok; unfold disp_ok; cbn; split_and!; try done.
  - rewrite zlen_push. lia.
  - unfold vec_push. rewrite forallb_app, Hp. cbn. rewrite andb_true_r.
    unfold param_char, is_digit in *. rewrite uwrap_small; [done|]. cbn. lia.
Qed.

Lemma OSC_put_ok E act d :
  Parser.char_present act = true → disp_ok d →
  wp E (Dispatcher.OSC_put act d) (fun '(_, d') => disp_ok d').
Proof.
  intros Hch (?&?&?&?&?). unfold Dispatcher.OSC_put. rewrite Hch. cbn [assert_that mbind result_bind].
  destruct (_ <? 256) eqn:Hg; apply wp_ok; unfold disp_ok; cbn; rewrite ?zlen_push;
    split_and!; try done; lia.
Qed.

Lemma with_dispatch_ok E e m :
  emu_ok e → wp E m (fun '(_, d') => disp_ok d') →
  wp E (Emulator.with_dispatch e <$> m) (fun '(_, e') => emu_kept e e').
Proof.
  intros [Hf _] Hm. apply wp_fmap. eapply wp_weaken; [exact Hm|]. intros [a d] Hd.
  split; [by apply fb_kept_refl|done].
Qed.

(** An action the parser emits keeps the size and the invariant. *)
Lemma act_on_terminal_ok act e :
  ParserProps.action_ok act = true → emu_ok e →
  wp emulator_fault (Emulator.act_on_terminal act e) (fun '(_, e') => emu_kept e e').
Proof.
  intros Hact He. pose proof He as [Hf Hd].
  pose proof (emu_kept_refl e He) as Hrefl.
  unfold Emulator.act_on_terminal. pose proof Hact as Hact'. unfold ParserProps.action_ok in Hact.
  destruct (Parser.kind act) eqn:Hk; try (by apply wp_ok); try done.
  - by apply print_ok.
  - apply dispatch_as_ok; [done|]. cbn. lia.
  - apply wp_ok. cbn. split; [by apply fb_kept_refl|]. by destruct Hd as (?&?&?&?&?).
  - apply with_dispatch_ok; [done|]. by apply collect_ok.
  - apply with_dispatch_ok; [done|]. by apply newparamchar_ok.
  - by apply Esc_dispatch_ok.
  - by apply dispatch_as_ok.
  - apply wp_ok. cbn. split; [by apply fb_kept_refl|]. by destruct Hd as (?&?&?&?&?).
  - apply with_dispatch_ok; [done|]. by apply OSC_put_ok.
  - apply wp_ok. unfold Emulator.OSC_end.
    pose proof (OSC_dispatch_kept act _ (Emulator.dispatch e) Hf) as Ho.
    destruct (OSC_dispatch _ _ _) as [a f]. by split.
Qed.

Lemma act_all_ok acts e :
  forallb ParserProps.action_ok acts = true → emu_ok e →
  wp emulator_fault (Emulator.act_all acts e) (emu_kept e).
Proof.
  intros Hacts He. rewrite List.forallb_forall in Hacts.
  apply for_each_spec; [by apply emu_kept_refl|].
  intros a e' Hin He'. apply wp_fmap. eapply wp_weaken.
  { apply act_on_terminal_ok; [by apply Hacts, list_elem_of_In|by eapply emu_kept_ok]. }
  intros [x e''] He''. by eapply emu_kept_trans.
Qed.
End emulator.

(** ** The complete terminal *)

Definition term_ok `{Mbrtowc} (s : Complete.t) : Prop :=
  Utf8Props.wf (Complete.parser s) ∧ emu_ok (Complete.terminal s).

Definition term_kept `{Mbrtowc} (s s' : Complete.t) : Prop :=
  Utf8Props.wf (Complete.parser s') ∧ emu_kept (Complete.terminal s) (Complete.terminal s').

Section complete.
Context `{MbrtowcLaws, WcwidthLaws}.

Lemma act_octet_ok c s :
  term_ok s → wp emulator_fault (Complete.act_octet c s) (term_kept s).
Proof.
  intros [Hp He]. apply wp_bind. eapply safe_wp; [by apply Utf8Props.input_ok|].
  intros [acts p] (Hp' & Hacts & _). apply wp_bind.
  eapply wp_weaken; [by apply act_all_ok|]. intros e' He'. by apply wp_ok.
Qed.

Lemma act_ok str s :
  term_ok s → wp emulator_fault (Complete.act str s) (fun '(_, s') => term_kept s s').
Proof.
  intros Hs. apply wp_bind. eapply wp_weaken.
  { apply (for_each_spec _ (term_kept s)).
    - destruct Hs. split; [done|by apply emu_kept_refl].
    - intros c s' _ [Hp He]. eapply wp_weaken.
      + apply act_octet_ok. split; [done|by eapply emu_kept_ok].
      + intros s'' [? He'']. split; [done|by eapply emu_kept_trans]. }
  intros s' (Hp & Hf & Hd). apply wp_ok. split_and!; [done..|]. split; [done|].
  by destruct Hd as (?&?&?&?&?).
Qed.

(** Any sequence of calls, each with a string from the host *)
Definition act_strings (strs : list (list Z)) (s : Complete.t) : result Complete.t :=
  for_each strs (fun str s => snd <$> Complete.act str s) s.

Lemma act_strings_ok strs s :
  term_ok s → wp emulator_fault (act_strings strs s) (term_kept s).
Proof.
  intros Hs. apply for_each_spec.
  { destruct Hs. split; [done|by apply emu_kept_refl]. }
  intros str s' _ [Hp He]. apply wp_fmap. eapply wp_weaken.
  { apply act_ok. split; [done|by eapply emu_kept_ok]. }
  intros [r s''] [? He'']. split; [done|by eapply emu_kept_trans].
Qed.

Lemma make_ok w h :
  0 < to_int w → 0 < to_int h → safe (Complete.make w h) (fun s =>
    term_ok s ∧ fb_width (Emulator.fb (Complete.terminal s)) = to_int w
    ∧ fb_height (Emulator.fb (Complete.terminal s)) = to_int h).
Proof.
  intros Hw Hh. apply wp_bind, wp_bind. eapply wp_weaken; [by apply fb_make_spec|].
  intros f (Hf & ? & ?). apply wp_ok, wp_ok. split_and!; [|done..].
  split; [by left|]. split; [done|by_eval].
Qed.
(** C7.  Safety of the terminal emulator.  From a fresh terminal of any
    positive size, any number of strings of any octets from the host either
    leave a well-formed terminal of the same size - grid of exactly
    height by width cells, cursor and combining position on the screen,
    scrolling region within it, colours in the palette, buffers bounded -
    or stop at the one assertion about combining characters, which needs a
    zero-width character.  No index leaves the grid, no other assertion
    fails and every loop terminates. *)
Theorem emulator_safe (w h : Z) (strs : list (list Z)) :
  0 < to_int w → 0 < to_int h →
  wp emulator_fault (s ← Complete.make w h; act_strings strs s) (fun s =>
    term_ok s
    ∧ fb_width (Emulator.fb (Complete.terminal s)) = to_int w
    ∧ fb_height (Emulator.fb (Complete.terminal s)) = to_int h).
Proof.
  intros Hw Hh. apply wp_bind. eapply safe_wp; [by apply make_ok|]. intros s (Hs & <- & <-).
  eapply wp_weaken; [by apply act_strings_ok|].
  intros s' [Hp He]. pose proof He as [(?&?&?) _].
  split_and!; [split; [done|by eapply emu_kept_ok]|done..].
Qed.

(** Without zero-width characters the emulator fails no assertion at
    all. *)
Theorem emulator_never_faults (w h : Z) (strs : list (list Z)) :
  0 < to_int w → 0 < to_int h → (∀ ch, wcwidth ch ≠ 0) →
  ∃ s, (s ← Complete.make w h; act_strings strs s) = Ok s ∧ term_ok s.
Proof.
  intros Hw Hh Hz. apply safe_inv. apply wp_bind. eapply safe_wp; [by apply make_ok|].
  intros s (Hs & _). eapply wp_mono; [by apply act_strings_ok| |].
  - intros ft [_ [ch Hch]]. by destruct (Hz ch).
  - intros s' [Hp He]. split; [done|by eapply emu_kept_ok].
Qed.
End complete.

(** ** Instances *)

Import RFC3629.

(** A locale in which every character is one column wide, and one with the
    combining diacritical marks. *)
Definition narrow : Wcwidth := fun _ => 1.
Definition with_marks : Wcwidth := fun c => if (0x300 <=? c) && (c <=? 0x36F) then 0 else 1.

Lemma narrow_laws : @WcwidthLaws narrow.
Proof. intros c. by right; right; left. Qed.

Lemma with_marks_laws : @WcwidthLaws with_marks.
Proof. intros c. unfold wcwidth, with_marks. destruct (_ && _); auto. Qed.

Lemma emulator_safe_witness :
  wp (@emulator_fault with_marks)
    (s ← Complete.make 5 3; @act_strings RFC3629.rfc3629 with_marks [[97; 27; 91; 50; 74]; [10; 195; 169]] s)
    (fun s => term_ok s ∧ fb_width (Emulator.fb (Complete.terminal s)) = 5
      ∧ fb_height (Emulator.fb (Complete.terminal s)) = 3).
Proof.
  apply (@emulator_safe _ Utf8Theorems.rfc3629_laws with_marks with_marks_laws 5 3); by_eval.
Defined.

Lemma emulator_never_faults_witness :
  ∃ s, (s ← Complete.make 5 3; @act_strings RFC3629.rfc3629 narrow [[97; 27; 91; 50; 74]; [255; 8]] s) = Ok s
    ∧ term_ok s.
Proof.
  apply (@emulator_never_faults _ Utf8Theorems.rfc3629_laws narrow narrow_laws 5 3);
    [by_eval|by_eval|done].
Defined.

(** The assertion is reachable: the letter a, erasing its line, and a
    combining acute accent abort the process of whoever runs the emulator. *)
Theorem combining_assertion_reachable :
  (s ← Complete.make 5 3; @act_strings RFC3629.rfc3629 with_marks [[97; 27; 91; 50; 75; 204; 129]] s)
  = Fault (AssertFailed "this_cell == combining_cell").
Proof. by vm_compute. Qed.
End EmulatorGuarantees.
