(* ===== verification/ScreenProps.v ===== *)
(** * What the screen operations do

    Functional behaviour of the framebuffer methods and of the terminal
    functions that use them: scrolling, line feed and reverse index, cursor
    save and restore, resizing, posterization. *)

From S2P Require Import Prelude VtParser TerminalFramebuffer FramebufferWf TerminalDispatcher TerminalFunctions.

Module ScreenTheorems.

Abbreviation top_margin f := (DrawState.scrolling_region_top_row (Framebuffer.ds f)).
Abbreviation bottom_margin f := (DrawState.scrolling_region_bottom_row (Framebuffer.ds f)).
Abbreviation cursor_row f := (DrawState.cursor_row (Framebuffer.ds f)).
Abbreviation cursor_col f := (DrawState.cursor_col (Framebuffer.ds f)).

(** ** Scrolling *)

(** The rows from [r] to [b] move up by one and a blank row enters at [b];
    everything else stays. *)
Definition rows_up (r b : Z) (f f' : Framebuffer.t) : Prop :=
  ∀ i : nat, Framebuffer.rows f' !! i =
    if (r <=? Z.of_nat i) && (Z.of_nat i <? b) then Framebuffer.rows f !! S i
    else if Z.of_nat i =? b then Some (Framebuffer.newrow f)
    else Framebuffer.rows f !! i.

Definition rows_down (r b : Z) (f f' : Framebuffer.t) : Prop :=
  ∀ i : nat, Framebuffer.rows f' !! i =
    if (r <? Z.of_nat i) && (Z.of_nat i <=? b) then Framebuffer.rows f !! (i - 1)%nat
    else if Z.of_nat i =? r then Some (Framebuffer.newrow f)
    else Framebuffer.rows f !! i.

Lemma delete_line_rows row f :
  fb_ok f → top_margin f ≤ row ≤ bottom_margin f →
  ∃ rs, Framebuffer.delete_line row f = Ok (Framebuffer.set_rows rs f)
    ∧ rows_up row (bottom_margin f) f (Framebuffer.set_rows rs f).
Proof.
  intros Hf Hrow. rewrite delete_line_eq by done. eexists. split; [done|].
  pose proof Hf as ((?&?&?&?&?&?&?&?&?) & Hlen & _). intros i. cbn.
  rewrite lookup_shift_up by (unfold zlen in *; lia).
  repeat case_decide; split_ifs; try lia; done.
Qed.

Lemma insert_line_rows row f :
  fb_ok f → top_margin f ≤ row ≤ bottom_margin f →
  ∃ rs, Framebuffer.insert_line row f = Ok (Framebuffer.set_rows rs f)
    ∧ rows_down row (bottom_margin f) f (Framebuffer.set_rows rs f).
Proof.
  intros Hf Hrow. rewrite insert_line_eq by (done || lia). eexists. split; [done|].
  pose proof Hf as ((?&?&?&?&?&?&?&?&?) & Hlen & _). intros i. cbn.
  rewrite lookup_shift_down by (unfold zlen in *; lia).
  repeat case_decide; split_ifs; try lia; done.
Qed.

(** A blank screen of four columns and three rows, with its cursor on row
    [r], for the witnesses *)
Definition blank_screen : Framebuffer.t :=
  ltac:(let x := eval vm_compute in (Framebuffer.make 4 3) in
        lazymatch x with Ok ?f => exact f end).

Definition sample (r : Z) : Framebuffer.t :=
  Framebuffer.on_ds (DrawState.set_cursor_row r) blank_screen.

(** Inserting and deleting a line inside the scrolling region shift
    exactly the rows between the line and the bottom margin, bring in one
    blank row of the current background, and leave the rest of the screen
    and the draw state alone; outside the region they do nothing. *)
Theorem line_operations (row : Z) (f : Framebuffer.t) :
  fb_ok f →
  (top_margin f ≤ row ≤ bottom_margin f →
     ∃ up down,
       Framebuffer.delete_line row f = Ok up ∧ rows_up row (bottom_margin f) f up
       ∧ Framebuffer.insert_line row f = Ok down ∧ rows_down row (bottom_margin f) f down
       ∧ Framebuffer.ds up = Framebuffer.ds f ∧ Framebuffer.ds down = Framebuffer.ds f)
  ∧ ((row < top_margin f ∨ bottom_margin f + 1 < row) →
       Framebuffer.delete_line row f = Ok f ∧ Framebuffer.insert_line row f = Ok f).
Proof.
  intros Hf. split.
  - intros Hrow. destruct (delete_line_rows row f Hf Hrow) as (u & Hu & Hur).
    destruct (insert_line_rows row f Hf Hrow) as (d & Hd & Hdr).
    eexists _, _. by split_and!.
  - intros Hrow. unfold Framebuffer.delete_line, Framebuffer.insert_line.
    destruct ((row <? _) || (_ <? row)) eqn:?; [|lia].
    destruct ((row <? _) || (_ + 1 <? row)) eqn:?; [done|lia].
Qed.

Lemma line_operations_witness :
  fb_ok (sample 1) ∧ ∃ up down,
    Framebuffer.delete_line 1 (sample 1) = Ok up ∧ rows_up 1 2 (sample 1) up
    ∧ Framebuffer.insert_line 1 (sample 1) = Ok down ∧ rows_down 1 2 (sample 1) down
    ∧ Framebuffer.ds up = Framebuffer.ds (sample 1) ∧ Framebuffer.ds down = Framebuffer.ds (sample 1).
Proof. split; [by_eval|]. apply (line_operations 1 (sample 1)); by_eval. Defined.

(** [scroll] by one line, as [move_rows_autoscroll] calls it *)
Lemma scroll_up_once f :
  fb_ok f → ∃ rs, Framebuffer.scroll 1 f
      = Ok (Framebuffer.on_ds (DrawState.move_row (-1) true) (Framebuffer.set_rows rs f))
    ∧ rows_up (top_margin f) (bottom_margin f) f (Framebuffer.set_rows rs f).
Proof.
  intros Hf. destruct (delete_line_rows (top_margin f) f Hf) as (rs & Heq & Hrs).
  { pose proof Hf as ((?&?&?&?&?&?&?&?&?) & _). lia. }
  exists rs. split; [|done]. unfold Framebuffer.scroll, for_range.
  change (0 <=? 1) with true. change (Z.to_nat (1 - 0)) with 1%nat.
  cbn [for_up]. by rewrite Heq.
Qed.

Lemma scroll_down_once f :
  fb_ok f → ∃ rs, Framebuffer.scroll (-1) f
      = Ok (Framebuffer.on_ds (DrawState.move_row 1 true) (Framebuffer.set_rows rs f))
    ∧ rows_down (top_margin f) (bottom_margin f) f (Framebuffer.set_rows rs f).
Proof.
  intros Hf. destruct (insert_line_rows (top_margin f) f Hf) as (rs & Heq & Hrs).
  { pose proof Hf as ((?&?&?&?&?&?&?&?&?) & _). lia. }
  exists rs. split; [|done]. unfold Framebuffer.scroll, for_range.
  change (0 <=? -1) with false. change (Z.to_nat (- -1 - 0)) with 1%nat.
  cbn [for_up]. rewrite scroll_down_body by done. by rewrite Heq.
Qed.

(** A line feed on the bottom margin scrolls the region up by one
    line and leaves the cursor where it is; elsewhere it moves the cursor
    down one row, stopping at the last row it may reach, and touches no
    cell. *)
Theorem line_feed (f : Framebuffer.t) (d : Dispatcher.t) :
  fb_ok f → top_margin f < bottom_margin f →
  (cursor_row f = bottom_margin f →
     ∃ f', Ctrl_LF f d = Ok (f', d)
       ∧ rows_up (top_margin f) (bottom_margin f) f f'
       ∧ cursor_row f' = cursor_row f ∧ cursor_col f' = cursor_col f)
  ∧ (cursor_row f ≠ bottom_margin f →
     ∃ f', Ctrl_LF f d = Ok (f', d)
       ∧ Framebuffer.rows f' = Framebuffer.rows f
       ∧ cursor_row f' = Z.min (DrawState.limit_bottom (Framebuffer.ds f))
           (Z.max (DrawState.limit_top (Framebuffer.ds f)) (cursor_row f + 1))
       ∧ cursor_col f' = cursor_col f).
Proof.
  intros Hf Hmargins. pose proof Hf as ((Hsz&?&?&?&?&?&?&?&?) & _). split; intros Hrow.
  - destruct (scroll_up_once f Hf) as (rs & Hs & Hrs).
    unfold Ctrl_LF, Framebuffer.move_rows_autoscroll. z_bools. cbn [orb].
    replace (cursor_row f + 1 - bottom_margin f) with 1 by lia.
    rewrite Hs. cbn [mbind result_bind]. eexists. split_and!; [done|exact Hrs|..].
    all: cbn -[DrawState.move_row]; ds_unfold; split_ifs; lia.
  - unfold Ctrl_LF, Framebuffer.move_rows_autoscroll.
    eexists. split.
    { split_ifs; try lia; cbn [mbind result_bind]; done. }
    split_and!; [done|..]; cbn -[DrawState.move_row]; ds_unfold; split_ifs; lia.
Qed.

Lemma line_feed_witness :
  fb_ok (sample 2) ∧ ∃ f', Ctrl_LF (sample 2) Dispatcher.make = Ok (f', Dispatcher.make)
    ∧ rows_up 0 2 (sample 2) f' ∧ cursor_row f' = 2 ∧ cursor_col f' = 0.
Proof. split; [by_eval|]. apply (line_feed (sample 2)); by_eval. Defined.

(** Reverse index is the mirror image: on the top margin of a region
    of at least two rows it scrolls the region down and keeps the cursor. *)
Theorem reverse_index (f : Framebuffer.t) (d : Dispatcher.t) :
  fb_ok f → top_margin f < bottom_margin f → cursor_row f = top_margin f →
  ∃ f', Ctrl_RI f d = Ok (f', d)
    ∧ rows_down (top_margin f) (bottom_margin f) f f'
    ∧ cursor_row f' = cursor_row f ∧ cursor_col f' = cursor_col f.
Proof.
  intros Hf Hmargins Hrow. pose proof Hf as ((Hsz&?&?&?&?&?&?&?&?) & _).
  destruct (scroll_down_once f Hf) as (rs & Hs & Hrs).
  unfold Ctrl_RI, Framebuffer.move_rows_autoscroll. z_bools. cbn [orb].
  replace (cursor_row f + -1 - top_margin f) with (-1) by lia.
  rewrite Hs. cbn [mbind result_bind]. eexists. split_and!; [done|exact Hrs|..].
  all: cbn -[DrawState.move_row]; ds_unfold; split_ifs; lia.
Qed.
Lemma reverse_index_witness :
  fb_ok (sample 0) ∧ ∃ f', Ctrl_RI (sample 0) Dispatcher.make = Ok (f', Dispatcher.make)
    ∧ rows_down 0 2 (sample 0) f' ∧ cursor_row f' = 0 ∧ cursor_col f' = 0.
Proof. split; [by_eval|]. apply (reverse_index (sample 0)); by_eval. Defined.

(** In a one-row region at the bottom of the screen - which margins
    beginning on the last row and ending below it produce - reverse index
    scrolls and then leaves the region: the cursor ends one row above it. *)
Theorem reverse_index_leaves_region :
  ∃ f f', f = Framebuffer.on_ds (DrawState.set_scrolling_region 2 7) (sample 2)
    ∧ fb_ok f ∧ top_margin f = 2 ∧ bottom_margin f = 2
    ∧ Ctrl_RI f Dispatcher.make = Ok (f', Dispatcher.make)
    ∧ cursor_row f = 2 ∧ cursor_row f' = 1.
Proof. eexists _, _. split_and!; [done|by_eval|by vm_compute..]. Qed.

(** ** Saving and restoring the cursor *)

(** DECRC brings back what DECSC saved - position, rendition,
    auto-wrap and origin mode - from any state that still has the saved
    record, the size and the margins of the save, if the cursor was within
    the limits of its mode when it was saved. *)
Theorem save_restore_cursor (d d' : DrawState.t) :
  ds_ok d → DrawState.limit_top d ≤ DrawState.cursor_row d ≤ DrawState.limit_bottom d →
  DrawState.save d' = DrawState.save (DrawState.save_cursor d) →
  DrawState.width d' = DrawState.width d → DrawState.height d' = DrawState.height d →
  DrawState.scrolling_region_top_row d' = DrawState.scrolling_region_top_row d →
  DrawState.scrolling_region_bottom_row d' = DrawState.scrolling_region_bottom_row d →
  let r := DrawState.restore_cursor d' in
  DrawState.cursor_row r = DrawState.cursor_row d
  ∧ DrawState.cursor_col r = DrawState.cursor_col d
  ∧ DrawState.combining_char_row r = DrawState.cursor_row d
  ∧ DrawState.combining_char_col r = DrawState.cursor_col d
  ∧ DrawState.renditions r = DrawState.renditions d
  ∧ DrawState.auto_wrap_mode r = DrawState.auto_wrap_mode d
  ∧ DrawState.origin_mode r = DrawState.origin_mode d.
Proof.
  intros (?&?&?&?) Hlim Hsave Hw Hh Ht Hb. cbv zeta. revert Hlim.
  unfold DrawState.limit_top, DrawState.limit_bottom. intros Hlim.
  ds_unfold. rewrite Hsave. cbn -[Z.min Z.max]. rewrite Hw, Hh, Ht, Hb.
  split_and!; try done; destruct (DrawState.origin_mode d); lia.
Qed.

Lemma save_restore_cursor_witness :
  let d := DrawState.set_cursor_col 3 (Framebuffer.ds (sample 1)) in
  let d' := DrawState.set_origin_mode true
              (DrawState.add_rendition 7 (DrawState.move_row 0 false (DrawState.save_cursor d))) in
  DrawState.cursor_row (DrawState.restore_cursor d') = 1
  ∧ DrawState.cursor_col (DrawState.restore_cursor d') = 3
  ∧ DrawState.combining_char_row (DrawState.restore_cursor d') = 1
  ∧ DrawState.combining_char_col (DrawState.restore_cursor d') = 3
  ∧ DrawState.renditions (DrawState.restore_cursor d') = Renditions.make 0
  ∧ DrawState.auto_wrap_mode (DrawState.restore_cursor d') = true
  ∧ DrawState.origin_mode (DrawState.restore_cursor d') = false.
Proof.
  intros d d'. apply (save_restore_cursor d d'); first [by_eval|by vm_compute].
Defined.

(** ** Posterization *)

(** A colour the first eight palette entries can express *)
Lemma posterize_fixed r :
  (Renditions.foreground_color r = 0 ∨ 30 ≤ Renditions.foreground_color r ≤ 37) →
  (Renditions.background_color r = 0 ∨ 40 ≤ Renditions.background_color r ≤ 47) →
  Renditions.posterize r = Ok r.
Proof.
  assert (∀ c, 0 ≤ c ≤ 7 → vec_get Renditions.standard_posterization c = Ok c) as Htab.
  { intros c Hc. assert (c = 0 ∨ c = 1 ∨ c = 2 ∨ c = 3 ∨ c = 4 ∨ c = 5 ∨ c = 6 ∨ c = 7)
      as Hcs by lia. by repeat destruct Hcs as [->|Hcs]; [..|subst]. }
  intros Hf Hb. destruct r as [????? fg bg]. unfold Renditions.posterize. cbn -[Z.add Z.sub] in *.
  destruct (Z.eqb_spec fg 0) as [Ef|Ef]; cbn -[Z.add Z.sub].
  all: try (rewrite (Htab (fg - 30)) by lia; cbn -[Z.add Z.sub]).
  all: destruct (Z.eqb_spec bg 0) as [Eb|Eb]; cbn -[Z.add Z.sub].
  all: try (rewrite (Htab (bg - 40)) by lia; cbn -[Z.add Z.sub]).
  all: unfold Renditions.with_background, Renditions.with_foreground; cbn -[Z.add Z.sub].
  all: do 2 f_equal; lia.
Qed.

Definition cell_posterized (c : Cell.t) : Prop :=
  Renditions.posterize (Cell.renditions c) = Ok (Cell.renditions c).

(** Posterizing a well-formed screen succeeds - the palette table is
    never indexed out of range - and doing it again changes nothing. *)
Theorem posterize_idempotent (f : Framebuffer.t) :
  fb_ok f → ∃ f', Framebuffer.posterize f = Ok f'
    ∧ fb_ok f' ∧ Framebuffer.ds f' = Framebuffer.ds f
    ∧ Framebuffer.posterize f' = Ok f'.
Proof.
  intros Hf. pose proof Hf as (_ & Hlen & Hrows).
  assert (safe (map_result (map_result (fun c =>
      r ← Renditions.posterize (Cell.renditions c); Ok (Cell.set_renditions r c)))
      (Framebuffer.rows f)) (fun rs => zlen rs = zlen (Framebuffer.rows f)
        ∧ Forall (Forall cell_posterized) rs)) as Hpost.
  { apply (map_result_spec _ (row_ok (fb_width f)) (Forall cell_posterized)); [done|].
    intros r [_ Hr]. eapply wp_weaken; [apply (map_result_spec _ cell_ok cell_posterized); [done|]|].
    - intros c (Hc & _). apply wp_bind. eapply wp_weaken; [by apply rend_posterize_ok|].
      intros r' (_ & ? & ?). apply wp_ok. by apply posterize_fixed.
    - by intros r' [_ ?]. }
  destruct (proj1 (safe_inv _ _) (posterize_ok _ f Hf)) as (f' & Heq & Hok & Hds).
  exists f'. split_and!; try done. unfold Framebuffer.posterize in Heq |- *.
  destruct (map_result _ _) as [rs|]; [|done]. cbn in Heq, Hpost. destruct Hpost as [_ Hpost].
  injection Heq as <-. cbn. rewrite map_result_id; [done|].
  eapply Forall_impl; [exact Hpost|]. intros r Hr. apply map_result_id.
  eapply Forall_impl; [exact Hr|]. intros c Hc. unfold cell_posterized in Hc. rewrite Hc.
  by destruct c.
Qed.

Lemma posterize_idempotent_witness :
  let f := Framebuffer.set_rows [[Cell.mk [97] false 1 (Renditions.mk true false false false false 229 240) false]]
             (Framebuffer.on_ds (fun d => DrawState.set_bottom_row 0 (DrawState.set_tabs [true]
                (DrawState.set_height 1 (DrawState.set_width 1 d)))) blank_screen) in
  fb_ok f ∧ ∃ f', Framebuffer.posterize f = Ok f'
    ∧ fb_ok f' ∧ Framebuffer.ds f' = Framebuffer.ds f
    ∧ Framebuffer.posterize f' = Ok f'.
Proof. intros f. split; [by_eval|]. apply (posterize_idempotent f). by_eval. Defined.

(** ** Resizing *)

Lemma map_result_lookup {A B} (f : A → result B) l l' :
  map_result f l = Ok l' → zlen l' = zlen l ∧
  ∀ i x, l !! i = Some x → ∃ y, f x = Ok y ∧ l' !! i = Some y.
Proof.
  revert l'. induction l as [|x l IH]; intros l' Hl; simpl in *.
  { simplify_eq. by split. }
  destruct (f x) as [y|] eqn:Hy; simpl in Hl; [|done].
  destruct (map_result f l) as [ys|]; simpl in Hl; [|done]. simplify_eq.
  destruct (IH ys eq_refl) as [Hlen Hlook]. split; [by rewrite !zlen_cons, Hlen|].
  intros [|i] z Hz; simpl in *; [simplify_eq; eauto|by apply Hlook].
Qed.

Lemma set_wrap_lookup b w r :
  row_ok w r → 0 < w → ∃ r', Row.set_wrap b r = Ok r' ∧ zlen r' = w ∧
    ∀ j : nat, r' !! j = if Z.of_nat j =? w - 1 then Cell.set_wrap b <$> r !! j else r !! j.
Proof.
  intros [Hlen _] Hw. unfold Row.set_wrap.
  destruct (lookup_lt_is_Some_2 r (Z.to_nat (zlen r - 1))) as [c Hc]; [unfold zlen in *; lia|].
  rewrite (vec_alter_Ok _ _ _ c (Cell.set_wrap b c)) by (done || lia).
  eexists. split; [done|]. split; [unfold zlen in *; by rewrite length_insert|].
  intros j. destruct (Z.eqb_spec (Z.of_nat j) (w - 1)) as [Hj|Hj].
  - replace j with (Z.to_nat (zlen r - 1)) by lia. rewrite Hc.
    rewrite list_lookup_insert_eq; [done|]. by apply lookup_lt_Some in Hc.
  - apply list_lookup_insert_ne. lia.
Qed.

(** One row: the old cells, the last of them no longer wrapping, then blank
    ones. *)
Lemma resized_row bg w w' r :
  row_ok w r → 0 < w → 0 < w' →
  ∃ r', (r1 ← Row.set_wrap false r; Ok (vec_resize w' (Cell.make bg) r1)) = Ok r'
    ∧ ∀ j : nat, Z.of_nat j < w' → r' !! j =
        if Z.of_nat j <? w - 1 then r !! j
        else if Z.of_nat j =? w - 1 then Cell.set_wrap false <$> r !! j
        else Some (Cell.make bg).
Proof.
  intros Hr Hw Hw'. destruct (set_wrap_lookup false w r Hr Hw) as (r1 & -> & Hl & Hr1).
  eexists. split; [done|]. intros j Hj. unfold vec_resize, zlen in *.
  destruct (decide (Z.of_nat j < w)) as [Hjw|Hjw].
  - rewrite lookup_resize, Hr1 by lia. split_ifs; try lia; done.
  - rewrite lookup_resize_new by lia. by z_bools.
Qed.

(** Resizing keeps the overlap of the old and the new screen: every
    cell of it is unchanged, except that the old last column no longer
    wraps; the cells it adds are blank in the current background; and the
    result is well formed, so its cursor is on the new screen. *)
Theorem resize_keeps_overlap (w' h' : Z) (f : Framebuffer.t) :
  fb_ok f → 0 < w' → 0 < h' →
  ∃ f', Framebuffer.resize w' h' f = Ok f' ∧ fb_ok f'
    ∧ fb_width f' = w' ∧ fb_height f' = h'
    ∧ ∀ i j : nat, Z.of_nat i < h' → Z.of_nat j < w' →
        cell_at f' i j =
          if (Z.of_nat i <? fb_height f) && (Z.of_nat j <? fb_width f - 1) then cell_at f i j
          else if (Z.of_nat i <? fb_height f) && (Z.of_nat j =? fb_width f - 1)
          then Cell.set_wrap false <$> cell_at f i j
          else Some (Cell.make (DrawState.get_background_rendition (Framebuffer.ds f))).
Proof.
  intros Hf Hw Hh. destruct (proj1 (safe_inv _ _) (fb_resize_spec _ w' h' f Hf Hw Hh))
    as (f' & Heq & Hf' & Hfw & Hfh).
  exists f'. split_and!; [done..|]. intros i j Hi Hj.
  pose proof Hf as (((Hw0 & _) & _) & Hlen & Hrows). revert Heq. unfold Framebuffer.resize.
  z_bools. cbn [assert_that mbind result_bind]. set (bg := DrawState.get_background_rendition _).
  destruct (map_result _ _) as [rs|] eqn:Hmap; [|done]. intros Heq.
  apply map_result_lookup in Hmap as [_ Hmap].
  assert (Framebuffer.rows f' = rs) as Hrs.
  { revert Heq. cbn [mbind result_bind]. unfold Framebuffer.on_ds_result.
    destruct (DrawState.resize w' h' _); cbn [mbind result_bind]; [|done]. by intros [= <-]. }
  unfold cell_at. rewrite Hrs. destruct (Z.ltb_spec (Z.of_nat i) (fb_height f)) as [Hio|Hio].
  - destruct (lookup_lt_is_Some_2 (Framebuffer.rows f) i) as [r Hr]; [unfold zlen in Hlen; lia|].
    rewrite Hr. destruct (Hmap i r) as (r' & Hr' & Hrs').
    { unfold vec_resize. by rewrite lookup_resize by (unfold zlen in Hlen; lia). }
    destruct (resized_row bg (fb_width f) w' r) as (r2 & Hr2 & Hcells); [|done..|].
    { rewrite Forall_lookup in Hrows. eauto. }
    assert (r' = r2) as -> by congruence. rewrite Hrs'. simpl. rewrite Hcells by done. done.
  - destruct (Hmap i (Framebuffer.newrow f)) as (r' & Hr' & Hrs').
    { unfold vec_resize. by rewrite lookup_resize_new by (unfold zlen in Hlen; lia). }
    destruct (resized_row bg (fb_width f) w' (Framebuffer.newrow f)) as (r2 & Hr2 & Hcells);
      [by apply fb_row_ok|done..|].
    assert (r' = r2) as -> by congruence. rewrite Hrs'. simpl. rewrite Hcells by done.
    unfold Framebuffer.newrow, Row.make. fold bg.
    split_ifs; try done; rewrite lookup_replicate_2 by lia; done.
Qed.

Lemma resize_keeps_overlap_witness :
  fb_ok (sample 1) ∧ ∃ f', Framebuffer.resize 6 2 (sample 1) = Ok f' ∧ fb_ok f'
    ∧ fb_width f' = 6 ∧ fb_height f' = 2
    ∧ ∀ i j : nat, Z.of_nat i < 2 → Z.of_nat j < 6 →
        cell_at f' i j =
          if (Z.of_nat i <? 3) && (Z.of_nat j <? 3) then cell_at (sample 1) i j
          else if (Z.of_nat i <? 3) && (Z.of_nat j =? 3)
          then Cell.set_wrap false <$> cell_at (sample 1) i j
          else Some (Cell.make 0).
Proof. split; [by_eval|]. apply (resize_keeps_overlap 6 2 (sample 1)); by_eval. Defined.

End ScreenTheorems.
