(* ===== verification/SequenceProps.v ===== *)
(** * Control sequences end to end

    From octets on the wire to the draw state: what a control sequence does
    when it goes through the UTF-8 front end, the parser, the dispatcher and
    the registered function; in particular the escape string that
    [Renditions::sgr] writes selects the rendition it was written for. *)

From S2P Require Import Prelude VtParser Utf8 TerminalFramebuffer FramebufferWf TerminalDispatcher DispatcherProps TerminalFunctions TerminalEmulator ScreenProps.

Module SequenceTheorems.
Import DispatcherLemmas.

(** ** Parsing a control sequence *)

Definition param_action (c : Z) : Parser.Action :=
  Parser.set_char c (Parser.new_action Parser.Param).

Lemma param_char_range c : param_char c = true → 48 ≤ c ≤ 57 ∨ c = 59.
Proof. unfold param_char, is_digit. lia. Qed.

Lemma csi_param_step s c :
  s = Parser.CSI_Entry ∨ s = Parser.CSI_Param → param_char c = true →
  Parser.input s c = Ok ([param_action c], Parser.CSI_Param).
Proof.
  intros Hs Hc%param_char_range. unfold Parser.input, Parser.State_input, Parser.anywhere_rule,
    Parser.between. z_bools. cbn [orb andb].
  destruct Hs as [->| ->]; cbn; unfold Parser.CSI_Entry_rule, Parser.CSI_Param_rule,
    Parser.C0_prime, Parser.between; destruct Hc as [Hc| ->]; try done; z_bools; done.
Qed.

Lemma csi_final_step s c :
  s = Parser.CSI_Entry ∨ s = Parser.CSI_Param → 0x40 ≤ c ≤ 0x7E →
  Parser.input s c =
    Ok ([Parser.set_char c (Parser.new_action Parser.CSI_Dispatch)], Parser.Ground).
Proof.
  intros Hs Hc. unfold Parser.input, Parser.State_input, Parser.anywhere_rule,
    Parser.between. z_bools. cbn [orb andb].
  destruct Hs as [->| ->]; cbn; unfold Parser.CSI_Entry_rule, Parser.CSI_Param_rule,
    Parser.C0_prime, Parser.between; z_bools; done.
Qed.

Lemma csi_run_params s ps c :
  s = Parser.CSI_Entry ∨ s = Parser.CSI_Param →
  forallb param_char ps = true → 0x40 ≤ c ≤ 0x7E →
  Parser.run s (ps ++ [c]) =
    Ok ((param_action <$> ps) ++ [Parser.set_char c (Parser.new_action Parser.CSI_Dispatch)],
        Parser.Ground).
Proof.
  intros Hs Hps Hc. revert s Hs. induction ps as [|p ps IH]; intros s Hs; simpl in *.
  - by rewrite csi_final_step.
  - apply andb_true_iff in Hps as [Hp Hps]. rewrite csi_param_step by done. simpl.
    rewrite IH by auto. done.
Qed.

(** The actions of ESC [[] parameters final *)
Definition csi_actions (ps : list Z) (c : Z) : list Parser.Action :=
  [Parser.new_action Parser.Clear; Parser.new_action Parser.Clear]
  ++ (param_action <$> ps) ++ [Parser.set_char c (Parser.new_action Parser.CSI_Dispatch)].

Lemma csi_run ps c :
  forallb param_char ps = true → 0x40 ≤ c ≤ 0x7E →
  Parser.run Parser.Ground (27 :: 91 :: ps ++ [c]) = Ok (csi_actions ps c, Parser.Ground).
Proof.
  intros Hps Hc. cbn [Parser.run].
  change (Parser.input Parser.Ground 27) with (Ok ([Parser.new_action Parser.Clear], Parser.Escape)).
  cbn [mbind result_bind].
  change (Parser.input Parser.Escape 91) with (Ok ([Parser.new_action Parser.Clear], Parser.CSI_Entry)).
  cbn [mbind result_bind]. by rewrite csi_run_params by auto.
Qed.

(** ** Applying it *)

Section effect.
Context `{Wcwidth}.
Implicit Types (e : Emulator.t) (d : Dispatcher.t).

Definition with_params (ps : list Z) d : Dispatcher.t :=
  Dispatcher.set_parsed false (Dispatcher.set_params ps d).

Lemma act_params ps e :
  forallb param_char ps = true →
  zlen (Dispatcher.params (Emulator.dispatch e)) + zlen ps ≤ 100 →
  Dispatcher.parsed (Emulator.dispatch e) = false →
  Emulator.act_all (param_action <$> ps) e =
    Ok (Emulator.mk (Emulator.fb e)
          (with_params (Dispatcher.params (Emulator.dispatch e) ++ ps) (Emulator.dispatch e))
          (Emulator.user e)).
Proof.
  revert e. induction ps as [|p ps IH]; intros e Hps Hlen Hparsed.
  { cbn. rewrite app_nil_r. destruct e as [f d u]. destruct d. cbn in *. by subst. }
  simpl in Hps. apply andb_true_iff in Hps as [Hp Hps]. rewrite zlen_cons in Hlen.
  pose proof (zlen_nonneg ps). cbn [fmap list_fmap]. unfold Emulator.act_all. cbn [for_each].
  assert (Emulator.act_on_terminal (param_action p) e = Ok (Parser.set_handled (param_action p),
    Emulator.mk (Emulator.fb e)
      (with_params (Dispatcher.params (Emulator.dispatch e) ++ [p]) (Emulator.dispatch e))
      (Emulator.user e))) as ->.
  { cbn. unfold Dispatcher.newparamchar. cbn. unfold param_char in Hp. rewrite Hp.
    cbn. z_bools. cbn. pose proof (param_char_range p Hp).
    rewrite (uwrap_small 8 p) by (cbn; lia). done. }
  cbn [fmap result_fmap snd mbind result_bind].
  change (for_each ?l ?b ?x) with (Emulator.act_all l x). rewrite IH.
  - cbn. by rewrite <- app_assoc.
  - done.
  - cbn. rewrite zlen_app. unfold zlen at 2. cbn. lia.
  - done.
Qed.

Lemma act_all_app xs ys e :
  Emulator.act_all (xs ++ ys) e = (e' ← Emulator.act_all xs e; Emulator.act_all ys e').
Proof.
  unfold Emulator.act_all. revert e. induction xs as [|x xs IH]; intros e; [done|].
  cbn [app for_each]. destruct (Emulator.act_on_terminal x e) as [[a e']|]; [|done].
  cbn [fmap result_fmap snd mbind result_bind]. apply IH.
Qed.

(** The dispatcher when the final character arrives *)
Definition csi_dispatcher (ps : list Z) d : Dispatcher.t :=
  Dispatcher.set_dispatch_chars [] (with_params ps d).

Lemma act_csi ps c e :
  forallb param_char ps = true → zlen ps ≤ 100 →
  Emulator.act_all (csi_actions ps c) e =
    (r ← Emulator.dispatch_as CSI (Parser.set_char c (Parser.new_action Parser.CSI_Dispatch))
           (Emulator.mk (Emulator.fb e) (csi_dispatcher ps (Emulator.dispatch e)) (Emulator.user e));
     Ok (snd r)).
Proof.
  intros Hps Hlen. unfold csi_actions. rewrite act_all_app.
  assert (Emulator.act_all [Parser.new_action Parser.Clear; Parser.new_action Parser.Clear] e
    = Ok (Emulator.mk (Emulator.fb e) (csi_dispatcher [] (Emulator.dispatch e)) (Emulator.user e))) as ->.
  { done. }
  cbn [mbind result_bind]. rewrite act_all_app, act_params by done.
  cbn [mbind result_bind]. unfold Emulator.act_all. cbn [for_each].
  change (Emulator.act_on_terminal (Parser.set_char c (Parser.new_action Parser.CSI_Dispatch)))
    with (Emulator.dispatch_as CSI (Parser.set_char c (Parser.new_action Parser.CSI_Dispatch))).
  match goal with |- (_ <$> ?x) ≫= _ = (?y ≫= _) => change y with x; by destruct x as [[??]|] end.
Qed.
End effect.

(** ** Select graphic rendition *)

(** Look a function up in the registry, with the functions as variables so
    that only the maps are evaluated. *)
Ltac registry_lookup :=
  unfold global_dispatch_registry, registrations;
  generalize CSI_EL CSI_ED CSI_cursormove CSI_DA CSI_SDA Esc_DECALN Ctrl_LF Ctrl_CR Ctrl_BS
    Ctrl_RI Ctrl_NEL Ctrl_HT Ctrl_HTS CSI_TBC CSI_DECSM CSI_DECRM CSI_SM CSI_RM CSI_DECSTBM
    Ctrl_BEL CSI_SGR Esc_DECSC Esc_DECRC CSI_DSR CSI_IL CSI_DL CSI_ICH CSI_DCH CSI_VPA CSI_HPA
    CSI_ECH Esc_RIS CSI_DECSTR CSI_SD CSI_SU;
  intros; vm_compute; reflexivity.

Lemma registry_SGR :
  DispatchRegistry.csi global_dispatch_registry !! [109] = Some (Function.mk CSI_SGR false).
Proof. registry_lookup. Qed.

Lemma dispatch_SGR f d :
  Dispatcher.dispatch_chars d = [] →
  dispatch global_dispatch_registry CSI
    (Parser.set_char 109 (Parser.new_action Parser.CSI_Dispatch)) f d
  = ('(f', d') ← CSI_SGR f (Dispatcher.set_dispatch_chars [109] d);
     Ok (Parser.set_handled (Parser.set_char 109 (Parser.new_action Parser.CSI_Dispatch)), f', d')).
Proof.
  intros Hd. unfold dispatch, Dispatcher.collect. rewrite Hd.
  cbn [Parser.char_present Parser.set_char Parser.new_action Parser.ch assert_that mbind result_bind].
  change ((zlen [] <? 8) && (109 <=? 255)) with true. cbn [mbind result_bind].
  change (Dispatcher.dispatch_chars (Dispatcher.set_dispatch_chars (vec_push [] (u8 109)) d)) with [109].
  cbn [DispatchRegistry.map_of]. rewrite registry_SGR. done.
Qed.

(** A parameter as [CSI_SGR] reads it, with default 0 *)
Definition sgr_param (v : Z) : Z := if v <? 1 then 0 else v.

Definition apply_sgr (vs : list Z) (r : Renditions.t) : Renditions.t :=
  fold_left (fun r v => Renditions.set_rendition (sgr_param v) r) vs r.

Definition on_renditions (g : Renditions.t → Renditions.t) (f : Framebuffer.t) : Framebuffer.t :=
  Framebuffer.on_ds (fun d => DrawState.set_renditions (g (DrawState.renditions d)) d) f.

Definition values (d : Dispatcher.t) : list Z := segment_value <$> segments (Dispatcher.params d).

(** The parameters are cached. *)
Definition cached (d : Dispatcher.t) : Prop := parsed_as d d.

Lemma parsed_as_cached d d' : parsed_as d d' → cached d' ∧ values d' = values d.
Proof. intros ->. by destruct d. Qed.

Lemma getparam_cached (n : nat) def d :
  disp_ok d → cached d →
  Dispatcher.getparam (Z.of_nat n) def d = Ok (param_value (values d) n def, d).
Proof.
  intros Hd Hc. destruct (getparam_eq n def d Hd) as (d' & Has & ->).
  assert (d' = d) as -> by (unfold cached, parsed_as in *; congruence). done.
Qed.

Lemma sgr_loop n i f d :
  disp_ok d → cached d → (i + n = length (values d))%nat →
  for_up n (Z.of_nat i) (fun i '(f, d) =>
    '(rendition, d) ← Dispatcher.getparam i 0 d;
    Ok (Framebuffer.on_ds (DrawState.add_rendition rendition) f, d)) (f, d)
  = Ok (on_renditions (apply_sgr (drop i (values d))) f, d).
Proof.
  intros Hd Hc. revert i f. induction n as [|n IH]; intros i f Hlen.
  { rewrite drop_ge by lia. cbn. by destruct f as [???? []]. }
  cbn [for_up]. rewrite getparam_cached by done. cbn [mbind result_bind].
  replace (Z.of_nat i + 1) with (Z.of_nat (S i)) by lia. rewrite IH by lia.
  destruct (lookup_lt_is_Some_2 (values d) i) as [v Hv]; [lia|].
  rewrite (drop_S _ _ _ Hv). unfold param_value. by rewrite Hv.
Qed.

(** [CSI_SGR] applies its parameters from left to right, unless they are
    the 256-colour form. *)
Lemma CSI_SGR_list f d :
  disp_ok d → (∀ v, values d !! 0%nat = Some v → v ≠ 38 ∧ v ≠ 48) →
  ∃ d', parsed_as d d' ∧ CSI_SGR f d = Ok (on_renditions (apply_sgr (values d)) f, d').
Proof.
  intros Hd Hv. destruct (ensure_parsed d Hd) as (d' & Hd' & Has).
  destruct (parsed_as_cached d d' Has) as [Hc Hvals]. exists d'. split; [done|].
  pose proof (parsed_as_ok d d' Hd Has) as Hok.
  unfold CSI_SGR, Dispatcher.param_count. rewrite Hd'. cbn [mbind result_bind].
  rewrite (getparam_cached 0 (-1) d' Hok Hc : Dispatcher.getparam 0 _ _ = _). cbn [mbind result_bind].
  rewrite (getparam_cached 1 (-1) d' Hok Hc : Dispatcher.getparam 1 _ _ = _). cbn [mbind result_bind].
  assert (param_value (values d') 0 (-1) ≠ 38 ∧ param_value (values d') 0 (-1) ≠ 48) as [??].
  { unfold param_value. rewrite Hvals. destruct (values d !! 0%nat) as [v|] eqn:E; cbn; [|done].
    specialize (Hv v eq_refl) as [??]. destruct (v <? 1); lia. }
  z_bools. rewrite andb_false_r. cbn [andb].
  assert (Dispatcher.parsed_params d' = values d') as ->.
  { unfold cached, parsed_as in Hc. by rewrite Hc. }
  unfold for_range. replace (Z.to_nat (zlen (values d') - 0)) with (length (values d')) by (unfold zlen; lia).
  rewrite (sgr_loop _ 0 f d' Hok Hc eq_refl : for_up _ 0 _ _ = _). by rewrite drop_0, Hvals.
Qed.

Lemma CSI_SGR_palette n p f d :
  disp_ok d → values d = [p; 5; n] → (p = 38 ∨ p = 48) → 1 ≤ n →
  ∃ d', parsed_as d d' ∧ CSI_SGR f d =
    Ok (Framebuffer.on_ds (if p =? 38 then DrawState.set_foreground_color n
                           else DrawState.set_background_color n) f, d').
Proof.
  intros Hd Hv Hp Hn. destruct (ensure_parsed d Hd) as (d' & Hd' & Has).
  destruct (parsed_as_cached d d' Has) as [Hc Hvals]. exists d'. split; [done|].
  pose proof (parsed_as_ok d d' Hd Has) as Hok.
  unfold CSI_SGR, Dispatcher.param_count. rewrite Hd'. cbn [mbind result_bind].
  assert (Dispatcher.parsed_params d' = values d') as ->.
  { unfold cached, parsed_as in Hc. by rewrite Hc. }
  pose proof (getparam_cached 0 (-1) d' Hok Hc) as H0.
  pose proof (getparam_cached 1 (-1) d' Hok Hc) as H1.
  pose proof (getparam_cached 2 0 d' Hok Hc) as H2.
  rewrite Hvals, Hv in *.
  rewrite (H0 : Dispatcher.getparam 0 _ _ = _). cbn [mbind result_bind].
  rewrite (H1 : Dispatcher.getparam 1 _ _ = _). cbn [mbind result_bind].
  rewrite (H2 : Dispatcher.getparam 2 _ _ = _). cbn [mbind result_bind].
  unfold param_value. cbn. rewrite (proj2 (Z.ltb_ge n 1)) by lia.
  destruct Hp as [->| ->]; done.
Qed.

(** ** Parameter strings *)

(** A parameter string as its segments *)
Definition join (seg : list Z) (segs : list (list Z)) : list Z :=
  seg ++ concat ((fun s => 59 :: s) <$> segs).

Lemma digits_param s : forallb is_digit s = true → forallb param_char s = true.
Proof.
  rewrite !List.forallb_forall. intros Hs x Hx. unfold param_char. rewrite (Hs x Hx).
  by rewrite orb_true_r.
Qed.

Lemma segments_digits_app seg t :
  forallb is_digit seg = true →
  segments (seg ++ 59 :: t) = seg :: segments t ∧ segments seg = [seg].
Proof.
  induction seg as [|c seg IH]; intros Hs; [done|]. simpl in Hs.
  apply andb_true_iff in Hs as [Hc Hs]. destruct (IH Hs) as [IH1 IH2]. simpl.
  assert ((c =? 59) = false) as -> by (unfold is_digit in Hc; lia).
  by rewrite IH1, IH2.
Qed.

Lemma join_spec seg segs :
  Forall (fun s => forallb is_digit s = true) (seg :: segs) →
  segments (join seg segs) = seg :: segs ∧ forallb param_char (join seg segs) = true.
Proof.
  revert seg. induction segs as [|s segs IH]; intros seg Hall; inversion Hall as [|?? Hseg Hsegs]; subst.
  - unfold join. cbn. rewrite app_nil_r. split; [|by apply digits_param].
    by apply (segments_digits_app seg []).
  - unfold join. cbn. destruct (IH s Hsegs) as [IH1 IH2]. unfold join in IH1, IH2.
    rewrite (proj1 (segments_digits_app seg _ Hseg)), IH1. split; [done|].
    rewrite forallb_app, (digits_param _ Hseg). cbn. exact IH2.
Qed.

Lemma segment_value_decimal n :
  0 ≤ n ≤ Dispatcher.PARAM_MAX → segment_value (decimal n) = n.
Proof.
  intros Hn. destruct (decimal_spec n) as [Hv _]; [lia|]. unfold segment_value.
  destruct (decimal n) as [|c s] eqn:E.
  - change (digits_value []) with 0 in Hv. by subst n.
  - rewrite Hv. by z_bools.
Qed.

(** Colours have at most three digits. *)
Lemma decimal_short n : 0 ≤ n < 300 → (length (decimal n) ≤ 3)%nat.
Proof. intros Hn. pose proof (decimal_length n 3). unfold zlen in *. lia. Qed.

Lemma joined_values n ns :
  Forall (fun n => 0 ≤ n ≤ Dispatcher.PARAM_MAX) (n :: ns) →
  (segment_value <$> segments (join (decimal n) (decimal <$> ns))) = n :: ns
  ∧ forallb param_char (join (decimal n) (decimal <$> ns)) = true.
Proof.
  intros Hns.
  destruct (join_spec (decimal n) (decimal <$> ns)) as [-> Hchars].
  { change (decimal n :: (decimal <$> ns)) with (decimal <$> (n :: ns)). apply Forall_fmap.
    eapply Forall_impl; [exact Hns|]. intros x [? _]. cbn. by apply decimal_spec. }
  split; [|done]. change (decimal n :: (decimal <$> ns)) with (decimal <$> (n :: ns)).
  induction Hns as [|x l Hx _ IH]; [done|]. cbn [fmap list_fmap].
  by rewrite segment_value_decimal, IH.
Qed.

(** ** The octet loop *)

Section octets.
Context `{Mbrtowc, Wcwidth}.

Lemma feed_run bs p e acts p' :
  UTF8Parser.run p bs = Ok (acts, p') →
  for_each bs Complete.act_octet (Complete.mk p e) =
    (e' ← Emulator.act_all acts e; Ok (Complete.mk p' e')).
Proof.
  revert p e acts. induction bs as [|b bs IH]; intros p e acts Hrun; cbn in Hrun.
  { by simplify_eq. }
  destruct (UTF8Parser.input p b) as [[a1 p1]|] eqn:Hin; cbn in Hrun; [|done].
  destruct (UTF8Parser.run p1 bs) as [[a2 p2]|] eqn:Hr; cbn in Hrun; [|done]. simplify_eq.
  cbn [for_each].
  assert (Complete.act_octet b (Complete.mk p e)
    = (e1 ← Emulator.act_all a1 e; Ok (Complete.mk p1 e1))) as ->.
  { unfold Complete.act_octet. cbn [Complete.parser Complete.terminal]. by rewrite Hin. }
  rewrite act_all_app.
  destruct (Emulator.act_all a1 e) as [e1|]; [|done]. cbn [mbind result_bind]. by apply IH.
Qed.

Lemma for_each_app {A St} (xs ys : list A) (body : A → St → result St) s :
  for_each (xs ++ ys) body s = (s' ← for_each xs body s; for_each ys body s').
Proof.
  revert s. induction xs as [|x xs IH]; intros s; [done|]. cbn [app for_each].
  destruct (body x s); [|done]. cbn [mbind result_bind]. apply IH.
Qed.
End octets.

Import RFC3629.

Section sgr.
Context `{Wcwidth}.

(** A terminal between sequences *)
Definition grounded (e : Emulator.t) : Complete.t := Complete.mk UTF8Parser.init e.

Definition ascii (b : Z) : Prop := 0 ≤ b < 128.

Lemma param_string_ascii ps c :
  forallb param_char ps = true → 0x40 ≤ c ≤ 0x7E → Forall ascii (27 :: 91 :: ps ++ [c]).
Proof.
  intros Hps Hc. rewrite List.forallb_forall in Hps. unfold ascii.
  do 2 (constructor; [lia|]). apply Forall_app. split; [|constructor; [lia|constructor]].
  apply Forall_forall. intros x Hx%list_elem_of_In%Hps%param_char_range. lia.
Qed.

(** The dispatcher the SGR function is called with *)
Definition sgr_dispatcher (ps : list Z) (d : Dispatcher.t) : Dispatcher.t :=
  Dispatcher.set_dispatch_chars [109] (with_params ps d).

(** One SGR sequence through the whole terminal *)
Lemma feed_sgr ps e f' d' :
  forallb param_char ps = true → zlen ps ≤ 100 →
  CSI_SGR (Emulator.fb e) (sgr_dispatcher ps (Emulator.dispatch e)) = Ok (f', d') →
  for_each (27 :: 91 :: ps ++ [109]) Complete.act_octet (grounded e) =
    Ok (grounded (Emulator.mk f' d' (Emulator.user e))).
Proof.
  intros Hps Hlen Hsgr. unfold grounded, UTF8Parser.init.
  erewrite feed_run; [|rewrite Utf8Theorems.run_ascii by (by apply param_string_ascii);
    rewrite csi_run by done; done].
  rewrite act_csi by done. unfold Emulator.dispatch_as. rewrite dispatch_SGR by done.
  cbn [Emulator.fb Emulator.dispatch Emulator.user].
  change (Dispatcher.set_dispatch_chars [109] _) with (sgr_dispatcher ps (Emulator.dispatch e)).
  by rewrite Hsgr.
Qed.

Lemma sgr_dispatcher_ok ps d :
  disp_ok d → forallb param_char ps = true → zlen ps ≤ 100 → disp_ok (sgr_dispatcher ps d).
Proof. intros (?&?&?&?&?) ??. unfold disp_ok. cbn. by split_and!. Qed.

(** What stays the same in the dispatcher *)
Definition same_replies (d d' : Dispatcher.t) : Prop :=
  disp_ok d' ∧ Dispatcher.terminal_to_host d' = Dispatcher.terminal_to_host d.

Lemma feed_sgr_list ps e :
  disp_ok (Emulator.dispatch e) → forallb param_char ps = true → zlen ps ≤ 100 →
  (∀ v, (segment_value <$> segments ps) !! 0%nat = Some v → v ≠ 38 ∧ v ≠ 48) →
  ∃ d', same_replies (Emulator.dispatch e) d'
    ∧ for_each (27 :: 91 :: ps ++ [109]) Complete.act_octet (grounded e) =
        Ok (grounded (Emulator.mk
          (on_renditions (apply_sgr (segment_value <$> segments ps)) (Emulator.fb e))
          d' (Emulator.user e))).
Proof.
  intros Hd Hps Hlen Hv. pose proof (sgr_dispatcher_ok ps _ Hd Hps Hlen) as Hok.
  destruct (CSI_SGR_list (Emulator.fb e) _ Hok Hv) as (d' & Has & Heq).
  exists d'. split; [split; [by eapply parsed_as_ok|by rewrite Has]|]. by apply feed_sgr.
Qed.

Lemma feed_sgr_palette ps p n e :
  disp_ok (Emulator.dispatch e) → forallb param_char ps = true → zlen ps ≤ 100 →
  (segment_value <$> segments ps) = [p; 5; n] → (p = 38 ∨ p = 48) → 1 ≤ n →
  ∃ d', same_replies (Emulator.dispatch e) d'
    ∧ for_each (27 :: 91 :: ps ++ [109]) Complete.act_octet (grounded e) =
        Ok (grounded (Emulator.mk
          (Framebuffer.on_ds (if p =? 38 then DrawState.set_foreground_color n
                              else DrawState.set_background_color n) (Emulator.fb e))
          d' (Emulator.user e))).
Proof.
  intros Hd Hps Hlen Hv Hp Hn. pose proof (sgr_dispatcher_ok ps _ Hd Hps Hlen) as Hok.
  destruct (CSI_SGR_palette n p (Emulator.fb e) _ Hok Hv Hp Hn) as (d' & Has & Heq).
  exists d'. split; [split; [by eapply parsed_as_ok|by rewrite Has]|]. by apply feed_sgr.
Qed.

(** ** The string that [sgr] writes *)

Definition small_fg (r : Renditions.t) : bool :=
  negb (Renditions.foreground_color r =? 0) && (Renditions.foreground_color r <=? 37).
Definition small_bg (r : Renditions.t) : bool :=
  negb (Renditions.background_color r =? 0) && (Renditions.background_color r <=? 47).

(** The attribute codes of the first sequence, after the 0 *)
Definition sgr_codes (r : Renditions.t) : list Z :=
  (if Renditions.bold r then [1] else []) ++ (if Renditions.underlined r then [4] else [])
  ++ (if Renditions.blink r then [5] else []) ++ (if Renditions.inverse r then [7] else [])
  ++ (if Renditions.invisible r then [8] else [])
  ++ (if small_fg r then [Renditions.foreground_color r] else [])
  ++ (if small_bg r then [Renditions.background_color r] else []).

(** The 256-colour sequence for the code [p] (38 or 48) *)
Definition palette_params (p n : Z) : list Z := join (decimal p) [decimal 5; decimal n].

Definition sgr_seq (ps : list Z) : list Z := 27 :: 91 :: ps ++ [109].

Lemma sgr_string r :
  rend_ok r →
  Renditions.sgr r =
    sgr_seq (join (decimal 0) (decimal <$> sgr_codes r))
    ++ (if 37 <? Renditions.foreground_color r
        then sgr_seq (palette_params 38 (Renditions.foreground_color r - 30)) else [])
    ++ (if 47 <? Renditions.background_color r
        then sgr_seq (palette_params 48 (Renditions.background_color r - 40)) else []).
Proof.
  intros [Hf Hb]. unfold Renditions.sgr, sgr_codes, small_fg, small_bg, color_ok in *.
  destruct r as [b u k i v fg bg]. cbn [Renditions.bold Renditions.underlined Renditions.blink
    Renditions.inverse Renditions.invisible Renditions.foreground_color
    Renditions.background_color] in *.
  assert (∀ c, 0 ≤ c < 300 → snprintf 8 (59 :: decimal c) = 59 :: decimal c) as H8.
  { intros c ?. pose proof (decimal_short c). apply snprintf_short. rewrite zlen_cons. unfold zlen. lia. }
  assert (∀ c p, 0 ≤ c < 300 → zlen p = 6 →
    snprintf 64 ([27] ++ p ++ decimal c ++ [109]) = [27] ++ p ++ decimal c ++ [109]) as H64.
  { intros c p ? Hp. pose proof (decimal_short c). apply snprintf_short.
    rewrite !zlen_app, Hp. unfold zlen. cbn. lia. }
  assert ((if 37 <? fg then snprintf 64 ([27] ++ bytes_of_string "[38;5;" ++ decimal (fg - 30) ++ [109]) else [])
    = (if 37 <? fg then sgr_seq (palette_params 38 (fg - 30)) else [])) as ->.
  { destruct (37 <? fg) eqn:E; [|done]. rewrite H64 by (done || lia).
    unfold sgr_seq, palette_params, join. cbn. by rewrite app_nil_r. }
  assert ((if 47 <? bg then snprintf 64 ([27] ++ bytes_of_string "[48;5;" ++ decimal (bg - 40) ++ [109]) else [])
    = (if 47 <? bg then sgr_seq (palette_params 48 (bg - 40)) else [])) as ->.
  { destruct (47 <? bg) eqn:E; [|done]. rewrite H64 by (done || lia).
    unfold sgr_seq, palette_params, join. cbn. by rewrite app_nil_r. }
  set (X := if 37 <? fg then _ else _). set (Y := if 47 <? bg then _ else _).
  unfold sgr_seq, join. rewrite (app_assoc [109]). cbn [app]. do 3 f_equal.
  rewrite <- !app_assoc. cbn [app].
  assert (∀ (c : bool) n, concat ((fun s => 59 :: s) <$> (decimal <$> (if c then [n] else [])))
    = if c then 59 :: decimal n else []) as Hopt.
  { intros [] n; cbn; [by rewrite app_nil_r|done]. }
  rewrite !fmap_app, !concat_app, !Hopt, <- !app_assoc.
  destruct (negb (fg =? 0) && (fg <=? 37)) eqn:Ef, (negb (bg =? 0) && (bg <=? 47)) eqn:Eb;
    rewrite ?H8 by lia; by destruct b, u, k, i, v.
Qed.

(** Applying the codes to any rendition gives the attributes and the small
    colours. *)
Lemma apply_codes r r0 :
  rend_ok r → apply_sgr (0 :: sgr_codes r) r0 =
    Renditions.mk (Renditions.bold r) (Renditions.underlined r) (Renditions.blink r)
      (Renditions.inverse r) (Renditions.invisible r)
      (if small_fg r then Renditions.foreground_color r else 0)
      (if small_bg r then Renditions.background_color r else 0).
Proof.
  intros [Hf Hb]. unfold color_ok in *. unfold apply_sgr, sgr_codes. cbn [fold_left].
  destruct r as [b u k i v fg bg]. rewrite !fold_left_app.
  cbn [Renditions.foreground_color Renditions.background_color] in Hf, Hb.
  assert (∀ r0, small_fg (Renditions.mk b u k i v fg bg) = true →
    Renditions.set_rendition (sgr_param fg) r0 = Renditions.with_foreground fg r0) as Hfg.
  { unfold small_fg, sgr_param. cbn. intros. z_bools. unfold Renditions.set_rendition. by z_bools. }
  assert (∀ r0, small_bg (Renditions.mk b u k i v fg bg) = true →
    Renditions.set_rendition (sgr_param bg) r0 = Renditions.with_background bg r0) as Hbg.
  { unfold small_bg, sgr_param. cbn. intros. z_bools. unfold Renditions.set_rendition. by z_bools. }
  generalize dependent (small_fg (Renditions.mk b u k i v fg bg)). intros sf Hfg.
  generalize dependent (small_bg (Renditions.mk b u k i v fg bg)). intros sb Hbg.
  cbn [Renditions.bold Renditions.underlined Renditions.blink
    Renditions.inverse Renditions.invisible Renditions.foreground_color
    Renditions.background_color].
  destruct sf, sb; cbn [fold_left]; rewrite ?Hfg, ?Hbg by done; by destruct b, u, k, i, v.
Qed.

(** Numbers joined by semicolons, and what the dispatcher makes of them *)
Lemma joined_numbers n ns :
  Forall (fun n => 0 ≤ n < 300) (n :: ns) →
  let ps := join (decimal n) (decimal <$> ns) in
  (segment_value <$> segments ps) = n :: ns
  ∧ forallb param_char ps = true ∧ zlen ps ≤ 3 + 4 * zlen ns.
Proof.
  intros Hns. cbv zeta. destruct (joined_values n ns) as [Hvals Hchars].
  { eapply Forall_impl; [exact Hns|]. cbn beta. intros x ?. cbn beta. unfold Dispatcher.PARAM_MAX. lia. }
  split_and!; [done..|]. inversion Hns as [|?? Hn Hrest]; subst. unfold join. rewrite zlen_app.
  assert (∀ x, 0 ≤ x < 300 → zlen (decimal x) ≤ 3) as Hshort.
  { intros x Hx. apply decimal_length; lia. }
  pose proof (Hshort n Hn).
  assert (zlen (concat ((fun s => 59 :: s) <$> (decimal <$> ns))) ≤ 4 * zlen ns); [|lia].
  clear Hns Hvals Hchars. induction Hrest as [|x l Hx _ IH]; [done|]. cbn [fmap list_fmap concat].
  rewrite zlen_app, !zlen_cons. pose proof (Hshort x Hx). lia.
Qed.

Lemma sgr_codes_ok r : rend_ok r → Forall (fun n => 0 ≤ n < 300) (0 :: sgr_codes r) ∧ zlen (sgr_codes r) ≤ 7.
Proof.
  intros [Hf Hb]. unfold color_ok, sgr_codes in *. split.
  - constructor; [lia|]. rewrite !Forall_app. split_and!; split_ifs; repeat constructor; lia.
  - rewrite !zlen_app. unfold zlen. split_ifs; cbn [length]; lia.
Qed.

(** The first sequence, on any terminal *)
Lemma feed_codes r e :
  rend_ok r → disp_ok (Emulator.dispatch e) →
  ∃ d', same_replies (Emulator.dispatch e) d'
    ∧ for_each (sgr_seq (join (decimal 0) (decimal <$> sgr_codes r))) Complete.act_octet (grounded e) =
        Ok (grounded (Emulator.mk (on_renditions (apply_sgr (0 :: sgr_codes r)) (Emulator.fb e))
          d' (Emulator.user e))).
Proof.
  intros Hr Hd. destruct (sgr_codes_ok r Hr) as [Hcodes Hlen].
  destruct (joined_numbers 0 (sgr_codes r) Hcodes) as (Hvals & Hchars & Hl).
  destruct (feed_sgr_list (join (decimal 0) (decimal <$> sgr_codes r)) e) as (d' & ? & Heq);
    [done|done|lia| |].
  { rewrite Hvals. intros v [= <-]. done. }
  exists d'. split; [done|]. by rewrite <- Hvals.
Qed.

(** The 256-colour sequence *)
Lemma feed_palette p n e :
  (p = 38 ∨ p = 48) → 1 ≤ n < 256 → disp_ok (Emulator.dispatch e) →
  ∃ d', same_replies (Emulator.dispatch e) d'
    ∧ for_each (sgr_seq (palette_params p n)) Complete.act_octet (grounded e) =
        Ok (grounded (Emulator.mk
          (on_renditions (if p =? 38 then Renditions.with_foreground (30 + n)
                          else Renditions.with_background (40 + n)) (Emulator.fb e))
          d' (Emulator.user e))).
Proof.
  intros Hp Hn Hd. destruct (joined_numbers p [5; n]) as (Hvals & Hchars & Hl).
  { repeat constructor; lia. }
  change (join (decimal p) (decimal <$> [5; n])) with (palette_params p n) in *.
  change (zlen [5; n]) with 2 in Hl.
  destruct (feed_sgr_palette (palette_params p n) p n e) as (d' & ? & Heq);
    [done|done|lia|done|done|lia|].
  exists d'. split; [done|]. unfold sgr_seq. rewrite Heq. unfold on_renditions.
  destruct Hp as [->| ->]; cbn [Z.eqb Pos.eqb]; unfold Framebuffer.on_ds,
    DrawState.set_foreground_color, DrawState.set_background_color,
    Renditions.set_foreground_color, Renditions.set_background_color; by z_bools.
Qed.

(** An optional sequence *)
Lemma feed_optional (b : bool) ps g e :
  disp_ok (Emulator.dispatch e) →
  (b = true → ∃ d', same_replies (Emulator.dispatch e) d'
    ∧ for_each ps Complete.act_octet (grounded e) =
        Ok (grounded (Emulator.mk (on_renditions g (Emulator.fb e)) d' (Emulator.user e)))) →
  ∃ d', same_replies (Emulator.dispatch e) d'
    ∧ for_each (if b then ps else []) Complete.act_octet (grounded e) =
        Ok (grounded (Emulator.mk (on_renditions (if b then g else id) (Emulator.fb e))
              d' (Emulator.user e))).
Proof.
  intros Hd Hb. destruct b; [by apply Hb|]. exists (Emulator.dispatch e). split; [done|].
  destruct e as [[???? []] ??]. done.
Qed.

(** The whole string sets the rendition and nothing else. *)
Lemma feed_rendition (r : Renditions.t) (e : Emulator.t) :
  rend_ok r → disp_ok (Emulator.dispatch e) →
  ∃ d', same_replies (Emulator.dispatch e) d'
    ∧ for_each (Renditions.sgr r) Complete.act_octet (grounded e) =
        Ok (grounded (Emulator.mk (Framebuffer.on_ds (DrawState.set_renditions r) (Emulator.fb e))
                        d' (Emulator.user e))).
Proof.
  intros Hr Hd. pose proof Hr as [Hf Hb]. unfold color_ok in *.
  rewrite sgr_string, for_each_app by done.
  destruct (feed_codes r e Hr Hd) as (d1 & [Hd1 Hh1] & ->). cbn [mbind result_bind].
  rewrite for_each_app.
  edestruct (feed_optional (37 <? Renditions.foreground_color r)) as (d2 & [Hd2 Hh2] & ->);
    [exact Hd1|intros ?; apply (feed_palette 38); [by left|lia|exact Hd1]|]. cbn [mbind result_bind].
  edestruct (feed_optional (47 <? Renditions.background_color r)) as (d3 & [Hd3 Hh3] & ->);
    [exact Hd2|intros ?; apply (feed_palette 48); [by right|lia|exact Hd2]|]. cbn [mbind result_bind].
  cbn in Hh1, Hh2, Hh3. exists d3. split; [split; [done|congruence]|]. unfold grounded.
  cbn [Complete.terminal Complete.parser Emulator.dispatch Emulator.fb Emulator.user].
  do 3 f_equal. destruct (Emulator.fb e) as [rs ic wt bc d].
  unfold on_renditions, Framebuffer.on_ds, Framebuffer.set_ds. cbn -[apply_sgr]. f_equal.
  unfold DrawState.set_renditions. cbn -[apply_sgr]. f_equal.
  rewrite apply_codes by done. unfold small_fg, small_bg. clear -Hf Hb.
  destruct r as [b u k i v fg bg]. cbn in *.
  destruct (37 <? fg) eqn:Ef, (47 <? bg) eqn:Eb;
    unfold Renditions.with_foreground, Renditions.with_background; cbn -[Z.add Z.sub];
    f_equal; split_ifs; lia.
Qed.

(** C13.  The escape string that [Renditions::sgr] writes for a rendition,
    sent to a terminal between sequences, sets the current rendition to
    exactly that one and changes nothing else on the screen; no reply is
    produced and the parser is back in its ground state. *)
Theorem sgr_roundtrip (r : Renditions.t) (e : Emulator.t) :
  rend_ok r → disp_ok (Emulator.dispatch e) →
  ∃ d', Complete.act (Renditions.sgr r) (grounded e) =
    Ok (Dispatcher.terminal_to_host (Emulator.dispatch e),
        grounded (Emulator.mk (Framebuffer.on_ds (DrawState.set_renditions r) (Emulator.fb e))
                    d' (Emulator.user e))).
Proof.
  intros Hr Hd. destruct (feed_rendition r e Hr Hd) as (d' & [_ Hh] & Heq).
  unfold Complete.act. rewrite Heq. cbn [mbind result_bind]. eexists.
  unfold Emulator.read_octets_to_host, grounded.
  cbn [Complete.terminal Complete.parser Emulator.dispatch Emulator.fb Emulator.user].
  by rewrite Hh.
Qed.
End sgr.

Lemma sgr_roundtrip_witness :
  let r := Renditions.mk true false false true false 31 240 in
  let e := Emulator.mk (ScreenTheorems.sample 1) Dispatcher.make UserInput.Ground in
  rend_ok r ∧ ∃ d', @Complete.act _ (fun _ => 1) (Renditions.sgr r) (grounded e) =
    Ok ([], grounded (Emulator.mk (Framebuffer.on_ds (DrawState.set_renditions r) (ScreenTheorems.sample 1))
                    d' UserInput.Ground)).
Proof.
  intros r e. split; [by_eval|]. apply (@sgr_roundtrip (fun _ => 1) r e); by_eval.
Defined.
End SequenceTheorems.
