(* ===== verification/EmulatorProps.v ===== *)
(** * What the emulator does

    Functional behaviour of printing, of keyboard translation, of numeric
    parameters and of the cursor position report. *)

From S2P Require Import Prelude VtParser Utf8 TerminalFramebuffer FramebufferWf TerminalDispatcher DispatcherProps TerminalFunctions FunctionSafety TerminalEmulator EmulatorSafety ScreenProps SequenceProps.

Module EmulatorTheorems.
Import DispatcherLemmas EmulatorGuarantees SequenceTheorems.

(** ** Printing *)

Section printing.
Implicit Types (f : Framebuffer.t).

(** The grid and the draw state after a one-column character *)
Lemma print_plain (ch : Z) f :
  fb_ok f →
  DrawState.next_print_will_wrap (Framebuffer.ds f) = false →
  DrawState.insert_mode (Framebuffer.ds f) = false →
  ∃ f1, Emulator.print_graphic ch 1 f = Ok (Framebuffer.on_ds (DrawState.move_col 1 true true) f1)
    ∧ f1 = Framebuffer.set_rows (Framebuffer.rows f1) f
    ∧ ∀ y x, cell_at f1 y x =
        if decide (y = Z.to_nat (DrawState.cursor_row (Framebuffer.ds f))
                   ∧ x = Z.to_nat (DrawState.cursor_col (Framebuffer.ds f)))
        then Some (printed_cell ch 1 (Framebuffer.ds f)) else cell_at f y x.
Proof.
  intros Hf Hwrap Hins. pose proof Hf as ((_&Hc&Hr&_)&_).
  unfold Emulator.print_graphic, Emulator.wrap_before_print.
  rewrite Hwrap, andb_false_r, andb_false_r. cbn [andb mbind result_bind Z.eqb Pos.eqb].
  rewrite Hins. cbn [mbind result_bind]. rewrite place_char.
  destruct (index_cursor f Hf) as [Hri Hci].
  destruct (proj1 (safe_inv _ _) (get_cell_ok _ (-1) (-1) f Hf Hri Hci)) as (c & Hget & _).
  destruct (update_cell_at (-1) (-1) (fun _ => printed_cell ch 1 (Framebuffer.ds f)) f c Hget)
    as (f' & -> & Hrows & Hcells).
  cbn [mbind result_bind]. eexists. by split_and!.
Qed.

(** A one-column character printed with no wrap pending, outside
    insert mode, replaces the cell under the cursor - with the current
    rendition - and no other cell; the cursor advances by one, or stays on
    the last column with the wrap flag set, and the cell becomes the one
    that combining characters join. *)
Theorem print_narrow (ch : Z) (f : Framebuffer.t) :
  fb_ok f →
  DrawState.next_print_will_wrap (Framebuffer.ds f) = false →
  DrawState.insert_mode (Framebuffer.ds f) = false →
  let d := Framebuffer.ds f in
  let row := DrawState.cursor_row d in
  let col := DrawState.cursor_col d in
  ∃ f', Emulator.print_graphic ch 1 f = Ok f'
    ∧ (∀ y x, cell_at f' y x =
         if decide (y = Z.to_nat row ∧ x = Z.to_nat col)
         then Some (printed_cell ch 1 d) else cell_at f y x)
    ∧ DrawState.cursor_col (Framebuffer.ds f') = Z.min (DrawState.width d - 1) (col + 1)
    ∧ DrawState.next_print_will_wrap (Framebuffer.ds f') = (DrawState.width d <=? col + 1)
    ∧ DrawState.combining_char_row (Framebuffer.ds f') = row
    ∧ DrawState.combining_char_col (Framebuffer.ds f') = col.
Proof.
  intros Hf Hwrap Hins. cbv zeta. pose proof Hf as ((_&Hc&Hr&_)&_).
  destruct (print_plain ch f Hf Hwrap Hins) as (f1 & -> & Hrows & Hcells).
  eexists. split; [done|]. rewrite Hrows. split; [exact Hcells|].
  cbn -[DrawState.move_col]. ds_unfold. split_and!; try done. lia.
Qed.
End printing.

Lemma print_narrow_witness :
  let f := ScreenTheorems.sample 1 in
  ∃ f', Emulator.print_graphic 65 1 f = Ok f'
    ∧ (∀ y x, cell_at f' y x =
         if decide (y = 1%nat ∧ x = 0%nat)
         then Some (printed_cell 65 1 (Framebuffer.ds f)) else cell_at f y x)
    ∧ DrawState.cursor_col (Framebuffer.ds f') = 1
    ∧ DrawState.next_print_will_wrap (Framebuffer.ds f') = false
    ∧ DrawState.combining_char_row (Framebuffer.ds f') = 1
    ∧ DrawState.combining_char_col (Framebuffer.ds f') = 0.
Proof. intros f. apply (print_narrow 65 f); by_eval. Defined.

(** ** Keyboard input *)

(** Feeding the keyboard's octets one by one *)
Fixpoint type_keys (app : bool) (bs : list Z) (u : UserInput.UserInputState)
    : list Z * UserInput.UserInputState :=
  match bs with
  | [] => ([], u)
  | b :: bs' =>
      let '(out, u1) := UserInput.input b app u in
      let '(rest, u2) := type_keys app bs' u1 in
      (out ++ rest, u2)
  end.

(** The translation on whole strings: the application-mode cursor keys
    ESC O A to ESC O D become their ANSI forms in ANSI mode; a pair ESC O at
    the end waits for its last octet. *)
Fixpoint translate (app : bool) (bs : list Z) : list Z :=
  match bs with
  | [] => []
  | b :: bs' =>
      if b =? 27 then
        b :: match bs' with
             | [] => []
             | c :: bs'' =>
                 if c =? 79 then
                   match bs'' with
                   | [] => []
                   | k :: rest =>
                       (if negb app && (65 <=? k) && (k <=? 68) then 91 else 79)
                         :: k :: translate app rest
                   end
                 else c :: translate app bs''
             end
      else b :: translate app bs'
  end.

(** The three-state machine of [UserInput] computes [translate], which
    turns ESC O of a cursor key into ESC [ outside application mode;
    in application mode it passes everything through, a trailing ESC O
    excepted. *)
Theorem user_input_translates (app : bool) (bs : list Z) :
  fst (type_keys app bs UserInput.Ground) = translate app bs
  ∧ (app = true →
     fst (type_keys app bs UserInput.Ground)
       ++ (if UserInput.eqb (snd (type_keys app bs UserInput.Ground)) UserInput.SS3 then [79] else [])
     = bs).
Proof.
  remember (length bs) as n eqn:Hn. revert bs Hn.
  induction n as [n IH] using lt_wf_ind. intros bs ->.
  destruct bs as [|b bs]; [done|]. cbn [type_keys translate UserInput.input].
  assert (∀ l, (length l < length (b :: bs))%nat →
    fst (type_keys app l UserInput.Ground) = translate app l
    ∧ (app = true → fst (type_keys app l UserInput.Ground)
       ++ (if UserInput.eqb (snd (type_keys app l UserInput.Ground)) UserInput.SS3 then [79] else [])
     = l)) as IH'.
  { intros l Hl. by apply (IH (length l)). }
  clear IH. change (b =? 0x1B) with (b =? 27). destruct (b =? 27) eqn:Hb.
  - destruct bs as [|c bs].
    { cbn. split; [done|]. intros _. done. }
    cbn [type_keys UserInput.input]. destruct (c =? 79) eqn:Hc.
    + apply Z.eqb_eq in Hc as ->. destruct bs as [|k bs]; [done|].
      cbn [type_keys UserInput.input]. specialize (IH' bs ltac:(cbn; lia)).
      destruct (negb app && _ && _) eqn:Hk; cbn;
        destruct (type_keys app bs UserInput.Ground) as [out u]; destruct IH' as [<- IH2]; cbn.
      * split; [done|]. intros ->. done.
      * split; [done|]. intros Happ. do 3 f_equal. by apply IH2.
    + specialize (IH' bs ltac:(cbn; lia)).
      destruct (type_keys app bs UserInput.Ground) as [out u]. destruct IH' as [<- IH2].
      cbn. split; [done|]. intros Happ. do 2 f_equal. by apply IH2.
  - specialize (IH' bs ltac:(cbn; lia)).
    destruct (type_keys app bs UserInput.Ground) as [out u]. destruct IH' as [<- IH2].
    cbn. split; [done|]. intros Happ. f_equal. by apply IH2.
Qed.

Lemma user_input_translates_witness :
  fst (type_keys true [27; 79; 65; 120; 27] UserInput.Ground) = translate true [27; 79; 65; 120; 27]
  ∧ (true = true →
     fst (type_keys true [27; 79; 65; 120; 27] UserInput.Ground)
       ++ (if UserInput.eqb (snd (type_keys true [27; 79; 65; 120; 27] UserInput.Ground)) UserInput.SS3
           then [79] else [])
     = [27; 79; 65; 120; 27]).
Proof. apply (user_input_translates true [27; 79; 65; 120; 27]). Defined.

(** ** Parameters and reports *)

(** Numbers written in decimal between semicolons are read back by
    [getparam]: the i-th one, or the default where it is missing or below
    one; parsing happens once and changes nothing else. *)
Theorem params_roundtrip (n : Z) (ns : list Z) (i : nat) (def : Z) (d : Dispatcher.t) :
  disp_ok d → Forall (fun n => 0 ≤ n ≤ Dispatcher.PARAM_MAX) (n :: ns) →
  Dispatcher.params d = join (decimal n) (decimal <$> ns) →
  Dispatcher.getparam (Z.of_nat i) def d =
    Ok (match (n :: ns) !! i with
        | Some v => if v <? 1 then def else v
        | None => def
        end,
        Dispatcher.set_parsed true (Dispatcher.set_parsed_params (n :: ns) d)).
Proof.
  intros Hd Hns Hp. destruct (getparam_eq i def d Hd) as (d' & Has & ->).
  unfold parsed_as in Has. rewrite Hp, (proj1 (joined_values n ns Hns)) in *. rewrite Has.
  unfold param_value. destruct ((n :: ns) !! i); cbn [default]; [done|].
  by destruct (def <? 1).
Qed.

Lemma params_roundtrip_witness :
  let d := Dispatcher.set_params (join (decimal 12) (decimal <$> [0; 7])) Dispatcher.make in
  disp_ok d ∧ Dispatcher.getparam 2 1 d =
    Ok (7, Dispatcher.set_parsed true (Dispatcher.set_parsed_params [12; 0; 7] d)).
Proof. intros d. split; [by_eval|]. apply (params_roundtrip 12 [0; 7] 2 1 d); by_eval. Defined.

(** The cursor position report is never truncated by its 32-octet
    buffer, whatever the size of the screen: it is ESC [[], the row and the
    column counted from one, and R, appended to what waits for the host;
    and its parameters read back as that position. *)
Theorem cursor_position_report (f : Framebuffer.t) (d : Dispatcher.t) :
  fb_ok f → disp_ok d → Dispatcher.params d = decimal 6 →
  fb_width f < 2 ^ 31 → fb_height f < 2 ^ 31 →
  let row := DrawState.cursor_row (Framebuffer.ds f) + 1 in
  let col := DrawState.cursor_col (Framebuffer.ds f) + 1 in
  ∃ d', CSI_DSR f d = Ok (f, d')
    ∧ Dispatcher.terminal_to_host d' =
        Dispatcher.terminal_to_host d ++ [27; 91] ++ join (decimal row) [decimal col] ++ [82]
    ∧ (row ≤ Dispatcher.PARAM_MAX → col ≤ Dispatcher.PARAM_MAX →
       (segment_value <$> segments (join (decimal row) [decimal col])) = [row; col]).
Proof.
  intros Hf Hd Hp Hw Hh. cbv zeta. pose proof Hf as ((_&Hc&Hr&_)&_).
  set (row := DrawState.cursor_row _ + 1). set (col := DrawState.cursor_col _ + 1).
  destruct (getparam_eq 0 0 d Hd) as (d' & Has & Heq).
  rewrite Hp in Heq. unfold CSI_DSR. rewrite (Heq : Dispatcher.getparam 0 0 d = _).
  cbn [mbind result_bind]. change (param_value (segment_value <$> segments (decimal 6)) 0 0) with 6.
  cbn [Z.eqb Pos.eqb]. fold row col. rewrite snprintf_short.
  - eexists. split_and!; [done| |].
    + cbn [Dispatcher.terminal_to_host Dispatcher.append_to_host Dispatcher.set_terminal_to_host].
      rewrite Has. unfold join. cbn. by rewrite app_nil_r, <- app_assoc.
    + intros ??. apply (joined_values row [col]). repeat constructor; lia.
  - pose proof (decimal_length row 10). pose proof (decimal_length col 10).
    rewrite !zlen_app. change (10 ^ 10) with 10000000000 in *. change (2 ^ 31) with 2147483648 in *.
    change (zlen [27; 91]) with 2. change (zlen [59]) with 1. change (zlen [82]) with 1. lia.
Qed.

Lemma cursor_position_report_witness :
  let f := ScreenTheorems.sample 2 in
  let d := Dispatcher.set_params (decimal 6) Dispatcher.make in
  ∃ d', CSI_DSR f d = Ok (f, d')
    ∧ Dispatcher.terminal_to_host d' = [] ++ [27; 91] ++ join (decimal 3) [decimal 1] ++ [82]
    ∧ (3 ≤ Dispatcher.PARAM_MAX → 1 ≤ Dispatcher.PARAM_MAX →
       (segment_value <$> segments (join (decimal 3) [decimal 1])) = [3; 1]).
Proof. intros f d. apply (cursor_position_report f d); by_eval. Defined.
End EmulatorTheorems.
