(* ===== verification/TerminalEffects.v ===== *)
(** * What the strings of the display encoder do

    One lemma per escape string that [TerminalDisplay] writes: the effect
    of its octets on a terminal between sequences, through the UTF-8 front
    end, the parser, the dispatcher and the registered function.  Effects
    compose along concatenation. *)

From S2P Require Import Prelude VtParser Utf8 TerminalFramebuffer FramebufferWf TerminalDispatcher DispatcherProps TerminalFunctions FunctionSafety TerminalEmulator EmulatorSafety ScreenProps SequenceProps EmulatorProps TerminalDisplay.

Module EffectLemmas.
Import DispatcherLemmas FunctionLemmas EmulatorGuarantees SequenceTheorems EmulatorTheorems RFC3629.

Abbreviation row_of f := (DrawState.cursor_row (Framebuffer.ds f)).
Abbreviation col_of f := (DrawState.cursor_col (Framebuffer.ds f)).
Abbreviation bg_of f := (DrawState.get_background_rendition (Framebuffer.ds f)).

Section effects.
Context `{Wcwidth}.
Implicit Types (f g : Framebuffer.t) (d : Dispatcher.t).

(** Sending [s] to a terminal that shows [f], between sequences: it then
    shows [f'], is between sequences again and has sent no reply. *)
Definition effect (s : list Z) (f f' : Framebuffer.t) : Prop :=
  ∀ d u, disp_ok d → ∃ d', same_replies d d'
    ∧ for_each s Complete.act_octet (grounded (Emulator.mk f d u))
      = Ok (grounded (Emulator.mk f' d' u)).

Lemma effect_nil f : effect [] f f.
Proof. intros d u Hd. exists d. by split. Qed.

Lemma effect_app s1 s2 f g h : effect s1 f g → effect s2 g h → effect (s1 ++ s2) f h.
Proof.
  intros H1 H2 d u Hd. destruct (H1 d u Hd) as (d1 & [Hd1 Hr1] & E1).
  destruct (H2 d1 u Hd1) as (d2 & [Hd2 Hr2] & E2). exists d2. split; [split; [done|congruence]|].
  by rewrite for_each_app, E1.
Qed.

Lemma effect_run s acts f f' :
  UTF8Parser.run UTF8Parser.init s = Ok (acts, UTF8Parser.init) →
  (∀ d u, disp_ok d → ∃ d', same_replies d d'
     ∧ Emulator.act_all acts (Emulator.mk f d u) = Ok (Emulator.mk f' d' u)) →
  effect s f f'.
Proof.
  intros Hrun Hacts d u Hd. destruct (Hacts d u Hd) as (d' & Hr & Heq). exists d'.
  split; [done|]. unfold grounded. by rewrite (feed_run _ _ _ _ _ Hrun), Heq.
Qed.

Lemma effect_rendition r f :
  rend_ok r → effect (Renditions.sgr r) f (Framebuffer.on_ds (DrawState.set_renditions r) f).
Proof. intros Hr d u Hd. by apply (feed_rendition r (Emulator.mk f d u)). Qed.

(** ** Control sequences *)

(** What a reader of parameters leaves alone *)
Definition like d d' : Prop :=
  disp_ok d' ∧ values d' = values d ∧ Dispatcher.dispatch_chars d' = Dispatcher.dispatch_chars d
  ∧ Dispatcher.terminal_to_host d' = Dispatcher.terminal_to_host d.

Lemma like_refl d : disp_ok d → like d d.
Proof. done. Qed.

Lemma like_trans d1 d2 d3 : like d1 d2 → like d2 d3 → like d1 d3.
Proof. intros (?&?&?&?) (?&?&?&?). split_and!; congruence. Qed.

Lemma getparam_like (n : nat) def d :
  disp_ok d → ∃ d', like d d'
    ∧ Dispatcher.getparam (Z.of_nat n) def d = Ok (param_value (values d) n def, d').
Proof.
  intros Hd. destruct (getparam_eq n def d Hd) as (d' & Has & Heq). exists d'. split; [|done].
  destruct (parsed_as_cached d d' Has) as [_ Hv].
  split_and!; [by eapply parsed_as_ok|done|by rewrite Has..].
Qed.

(** The dispatcher when the function is called *)
Definition called (q ps : list Z) (c : Z) d : Dispatcher.t :=
  Dispatcher.set_dispatch_chars (q ++ [c]) (with_params ps d).

Lemma called_ok q ps c d :
  disp_ok d → forallb param_char ps = true → zlen ps ≤ 100 → zlen q ≤ 1 → disp_ok (called q ps c d).
Proof.
  intros (?&?&?&?&?) ???. unfold disp_ok. cbn. split_and!; try done.
  rewrite zlen_app. unfold zlen in *. cbn. lia.
Qed.

Definition collect_action (c : Z) : Parser.Action :=
  Parser.set_char c (Parser.new_action Parser.Collect).

(** ESC [[], an optional question mark, parameters, final character *)
Definition csi (q ps : list Z) (c : Z) : list Z := 27 :: 91 :: q ++ ps ++ [c].

Definition csi_acts (q ps : list Z) (c : Z) : list Parser.Action :=
  [Parser.new_action Parser.Clear; Parser.new_action Parser.Clear]
  ++ (collect_action <$> q) ++ (param_action <$> ps)
  ++ [Parser.set_char c (Parser.new_action Parser.CSI_Dispatch)].

Lemma csi_parse q ps c :
  q = [] ∨ q = [63] → forallb param_char ps = true → 0x40 ≤ c ≤ 0x7E →
  UTF8Parser.run UTF8Parser.init (csi q ps c) = Ok (csi_acts q ps c, UTF8Parser.init).
Proof.
  intros Hq Hps Hc. unfold UTF8Parser.init. rewrite Utf8Theorems.run_ascii.
  - destruct Hq as [->| ->]; unfold csi; cbn [app]; [by rewrite csi_run by done|].
    cbn [Parser.run].
    change (Parser.input Parser.Ground 27) with (Ok ([Parser.new_action Parser.Clear], Parser.Escape)).
    cbn [mbind result_bind].
    change (Parser.input Parser.Escape 91) with (Ok ([Parser.new_action Parser.Clear], Parser.CSI_Entry)).
    cbn [mbind result_bind].
    change (Parser.input Parser.CSI_Entry 63) with (Ok ([collect_action 63], Parser.CSI_Param)).
    cbn [mbind result_bind]. by rewrite csi_run_params by auto.
  - pose proof (param_string_ascii ps c Hps Hc) as Ha. unfold ascii in Ha. unfold csi.
    inversion Ha as [|?? H27 Hr]; subst. inversion Hr as [|?? H91 Hr']; subst.
    do 2 (constructor; [done|]). apply Forall_app. split; [|done].
    destruct Hq as [->| ->]; repeat constructor; lia.
Qed.

Lemma act_csi_acts q ps c f d u F cw f' d' :
  q = [] ∨ q = [63] → forallb param_char ps = true → zlen ps ≤ 100 → 0x40 ≤ c ≤ 0x7E →
  DispatchRegistry.csi global_dispatch_registry !! (q ++ [c]) = Some (Function.mk F cw) →
  F (if cw then set_wrap_pending false f else f) (called q ps c d) = Ok (f', d') →
  Emulator.act_all (csi_acts q ps c) (Emulator.mk f d u) = Ok (Emulator.mk f' d' u).
Proof.
  intros Hq Hps Hlen Hc Hreg HF. unfold csi_acts. rewrite act_all_app.
  set (d1 := Dispatcher.set_dispatch_chars [] (with_params [] d)).
  assert (Emulator.act_all [Parser.new_action Parser.Clear; Parser.new_action Parser.Clear]
    (Emulator.mk f d u) = Ok (Emulator.mk f d1 u)) as -> by done.
  cbn [mbind result_bind]. rewrite act_all_app.
  assert (Emulator.act_all (collect_action <$> q) (Emulator.mk f d1 u)
    = Ok (Emulator.mk f (Dispatcher.set_dispatch_chars q d1) u)) as ->.
  { destruct Hq as [->| ->]; done. }
  cbn [mbind result_bind]. rewrite act_all_app, act_params by done. cbn [mbind result_bind].
  unfold Emulator.act_all. cbn [for_each].
  assert (Emulator.act_on_terminal (Parser.set_char c (Parser.new_action Parser.CSI_Dispatch))
    (Emulator.mk f (with_params ps (Dispatcher.set_dispatch_chars q d1)) u)
    = Ok (Parser.set_handled (Parser.set_char c (Parser.new_action Parser.CSI_Dispatch)),
          Emulator.mk f' d' u)) as Hact.
  { change (Emulator.act_on_terminal ?a ?e) with (Emulator.CSI_dispatch a e).
    unfold Emulator.CSI_dispatch, Emulator.dispatch_as, dispatch, Dispatcher.collect.
    cbn [Parser.char_present Parser.ch Parser.set_char Parser.new_action assert_that mbind
      result_bind Emulator.fb Emulator.dispatch Emulator.user].
    assert ((zlen (Dispatcher.dispatch_chars (with_params ps (Dispatcher.set_dispatch_chars q d1))) <? 8)
      && (c <=? 255) = true) as ->.
    { change (Dispatcher.dispatch_chars _) with q.
      assert (zlen q ≤ 1) by (destruct Hq as [->| ->]; unfold zlen; cbn; lia). by z_bools. }
    cbn [mbind result_bind DispatchRegistry.map_of].
    assert (u8 c = c) as Hu by (apply uwrap_small; lia).
    change (Dispatcher.set_dispatch_chars (vec_push _ (u8 c)) _) with (called q ps (u8 c) d).
    rewrite Hu. change (Dispatcher.dispatch_chars (called q ps c d)) with (q ++ [c]).
    rewrite Hreg. cbn [Function.clears_wrap_state Function.function]. by rewrite HF. }
  lazymatch type of Hact with ?l = _ => change (Emulator.act_on_terminal _ _) with l end.
  by rewrite Hact.
Qed.

Lemma effect_csi q ps c F cw f f' :
  q = [] ∨ q = [63] → forallb param_char ps = true → zlen ps ≤ 100 → 0x40 ≤ c ≤ 0x7E →
  DispatchRegistry.csi global_dispatch_registry !! (q ++ [c]) = Some (Function.mk F cw) →
  (∀ d, disp_ok d → Dispatcher.dispatch_chars d = q ++ [c] →
     values d = segment_value <$> segments ps →
     ∃ d', like d d' ∧ F (if cw then set_wrap_pending false f else f) d = Ok (f', d')) →
  effect (csi q ps c) f f'.
Proof.
  intros Hq Hps Hlen Hc Hreg HF. eapply effect_run; [by apply csi_parse|].
  intros d u Hd. destruct (HF (called q ps c d)) as (d' & (Hok & _ & _ & Hr) & Heq); [|done..|].
  { apply called_ok; [done..|]. destruct Hq as [->| ->]; unfold zlen; cbn; lia. }
  exists d'. split; [by split|]. by eapply act_csi_acts.
Qed.

(** ** Moving the cursor *)

Definition goto (row col : Z) f : Framebuffer.t :=
  Framebuffer.on_ds (fun s =>
    DrawState.set_next_print_will_wrap false
      (DrawState.set_combining_char_row row (DrawState.set_combining_char_col col
         (DrawState.set_cursor_col col (DrawState.set_cursor_row row s))))) f.

(** Two numbers between 1 and [PARAM_MAX] as parameters *)
Lemma two_numbers a b :
  1 ≤ a ≤ Dispatcher.PARAM_MAX → 1 ≤ b ≤ Dispatcher.PARAM_MAX →
  let ps := decimal a ++ [59] ++ decimal b in
  (segment_value <$> segments ps) = [a; b] ∧ forallb param_char ps = true ∧ zlen ps ≤ 11.
Proof.
  intros Ha Hb. cbv zeta. destruct (joined_values a [b]) as [Hv Hc].
  { repeat constructor; lia. }
  unfold join in Hv, Hc. cbn [fmap list_fmap concat app] in Hv, Hc. rewrite app_nil_r in Hv, Hc.
  split_and!; [done..|]. unfold Dispatcher.PARAM_MAX in *.
  pose proof (decimal_length a 5 ltac:(lia) ltac:(lia)).
  pose proof (decimal_length b 5 ltac:(lia) ltac:(lia)).
  rewrite !zlen_app. unfold zlen at 2. cbn. lia.
Qed.

Lemma one_number a :
  1 ≤ a ≤ Dispatcher.PARAM_MAX →
  (segment_value <$> segments (decimal a)) = [a] ∧ forallb param_char (decimal a) = true
  ∧ zlen (decimal a) ≤ 5.
Proof.
  intros Ha. destruct (joined_values a []) as [Hv Hc].
  { repeat constructor; lia. }
  unfold join in Hv, Hc. cbn [fmap list_fmap concat] in Hv, Hc. rewrite app_nil_r in Hv, Hc.
  split_and!; [done..|]. unfold Dispatcher.PARAM_MAX in *. apply decimal_length; lia.
Qed.

Lemma cup_csi row col :
  0 ≤ row < Dispatcher.PARAM_MAX → 0 ≤ col < Dispatcher.PARAM_MAX →
  FrameState.cup row col = csi [] (decimal (row + 1) ++ [59] ++ decimal (col + 1)) 72.
Proof.
  intros Hr Hc. destruct (two_numbers (row + 1) (col + 1)) as (_ & _ & Hl); [lia..|].
  unfold FrameState.cup, csi. cbn [app] in *. rewrite <- app_assoc. cbn [app].
  apply snprintf_short. rewrite !zlen_cons. rewrite !zlen_app, !zlen_cons in *.
  rewrite zlen_app. unfold zlen at 3. cbn. lia.
Qed.

Lemma goto_eq row col f :
  fb_ok f → DrawState.origin_mode (Framebuffer.ds f) = false →
  0 ≤ row < fb_height f → 0 ≤ col < fb_width f →
  Framebuffer.on_ds (DrawState.move_col col false false)
    (Framebuffer.on_ds (DrawState.move_row row false) f) = goto row col f.
Proof.
  intros Hf Ho Hr Hc. destruct f as [rs ic wt bc d]. cbn in *.
  unfold goto, Framebuffer.on_ds, Framebuffer.set_ds. cbn -[DrawState.move_col DrawState.move_row].
  f_equal. ds_unfold. rewrite Ho.
  assert (Z.min (DrawState.height d - 1) (Z.max 0 (row + 0)) = row) as -> by lia.
  assert (Z.min (DrawState.width d - 1) (Z.max 0 col) = col) as -> by lia.
  by rewrite Z.max_r, Z.min_r by lia.
Qed.

Lemma wrap_pending_ok b f :
  fb_ok f → fb_ok (set_wrap_pending b f).
Proof. intros Hf. by apply set_wrap_pending_kept. Qed.

(** Read a parameter whose position and values are known. *)
Ltac read_param n :=
  match goal with |- context [Dispatcher.getparam _ ?def ?d] =>
    let d' := fresh "d" in let Hl := fresh "Hl" in let Heq := fresh "Heq" in
    destruct (getparam_like n def d) as (d' & Hl & Heq); [assumption || apply_like|];
    let z := eval vm_compute in (Z.of_nat n) in change (Z.of_nat n) with z in Heq; rewrite Heq; clear Heq;
    cbn [mbind result_bind]
  end
with apply_like := match goal with H : like _ ?d |- disp_ok ?d => apply H end.

Lemma registry_CUP :
  DispatchRegistry.csi global_dispatch_registry !! [72] = Some (Function.mk CSI_cursormove true).
Proof. registry_lookup. Qed.

Lemma effect_goto row col f :
  fb_ok f → DrawState.origin_mode (Framebuffer.ds f) = false →
  fb_height f ≤ Dispatcher.PARAM_MAX → fb_width f ≤ Dispatcher.PARAM_MAX →
  0 ≤ row < fb_height f → 0 ≤ col < fb_width f →
  effect (FrameState.cup row col) f (goto row col f).
Proof.
  intros Hf Ho Hh Hw Hr Hc. rewrite cup_csi by lia.
  destruct (two_numbers (row + 1) (col + 1)) as (Hv & Hp & Hl); [lia..|].
  eapply effect_csi; [by left|done|lia|lia|exact registry_CUP|].
  intros d Hd Hch Hvals. rewrite Hv in Hvals. unfold CSI_cursormove.
  read_param 0%nat. rewrite (proj1 (proj2 (proj2 Hl0))), Hch. cbn [app vec_get].
  change (vec_get [72] 0) with (Ok 72). cbn [mbind result_bind Z.eqb Pos.eqb orb].
  read_param 0%nat. read_param 1%nat.
  eexists. split; [by do 2 (eapply like_trans; [eassumption|])|].
  destruct Hl0 as (_ & Hv0 & _), Hl1 as (_ & Hv1 & _). rewrite Hv1, Hv0, Hvals.
  unfold param_value. cbn [lookup list_lookup default from_option id]. z_bools.
  replace (row + 1 - 1) with row by lia. replace (col + 1 - 1) with col by lia.
  rewrite goto_eq; [|by apply wrap_pending_ok|exact Ho|exact Hr|exact Hc].
  done.
Qed.

(** ** Modes *)

Lemma registry_modes (v : bool) :
  DispatchRegistry.csi global_dispatch_registry !! [63; if v then 104 else 108]
  = Some (Function.mk (set_modes get_DEC_mode v) false).
Proof.
  destruct v.
  - change (set_modes get_DEC_mode true) with CSI_DECSM. registry_lookup.
  - change (set_modes get_DEC_mode false) with CSI_DECRM. registry_lookup.
Qed.

Lemma effect_mode (v : bool) n set f :
  1 ≤ n ≤ Dispatcher.PARAM_MAX → get_DEC_mode n f = Ok (f, Some set) →
  effect (csi [63] (decimal n) (if v then 104 else 108)) f (Framebuffer.on_ds (set v) f).
Proof.
  intros Hn Hget. destruct (one_number n Hn) as (Hv & Hp & Hl).
  eapply effect_csi; [by right|done|lia|destruct v; lia|exact (registry_modes v)|].
  intros d Hd Hch Hvals. rewrite Hv in Hvals. unfold set_modes, Dispatcher.param_count.
  destruct (ensure_parsed d Hd) as (d' & -> & Has). cbn [mbind result_bind].
  destruct (parsed_as_cached d d' Has) as [_ Hvd].
  assert (disp_ok d') as Hd' by (by eapply parsed_as_ok).
  assert (Dispatcher.parsed_params d' = [n]) as -> by (rewrite Has; exact Hvals).
  change (for_range 0 (zlen [n])) with (@for_range (Framebuffer.t * Dispatcher.t) 0 1).
  unfold for_range. change (Z.to_nat (1 - 0)) with 1%nat. cbn [for_up].
  read_param 0%nat. rewrite Hvd, Hvals. unfold param_value.
  cbn [lookup list_lookup default from_option id]. z_bools. rewrite Hget. cbn [mbind result_bind].
  eexists. split; [|done]. eapply like_trans; [|exact Hl0].
  split_and!; [done|done|by rewrite Has..].
Qed.

Lemma effect_visible (v : bool) f :
  effect (27 :: bytes_of_string (if v then "[?25h" else "[?25l")) f
    (Framebuffer.on_ds (DrawState.set_cursor_visible v) f).
Proof.
  replace (27 :: bytes_of_string (if v then "[?25h" else "[?25l"))
    with (csi [63] (decimal 25) (if v then 104 else 108)) by (by destruct v).
  by apply effect_mode.
Qed.

Lemma effect_reverse_video (v : bool) f :
  effect (snprintf 64 (27 :: bytes_of_string "[?5" ++ [if v then 104 else 108])) f
    (Framebuffer.on_ds (DrawState.set_reverse_video v) f).
Proof.
  replace (snprintf 64 (27 :: bytes_of_string "[?5" ++ [if v then 104 else 108]))
    with (csi [63] (decimal 5) (if v then 104 else 108)) by (by destruct v).
  by apply effect_mode.
Qed.

(** ** Erasing *)

(** Some cells become [c], nothing else changes. *)
Definition painted (P : nat → nat → bool) (c : Cell.t) f f' : Prop :=
  fb_ok f' ∧ f' = Framebuffer.set_rows (Framebuffer.rows f') f
  ∧ ∀ y x, cell_at f' y x = if P y x then Some c else cell_at f y x.

Lemma set_rows_trans f g h :
  g = Framebuffer.set_rows (Framebuffer.rows g) f →
  h = Framebuffer.set_rows (Framebuffer.rows h) g →
  h = Framebuffer.set_rows (Framebuffer.rows h) f.
Proof. intros -> ->. done. Qed.

Definition span (row lo hi : Z) (y x : nat) : bool :=
  (Z.of_nat y =? row) && (lo <=? Z.of_nat x) && (Z.of_nat x <? hi).

Lemma reset_cell_painted row col f :
  fb_ok f → 0 ≤ Framebuffer.row_index row f < fb_height f →
  0 ≤ Framebuffer.col_index col f < fb_width f →
  safe (Framebuffer.reset_cell row col f)
    (painted (span (Framebuffer.row_index row f) (Framebuffer.col_index col f)
               (Framebuffer.col_index col f + 1)) (Cell.make (bg_of f)) f).
Proof.
  intros Hf Hr Hc.
  destruct (proj1 (safe_inv _ _) (get_cell_ok _ row col f Hf Hr Hc)) as (c & Hget & _).
  destruct (update_cell_at row col (Cell.reset (bg_of f)) f c Hget) as (f' & Heq & Hrows & Hcells).
  pose proof (reset_cell_ok (fun _ => False) row col f Hf Hr Hc) as Hok.
  unfold Framebuffer.reset_cell in *. rewrite Heq in *. cbn in *. split_and!; [apply Hok|done|].
  intros y x. rewrite Hcells. unfold span. repeat case_decide; split_ifs; try done; lia.
Qed.

Lemma clearline_painted lo hi f :
  fb_ok f → 0 ≤ lo ≤ hi + 1 → hi < fb_width f →
  safe (clearline (-1) lo hi f)
    (painted (span (row_of f) lo (hi + 1)) (Cell.make (bg_of f)) f).
Proof.
  intros Hf Hlo Hhi. unfold clearline.
  apply (for_range_spec _ (fun j => painted (span (row_of f) lo j) (Cell.make (bg_of f)) f)); [lia|..].
  - split_and!; [done|by destruct f|]. intros y x. unfold span. split_ifs; [lia|done].
  - intros j g Hj (Hg & Hrows & Hcells). pose proof Hrows as Hds. apply (f_equal Framebuffer.ds) in Hds.
    cbn in Hds. destruct (index_cursor g Hg) as [Hri _].
    assert (Framebuffer.row_index (-1) g = row_of f) as Hrow.
    { unfold Framebuffer.row_index. cbn. by rewrite Hds. }
    eapply wp_weaken; [apply reset_cell_painted; [done|done|rewrite index_col, Hds; lia]|].
    rewrite Hrow, index_col by lia. intros g' (Hg' & Hrows' & Hcells').
    split_and!; [done|by eapply set_rows_trans|]. intros y x. rewrite Hcells', Hcells, Hds.
    unfold span. repeat case_decide; split_ifs; try done; lia.
Qed.

Lemma registry_erase :
  DispatchRegistry.csi global_dispatch_registry !! [75] = Some (Function.mk CSI_EL true)
  ∧ DispatchRegistry.csi global_dispatch_registry !! [88] = Some (Function.mk CSI_ECH true)
  ∧ DispatchRegistry.csi global_dispatch_registry !! [74] = Some (Function.mk CSI_ED true).
Proof. split_and!; registry_lookup. Qed.

(** Erase to the end of the line *)
Lemma effect_erase_line f :
  fb_ok f → ∃ f', effect (27 :: bytes_of_string "[K") f f'
    ∧ painted (span (row_of f) (col_of f) (fb_width f)) (Cell.make (bg_of f))
        (set_wrap_pending false f) f'.
Proof.
  intros Hf. pose proof Hf as ((?&?&?&_)&_).
  destruct (proj1 (safe_inv _ _) (clearline_painted (col_of f) (fb_width f - 1)
    (set_wrap_pending false f) (wrap_pending_ok false f Hf) ltac:(lia) ltac:(cbn; lia)))
    as (f' & Heq & Hp).
  exists f'. replace (fb_width f) with (fb_width f - 1 + 1) by lia. split; [|exact Hp].
  eapply (effect_csi [] [] 75); [by left|done|done|lia|apply registry_erase|].
  intros d Hd Hch Hvals. unfold CSI_EL. read_param 0%nat. rewrite Hvals.
  change (param_value _ 0 0) with 0. cbn [Z.eqb]. cbn in Heq |- *. rewrite Heq.
  eexists. by split.
Qed.

(** Erase [n] characters *)
Lemma effect_erase_chars n f :
  fb_ok f → fb_width f ≤ Dispatcher.PARAM_MAX → 1 ≤ n → col_of f + n ≤ fb_width f →
  ∃ f', effect (Display.erase_chars n) f f'
    ∧ painted (span (row_of f) (col_of f) (col_of f + n)) (Cell.make (bg_of f))
        (set_wrap_pending false f) f'.
Proof.
  intros Hf Hw Hn Hfit. pose proof Hf as ((?&?&?&_)&_).
  destruct (proj1 (safe_inv _ _) (clearline_painted (col_of f) (col_of f + n - 1)
    (set_wrap_pending false f) (wrap_pending_ok false f Hf) ltac:(lia) ltac:(cbn; lia)))
    as (f' & Heq & Hp).
  exists f'. replace (col_of f + n) with (col_of f + n - 1 + 1) by lia. split; [|exact Hp].
  assert (∃ ps, Display.erase_chars n = csi [] ps 88 ∧ forallb param_char ps = true
    ∧ zlen ps ≤ 5 ∧ param_value (segment_value <$> segments ps) 0 1 = n) as (ps & -> & Hps & Hl & Hv).
  { unfold Display.erase_chars. destruct (n =? 1) eqn:E.
    - exists []. split_and!; try done. by replace n with 1 by lia.
    - destruct (one_number n) as (Hv & Hc & Hl); [lia|]. exists (decimal n).
      split_and!; [|done|done|rewrite Hv; unfold param_value; cbn; by z_bools].
      unfold csi. cbn [app]. apply snprintf_short. rewrite !zlen_cons, zlen_app.
      unfold zlen at 2. cbn. lia. }
  eapply effect_csi; [by left|done|lia|lia|apply registry_erase|].
  intros d Hd Hch Hvals. unfold CSI_ECH. read_param 0%nat. rewrite Hvals, Hv.
  cbn. z_bools. cbn in Heq. rewrite Heq. eexists. by split.
Qed.

(** The whole screen *)
Lemma reset_row_painted row f :
  fb_ok f → 0 ≤ row < fb_height f →
  safe (Framebuffer.reset_row row f)
    (painted (span row 0 (fb_width f)) (Cell.make (bg_of f)) f).
Proof.
  intros Hf Hr. pose proof Hf as (_ & Hlen & Hrows).
  pose proof (reset_row_ok (fun _ => False) row f Hf ltac:(rewrite index_row; lia)) as Hok.
  destruct (lookup_lt_is_Some_2 (Framebuffer.rows f) (Z.to_nat row)) as [r Hrow].
  { unfold zlen in Hlen. lia. }
  unfold Framebuffer.reset_row, Framebuffer.update_row in *. rewrite index_row in * by lia.
  rewrite (vec_alter_Ok _ _ _ r (Row.reset (bg_of f) r)) in * by (done || lia). cbn in *.
  split_and!; [apply Hok|done|]. intros y x. unfold cell_at, span. cbn.
  destruct (decide (y = Z.to_nat row)) as [->|Hne].
  - rewrite list_lookup_insert_eq by (by eapply lookup_lt_Some). rewrite Hrow. cbn.
    unfold Row.reset. rewrite list_lookup_fmap.
    rewrite Forall_lookup in Hrows. destruct (Hrows _ _ Hrow) as [Hl _]. unfold zlen in Hl.
    destruct (r !! x) as [c|] eqn:Ec; cbn.
    + apply lookup_lt_Some in Ec. by z_bools.
    + apply lookup_ge_None in Ec. z_bools. by rewrite andb_false_r.
  - rewrite list_lookup_insert_ne by done. z_bools. done.
Qed.

Definition whole f (y x : nat) : bool := (Z.of_nat y <? fb_height f) && (Z.of_nat x <? fb_width f).

Lemma reset_rows_painted f :
  fb_ok f → safe (reset_rows 0 (fb_height f) f) (painted (whole f) (Cell.make (bg_of f)) f).
Proof.
  intros Hf. pose proof Hf as (((?&?)&_)&_).
  apply (for_range_spec _ (fun j => painted (fun y x => (Z.of_nat y <? j) && (Z.of_nat x <? fb_width f))
    (Cell.make (bg_of f)) f)); [lia|..].
  - split_and!; [done|by destruct f|]. intros y x. cbn beta. by z_bools.
  - intros j g Hj (Hg & Hrows & Hcells). pose proof Hrows as Hds. apply (f_equal Framebuffer.ds) in Hds.
    cbn in Hds. eapply wp_weaken; [apply reset_row_painted; [done|rewrite Hds; lia]|].
    intros g' (Hg' & Hrows' & Hcells').
    split_and!; [done|by eapply set_rows_trans|]. intros y x. rewrite Hcells', Hcells, Hds.
    pose proof (Nat2Z.is_nonneg x). unfold span. cbn beta. split_ifs; try done; lia.
Qed.

Lemma effect_erase_screen f :
  fb_ok f → ∃ f', effect (27 :: bytes_of_string "[2J") f f'
    ∧ painted (whole f) (Cell.make (bg_of f)) (set_wrap_pending false f) f'.
Proof.
  intros Hf. destruct (proj1 (safe_inv _ _) (reset_rows_painted (set_wrap_pending false f)
    (wrap_pending_ok false f Hf))) as (f' & Heq & Hp).
  exists f'. split; [|exact Hp].
  eapply (effect_csi [] [50] 74); [by left|done|done|lia|apply registry_erase|].
  intros d Hd Hch Hvals. unfold CSI_ED. read_param 0%nat. rewrite Hvals.
  change (param_value _ 0 0) with 2. cbn [Z.eqb Pos.eqb]. cbn in Heq |- *. rewrite Heq.
  eexists. by split.
Qed.

Lemma effect_home f :
  fb_ok f → DrawState.origin_mode (Framebuffer.ds f) = false →
  effect (27 :: bytes_of_string "[H") f (goto 0 0 f).
Proof.
  intros Hf Ho. pose proof Hf as ((?&?&?&_)&_).
  eapply (effect_csi [] [] 72); [by left|done|done|lia|apply registry_CUP|].
  intros d Hd Hch Hvals. unfold CSI_cursormove.
  read_param 0%nat. rewrite (proj1 (proj2 (proj2 Hl))), Hch.
  change (vec_get ([] ++ [72]) 0) with (Ok 72). cbn [mbind result_bind Z.eqb Pos.eqb orb].
  read_param 0%nat. read_param 1%nat.
  eexists. split; [by do 2 (eapply like_trans; [eassumption|])|].
  destruct Hl as (_ & Hv0 & _), Hl0 as (_ & Hv1 & _). rewrite Hv1, Hv0, Hvals.
  change (param_value _ 0 1) with 1. change (param_value _ 1 1) with 1.
  rewrite (goto_eq 0 0); [done|by apply wrap_pending_ok|exact Ho|cbn; lia|cbn; lia].
Qed.

(** ** Margins *)

Definition margins (top bottom : Z) f : Framebuffer.t :=
  goto 0 0 (Framebuffer.on_ds (fun s => DrawState.set_bottom_row bottom (DrawState.set_top_row top s)) f).

Lemma registry_STBM :
  DispatchRegistry.csi global_dispatch_registry !! [114] = Some (Function.mk CSI_DECSTBM true).
Proof. registry_lookup. Qed.

Lemma stbm_csi top bottom :
  1 ≤ top ≤ Dispatcher.PARAM_MAX → 1 ≤ bottom ≤ Dispatcher.PARAM_MAX →
  Display.stbm top bottom = csi [] (decimal top ++ [59] ++ decimal bottom) 114.
Proof.
  intros Ht Hb. destruct (two_numbers top bottom Ht Hb) as (_ & _ & Hl).
  unfold Display.stbm, csi. cbn [app] in *. rewrite <- app_assoc. cbn [app].
  apply snprintf_short. rewrite !zlen_cons. rewrite !zlen_app, !zlen_cons in *.
  rewrite zlen_app. unfold zlen at 3. cbn. lia.
Qed.

Lemma effect_margins top bottom f :
  fb_ok f → DrawState.origin_mode (Framebuffer.ds f) = false →
  fb_height f ≤ Dispatcher.PARAM_MAX → 0 ≤ top < bottom → bottom < fb_height f →
  effect (Display.stbm (top + 1) (bottom + 1)) f (margins top bottom f).
Proof.
  intros Hf Ho Hh Ht Hb. pose proof Hf as ((?&?&?&_)&_). rewrite stbm_csi by lia.
  destruct (two_numbers (top + 1) (bottom + 1)) as (Hv & Hp & Hl); [lia..|].
  eapply effect_csi; [by left|done|lia|lia|exact registry_STBM|].
  intros d Hd Hch Hvals. rewrite Hv in Hvals. unfold CSI_DECSTBM.
  read_param 0%nat. read_param 1%nat. eexists. split; [by eapply like_trans|].
  destruct Hl0 as (_ & Hv0 & _). rewrite Hv0, Hvals.
  unfold param_value. cbn [lookup list_lookup default from_option id].
  change (fb_height (set_wrap_pending false f)) with (fb_height f). z_bools. cbn [orb andb].
  do 2 f_equal. rewrite (goto_eq 0 0).
  - unfold margins, Framebuffer.on_ds. cbn. rewrite set_scrolling_region_eq by (cbn; lia).
    cbn -[Z.min Z.max]. rewrite Ho.
    replace (Z.max 0 (top + 1 - 1)) with top by lia.
    replace (Z.max top (Z.min (fb_height f - 1) (bottom + 1 - 1))) with bottom by lia.
    done.
  - apply set_ds_ok; [by apply wrap_pending_ok|]. apply set_scrolling_region_ok; [|cbn; lia].
    by apply wrap_pending_ok.
  - unfold Framebuffer.on_ds. cbn. rewrite set_scrolling_region_eq by (cbn; lia). cbn. by rewrite Ho.
  - unfold Framebuffer.on_ds. cbn. rewrite set_scrolling_region_eq by (cbn; lia). cbn. rewrite Ho. cbn. lia.
  - unfold Framebuffer.on_ds. cbn. rewrite set_scrolling_region_eq by (cbn; lia). cbn. rewrite Ho. cbn. lia.
Qed.

(** The margins of a one-row screen cannot change. *)
Lemma effect_no_margins f :
  fb_height f = 1 → effect (Display.stbm 1 1) f (set_wrap_pending false f).
Proof.
  intros Hh. rewrite (stbm_csi 1 1) by (unfold Dispatcher.PARAM_MAX; lia).
  eapply effect_csi; [by left|done|done|lia|exact registry_STBM|].
  intros d Hd Hch Hvals. unfold CSI_DECSTBM.
  read_param 0%nat. read_param 1%nat. eexists. split; [by eapply like_trans|].
  destruct Hl as (_ & Hv0 & _). rewrite Hv0, Hvals.
  change (param_value _ 0 1) with 1. change (param_value _ 1 _) with 1. done.
Qed.

(** ** Control characters *)

Lemma effect_control c F f f' :
  c = 7 ∨ c = 10 →
  DispatchRegistry.control global_dispatch_registry !! [c] = Some (Function.mk F true) →
  (∀ d, F (set_wrap_pending false f) d = Ok (f', d)) → effect [c] f f'.
Proof.
  intros Hc Hreg HF.
  apply (effect_run _ [Parser.set_char c (Parser.new_action Parser.Execute)]).
  { by destruct Hc as [->| ->]. }
  intros d u Hd. exists d. split; [done|]. unfold Emulator.act_all. cbn [for_each].
  change (Emulator.act_on_terminal ?a ?e) with (Emulator.execute a e).
  unfold Emulator.execute, Emulator.dispatch_as, dispatch.
  cbn [Parser.char_present Parser.ch Parser.set_char Parser.new_action mbind
      result_bind Emulator.fb Emulator.dispatch Emulator.user DispatchRegistry.map_of].
  assert ((c <=? 255) = true) as -> by lia. cbn [assert_that mbind result_bind].
  rewrite (uwrap_small 8 c) by lia. rewrite Hreg.
  cbn [Function.clears_wrap_state Function.function]. by rewrite HF.
Qed.

Lemma registry_controls :
  DispatchRegistry.control global_dispatch_registry !! [7] = Some (Function.mk Ctrl_BEL true)
  ∧ DispatchRegistry.control global_dispatch_registry !! [10] = Some (Function.mk Ctrl_LF true).
Proof. split; registry_lookup. Qed.

Lemma effect_bell f : effect [7] f (Framebuffer.ring_bell (set_wrap_pending false f)).
Proof. eapply effect_control; [by left|apply registry_controls|done]. Qed.

(** The rows after [n] line feeds on the bottom margin, the region
    starting at the top of the screen *)
Definition scrolled (n bottom : Z) f f' : Prop :=
  ∀ i : nat, Framebuffer.rows f' !! i =
    if Z.of_nat i <=? bottom then
      (if Z.of_nat i + n <=? bottom then Framebuffer.rows f !! (i + Z.to_nat n)%nat
       else Some (Framebuffer.newrow f))
    else Framebuffer.rows f !! i.

Lemma effect_line_feed b f :
  DrawState.scrolling_region_bottom_row (Framebuffer.ds f) = b → fb_ok f → DrawState.origin_mode (Framebuffer.ds f) = false →
  DrawState.scrolling_region_top_row (Framebuffer.ds f) = 0 → row_of f = b → 1 ≤ b →
  ∃ f', effect [10] f f' ∧ fb_ok f' ∧ scrolled 1 b f f'
    ∧ f' = Framebuffer.set_rows (Framebuffer.rows f') (goto b (col_of f) f).
Proof.
  intros Hbot Hf Ho Ht Hr Hb. set (g := set_wrap_pending false f).
  assert (fb_ok g) as Hg by (by apply wrap_pending_ok).
  destruct (ScreenTheorems.scroll_up_once g Hg) as (rs & Hs & Hrs).
  pose proof Hf as ((Hsz&?&?&?&?&?&?&?&?) & _).
  assert (∀ d, Ctrl_LF g d = Ok (Framebuffer.on_ds (DrawState.move_row 1 true)
    (Framebuffer.on_ds (DrawState.move_row (-1) true) (Framebuffer.set_rows rs g)), d)) as Hlf.
  { intros d. unfold Ctrl_LF, Framebuffer.move_rows_autoscroll. cbn -[Framebuffer.scroll].
    rewrite Ht, Hr, Hbot. z_bools. cbn [orb]. replace (b + 1 - b) with 1 by lia.
    rewrite Hs. done. }
  eexists. split; [eapply effect_control; [by right|apply registry_controls|exact Hlf]|].
  pose proof (Ctrl_LF_safe CONTROL g Dispatcher.make Hg) as Hsafe. rewrite Hlf in Hsafe. cbn in Hsafe.
  split_and!.
  - apply Hsafe; [by_eval|done].
  - intros i. change (Framebuffer.rows _) with rs at 1. specialize (Hrs i). cbn in Hrs. rewrite Hrs.
    rewrite Ht, Hbot. replace (i + Z.to_nat 1)%nat with (S i) by lia.
    pose proof (Nat2Z.is_nonneg i). split_ifs; try lia; done.
  - unfold goto, g. destruct f as [rs0 ic wt bc s]. cbn in *.
    unfold Framebuffer.on_ds, Framebuffer.set_ds, set_wrap_pending. cbn -[DrawState.move_row]. f_equal.
    ds_unfold. rewrite Ho.
    replace (Z.min (DrawState.height s - 1) (Z.max 0 (Z.min (DrawState.height s - 1)
      (Z.max 0 (DrawState.cursor_row s + -1)) + 1))) with b by lia.
    by replace (Z.min (DrawState.width s - 1) (Z.max 0 (Z.min (DrawState.width s - 1)
      (Z.max 0 (DrawState.cursor_col s))))) with (DrawState.cursor_col s) by lia.
Qed.

Lemma effect_line_feeds (n : nat) b f :
  DrawState.scrolling_region_bottom_row (Framebuffer.ds f) = b → fb_ok f →
  DrawState.origin_mode (Framebuffer.ds f) = false →
  DrawState.scrolling_region_top_row (Framebuffer.ds f) = 0 → row_of f = b → 1 ≤ b →
  DrawState.next_print_will_wrap (Framebuffer.ds f) = false → (1 ≤ n)%nat →
  ∃ f', effect (replicate n 10) f f' ∧ fb_ok f' ∧ scrolled (Z.of_nat n) b f f'
    ∧ f' = Framebuffer.set_rows (Framebuffer.rows f') (goto b (col_of f) f).
Proof.
  intros Hbot Hf Ho Ht Hr Hb Hp Hn. revert f Hbot Hf Ho Ht Hr Hp.
  induction n as [|n IH]; [lia|]. intros f Hbot Hf Ho Ht Hr Hp.
  destruct (effect_line_feed b f Hbot Hf Ho Ht Hr Hb) as (g & Heff & Hg & Hs & Hgeq).
  destruct (decide (n = 0)%nat) as [->|Hn0].
  { exists g. by split_and!. }
  assert (Framebuffer.ds g = Framebuffer.ds (goto b (col_of f) f)) as Hds by (by rewrite Hgeq).
  destruct (IH ltac:(lia) g) as (h & Heff' & Hh & Hs' & Hheq); [first [done|by rewrite Hds]..|].
  exists h. split_and!; [|done|..].
  - change (replicate (S n) 10) with ([10] ++ replicate n 10). by eapply effect_app.
  - assert (Framebuffer.newrow g = Framebuffer.newrow f) as Hnew.
    { unfold Framebuffer.newrow. by rewrite Hds. }
    intros i. rewrite Hs', Hnew. unfold scrolled in Hs. rewrite !Hs.
    pose proof (Nat2Z.is_nonneg i). pose proof (Nat2Z.is_nonneg n).
    split_ifs; try done; try b_lia; f_equal; lia.
  - rewrite Hheq. assert (col_of g = col_of f) as -> by (by rewrite Hds).
    rewrite Hgeq. by destruct f as [???? []].
Qed.

(** ** Titles *)

(** A character that the parser passes on unchanged *)
Definition text_char (c : Z) : bool :=
  Utf8Props.scalar c && (((0x20 <=? c) && (c <=? 0x7F)) || (0xA0 <=? c)).

Definition title_ok (t : list Z) : Prop := forallb text_char t = true ∧ zlen t ≤ 254.

Lemma osc_put_step c :
  text_char c = true →
  Parser.input Parser.OSC_String c
  = Ok ([Parser.set_char c (Parser.new_action Parser.OSC_Put)], Parser.OSC_String).
Proof.
  unfold text_char, Utf8Props.scalar. intros Hc. unfold Parser.input, Parser.State_input,
    Parser.anywhere_rule, Parser.between. split_ifs; try lia; cbn.
  - unfold Parser.OSC_String_rule, Parser.between. done.
  - unfold Parser.OSC_String_rule, Parser.between. split_ifs; [done|lia..].
Qed.

Definition put_action (c : Z) : Parser.Action :=
  Parser.set_char c (Parser.new_action Parser.OSC_Put).

Lemma osc_run t :
  forallb text_char t = true →
  Parser.run Parser.OSC_String (t ++ [7])
  = Ok ((put_action <$> t) ++ [Parser.new_action Parser.OSC_End], Parser.Ground).
Proof.
  induction t as [|c t IH]; intros Ht; [done|]. simpl in Ht. apply andb_true_iff in Ht as [Hc Ht].
  cbn [app Parser.run]. rewrite osc_put_step by done. cbn [mbind result_bind].
  rewrite IH by done. done.
Qed.

Lemma act_puts t f d u :
  zlen (Dispatcher.OSC_string d) + zlen t ≤ 256 →
  Emulator.act_all (put_action <$> t) (Emulator.mk f d u)
  = Ok (Emulator.mk f (Dispatcher.set_OSC_string (Dispatcher.OSC_string d ++ t) d) u).
Proof.
  revert d. induction t as [|c t IH]; intros d Hlen.
  { cbn. rewrite app_nil_r. by destruct d. }
  rewrite zlen_cons in Hlen. pose proof (zlen_nonneg t).
  cbn [fmap list_fmap]. unfold Emulator.act_all. cbn [for_each].
  assert (Emulator.act_on_terminal (put_action c) (Emulator.mk f d u)
    = Ok (Parser.set_handled (put_action c),
          Emulator.mk f (Dispatcher.set_OSC_string (Dispatcher.OSC_string d ++ [c]) d) u)) as ->.
  { cbn. unfold Dispatcher.OSC_put. cbn. by z_bools. }
  cbn [fmap result_fmap snd mbind result_bind].
  change (for_each ?l ?b ?x) with (Emulator.act_all l x). rewrite IH.
  - cbn. by rewrite <- app_assoc.
  - cbn. rewrite zlen_app. unfold zlen at 2. cbn. lia.
Qed.

(** What OSC [n] does to the titles *)
Definition retitle (n : Z) (t : list Z) f : Framebuffer.t :=
  if n =? 48 then Framebuffer.set_window_title t (Framebuffer.set_icon_name t f)
  else if n =? 49 then Framebuffer.set_icon_name t f
  else Framebuffer.set_window_title t f.

Lemma text_scalar t : forallb text_char t = true → forallb Utf8Props.scalar t = true.
Proof.
  rewrite !List.forallb_forall. intros Ht c Hc%Ht. by apply andb_true_iff in Hc as [? _].
Qed.

Lemma effect_title n t f :
  n = 48 ∨ n = 49 ∨ n = 50 → title_ok t →
  effect ([27; 93; n; 59] ++ (t ≫= encode) ++ [7]) f (retitle n t f).
Proof.
  intros Hn [Ht Hlen].
  assert (text_char n = true) as Hn' by (destruct Hn as [->|[->| ->]]; done).
  replace ([27; 93; n; 59] ++ (t ≫= encode) ++ [7])
    with (([27; 93] ++ (n :: 59 :: t) ++ [7]) ≫= encode).
  2:{ cbn [app]. rewrite !bind_cons, bind_app, bind_cons.
      destruct Hn as [->|[->| ->]]; done. }
  set (acts := [Parser.new_action Parser.Clear; Parser.new_action Parser.OSC_Start]
    ++ (put_action <$> n :: 59 :: t) ++ [Parser.new_action Parser.OSC_End]).
  apply (effect_run _ acts).
  - unfold UTF8Parser.init. rewrite Utf8Theorems.run_text.
    + cbn [app Parser.run].
      change (Parser.input Parser.Ground 27) with (Ok ([Parser.new_action Parser.Clear], Parser.Escape)).
      cbn [mbind result_bind].
      change (Parser.input Parser.Escape 93)
        with (Ok ([Parser.new_action Parser.OSC_Start], Parser.OSC_String)).
      cbn [mbind result_bind]. pose proof (osc_run (n :: 59 :: t)) as Hrun. cbn [app Parser.run] in Hrun.
      rewrite Hrun; [done|]. cbn [forallb]. by rewrite Hn', Ht.
    + rewrite forallb_app. cbn [forallb app]. rewrite forallb_app, (text_scalar t Ht).
      apply andb_true_iff in Hn' as [-> _]. done.
  - intros d u Hd. exists (Dispatcher.set_OSC_string (n :: 59 :: t)
      (Dispatcher.set_parsed false (Dispatcher.set_dispatch_chars [] (Dispatcher.set_params [] d)))).
    split.
    + destruct Hd as (?&?&?&?&?). split; [|done]. unfold disp_ok. cbn. split_and!; try done.
      rewrite !zlen_cons. lia.
    + unfold acts. rewrite act_all_app.
      change (Emulator.act_all [Parser.new_action Parser.Clear; Parser.new_action Parser.OSC_Start]
        (Emulator.mk f d u)) with (Ok (Emulator.mk f (Dispatcher.set_OSC_string []
          (Dispatcher.set_parsed false (Dispatcher.set_dispatch_chars [] (Dispatcher.set_params [] d)))) u)).
      cbn [mbind result_bind]. rewrite act_all_app, act_puts.
      * cbn [mbind result_bind]. unfold Emulator.act_all. cbn.
        destruct Hn as [->|[->| ->]]; done.
      * cbn. rewrite !zlen_cons. unfold zlen at 1. cbn. lia.
Qed.

(** ** Printing *)

Lemma ground_step c :
  text_char c = true →
  Parser.input Parser.Ground c
  = Ok ([Parser.set_char c (Parser.new_action Parser.Print)], Parser.Ground).
Proof.
  unfold text_char. intros Hc. apply ParserProps.ground_prints. z_props; lia.
Qed.

(** A printable character, whatever [print] makes of it *)
Lemma effect_print c f f' :
  text_char c = true → fb_ok f →
  (wcwidth c = 1 ∧ Emulator.print_graphic c 1 f = Ok f')
  ∨ (wcwidth c = 0 ∧ Emulator.print_combining c f = Ok f') →
  effect (encode c) f f'.
Proof.
  intros Hc Hf Hp. apply (effect_run _ [Parser.set_char c (Parser.new_action Parser.Print)]).
  { apply Utf8Theorems.run_encode; [by apply andb_true_iff in Hc as [? _]|by apply ground_step]. }
  intros d u Hd. exists d. split; [done|]. unfold Emulator.act_all. cbn [for_each].
  change (Emulator.act_on_terminal ?a ?e) with (Emulator.print a e). unfold Emulator.print.
  cbn [Parser.char_present Parser.ch Parser.set_char Parser.new_action mbind
      result_bind Emulator.fb Emulator.dispatch Emulator.user assert_that].
  destruct (index_cursor f Hf) as [Hri Hci].
  destruct (proj1 (safe_inv _ _) (get_cell_ok _ (-1) (-1) f Hf Hri Hci)) as (x & -> & _).
  cbn [mbind result_bind].
  assert ((c =? 0) = false) as ->.
  { unfold text_char in Hc. apply Z.eqb_neq. intros ->. done. }
  destruct Hp as [[-> Hp]|[-> Hp]]; cbn [Z.eqb Pos.eqb orb]; by rewrite Hp.
Qed.

(** Combining characters that follow a character: the cell is filled up to
    sixteen. *)
Lemma effect_combining cs y x c f :
  forallb text_char cs = true → Forall (fun a => wcwidth a = 0) cs →
  fb_ok f → Framebuffer.get_combining_cell f = Some (y, x) →
  Framebuffer.get_cell y x f = Ok c → Cell.contents c ≠ [] →
  ∃ f', effect (cs ≫= encode) f f'
    ∧ painted (span y x (x + 1)) (Cell.set_contents (take 16 (Cell.contents c ++ cs)) c) f f'.
Proof.
  revert c f. induction cs as [|a cs IH]; intros c f Ht Hw Hf Hcomb Hget Hne.
  { exists f. split; [apply effect_nil|]. split_and!; [done|by destruct f|].
    destruct (combining_cell_range f y x Hf Hcomb) as (_ & _ & Hy & Hx).
    destruct (proj1 (safe_inv _ _) (get_cell_ok _ y x f Hf ltac:(rewrite index_row; lia)
      ltac:(rewrite index_col; lia))) as (c' & Hget' & (_ & _ & Hlen)).
    assert (c' = c) as -> by congruence.
    apply get_cell_at in Hget as (_ & _ & Hat). rewrite index_row, index_col in Hat by lia.
    intros i j. unfold span. split_ifs; [|done]. z_props.
    replace i with (Z.to_nat y) by lia. replace j with (Z.to_nat x) by lia. rewrite Hat.
    rewrite app_nil_r, take_ge by (unfold zlen in Hlen; lia). by destruct c. }
  simpl in Ht. apply andb_true_iff in Ht as [Ha Ht]. inversion Hw as [|?? Hwa Hwcs]; subst.
  destruct (combining_cell_range f y x Hf Hcomb) as (_ & _ & Hy & Hx).
  set (c1 := if zlen (Cell.contents c) <? 16
             then Cell.set_contents (vec_push (Cell.contents c) a) c else c).
  assert (∃ f1, Emulator.print_combining a f = Ok f1 ∧ painted (span y x (x + 1)) c1 f f1)
    as (f1 & Hp & Hp1).
  { unfold Emulator.print_combining. rewrite Hcomb, Hget. cbn [mbind result_bind].
    assert ((zlen (Cell.contents c) =? 0) = false) as ->.
    { destruct (Cell.contents c); [done|]. rewrite zlen_cons. pose proof (zlen_nonneg l). lia. }
    cbn [mbind result_bind]. unfold c1. destruct (zlen (Cell.contents c) <? 16) eqn:E.
    - destruct (update_cell_at y x (fun c => Cell.set_contents (vec_push (Cell.contents c) a) c) f c Hget)
        as (f1 & Heq & Hrows & Hcells).
      pose proof (push_char_ok (fun _ => False) y x a f c Hf Hy Hx Hget ltac:(lia)) as Hok.
      rewrite Heq in Hok. exists f1. split; [done|]. split_and!; [apply Hok|done|].
      intros i j. rewrite Hcells, index_row, index_col by lia. unfold span.
      repeat case_decide; split_ifs; try done; b_lia.
    - exists f. split; [done|]. split_and!; [done|by destruct f|].
      apply get_cell_at in Hget as (_ & _ & Hat). rewrite index_row, index_col in Hat by lia.
      intros i j. unfold span. split_ifs; [|done]. z_props.
      replace i with (Z.to_nat y) by lia. by replace j with (Z.to_nat x) by lia. }
  destruct Hp1 as (Hf1 & Hrows1 & Hcells1).
  assert (Framebuffer.ds f1 = Framebuffer.ds f) as Hds by (by rewrite Hrows1).
  destruct (IH c1 f1) as (f2 & Heff & Hf2 & Hrows2 & Hcells2); [done|done|done|..].
  - unfold Framebuffer.get_combining_cell in *. by rewrite Hds.
  - apply get_cell_at. rewrite index_row, index_col by lia. split_and!; [lia..|].
    rewrite Hcells1. unfold span. by z_bools.
  - unfold c1. destruct (_ <? 16); [|done]. cbn. by destruct (Cell.contents c).
  - exists f2. split.
    + rewrite bind_cons. eapply effect_app; [|exact Heff]. apply effect_print; [done..|by right].
    + split_and!; [done|by eapply set_rows_trans|]. intros i j. rewrite Hcells2, Hcells1.
      destruct (span y x (x + 1) i j); [|done]. f_equal. unfold c1, zlen.
      destruct (Z.ltb_spec (Z.of_nat (length (Cell.contents c))) 16).
      * unfold vec_push. cbn. by rewrite <- app_assoc.
      * rewrite !take_app_le by lia. done.
Qed.

Lemma set_rows_twice rs rs' f :
  Framebuffer.set_rows rs (Framebuffer.set_rows rs' f) = Framebuffer.set_rows rs f.
Proof. done. Qed.

(** The cell that a character and its combining characters leave *)
Definition glyph_cell (chars : list Z) f : Cell.t :=
  Cell.mk (take 16 chars) false 1 (DrawState.renditions (Framebuffer.ds f)) false.

(** Printing a character with its combining characters, when printing on
    [f] is printing on [g], where no wrap is pending *)
Lemma effect_glyph base cs f g :
  text_char base = true → wcwidth base = 1 →
  forallb text_char cs = true → Forall (fun a => wcwidth a = 0) cs →
  fb_ok f → fb_ok g → Emulator.print_graphic base 1 f = Emulator.print_graphic base 1 g →
  DrawState.next_print_will_wrap (Framebuffer.ds g) = false →
  DrawState.insert_mode (Framebuffer.ds g) = false →
  ∃ f', effect ((base :: cs) ≫= encode) f f' ∧ fb_ok f'
    ∧ f' = Framebuffer.set_rows (Framebuffer.rows f')
             (Framebuffer.on_ds (DrawState.move_col 1 true true) g)
    ∧ ∀ y x, cell_at f' y x =
        if span (row_of g) (col_of g) (col_of g + 1) y x
        then Some (glyph_cell (base :: cs) g) else cell_at g y x.
Proof.
  intros Hb Hwb Hcs Hwcs Hf Hg Hsame Hwrap Hins. pose proof Hg as ((Hsz&Hc&Hr&_)&_).
  destruct (print_plain base g Hg Hwrap Hins) as (g1 & Heq & Hrows & Hcells).
  pose proof (print_graphic_ok (fun _ => False) base 1 g Hg (or_introl eq_refl)) as Hok.
  rewrite Heq in Hok. cbn [wp] in Hok.
  remember (Framebuffer.on_ds (DrawState.move_col 1 true true) g1) as g2 eqn:Hg2def.
  assert (g2 = Framebuffer.set_rows (Framebuffer.rows g1)
    (Framebuffer.on_ds (DrawState.move_col 1 true true) g)) as Hg2.
  { rewrite Hg2def. generalize (DrawState.move_col 1 true true). intros m. rewrite Hrows at 1. reflexivity. }
  destruct (effect_combining cs (row_of g) (col_of g) (printed_cell base 1 (Framebuffer.ds g)) g2)
    as (f' & Heff & Hf' & Hrows' & Hcells'); [done|done|apply Hok|..].
  - rewrite Hg2. unfold Framebuffer.get_combining_cell. cbn -[DrawState.move_col].
    ds_unfold. z_bools. done.
  - apply get_cell_at. rewrite index_row, index_col by lia. split_and!; [lia..|].
    rewrite Hg2def. change (cell_at (Framebuffer.on_ds _ g1)) with (cell_at g1).
    rewrite Hcells. by rewrite decide_True.
  - done.
  - exists f'. split_and!.
    + rewrite bind_cons. eapply effect_app; [|exact Heff]. apply effect_print; [done..|].
      left. by rewrite Hsame.
    + done.
    + transitivity (Framebuffer.set_rows (Framebuffer.rows f') g2); [exact Hrows'|].
      generalize (Framebuffer.rows f'). intros rs. rewrite Hg2. apply set_rows_twice.
    + intros y x. rewrite Hcells', Hg2def.
      change (cell_at (Framebuffer.on_ds _ g1)) with (cell_at g1). rewrite Hcells.
      unfold span. repeat case_decide; split_ifs; try done; b_lia.
Qed.

(** A pending wrap: the next character goes to the start of the next row,
    and the row it leaves is marked as wrapped. *)
Definition unwrapped (c : Cell.t) : Cell.t := Cell.set_wrap false c.

Lemma wrap_print base f :
  fb_ok f → DrawState.next_print_will_wrap (Framebuffer.ds f) = true →
  DrawState.auto_wrap_mode (Framebuffer.ds f) = true →
  DrawState.origin_mode (Framebuffer.ds f) = false →
  DrawState.scrolling_region_top_row (Framebuffer.ds f) = 0 →
  DrawState.scrolling_region_bottom_row (Framebuffer.ds f) = fb_height f - 1 →
  row_of f + 1 < fb_height f →
  ∃ g, fb_ok g ∧ Emulator.print_graphic base 1 f = Emulator.print_graphic base 1 g
    ∧ g = Framebuffer.set_rows (Framebuffer.rows g) (goto (row_of f + 1) 0 f)
    ∧ ∀ y x, unwrapped <$> cell_at g y x = unwrapped <$> cell_at f y x.
Proof.
  intros Hf Hwrap Hauto Ho Ht Hb Hrow. pose proof Hf as ((Hsz&Hc&Hr&_)&Hlen&Hrows).
  destruct (lookup_lt_is_Some_2 (Framebuffer.rows f) (Z.to_nat (row_of f))) as [r Hr0].
  { unfold zlen in Hlen. lia. }
  rewrite Forall_lookup in Hrows. destruct (Hrows _ _ Hr0) as [Hrl _].
  destruct (lookup_lt_is_Some_2 r (Z.to_nat (zlen r - 1))) as [c Hcell]; [unfold zlen in *; lia|].
  set (r' := <[Z.to_nat (zlen r - 1) := Cell.set_wrap true c]> r).
  set (f1 := Framebuffer.set_rows (<[Z.to_nat (row_of f) := r']> (Framebuffer.rows f)) f).
  assert (Framebuffer.update_row (-1) (Row.set_wrap true) f = Ok f1) as Hup.
  { unfold Framebuffer.update_row.
    change (Framebuffer.row_index (-1) f) with (row_of f).
    rewrite (vec_alter_Ok _ _ _ r r'); [done|lia|done|]. unfold Row.set_wrap.
    by rewrite (vec_alter_Ok _ _ _ c (Cell.set_wrap true c)) by (done || lia). }
  assert (fb_ok f1) as Hf1.
  { pose proof (set_row_wrap_ok (fun _ => False) true f Hf) as Hok. rewrite Hup in Hok. apply Hok. }
  set (g := goto (row_of f + 1) 0 f1).
  assert (Emulator.wrap_before_print 1 f = Ok g) as Hstep.
  { unfold Emulator.wrap_before_print. rewrite Hauto, Hwrap. cbn [andb]. rewrite Hup. cbn [mbind result_bind].
    unfold Framebuffer.move_rows_autoscroll. cbn [Framebuffer.on_ds Framebuffer.ds Framebuffer.set_ds].
    unfold g, goto, Framebuffer.on_ds. cbn -[DrawState.move_col DrawState.move_row].
    assert (DrawState.cursor_row (DrawState.move_col 0 false false (Framebuffer.ds f)) = row_of f) as ->.
    { ds_unfold. rewrite Ho. lia. }
    assert (DrawState.scrolling_region_top_row (DrawState.move_col 0 false false (Framebuffer.ds f)) = 0) as ->.
    { ds_unfold. done. }
    assert (DrawState.scrolling_region_bottom_row (DrawState.move_col 0 false false (Framebuffer.ds f))
      = fb_height f - 1) as -> by (ds_unfold; done).
    z_bools. cbn [orb mbind result_bind].
    change (Framebuffer.set_ds ?a (Framebuffer.set_ds ?b f1)) with (Framebuffer.set_ds a f1).
    do 2 f_equal. ds_unfold. rewrite Ho.
    assert (Z.min (fb_height f - 1) (Z.max 0 (Z.min (fb_height f - 1) (Z.max 0 (row_of f)) + 1))
      = row_of f + 1) as -> by lia.
    assert (Z.min (fb_width f - 1) (Z.max 0 (Z.min (fb_width f - 1) (Z.max 0 0))) = 0) as -> by lia.
    done. }
  assert (fb_ok g) as Hg.
  { pose proof (wrap_before_print_ok (fun _ => False) 1 f Hf) as Hok. rewrite Hstep in Hok. apply Hok. }
  exists g. split_and!; [done| |done|].
  - unfold Emulator.print_graphic. rewrite Hstep. cbn [mbind result_bind].
    assert (Emulator.wrap_before_print 1 g = Ok g) as ->; [|done].
    unfold Emulator.wrap_before_print. cbn. by rewrite !andb_false_r.
  - intros y x. unfold cell_at. cbn. destruct (decide (y = Z.to_nat (row_of f))) as [->|Hy].
    + rewrite list_lookup_insert_eq, Hr0 by (by eapply lookup_lt_Some). cbn.
      destruct (decide (x = Z.to_nat (zlen r - 1))) as [->|Hx]; unfold r'.
      * rewrite list_lookup_insert_eq, Hcell by (by eapply lookup_lt_Some). done.
      * by rewrite list_lookup_insert_ne.
    + by rewrite list_lookup_insert_ne.
Qed.

End effects.
End EffectLemmas.
