(* ===== verification/DisplayProps.v ===== *)
(** * The display encoder draws the frame

    What a terminal shows is its [appearance].  A terminal that shows one
    frame and is sent the string that [Display::new_frame] writes for
    another shows the other: the encoder's view of the terminal (cursor,
    rendition, cells already drawn) is tracked through every put, scroll
    and wrap. *)

From S2P Require Import Prelude VtParser Utf8 TerminalFramebuffer FramebufferWf TerminalDispatcher DispatcherProps TerminalFunctions FunctionSafety TerminalEmulator EmulatorSafety ScreenProps SequenceProps EmulatorProps TerminalDisplay TerminalEffects.

Module DisplayTheorems.
Import DispatcherLemmas EmulatorGuarantees SequenceTheorems EffectLemmas.

#[local] Existing Instance Renditions.t_eq_dec.

(** ** What a terminal shows *)

(** The characters of a cell: an empty cell is a space; combining
    characters with nothing to combine with are on a no-break space. *)
Definition glyphs (c : Cell.t) : list Z :=
  match Cell.contents c with
  | [] => [32]
  | l => if Cell.fallback c then take 16 (0xA0 :: l) else l
  end.

Definition look (c : Cell.t) : list Z * Renditions.t * Z :=
  (glyphs c, Cell.renditions c, Cell.width c).

Record appearance_t : Set := mkAppearance {
  app_cells : list (list (list Z * Renditions.t * Z));
  app_title : list Z;
  app_cursor : Z * Z;
  app_visible : bool;
  app_reverse : bool;
  app_rendition : Renditions.t }.

Definition appearance (f : Framebuffer.t) : appearance_t :=
  let d := Framebuffer.ds f in
  mkAppearance ((fun row : Row.t => look <$> row) <$> Framebuffer.rows f) (Framebuffer.window_title f)
    (DrawState.cursor_row d, DrawState.cursor_col d) (DrawState.cursor_visible d)
    (DrawState.reverse_video d) (DrawState.renditions d).

Definition look_at (f : Framebuffer.t) (y x : nat) : option (list Z * Renditions.t * Z) :=
  look <$> cell_at f y x.

(** The space and the no-break space occupy one column. *)
Class SpacingLaws `{Wcwidth} : Prop := {
  wcwidth_space : wcwidth 32 = 1;
  wcwidth_nbsp : wcwidth 0xA0 = 1 }.

Abbreviation pending r := (DrawState.next_print_will_wrap (Framebuffer.ds r)).
Abbreviation rend r := (DrawState.renditions (Framebuffer.ds r)).
Abbreviation visible r := (DrawState.cursor_visible (Framebuffer.ds r)).

Abbreviation fx := FrameState.x.
Abbreviation fy := FrameState.y.
Abbreviation forced := FrameState.force_next_put.
Abbreviation last_rows fr := (Framebuffer.rows (FrameState.last_frame fr)).

Section display.
Context `{Wcwidth}.
Implicit Types (f r last : Framebuffer.t) (fr : FrameState.t).

(** ** Frames that can be drawn *)

(** One column wide; empty cells have only a background; contents are a
    character and its combining characters. *)
Definition cell_draws (c : Cell.t) : Prop :=
  Cell.width c = 1
  ∧ match Cell.contents c with
    | [] => Cell.renditions c = Renditions.make (Renditions.background_color (Cell.renditions c))
    | base :: cs =>
        forallb text_char (base :: cs) = true
        ∧ if Cell.fallback c
          then Forall (fun a => wcwidth a = 0) (base :: cs)
          else wcwidth base = 1 ∧ Forall (fun a => wcwidth a = 0) cs
    end.

#[global] Instance cell_draws_dec c : Decision (cell_draws c).
Proof.
  unfold cell_draws. destruct (Cell.contents c); [|destruct (Cell.fallback c)]; apply _.
Defined.

Definition drawable f : Prop :=
  fb_ok f ∧ fb_height f ≤ Dispatcher.PARAM_MAX ∧ fb_width f ≤ Dispatcher.PARAM_MAX
  ∧ title_ok (Framebuffer.window_title f) ∧ title_ok (Framebuffer.icon_name f)
  ∧ Forall (Forall cell_draws) (Framebuffer.rows f).

#[global] Instance title_ok_dec t : Decision (title_ok t).
Proof. unfold title_ok. apply _. Defined.

#[global] Instance drawable_dec f : Decision (drawable f).
Proof. unfold drawable. apply _. Defined.

(** ** Terminals that only ever received frames *)

Definition plain r : Prop :=
  fb_ok r
  ∧ DrawState.origin_mode (Framebuffer.ds r) = false
  ∧ DrawState.auto_wrap_mode (Framebuffer.ds r) = true
  ∧ DrawState.insert_mode (Framebuffer.ds r) = false
  ∧ DrawState.scrolling_region_top_row (Framebuffer.ds r) = 0
  ∧ DrawState.scrolling_region_bottom_row (Framebuffer.ds r) = fb_height r - 1.

#[global] Instance plain_dec r : Decision (plain r).
Proof. unfold plain. apply _. Defined.

(** What drawing cells does not change *)
Definition meta r : list Z * list Z * bool * Z * Z :=
  (Framebuffer.window_title r, Framebuffer.icon_name r,
   DrawState.reverse_video (Framebuffer.ds r), fb_width r, fb_height r).

Definition at_pos r (y x : Z) : Prop := row_of r = y ∧ col_of r = x ∧ pending r = false.
Definition at_end r (y : Z) : Prop := row_of r = y ∧ col_of r = fb_width r - 1 ∧ pending r = true.

(** The encoder's idea of the cursor, when no put is forced *)
Definition tracks (cx cy : Z) r : Prop :=
  (0 ≤ cx < fb_width r → 0 ≤ cy < fb_height r → at_pos r cy cx)
  ∧ (cx = fb_width r → 0 ≤ cy < fb_height r → at_end r cy).

(** The next character goes to [(y, x)]: the cursor is there, or at the end
    of the row above and about to wrap - then the put is forced. *)
Definition located (force : bool) r (y x : Z) : Prop :=
  at_pos r y x ∨ (force = true ∧ x = 0 ∧ 1 ≤ y ∧ at_end r (y - 1)).

(** ** Single steps on the terminal *)

Lemma goto_plain y x r :
  plain r → 0 ≤ y < fb_height r → 0 ≤ x < fb_width r →
  plain (goto y x r) ∧ meta (goto y x r) = meta r ∧ at_pos (goto y x r) y x
  ∧ (∀ i j, cell_at (goto y x r) i j = cell_at r i j)
  ∧ rend (goto y x r) = rend r ∧ visible (goto y x r) = visible r.
Proof.
  intros (Hf & Ho & Ha & Hi & Ht & Hb) Hy Hx. split_and!; try done.
  unfold plain. split_and!; try done. pose proof Hf as Hf0.
  destruct Hf0 as ((?&?&?&?&?&?&?&?&?)&?&?). split; [|done]. unfold ds_ok. cbn.
  split_and!; try done; lia.
Qed.

(** Steps that change cells of the grid only, or the cursor *)
Definition steady r r' : Prop :=
  plain r' ∧ meta r' = meta r ∧ rend r' = rend r ∧ visible r' = visible r.

Lemma meta_size r r' : meta r' = meta r → fb_width r' = fb_width r ∧ fb_height r' = fb_height r.
Proof. unfold meta. intros. by simplify_eq. Qed.

Lemma steady_trans r1 r2 r3 : steady r1 r2 → steady r2 r3 → steady r1 r3.
Proof. intros (?&?&?&?) (?&?&?&?). split_and!; congruence. Qed.

(** The parts of the draw state that a step may not change *)
Definition modes (d : DrawState.t) :=
  (DrawState.origin_mode d, DrawState.auto_wrap_mode d, DrawState.insert_mode d,
   DrawState.scrolling_region_top_row d, DrawState.scrolling_region_bottom_row d,
   DrawState.width d, DrawState.height d, DrawState.reverse_video d,
   DrawState.renditions d, DrawState.cursor_visible d).

Lemma steady_intro r r' :
  plain r → fb_ok r' → modes (Framebuffer.ds r') = modes (Framebuffer.ds r) →
  Framebuffer.window_title r' = Framebuffer.window_title r →
  Framebuffer.icon_name r' = Framebuffer.icon_name r → steady r r'.
Proof.
  intros (Hf & Ho & Ha & Hi & Ht & Hb) Hr' Hm Htitle Hicon. unfold modes in Hm. simplify_eq.
  unfold steady, plain, meta. conjs; congruence.
Qed.

Lemma look_unwrapped g r :
  (∀ y x, unwrapped <$> cell_at g y x = unwrapped <$> cell_at r y x) →
  ∀ y x, look_at g y x = look_at r y x.
Proof.
  intros Heq y x. specialize (Heq y x). unfold look_at.
  destruct (cell_at g y x) as [a|], (cell_at r y x) as [b|]; try done. cbn in *.
  injection Heq as Heq. unfold look, glyphs. destruct a, b. cbn in *. by simplify_eq.
Qed.

(** Where printing takes place *)
Lemma located_print base force r y x :
  plain r → located force r y x → 0 ≤ y < fb_height r → 0 ≤ x < fb_width r →
  ∃ g, steady r g ∧ at_pos g y x
    ∧ Emulator.print_graphic base 1 r = Emulator.print_graphic base 1 g
    ∧ ∀ i j, look_at g i j = look_at r i j.
Proof.
  intros Hp [Hat|(_ & -> & Hy1 & Hrow & Hcol & Hpend)] Hy Hx.
  { exists r. by split_and!. }
  pose proof Hp as (Hf & Ho & Ha & Hi & Ht & Hb).
  destruct (wrap_print base r) as (g & Hg & Hprint & Hgeq & Hcells); [done..|lia|].
  rewrite Hrow in Hgeq. replace (y - 1 + 1) with y in Hgeq by lia.
  destruct (goto_plain y 0 r Hp Hy Hx) as ((_&?&?&?&?&?) & ? & Hat & _ & ? & ?).
  assert (Framebuffer.ds g = Framebuffer.ds (goto y 0 r)) as Hds by (by rewrite Hgeq).
  exists g. conjs.
  - apply steady_intro; [done|done|by rewrite Hds|by rewrite Hgeq..].
  - unfold at_pos in *. by rewrite !Hds.
  - done.
  - by apply look_unwrapped.
Qed.

Lemma printed_look chars g :
  chars ≠ [] → look (glyph_cell chars g) = (take 16 chars, rend g, 1).
Proof. intros Hne. unfold look, glyphs, glyph_cell. cbn. by destruct chars. Qed.

(** Writing one cell *)
Lemma write_cell base cs force r y x :
  text_char base = true → wcwidth base = 1 →
  forallb text_char cs = true → Forall (fun a => wcwidth a = 0) cs →
  plain r → located force r y x → 0 ≤ y < fb_height r → 0 ≤ x < fb_width r →
  ∃ r', effect ((base :: cs) ≫= RFC3629.encode) r r' ∧ steady r r' ∧ tracks (x + 1) y r'
    ∧ ∀ i j, look_at r' i j =
        if span y x (x + 1) i j then Some (take 16 (base :: cs), rend r, 1) else look_at r i j.
Proof.
  intros Hb Hwb Hcs Hwcs Hp Hloc Hy Hx.
  destruct (located_print base force r y x Hp Hloc Hy Hx) as (g & Hst & Hat & Hprint & Hlook).
  pose proof Hst as ((Hg & Ho & Ha & Hi & Ht & Hbot) & Hmeta & Hrend & Hvis).
  destruct Hat as (Hgr & Hgc & Hgp). destruct (meta_size _ _ Hmeta) as [Hw Hh].
  destruct (effect_glyph base cs r g) as (r' & Heff & Hr' & Heq & Hcells); try done.
  { apply Hp. }
  assert (Framebuffer.ds r' = DrawState.move_col 1 true true (Framebuffer.ds g)) as Hds by (by rewrite Heq).
  assert (fb_width r' = fb_width g ∧ fb_height r' = fb_height g) as [Hw' Hh'].
  { rewrite Hds. by ds_unfold. }
  exists r'. conjs; [done|..].
  - eapply steady_trans; [exact Hst|].
    apply steady_intro; [apply Hst|done|rewrite Hds; by ds_unfold|by rewrite Heq..].
  - split.
    + intros Hlt _. unfold at_pos. rewrite Hds. ds_unfold. rewrite Ho. split_and!; lia.
    + intros Hlt _. unfold at_end. rewrite Hw', Hds. ds_unfold. rewrite Ho. split_and!; lia.
  - intros i j. unfold look_at at 1. rewrite Hcells, Hgr, Hgc.
    destruct (span _ _ _ _ _); [|exact (Hlook i j)]. cbn.
    by rewrite printed_look, Hrend.
Qed.

(** Erasing cells *)
Lemma erased_steady y lo hi r r' :
  plain r → painted (span y lo hi) (Cell.make (bg_of r)) (set_wrap_pending false r) r' →
  steady r r' ∧ (∀ cy cx, row_of r = cy → col_of r = cx → at_pos r' cy cx)
  ∧ ∀ i j, look_at r' i j =
      if span y lo hi i j then Some ([32], Renditions.make (Renditions.background_color (rend r)), 1)
      else look_at r i j.
Proof.
  intros Hp (Hr' & Heq & Hcells).
  assert (Framebuffer.ds r' = DrawState.set_next_print_will_wrap false (Framebuffer.ds r)) as Hds
    by (by rewrite Heq).
  conjs.
  - by apply steady_intro; [|done|rewrite Hds|rewrite Heq..].
  - intros cy cx <- <-. unfold at_pos. by rewrite Hds.
  - intros i j. unfold look_at. rewrite Hcells. by destruct (span _ _ _ _ _).
Qed.

(** ** The encoder and the terminal in step *)

Definition sync (init : bool) f fr r : Prop :=
  plain r ∧ fb_width r = fb_width f ∧ fb_height r = fb_height f
  ∧ rend r = FrameState.current_rendition fr
  ∧ (init = true →
       visible r = visible (FrameState.last_frame fr)
       ∧ fb_ok (FrameState.last_frame fr)
       ∧ fb_width (FrameState.last_frame fr) = fb_width f
       ∧ fb_height (FrameState.last_frame fr) = fb_height f).

(** The encoder appends octets that take the terminal from [r] to [r']. *)
Definition step fr r fr' r' : Prop :=
  (∃ s, FrameState.str fr' = FrameState.str fr ++ s ∧ effect s r r') ∧ meta r' = meta r.

Lemma step_refl fr r : step fr r fr r.
Proof. split; [|done]. exists []. split; [by rewrite app_nil_r|apply effect_nil]. Qed.

Lemma step_trans fr1 r1 fr2 r2 fr3 r3 :
  step fr1 r1 fr2 r2 → step fr2 r2 fr3 r3 → step fr1 r1 fr3 r3.
Proof.
  intros [(s1 & Hs1 & He1) Hm1] [(s2 & Hs2 & He2) Hm2]. split; [|congruence].
  exists (s1 ++ s2). split; [by rewrite Hs2, Hs1, app_assoc|by eapply effect_app].
Qed.

Lemma step_append s fr r r' :
  effect s r r' → meta r' = meta r → step fr r (FrameState.append s fr) r'.
Proof. intros Hs Hm. split; [|done]. by exists s. Qed.

(** Fields of the frame state that are not octets do not matter. *)
Lemma step_str fr r fr1 fr2 r' :
  FrameState.str fr2 = FrameState.str fr1 → step fr r fr1 r' → step fr r fr2 r'.
Proof. intros Heq [(s & Hs & He) Hm]. split; [|done]. exists s. by rewrite Heq. Qed.

Definition hide (b : bool) r : Framebuffer.t :=
  if b then Framebuffer.on_ds (DrawState.set_cursor_visible false) r else r.

Lemma hide_ok b r : fb_ok r → fb_ok (hide b r).
Proof.
  intros Hr. destruct b; [|done]. apply on_ds_ok; [|done].
  apply (FunctionLemmas.set_flag_keeps false).
Qed.

Lemma silent_move_effect row col fr r :
  fb_ok r → DrawState.origin_mode (Framebuffer.ds r) = false →
  fb_height r ≤ Dispatcher.PARAM_MAX → fb_width r ≤ Dispatcher.PARAM_MAX →
  0 ≤ row < fb_height r → 0 ≤ col < fb_width r →
  step fr r (FrameState.append_silent_move row col fr)
    (goto row col (hide (visible (FrameState.last_frame fr)) r)).
Proof.
  intros Hf Ho Hh Hw Hr Hc. pose proof (hide_ok (visible (FrameState.last_frame fr)) r Hf) as Hok.
  unfold FrameState.append_silent_move.
  destruct (visible (FrameState.last_frame fr)); cbn [hide] in *.
  - eapply step_trans; [apply (step_append (27 :: bytes_of_string "[?25l")); [apply (effect_visible false)|done]|].
    eapply step_str; [|apply (step_append (FrameState.cup row col))]; [done|by apply effect_goto|done].
  - eapply step_str; [|apply (step_append (FrameState.cup row col))]; [done|by apply effect_goto|done].
Qed.

Lemma silent_move_fields row col fr :
  let fr' := FrameState.append_silent_move row col fr in
  fx fr' = fx fr ∧ fy fr' = fy fr ∧ forced fr' = forced fr
  ∧ FrameState.cursor_x fr' = col ∧ FrameState.cursor_y fr' = row
  ∧ last_rows fr' = last_rows fr
  ∧ FrameState.current_rendition fr' = FrameState.current_rendition fr.
Proof. unfold FrameState.append_silent_move. by destruct (DrawState.cursor_visible _). Qed.

Lemma seek_spec init f fr r :
  drawable f → sync init f fr r → 0 ≤ fx fr < fb_width f → 0 ≤ fy fr < fb_height f →
  (FrameState.cursor_x fr = fx fr → FrameState.cursor_y fr = fy fr →
     located (forced fr) r (fy fr) (fx fr)) →
  let fr' := Display.seek fr in
  ∃ r', step fr r fr' r' ∧ sync init f fr' r' ∧ located (forced fr) r' (fy fr) (fx fr)
    ∧ (∀ i j, look_at r' i j = look_at r i j)
    ∧ fx fr' = fx fr ∧ fy fr' = fy fr ∧ forced fr' = forced fr
    ∧ FrameState.cursor_x fr' = fx fr ∧ FrameState.cursor_y fr' = fy fr
    ∧ last_rows fr' = last_rows fr.
Proof.
  intros (_ & Hh & Hw & _) Hs Hx Hy Hloc. pose proof Hs as (Hp & Hrw & Hrh & Hrend & Hinit).
  cbv zeta. unfold Display.seek. destruct (_ || _) eqn:E.
  2:{ z_props. exists r. conjs; try done; [apply step_refl|by apply Hloc]. }
  destruct (silent_move_fields (fy fr) (fx fr) fr) as (? & ? & ? & ? & ? & ? & Hcr).
  pose proof Hp as (Hf & Ho & _).
  set (v := visible (FrameState.last_frame fr)).
  assert (plain (hide v r)) as Hp1.
  { pose proof (hide_ok v r Hf). destruct Hp as (_ & ?). split; [done|]. by destruct v. }
  assert (fb_width (hide v r) = fb_width r ∧ fb_height (hide v r) = fb_height r) as [Hw1 Hh1].
  { by destruct v. }
  destruct (goto_plain (fy fr) (fx fr) (hide v r) Hp1) as (Hp2 & Hm2 & Hat & Hcells & Hr2 & Hv2);
    [lia..|].
  destruct (meta_size _ _ Hm2) as [Hw2 Hh2].
  exists (goto (fy fr) (fx fr) (hide v r)). conjs.
  - apply silent_move_effect; try done; lia.
  - unfold sync. conjs; [done|congruence|congruence|..].
    + rewrite Hr2, Hcr. by destruct v.
    + intros Hi. destruct (Hinit Hi) as (Hvis & Hok & Hd1 & Hd2). rewrite Hv2.
      unfold FrameState.append_silent_move. fold v.
      by destruct v eqn:Ev.
  - by left.
  - intros i j. unfold look_at. rewrite Hcells. by destruct v.
  - done.
  - done.
  - done.
  - done.
  - done.
  - done.
Qed.

Lemma rend_eqb a b : Renditions.eqb a b = true ↔ a = b.
Proof.
  destruct a, b. unfold Renditions.eqb. cbn.
  rewrite !andb_true_iff, !Bool.eqb_true_iff, !Z.eqb_eq. split.
  - by intros ((((((-> & ->) & ->) & ->) & ->) & ->) & ->).
  - intros Heq. by injection Heq as -> -> -> -> -> -> ->.
Qed.

Lemma select_spec init f fr r rr y x :
  sync init f fr r → rend_ok rr → located (forced fr) r y x →
  let fr' := Display.select_rendition rr fr in
  ∃ r', step fr r fr' r' ∧ sync init f fr' r' ∧ located (forced fr) r' y x
    ∧ (∀ i j, look_at r' i j = look_at r i j)
    ∧ fx fr' = fx fr ∧ fy fr' = fy fr ∧ forced fr' = forced fr
    ∧ FrameState.cursor_x fr' = FrameState.cursor_x fr
    ∧ FrameState.cursor_y fr' = FrameState.cursor_y fr
    ∧ last_rows fr' = last_rows fr ∧ FrameState.current_rendition fr' = rr.
Proof.
  intros Hs Hrr Hloc. pose proof Hs as (Hp & Hw & Hh & Hrend & Hinit). cbv zeta.
  unfold Display.select_rendition. destruct (negb _) eqn:E.
  2:{ apply negb_false_iff, rend_eqb in E. exists r. conjs; try done. apply step_refl. }
  set (r' := Framebuffer.on_ds (DrawState.set_renditions rr) r).
  assert (fb_ok r') as Hr'.
  { apply set_ds_ok; [apply Hp|]. destruct Hp as (((?&?&?&?&?&?&?&?&?)&_)&_).
    unfold ds_step, ds_ok. cbn.
    conjs; (done || lia). }
  exists r'. conjs; try done.
  - eapply step_str; [|by apply (step_append (Renditions.sgr rr)); [apply effect_rendition|]]. done.
  - unfold sync. conjs; try done. destruct Hp as (_ & ?). by split.
Qed.

(** The stretch of empty cells that [put_cell] clears at once *)
Definition blank_run f (y lo hi : Z) (rr : Renditions.t) : Prop :=
  ∀ j, lo ≤ j < hi → ∃ c, cell_at f (Z.to_nat y) (Z.to_nat j) = Some c
    ∧ Cell.contents c = [] ∧ Cell.renditions c = rr.

Lemma get_cell_some f y x :
  fb_ok f → 0 ≤ y < fb_height f → 0 ≤ x < fb_width f →
  ∃ c, Framebuffer.get_cell y x f = Ok c ∧ cell_at f (Z.to_nat y) (Z.to_nat x) = Some c.
Proof.
  intros Hf Hy Hx. destruct (proj1 (safe_inv _ _) (get_cell_ok _ y x f Hf
    ltac:(rewrite index_row; lia) ltac:(rewrite index_col; lia))) as (c & Hget & _).
  exists c. split; [done|]. apply get_cell_at in Hget as (_ & _ & Hget).
  by rewrite index_row, index_col in Hget by lia.
Qed.

Lemma count_clear_spec n col y cell f :
  fb_ok f → 0 ≤ y < fb_height f → 0 ≤ col → col + Z.of_nat n ≤ fb_width f →
  ∃ k, Display.count_clear n col y cell f = Ok k ∧ 0 ≤ k ≤ Z.of_nat n
    ∧ blank_run f y col (col + k) (Cell.renditions cell)
    ∧ (cell_at f (Z.to_nat y) (Z.to_nat col) = Some cell → Cell.contents cell = [] →
       (1 ≤ n)%nat → 1 ≤ k).
Proof.
  intros Hf Hy. revert col. induction n as [|n IH]; intros col Hc Hn.
  { exists 0. conjs; [done|lia|lia|intros j Hj; lia|lia]. }
  cbn [Display.count_clear]. destruct (get_cell_some f y col Hf Hy) as (c & -> & Hat); [lia|].
  cbn [mbind result_bind]. destruct (_ && _) eqn:E.
  - apply andb_true_iff in E as [Er%rend_eqb Ec].
    destruct (IH (col + 1)) as (k & -> & Hk & Hrun & _); [lia..|]. cbn [mbind result_bind].
    exists (1 + k). conjs; [done|lia|lia| |lia]. intros j Hj.
    destruct (decide (j = col)) as [->|Hne]; [|apply Hrun; lia].
    exists c. conjs; [done| |done]. destruct (Cell.contents c); [done|].
    rewrite zlen_cons in Ec. pose proof (zlen_nonneg l). lia.
  - exists 0. conjs; [done|lia|lia|intros j Hj; lia|]. intros Hsome Hnil _.
    rewrite Hat in Hsome. simplify_eq. exfalso. rewrite Hnil in E.
    rewrite (proj2 (rend_eqb _ _) eq_refl) in E. done.
Qed.

(** ** Putting one cell *)

Definition put_post (init : bool) f fr r fr' r' : Prop :=
  step fr r fr' r' ∧ sync init f fr' r'
  ∧ forced fr' = false ∧ fy fr' = fy fr ∧ fx fr < fx fr' ≤ fb_width f
  ∧ tracks (FrameState.cursor_x fr') (FrameState.cursor_y fr') r'
  ∧ last_rows fr' = last_rows fr
  ∧ (forced fr = true → fx fr' = fx fr + 1
       ∧ FrameState.cursor_x fr' = fx fr + 1 ∧ FrameState.cursor_y fr' = fy fr)
  ∧ (fx fr' = fx fr + 1
     ∨ blank_run f (fy fr) (fx fr) (fx fr') (FrameState.current_rendition fr'))
  ∧ ∀ i j, look_at r' i j =
      if span (fy fr) (fx fr) (fx fr') i j then look_at f i j else look_at r i j.

(** Ready to write the cell: the cursor and the rendition are right. *)
Definition ready (init : bool) f fr r (c : Cell.t) : Prop :=
  sync init f fr r ∧ 0 ≤ fx fr < fb_width f ∧ 0 ≤ fy fr < fb_height f
  ∧ located (forced fr) r (fy fr) (fx fr)
  ∧ FrameState.cursor_x fr = fx fr ∧ FrameState.cursor_y fr = fy fr
  ∧ cell_at f (Z.to_nat (fy fr)) (Z.to_nat (fx fr)) = Some c
  ∧ FrameState.current_rendition fr = Cell.renditions c.

Lemma put_glyph init f fr r c base cs s fr' :
  ready init f fr r c →
  text_char base = true → wcwidth base = 1 →
  forallb text_char cs = true → Forall (fun a => wcwidth a = 0) cs →
  look c = (take 16 (base :: cs), Cell.renditions c, 1) →
  s = (base :: cs) ≫= RFC3629.encode →
  fr' = FrameState.set_force false (FrameState.set_x (fx fr + 1)
          (FrameState.set_cursor_x (fx fr + 1) (FrameState.append s fr))) →
  ∃ r', put_post init f fr r fr' r'.
Proof.
  intros (Hs & Hx & Hy & Hloc & Hcx & Hcy & Hat & Hcr) Hb Hwb Hcs Hwcs Hlook -> ->.
  pose proof Hs as (Hp & Hw & Hh & Hrend & Hinit).
  destruct (write_cell base cs (forced fr) r (fy fr) (fx fr)) as (r' & Heff & Hst & Htr & Hl);
    try done; [lia..|].
  destruct Hst as (Hp' & Hm & Hr & Hv). destruct (meta_size _ _ Hm) as [Hw' Hh'].
  exists r'. unfold put_post. cbn -[take]. conjs; try done; try lia.
  - eapply step_str; [|by apply (step_append ((base :: cs) ≫= RFC3629.encode))]. done.
  - unfold sync. cbn. rewrite Hv. conjs; try done; congruence.
  - by rewrite Hcy.
  - intros i j. rewrite Hl. destruct (span _ _ _ _ _) eqn:E; [|done].
    unfold span in E. z_props. unfold look_at.
    replace i with (Z.to_nat (fy fr)) by lia. replace j with (Z.to_nat (fx fr)) by lia.
    rewrite Hat. cbn -[take]. by rewrite Hlook, Hrend, Hcr.
Qed.

(** The same terminal after an erasure of [n] cells *)
Lemma put_erased init f fr r r' c s n :
  ready init f fr r c → forced fr = false → cell_draws c → Cell.contents c = [] →
  1 ≤ n → fx fr + n ≤ fb_width f →
  blank_run f (fy fr) (fx fr) (fx fr + n) (Cell.renditions c) →
  Forall (Forall cell_draws) (Framebuffer.rows f) →
  effect s r r' →
  painted (span (fy fr) (fx fr) (fx fr + n)) (Cell.make (bg_of r)) (set_wrap_pending false r) r' →
  put_post init f fr r (FrameState.set_x (fx fr + n) (FrameState.append s fr)) r'.
Proof.
  intros (Hs & Hx & Hy & Hloc & Hcx & Hcy & Hat & Hcr) Hforce [_ Hc] Hnil Hn Hfit Hrun Hall Heff Hpaint.
  rewrite Hnil in Hc. pose proof Hs as (Hp & Hw & Hh & Hrend & Hinit).
  destruct (erased_steady _ _ _ _ _ Hp Hpaint) as ((Hp' & Hm & Hr & Hv) & Hpos & Hl).
  destruct (meta_size _ _ Hm) as [Hw' Hh'].
  destruct Hloc as [(Hrow & Hcol & Hpend)|(Hf & _)]; [|congruence].
  unfold put_post. cbn. conjs; try done; try lia.
  - eapply step_str; [|by apply (step_append s)]. done.
  - unfold sync. cbn. rewrite Hv. conjs; try done; congruence.
  - rewrite Hcx, Hcy. split; [intros _ _; by apply Hpos|lia].
  - by rewrite Hforce.
  - right. by rewrite Hcr.
  - intros i j. rewrite Hl. destruct (span _ _ _ _ _) eqn:E; [|done].
    unfold span in E. z_props. destruct (Hrun (Z.of_nat j)) as (c' & Hat' & Hnil' & Hr'); [lia|].
    rewrite Nat2Z.id in Hat'. replace (Z.to_nat (fy fr)) with i in Hat' by lia.
    assert (cell_draws c') as [Hw1 _].
    { unfold cell_at in Hat'. destruct (Framebuffer.rows f !! i) as [row|] eqn:Erow; [|done].
      rewrite Forall_lookup in Hall. specialize (Hall _ _ Erow). rewrite Forall_lookup in Hall.
      by eapply Hall. }
    unfold look_at. rewrite Hat'. cbn. unfold look, glyphs. rewrite Hnil', Hr', Hw1, Hrend, Hcr.
    by rewrite <- Hc.
Qed.

Lemma put_space_spec init f fr r c `{!SpacingLaws} :
  ready init f fr r c → cell_draws c → Cell.contents c = [] →
  ∃ r', put_post init f fr r (FrameState.set_force false (Display.put_space fr)) r'.
Proof.
  intros Hready [Hw Hc] Hnil. rewrite Hnil in Hc.
  apply (put_glyph init f fr r c 32 [] [32]); try done.
  - apply wcwidth_space.
  - unfold look, glyphs. by rewrite Hnil, Hw.
  - destruct Hready as (_ & _ & _ & _ & Hcx & _). unfold Display.put_space. by rewrite Hcx.
Qed.

Lemma put_blank_spec D init f fr r c `{!SpacingLaws} :
  drawable f → ready init f fr r c → cell_draws c → Cell.contents c = [] →
  ∃ fr' r', Display.put_blank D c fr f = Ok fr' ∧ put_post init f fr r fr' r'.
Proof.
  intros (Hf & Hph & Hpw & _ & _ & Hall) Hready Hc Hnil.
  pose proof Hready as (Hs & Hx & Hy & Hloc & Hcx & Hcy & Hat & Hcr).
  unfold Display.put_blank.
  destruct (count_clear_spec (Z.to_nat (fb_width f - fx fr)) (fx fr) (fy fr) c f)
    as (k & -> & Hk & Hrun & Hk1); [done|done|lia|lia|]. cbn [mbind result_bind].
  specialize (Hk1 Hat Hnil ltac:(lia)). z_bools. cbn [assert_that mbind result_bind].
  destruct (forced fr) eqn:Hforce.
  { destruct (put_space_spec init f fr r c Hready Hc Hnil) as (r' & Hpost). eauto. }
  pose proof Hs as (Hp & Hrw & Hrh & Hrend & _).
  assert (row_of r = fy fr ∧ col_of r = fx fr) as [Hrow Hcol].
  { destruct Hloc as [(?&?&_)|(? & _)]; [done|congruence]. }
  destruct (_ && _) eqn:E1.
  { destruct (effect_erase_line r) as (r' & Heff & Hpaint); [apply Hp|]. eexists _, r'. split; [done|].
    rewrite Hrow, Hcol, Hrw in Hpaint. apply andb_true_iff in E1 as [E1%Z.eqb_eq _].
    replace (fb_width f) with (fx fr + k) in Hpaint by lia.
    apply (put_erased init f fr r r' c _ k); first [done|lia]. }
  clear E1. destruct (_ && _).
  { destruct (effect_erase_chars k r) as (r' & Heff & Hpaint); [apply Hp|lia..|]. eexists _, r'.
    split; [done|]. rewrite Hrow, Hcol in Hpaint. apply (put_erased init f fr r r' c _ k); first [done|lia]. }
  destruct (put_space_spec init f fr r c Hready Hc Hnil) as (r' & Hpost).
  exists (Display.put_space fr), r'. split; [done|].
  replace (Display.put_space fr) with (FrameState.set_force false (Display.put_space fr)); [done|].
  unfold Display.put_space. destruct fr. cbn in *. by subst.
Qed.

Lemma take_16_cons a (l : list Z) : zlen (a :: l) ≤ 16 → take 16 (a :: l) = a :: l.
Proof. intros Hl. apply take_ge. unfold zlen in Hl. lia. Qed.

(** Text contains no null character, which would end the string. *)
Lemma text_octets cs : forallb text_char cs = true → cs ≫= Display.percent_lc = cs ≫= RFC3629.encode.
Proof.
  induction cs as [|c cs IH]; intros Hcs; [done|]. cbn in Hcs. apply andb_true_iff in Hcs as [Hc Hcs].
  cbn. rewrite <- (IH Hcs). unfold Display.percent_lc at 1. unfold text_char in Hc.
  by rewrite (proj2 (Z.eqb_neq c 0)) by lia.
Qed.

Lemma put_contents_spec init f fr r c `{!SpacingLaws} :
  ready init f fr r c → cell_draws c → cell_ok c → Cell.contents c ≠ [] →
  ∃ r', put_post init f fr r (Display.put_contents c fr) r'.
Proof.
  intros Hready [Hw Hc] (_ & _ & Hlen) Hne. destruct (Cell.contents c) as [|base cs] eqn:Hcont; [done|].
  pose proof Hready as (_ & _ & _ & _ & Hcx & _).
  destruct Hc as [Ht Hc]. destruct (Cell.fallback c) eqn:Hfb.
  - eapply (put_glyph init f fr r c 0xA0 (base :: cs)); try done.
    + apply wcwidth_nbsp.
    + unfold look, glyphs. by rewrite Hcont, Hfb, Hw.
    + unfold Display.put_contents, Display.append_chars. rewrite Hfb, Hcont, Hw, text_octets by done.
      destruct fr. cbn -[mbind] in *. subst. unfold FrameState.append, FrameState.set_str,
        FrameState.set_x, FrameState.set_cursor_x, FrameState.set_force. cbn -[mbind].
      f_equal. by rewrite <- app_assoc.
  - destruct Hc as [Hwb Hwcs]. pose proof Ht as Ht'. simpl in Ht'. apply andb_true_iff in Ht' as [Hb Ht'].
    eapply (put_glyph init f fr r c base cs); try done.
    + unfold look, glyphs. rewrite Hcont, Hfb, Hw. by rewrite take_16_cons.
    + unfold Display.put_contents, Display.append_chars. rewrite Hfb, Hcont, Hw, text_octets by done.
      destruct fr. cbn -[mbind] in *. by subst.
Qed.

(** A put draws a prefix of what is left of the row, or leaves a cell that
    is already right. *)
Lemma put_cell_spec D init f fr r `{!SpacingLaws} :
  drawable f → sync init f fr r → 0 ≤ fx fr < fb_width f → 0 ≤ fy fr < fb_height f →
  (FrameState.cursor_x fr = fx fr → FrameState.cursor_y fr = fy fr →
     located (forced fr) r (fy fr) (fx fr)) →
  (forced fr = false → tracks (FrameState.cursor_x fr) (FrameState.cursor_y fr) r) →
  (forced fr = false → init = true →
     look_at r (Z.to_nat (fy fr)) (Z.to_nat (fx fr))
     = look_at (FrameState.last_frame fr) (Z.to_nat (fy fr)) (Z.to_nat (fx fr))) →
  ∃ fr' r', Display.put_cell D init f fr = Ok fr' ∧ put_post init f fr r fr' r'.
Proof.
  intros Hdraw Hs Hx Hy Hloc Htr Hsame. pose proof Hdraw as (Hf & _ & _ & _ & _ & Hall).
  unfold Display.put_cell.
  destruct (get_cell_some f (fy fr) (fx fr) Hf Hy Hx) as (c & -> & Hat). cbn [mbind result_bind].
  assert (cell_draws c ∧ cell_ok c) as [Hcd Hcok].
  { unfold cell_at in Hat. destruct (Framebuffer.rows f !! _) as [row|] eqn:Erow; [|done].
    rewrite Forall_lookup in Hall. specialize (Hall _ _ Erow). rewrite Forall_lookup in Hall.
    pose proof Hf as (_ & _ & Hrows). rewrite Forall_lookup in Hrows.
    destruct (Hrows _ _ Erow) as [_ Hcells]. rewrite Forall_lookup in Hcells. split; eauto. }
  assert (∃ same, (if negb (forced fr) && init
    then c0 ← Framebuffer.get_cell (fy fr) (fx fr) (FrameState.last_frame fr); Ok (Cell.eqb c c0)
    else Ok false) = Ok same ∧ (same = true → forced fr = false ∧ init = true ∧
      look_at (FrameState.last_frame fr) (Z.to_nat (fy fr)) (Z.to_nat (fx fr)) = Some (look c)))
    as (same & -> & Hsm).
  { destruct (forced fr), init; cbn [negb andb]; try (by eexists; split; [done|]).
    destruct Hs as (_ & _ & _ & _ & Hi). destruct (Hi eq_refl) as (_ & Hlok & Hlw & Hlh).
    destruct (get_cell_some (FrameState.last_frame fr) (fy fr) (fx fr) Hlok) as (c0 & -> & Hat0); [lia..|].
    eexists. split; [done|]. intros Heq. conjs; [done..|]. unfold look_at. rewrite Hat0. cbn. f_equal.
    unfold Cell.eqb in Heq. rewrite !andb_true_iff in Heq.
    destruct Heq as ((((H1 & H2) & H3) & H4) & _).
    apply (list_eqb_spec Z.eqb Z.eqb_eq) in H1. apply Bool.eqb_prop in H2. apply Z.eqb_eq in H3.
    apply rend_eqb in H4. unfold look, glyphs. by rewrite H1, H2, H3, H4. }
  cbn [mbind result_bind]. destruct same.
  - destruct (Hsm eq_refl) as (Hforce & Hinit & Hlast). specialize (Hsame Hforce Hinit).
    rewrite Hlast in Hsame. destruct Hcd as [Hw _]. eexists _, r. split; [done|]. rewrite Hw.
    unfold put_post. cbn. conjs; try done; try lia.
    + eapply step_str; [|apply step_refl]. done.
    + by apply Htr.
    + by rewrite Hforce.
    + intros i j. destruct (span _ _ _ _ _) eqn:E; [|done]. unfold span in E. z_props.
      replace i with (Z.to_nat (fy fr)) by lia. replace j with (Z.to_nat (fx fr)) by lia.
      rewrite Hsame. unfold look_at. by rewrite Hat.
  - destruct (seek_spec init f fr r Hdraw Hs Hx Hy Hloc)
      as (r1 & Hst1 & Hs1 & Hloc1 & Hl1 & Ex1 & Ey1 & Ef1 & Ecx1 & Ecy1 & El1).
    destruct (select_spec init f (Display.seek fr) r1 (Cell.renditions c) (fy fr) (fx fr))
      as (r2 & Hst2 & Hs2 & Hloc2 & Hl2 & Ex2 & Ey2 & Ef2 & Ecx2 & Ecy2 & El2 & Ecr2);
      [done|apply Hcok|by rewrite Ef1|].
    set (fr2 := Display.select_rendition (Cell.renditions c) (Display.seek fr)) in *.
    assert (ready init f fr2 r2 c) as Hready.
    { unfold ready. rewrite Ex2, Ey2, Ef2, Ecx2, Ecy2, Ex1, Ey1, Ecx1, Ecy1. conjs; (done || lia). }
    assert (∃ fr' r', (if zlen (Cell.contents c) =? 0 then Display.put_blank D c fr2 f
      else Ok (Display.put_contents c fr2)) = Ok fr' ∧ put_post init f fr2 r2 fr' r')
      as (fr' & r' & -> & Hpost).
    { destruct (Cell.contents c) as [|a l] eqn:Hcont.
      - by apply put_blank_spec.
      - rewrite zlen_cons. pose proof (zlen_nonneg l). z_bools.
        destruct (put_contents_spec init f fr2 r2 c Hready Hcd Hcok) as (r' & ?); [congruence|]. eauto. }
    exists fr', r'. split; [done|]. destruct Hpost as (Hstep & Hsy & ? & ? & ? & ? & ? & Hfc & Hbl & Hlk).
    rewrite Ex2, Ex1 in *. rewrite Ey2, Ey1 in *. rewrite Ef2, Ef1 in *.
    unfold put_post. conjs; try done; try congruence; try lia.
    + eapply step_trans; [exact Hst1|]. by eapply step_trans.
    + intros i j. rewrite Hlk. destruct (span _ _ _ _ _); [done|]. by rewrite Hl2, Hl1.
Qed.

(** ** A row *)

Definition before (y x : Z) (i j : nat) : Prop := Z.of_nat i < y ∨ (Z.of_nat i = y ∧ Z.of_nat j < x).

(** What is drawn so far looks like the frame, the rest like the last one. *)
Definition drawn (init : bool) f (y x : Z) fr r : Prop :=
  (∀ i j, before y x i j → look_at r i j = look_at f i j)
  ∧ (init = true → ∀ i j, ¬ before y x i j →
       look_at r i j = look_at (FrameState.last_frame fr) i j).

Definition row_inv (init : bool) f fr r (x : Z) : Prop :=
  sync init f fr r ∧ 0 ≤ fy fr ≤ fb_height f
  ∧ (forced fr = true → fy fr < fb_height f ∧ x = 0 ∧ FrameState.cursor_x fr = 0
       ∧ FrameState.cursor_y fr = fy fr ∧ located true r (fy fr) 0)
  ∧ (forced fr = false → tracks (FrameState.cursor_x fr) (FrameState.cursor_y fr) r)
  ∧ drawn init f (fy fr) x fr r.

Lemma look_last fr fr' i j :
  last_rows fr' = last_rows fr →
  look_at (FrameState.last_frame fr') i j = look_at (FrameState.last_frame fr) i j.
Proof. intros Heq. unfold look_at, cell_at. by rewrite Heq. Qed.

Lemma before_dec y x i j : before y x i j ∨ ¬ before y x i j.
Proof. unfold before. lia. Qed.

(** One more cell of the row *)
Lemma row_inv_put D init f fr r `{!SpacingLaws} :
  drawable f → row_inv init f fr r (fx fr) → 0 ≤ fx fr < fb_width f → fy fr < fb_height f →
  ∃ fr' r', Display.put_cell D init f fr = Ok fr' ∧ put_post init f fr r fr' r'
    ∧ row_inv init f fr' r' (fx fr').
Proof.
  intros Hdraw (Hs & Hy & Hforce & Htr & Hdone & Hrest) Hx Hyh.
  pose proof Hs as (_ & Hrw & Hrh & _).
  destruct (put_cell_spec D init f fr r) as (fr' & r' & Heq & Hpost); try done; try lia.
  - intros Ecx Ecy. destruct (forced fr) eqn:Ef.
    + destruct (Hforce eq_refl) as (_ & Ex0 & _ & _ & Hl). by rewrite Ex0.
    + left. destruct (Htr eq_refl) as [Hin _]. rewrite Ecx, Ecy in Hin. apply Hin; lia.
  - intros _ Hi. apply Hrest; [done|]. unfold before. lia.
  - exists fr', r'. split; [done|]. split; [done|].
    destruct Hpost as (_ & Hs' & Hf' & Hy' & Hx' & Htr' & Hlast & _ & _ & Hl).
    unfold row_inv. rewrite Hf', Hy'. conjs; [done|lia..|done|done|].
    split.
    + intros i j Hb. rewrite Hl. destruct (span _ _ _ _ _) eqn:E; [done|]. apply Hdone.
      unfold span in E. unfold before in *. z_props; lia.
    + intros Hi i j Hb. rewrite Hl, (look_last fr) by done.
      destruct (span _ _ _ _ _) eqn:E.
      * exfalso. apply Hb. unfold span in E. unfold before. z_props; lia.
      * apply Hrest; [done|]. unfold before in *. lia.
Qed.

Lemma put_cells_done D init f fuel lx fr :
  fb_width f ≤ fx fr → Display.put_cells fuel D init f lx fr = Ok (lx, fr).
Proof. intros Hx. destruct fuel; cbn [Display.put_cells]; by z_bools. Qed.

Lemma put_cells_spec D init f fuel lx fr r `{!SpacingLaws} :
  drawable f → row_inv init f fr r (fx fr) → 0 ≤ fx fr < fb_width f → fy fr < fb_height f →
  fb_width f - fx fr ≤ Z.of_nat fuel →
  ∃ lx' fr' r', Display.put_cells fuel D init f lx fr = Ok (lx', fr')
    ∧ step fr r fr' r' ∧ row_inv init f fr' r' (fb_width f)
    ∧ fy fr' = fy fr ∧ last_rows fr' = last_rows fr ∧ forced fr' = false
    ∧ 0 ≤ lx' < fb_width f
    ∧ (lx' = fb_width f - 1
       ∨ blank_run f (fy fr) lx' (fb_width f) (FrameState.current_rendition fr')).
Proof.
  intros Hdraw. revert lx fr r. induction fuel as [|fuel IH]; intros lx fr r Hinv Hx Hy Hfuel; [lia|].
  cbn [Display.put_cells]. z_bools.
  destruct (row_inv_put D init f fr r) as (fr1 & r1 & -> & Hpost & Hinv1); [done..|].
  cbn [mbind result_bind].
  destruct Hpost as (Hst & _ & Hf1 & Hy1 & Hx1 & _ & Hl1 & _ & Hrun & _).
  destruct (decide (fx fr1 < fb_width f)) as [Hlt|Hge].
  - destruct (IH (fx fr) fr1 r1) as (lx' & fr' & r' & -> & Hst' & Hinv' & Hy' & Hl' & Hf' & Hlx & Hend);
      [done|lia|lia|lia|].
    exists lx', fr', r'. rewrite Hy1 in *. conjs; try done; try congruence; try lia.
    by eapply step_trans.
  - assert (fx fr1 = fb_width f) as Hxw by lia. rewrite put_cells_done by lia.
    exists (fx fr), fr1, r1. rewrite Hxw in *. conjs; try done; try lia.
    destruct Hrun as [Hrun|Hrun]; [left; lia|by right].
Qed.

Lemma look_out f i j : fb_ok f → fb_width f ≤ Z.of_nat j → look_at f i j = None.
Proof.
  intros (_ & _ & Hrows) Hj. unfold look_at, cell_at.
  destruct (Framebuffer.rows f !! i) as [row|] eqn:E; [|done]. rewrite Forall_lookup in Hrows.
  destruct (Hrows _ _ E) as [Hl _]. cbn. rewrite lookup_ge_None_2; [done|unfold zlen in Hl; lia].
Qed.

Lemma drawn_next init f y fr fr' r :
  fb_ok f → fb_ok r → fb_width r = fb_width f →
  (∀ i j, y + 1 ≤ Z.of_nat i →
     look_at (FrameState.last_frame fr') i j = look_at (FrameState.last_frame fr) i j) →
  drawn init f y (fb_width f) fr r → drawn init f (y + 1) 0 fr' r.
Proof.
  intros Hf Hr Hw Hl [Hdone Hrest]. split.
  - intros i j Hb. destruct (decide (Z.of_nat j < fb_width f)).
    + apply Hdone. unfold before in *. lia.
    + by rewrite !look_out by (done || lia).
  - intros Hi i j Hb. rewrite Hl by (unfold before in Hb; lia). apply Hrest; [done|].
    unfold before in *. lia.
Qed.

(** Cells of row [y] that are drawn again stay drawn. *)
Lemma drawn_again init f y lo fr fr' r r' :
  last_rows fr' = last_rows fr →
  (∀ i j, look_at r' i j = if span y lo (fb_width f) i j then look_at f i j else look_at r i j) →
  drawn init f y (fb_width f) fr r → drawn init f y (fb_width f) fr' r'.
Proof.
  intros Hlast Hl [Hdone Hrest]. split.
  - intros i j Hb. rewrite Hl. destruct (span _ _ _ _ _); [done|]. by apply Hdone.
  - intros Hi i j Hb. rewrite Hl, (look_last fr) by done. destruct (span _ _ _ _ _) eqn:E.
    + exfalso. apply Hb. unfold span in E. unfold before. z_props; lia.
    + by apply Hrest.
Qed.

Lemma force_cells_spec D init f fuel fr r `{!SpacingLaws} :
  drawable f → sync init f fr r → 0 ≤ fx fr < fb_width f → 0 ≤ fy fr < fb_height f →
  tracks (FrameState.cursor_x fr) (FrameState.cursor_y fr) r →
  fb_width f - fx fr ≤ Z.of_nat fuel →
  ∃ fr' r', Display.force_cells fuel D init f fr = Ok fr'
    ∧ step fr r fr' r' ∧ sync init f fr' r' ∧ fy fr' = fy fr ∧ last_rows fr' = last_rows fr
    ∧ FrameState.cursor_x fr' = fb_width f ∧ FrameState.cursor_y fr' = fy fr
    ∧ tracks (fb_width f) (fy fr) r'
    ∧ ∀ i j, look_at r' i j =
        if span (fy fr) (fx fr) (fb_width f) i j then look_at f i j else look_at r i j.
Proof.
  intros Hdraw. revert fr r. induction fuel as [|fuel IH]; intros fr r Hs Hx Hy Htr Hfuel; [lia|].
  cbn [Display.force_cells]. z_bools. pose proof Hs as (_ & Hrw & Hrh & _).
  destruct (put_cell_spec D init f (FrameState.set_force true fr) r) as (fr1 & r1 & -> & Hpost);
    try done.
  { cbn. intros Ecx Ecy. left. destruct Htr as [Hin _]. rewrite Ecx, Ecy in Hin. apply Hin; lia. }
  cbn [mbind result_bind].
  destruct Hpost as (Hst & Hs1 & _ & Hy1 & _ & Htr1 & Hl1 & Hf1 & _ & Hlk1). cbn in *.
  destruct (Hf1 eq_refl) as (Hx1 & Hcx1 & Hcy1).
  assert (step fr r fr1 r1) as Hst0 by exact Hst.
  destruct (decide (fx fr1 < fb_width f)) as [Hlt|Hge].
  - destruct (IH fr1 r1) as (fr' & r' & -> & Hst' & Hs' & Hy' & Hl' & Hcx & Hcy & Htr' & Hlk);
      [done|lia|lia|done|lia|].
    exists fr', r'. rewrite Hy1 in *. conjs; try done; try congruence.
    + by eapply step_trans.
    + intros i j. rewrite Hlk, Hlk1. unfold span. rewrite Hx1. split_ifs; try done; b_lia.
  - exists fr1, r1. conjs; try done; try lia.
    + destruct fuel; cbn [Display.force_cells]; by z_bools.
    + rewrite Hcx1, Hcy1 in Htr1. by replace (fb_width f) with (fx fr + 1) by lia.
    + intros i j. rewrite Hlk1. replace (fx fr1) with (fb_width f) by lia. done.
Qed.

(** A wrapped row: the last cells are put again and the next put wraps. *)
Lemma draw_wrap_spec D init f lx fr r `{!SpacingLaws} :
  drawable f → row_inv init f fr r (fb_width f) → forced fr = false →
  0 ≤ lx < fb_width f → fy fr < fb_height f - 1 →
  ∃ fr' r', Display.draw_wrap D init f lx fr = Ok fr' ∧ step fr r fr' r' ∧ fy fr' = fy fr
    ∧ row_inv init f (FrameState.set_y (fy fr + 1) fr') r' 0.
Proof.
  intros Hdraw (Hs & Hy & _ & Htr & Hd) Hforce Hlx Hyh. specialize (Htr Hforce).
  unfold Display.draw_wrap.
  destruct (force_cells_spec D init f (Z.to_nat (fb_width f)) (FrameState.set_x lx fr) r)
    as (fr1 & r1 & -> & Hst & Hs1 & Hy1 & Hl1 & Hcx & Hcy & Htr1 & Hlk); try done; cbn in *; [lia..|].
  eexists _, r1. split; [done|]. pose proof Hs1 as (Hp1 & Hrw1 & Hrh1 & _).
  conjs; [|done|].
  { eapply step_str; [|exact Hst]. done. }
  unfold row_inv. cbn. rewrite Hcy. conjs; try done; try lia.
  - intros _. conjs; try done; try lia. right. conjs; try done; try lia.
    replace (fy fr + 1 - 1) with (fy fr) by lia. apply Htr1; lia.
  - apply (drawn_next init f (fy fr) fr1); [apply Hdraw|apply Hp1|done|done|].
    by eapply (drawn_again init f (fy fr) lx fr).
Qed.

(** The row's end is erased before its first erased cell is put again. *)
Lemma cup_erase_spec init f fr r lx :
  drawable f → sync init f fr r → 0 ≤ lx < fb_width f → 0 ≤ fy fr < fb_height f →
  let s := snprintf 64 (FrameState.cup (fy fr) lx ++ (27 :: bytes_of_string "[K")) in
  ∃ r', step fr r (FrameState.append s fr) r' ∧ sync init f fr r' ∧ at_pos r' (fy fr) lx
    ∧ ∀ i j, look_at r' i j =
        if span (fy fr) lx (fb_width f) i j
        then Some ([32], Renditions.make (Renditions.background_color (rend r)), 1)
        else look_at r i j.
Proof.
  intros (_ & Hph & Hpw & _) Hs Hlx Hy. cbv zeta.
  pose proof Hs as (Hp & Hrw & Hrh & Hrend & Hinit).
  assert (snprintf 64 (FrameState.cup (fy fr) lx ++ (27 :: bytes_of_string "[K"))
    = FrameState.cup (fy fr) lx ++ (27 :: bytes_of_string "[K")) as ->.
  { apply snprintf_short. rewrite zlen_app.
    destruct (two_numbers (fy fr + 1) (lx + 1)) as (_ & _ & Hl); [lia..|].
    rewrite cup_csi by lia. unfold csi. rewrite !zlen_cons, !zlen_app in *.
    unfold zlen in *. cbn in *. lia. }
  destruct (goto_plain (fy fr) lx r Hp) as (Hp1 & Hm1 & (Hrow & Hcol & _) & Hc1 & Hr1 & Hv1); [lia..|].
  destruct (effect_erase_line (goto (fy fr) lx r)) as (r' & Heff & Hpaint); [apply Hp1|].
  rewrite Hrow, Hcol in Hpaint. destruct (meta_size _ _ Hm1) as [Hw1 Hh1]. rewrite Hw1, Hrw in Hpaint.
  destruct (erased_steady _ _ _ _ _ Hp1 Hpaint) as ((Hp' & Hm & Hr & Hv) & Hpos & Hl).
  destruct (meta_size _ _ Hm) as [Hw' Hh'].
  exists r'. conjs.
  - apply step_append; [|congruence]. eapply effect_app; [|exact Heff].
    destruct Hp as (Hf & Ho & _). apply effect_goto; try done; lia.
  - unfold sync. conjs; try done; try congruence. intros Hi. rewrite Hv, Hv1. by apply Hinit.
  - by apply Hpos.
  - intros i j. rewrite Hl, Hr1. destruct (span _ _ _ _ _); [done|]. unfold look_at. by rewrite Hc1.
Qed.

Lemma blank_look f y lo hi rr i j :
  Forall (Forall cell_draws) (Framebuffer.rows f) → blank_run f y lo hi rr → 0 ≤ y → 0 ≤ lo →
  span y lo hi i j = true →
  look_at f i j = Some ([32], Renditions.make (Renditions.background_color rr), 1).
Proof.
  intros Hall Hrun Hy Hlo E. unfold span in E. z_props.
  destruct (Hrun (Z.of_nat j)) as (c & Hat & Hnil & Hr); [lia|].
  rewrite Nat2Z.id in Hat. replace (Z.to_nat y) with i in Hat by lia.
  assert (cell_draws c) as [Hw Hc].
  { unfold cell_at in Hat. destruct (Framebuffer.rows f !! i) as [row|] eqn:Erow; [|done].
    rewrite Forall_lookup in Hall. specialize (Hall _ _ Erow). rewrite Forall_lookup in Hall.
    by eapply Hall. }
  rewrite Hnil in Hc. unfold look_at. rewrite Hat. cbn. unfold look, glyphs.
  rewrite Hnil, Hw. rewrite Hr in Hc. by rewrite Hr, Hc.
Qed.

(** The encoder forgets what it put at [(y, x)] of the last frame. *)
Lemma forget_effect init f fr r lx :
  sync init f fr r → 0 ≤ lx < fb_width f → 0 ≤ fy fr < fb_height f →
  ∃ last, (if init then
             l ← Framebuffer.reset_cell (fy fr) lx (FrameState.last_frame fr);
             Ok (FrameState.set_last l fr)
           else Ok fr) = Ok (FrameState.set_last last fr)
    ∧ sync init f (FrameState.set_last last fr) r
    ∧ ∀ i j, fy fr + 1 ≤ Z.of_nat i →
        look_at last i j = look_at (FrameState.last_frame fr) i j.
Proof.
  intros Hs Hlx Hy. pose proof Hs as (Hp & Hw & Hh & Hr & Hinit). destruct init.
  - destruct (Hinit eq_refl) as (Hv & Hok & Hlw & Hlh).
    destruct (proj1 (safe_inv _ _) (reset_cell_painted (fy fr) lx (FrameState.last_frame fr) Hok
      ltac:(rewrite index_row; lia) ltac:(rewrite index_col; lia))) as (last & -> & Hl & Heq & Hc).
    rewrite index_row, index_col in Hc by lia.
    assert (Framebuffer.ds last = Framebuffer.ds (FrameState.last_frame fr)) as Hds by (by rewrite Heq).
    exists last. conjs; [done|..].
    + unfold sync. cbn. rewrite Hds. by conjs.
    + intros i j Hi. unfold look_at. rewrite Hc. unfold span. by z_bools.
  - exists (FrameState.last_frame fr). conjs; [by destruct fr|by destruct fr|done].
Qed.

Lemma draw_unwrap_spec D init f lx fr r `{!SpacingLaws} :
  drawable f → row_inv init f fr r (fb_width f) → forced fr = false →
  0 ≤ lx < fb_width f → fy fr < fb_height f - 1 →
  lx = fb_width f - 1 ∨ blank_run f (fy fr) lx (fb_width f) (FrameState.current_rendition fr) →
  ∃ fr' r', Display.draw_unwrap D init f lx fr = Ok fr' ∧ step fr r fr' r' ∧ fy fr' = fy fr
    ∧ row_inv init f (FrameState.set_y (fy fr + 1) fr') r' 0.
Proof.
  intros Hdraw (Hs & Hy & _ & _ & Hd) Hforce Hlx Hyh Hrun. unfold Display.draw_unwrap. cbv zeta.
  change (fy (FrameState.set_x lx fr)) with (fy fr). change (fx (FrameState.set_x lx fr)) with lx.
  destruct (forget_effect init f (FrameState.set_x lx fr) r lx) as (last & Heq & Hs1 & Hlast);
    [exact Hs|done|cbn; lia|].
  change (fy (FrameState.set_x lx fr)) with (fy fr) in Heq. rewrite Heq. cbn [mbind result_bind]. clear Heq.
  set (fr1 := FrameState.set_last last (FrameState.set_x lx fr)) in *.
  change (fy fr1) with (fy fr). change (fx fr1) with lx.
  destruct (cup_erase_spec init f fr1 r lx) as (r1 & Hst1 & Hsr1 & Hat1 & Hl1); [done|done|done|cbn; lia|].
  change (fy fr1) with (fy fr) in *.
  set (fr2 := FrameState.append _ fr1) in *.
  destruct (put_cell_spec D init f (FrameState.set_force true (FrameState.set_cursor_x lx fr2)) r1)
    as (fr' & r' & Hput & Hpost); try done.
  { cbn. lia. }
  { intros _ _. by left. }
  destruct Hpost as (Hst2 & Hs2 & Hf2 & Hy2 & _ & Htr2 & Hl2 & Hfc & _ & Hlk). cbn in Hst2, Hy2, Hl2, Hfc, Hlk.
  destruct (Hfc eq_refl) as (Hx' & _). rewrite Hx' in Hlk.
  exists fr', r'. conjs; [exact Hput| |done|].
  { eapply step_trans; [|exact Hst2]. exact Hst1. }
  pose proof Hs2 as (Hp2 & Hw2 & _). pose proof Hs as (_ & _ & _ & Hrend & _).
  unfold row_inv. cbn. rewrite Hf2. conjs; try done; try lia.
  assert (fb_ok f) as Hf by apply Hdraw. assert (fb_ok r') as Hr' by apply Hp2.
  destruct Hd as [Hdone Hrest]. split.
  - intros i j Hb. destruct (decide (Z.of_nat j < fb_width f)); [|by rewrite !look_out by (done || lia)].
    rewrite Hlk. destruct (span (fy fr) lx (lx + 1) i j) eqn:E1; [done|].
    rewrite Hl1. destruct (span (fy fr) lx (fb_width f) i j) eqn:E2.
    + destruct Hrun as [->|Hrun]; [unfold span in *; b_lia|]. rewrite Hrend. symmetry.
      eapply blank_look; [apply Hdraw|exact Hrun|lia|lia|exact E2].
    + apply Hdone. unfold before in *. lia.
  - intros Hi i j Hb. rewrite Hlk, Hl1. unfold before in Hb. unfold span.
    pose proof (Nat2Z.is_nonneg i). z_bools. cbn [andb].
    rewrite Hrest by (done || (unfold before; lia)).
    change (look_at (FrameState.last_frame (FrameState.set_y (fy fr + 1) fr')) i j)
      with (look_at (FrameState.last_frame fr') i j).
    rewrite (look_last fr2 fr') by done. symmetry. apply Hlast. cbn. lia.
Qed.

Lemma row_wrap_some f y :
  fb_ok f → 0 ≤ y < fb_height f →
  ∃ row w, Framebuffer.get_row y f = Ok row ∧ Framebuffer.rows f !! Z.to_nat y = Some row
    ∧ Row.get_wrap row = Ok w.
Proof.
  intros Hf Hy. pose proof Hf as (((Hw & _) & _) & Hlen & Hrows).
  destruct (lookup_lt_is_Some_2 (Framebuffer.rows f) (Z.to_nat y)) as [row Hrow].
  { unfold zlen in Hlen. lia. }
  rewrite Forall_lookup in Hrows. destruct (Hrows _ _ Hrow) as [Hl _].
  destruct (lookup_lt_is_Some_2 row (Z.to_nat (zlen row - 1))) as [c Hc]; [unfold zlen in *; lia|].
  exists row, (Cell.wrap c). conjs; [|done|].
  - unfold Framebuffer.get_row. rewrite index_row by lia. apply vec_get_Ok. split; [lia|done].
  - unfold Row.get_wrap. by rewrite (proj2 (vec_get_Ok row (zlen row - 1) c)) by (split; [lia|done]).
Qed.

Lemma draw_row_spec D init f fr r `{!SpacingLaws} :
  drawable f → row_inv init f fr r 0 → fy fr < fb_height f →
  ∃ fr' r', Display.draw_row D init f fr = Ok fr' ∧ step fr r fr' r' ∧ fy fr' = fy fr
    ∧ row_inv init f (FrameState.set_y (fy fr + 1) fr') r' 0
    ∧ (fy fr = fb_height f - 1 → forced fr' = false).
Proof.
  intros Hdraw Hinv Hy. pose proof Hdraw as (Hf & _). pose proof Hf as (((Hw & _) & _) & _).
  assert (0 ≤ fy fr) as Hy0 by (destruct Hinv as (_ & ? & _); lia).
  unfold Display.draw_row.
  destruct (put_cells_spec D init f (Z.to_nat (fb_width f)) 0 (FrameState.set_x 0 fr) r)
    as (lx & fr1 & r1 & -> & Hst & Hinv1 & Hy1 & Hl1 & Hf1 & Hlx & Hrun); try done; cbn in *; try lia.
  cbn [mbind result_bind]. rewrite Hy1.
  assert (step fr r fr1 r1) as Hst' by exact Hst.
  destruct (fy fr <? fb_height f - 1) eqn:Elast; z_props.
  - destruct (row_wrap_some f (fy fr) Hf) as (row & w & -> & _ & Hwrap); [lia|].
    cbn [mbind result_bind]. rewrite Hwrap. cbn [mbind result_bind]. destruct w.
    + destruct (draw_wrap_spec D init f lx fr1 r1) as (fr2 & r2 & -> & Hst2 & Hy2 & Hinv2);
        try done; [lia|]. rewrite Hy1 in *. exists fr2, r2.
      conjs; [done|by eapply step_trans|congruence|done|lia].
    + assert (∃ off, (if negb init then Ok true
        else row ← Framebuffer.get_row (fy fr) (FrameState.last_frame fr1); Row.get_wrap row) = Ok off)
        as [off ->].
      { destruct init; cbn [negb]; [|eauto]. destruct Hinv1 as ((_ & _ & _ & _ & Hi) & _).
        destruct (Hi eq_refl) as (_ & Hok & _ & Hlh).
        destruct (row_wrap_some (FrameState.last_frame fr1) (fy fr) Hok) as (row1 & w1 & -> & _ & ?);
          [lia|]. eauto. }
      cbn [mbind result_bind]. destruct off.
      * destruct (draw_unwrap_spec D init f lx fr1 r1) as (fr2 & r2 & -> & Hst2 & Hy2 & Hinv2);
          try done; [lia|by rewrite Hy1|]. rewrite Hy1 in *. exists fr2, r2.
        conjs; [done|by eapply step_trans|congruence|done|lia].
      * exists fr1, r1. conjs; try done. destruct Hinv1 as (Hs1 & _ & _ & Htr1 & Hd1).
        unfold row_inv. cbn. rewrite Hf1. conjs; try done; try lia; [by rewrite <- Hf1 at 1; auto|].
        rewrite <- Hy1 in *. destruct Hs1 as (Hp1 & Hw1 & _).
        apply (drawn_next init f (fy fr1) fr1); [done|apply Hp1|done|done|done].
  - exists fr1, r1. conjs; try done. destruct Hinv1 as (Hs1 & _ & _ & Htr1 & Hd1).
    unfold row_inv. cbn. rewrite Hf1. conjs; try done; try lia; [by rewrite <- Hf1 at 1; auto|].
    rewrite <- Hy1 in *. destruct Hs1 as (Hp1 & Hw1 & _).
    apply (drawn_next init f (fy fr1) fr1); [done|apply Hp1|done|done|done].
Qed.

Lemma draw_rows_spec D init f fr r `{!SpacingLaws} :
  drawable f → row_inv init f fr r 0 → (fy fr = fb_height f → forced fr = false) →
  ∃ fr' r', Display.draw_rows D init f fr = Ok fr' ∧ step fr r fr' r' ∧ fy fr' = fb_height f
    ∧ row_inv init f fr' r' 0 ∧ forced fr' = false.
Proof.
  intros Hdraw Hinv Hfree. unfold Display.draw_rows, for_range.
  assert (fy fr ≤ fb_height f) as Hy by (destruct Hinv as (_ & ? & _); lia).
  generalize (fy fr) at 2 as k. remember (Z.to_nat (fb_height f - fy fr)) as n eqn:Hn.
  revert fr r Hn Hinv Hfree Hy. induction n as [|n IH]; intros fr r Hn Hinv Hfree Hy k.
  - exists fr, r. assert (fy fr = fb_height f) by lia. conjs; auto using step_refl.
  - cbn [for_up]. destruct (draw_row_spec D init f fr r) as (fr1 & r1 & -> & Hst & Hy1 & Hinv1 & Hf1);
      [done|done|lia|]. cbn [mbind result_bind]. rewrite Hy1.
    destruct (IH (FrameState.set_y (fy fr + 1) fr1) r1) with (k := k + 1)
      as (fr' & r' & -> & Hst' & Hy' & Hinv' & Hf'); [cbn; lia|done|cbn; intros; apply Hf1; lia|cbn; lia|].
    exists fr', r'. conjs; try done. by eapply step_trans; [exact Hst|].
Qed.

(** ** The scroll *)

Lemma cell_eqb a b : Cell.eqb a b = true → a = b.
Proof.
  destruct a, b. unfold Cell.eqb. cbn. rewrite !andb_true_iff.
  intros ((((H1 & H2) & H3) & H4) & H5).
  apply (list_eqb_spec Z.eqb Z.eqb_eq) in H1. apply Bool.eqb_prop in H2, H5. apply Z.eqb_eq in H3.
  apply rend_eqb in H4. by subst.
Qed.

Lemma row_eqb a b : Row.eqb a b = true → a = b.
Proof.
  unfold Row.eqb. revert b. induction a as [|x a IH]; intros [|y b]; cbn; try done.
  intros [Hxy Hab]%andb_true_iff. apply cell_eqb in Hxy as ->. by rewrite (IH b Hab).
Qed.

(** [n] rows of [f] are the rows of [last] from row [s] on. *)
Definition rows_match f last (s n : Z) : Prop :=
  ∀ i, 0 ≤ i < n → Framebuffer.rows f !! Z.to_nat i = Framebuffer.rows last !! Z.to_nat (s + i).

Lemma region_loop_spec n k s f last :
  fb_ok f → fb_ok last → fb_height last = fb_height f →
  0 ≤ s → 0 ≤ k → s + k + Z.of_nat n = fb_height f → rows_match f last s k →
  ∃ m, Display.region_loop n k s f last k = Ok m ∧ k ≤ m ∧ s + m ≤ fb_height f ∧ rows_match f last s m.
Proof.
  intros Hf Hl Hh Hs. revert k. induction n as [|n IH]; intros k Hk Hn Hm; cbn [Display.region_loop].
  { exists k. conjs; [done|lia|lia|done]. }
  destruct (row_wrap_some f k Hf) as (a & _ & -> & Ha & _); [lia|].
  destruct (row_wrap_some last (s + k) Hl) as (b & _ & -> & Hb & _); [lia|]. cbn [mbind result_bind].
  destruct (Row.eqb a b) eqn:E; [|exists k; conjs; [done|lia|lia|done]].
  apply row_eqb in E as ->. destruct (IH (k + 1)) as (m & Heq & Hkm & Hfit & Hmm); [lia|lia| |].
  { intros i Hi. destruct (decide (i = k)) as [->|]; [congruence|apply Hm; lia]. }
  exists m. conjs; [done|lia|lia|done].
Qed.

Lemma scroll_search_spec n row f last :
  fb_ok f → fb_ok last → fb_height last = fb_height f → 0 ≤ row → row + Z.of_nat n = fb_height f →
  ∃ s m, Display.scroll_search n row f last = Ok (s, m)
    ∧ (m = 0 ∨ (1 ≤ m ∧ 0 ≤ s ∧ s + m ≤ fb_height f ∧ rows_match f last s m)).
Proof.
  intros Hf Hl Hh. revert row. induction n as [|n IH]; intros row Hr Hn; cbn [Display.scroll_search].
  { exists 0, 0. auto. }
  destruct (row_wrap_some f 0 Hf) as (a & _ & -> & Ha & _); [lia|].
  destruct (row_wrap_some last row Hl) as (b & _ & -> & Hb & _); [lia|]. cbn [mbind result_bind].
  destruct (Row.eqb a b) eqn:E; [|apply IH; lia].
  apply row_eqb in E as ->.
  destruct (region_loop_spec (Z.to_nat (fb_height f - row - 1)) 1 row f last)
    as (m & -> & Hm1 & Hfit & Hm); [done|done|done|lia|lia|lia| |].
  { intros i Hi. replace i with 0 by lia. rewrite Z.add_0_r. congruence. }
  cbn [mbind result_bind]. exists row, m. split; [done|right]. conjs; (done || lia).
Qed.

(** The move in memory *)
Lemma row_reset_make w row bg : zlen row = w → Row.reset bg row = Row.make w bg.
Proof.
  intros <-. unfold Row.reset, Row.make, zlen. rewrite Nat2Z.id.
  induction row as [|c row IH]; [done|]. cbn. by rewrite <- IH.
Qed.

Lemma move_rows_spec s b last :
  fb_ok last → 0 ≤ s → 0 ≤ b < fb_height last →
  ∃ last', Display.move_rows s 0 b last = Ok last' ∧ fb_ok last'
    ∧ last' = Framebuffer.set_rows (Framebuffer.rows last') last
    ∧ ∀ i : nat, Framebuffer.rows last' !! i =
        if Z.of_nat i <=? b then
          (if Z.of_nat i + s <=? b then Framebuffer.rows last !! (i + Z.to_nat s)%nat
           else Some (Row.make (fb_width last) 0))
        else Framebuffer.rows last !! i.
Proof.
  intros Hl Hs Hb. unfold Display.move_rows. pose proof Hl as (((Hw0 & _) & _) & _).
  set (P := fun (k : Z) (g : Framebuffer.t) => fb_ok g
    ∧ g = Framebuffer.set_rows (Framebuffer.rows g) last
    ∧ ∀ i : nat, Framebuffer.rows g !! i =
        if Z.of_nat i <? k then
          (if Z.of_nat i + s <=? b then Framebuffer.rows last !! (i + Z.to_nat s)%nat
           else Some (Row.make (fb_width last) 0))
        else Framebuffer.rows last !! i).
  match goal with |- ∃ _, ?m = _ ∧ _ => assert (safe m (P (b + 1))) as Hsafe end.
  { apply for_range_spec; [lia|..].
    - unfold P. conjs; [done|by destruct last|]. intros i. by z_bools.
    - intros k g Hk (Hg & Heq & Hrows).
      assert (fb_width g = fb_width last ∧ fb_height g = fb_height last) as [Hgw Hgh] by (by rewrite Heq).
      assert (∀ row, row_ok (fb_width last) row →
        (if k + s <=? b then Framebuffer.rows last !! (Z.to_nat k + Z.to_nat s)%nat = Some row
         else row = Row.make (fb_width last) 0) →
        P (k + 1) (Framebuffer.set_rows (<[Z.to_nat k := row]> (Framebuffer.rows g)) g)) as Hset.
      { intros row Hrow Hval. pose proof Hg as (_ & Hlen & Hall). unfold P. conjs.
        - apply set_rows_ok; [done|unfold zlen in *; by rewrite length_insert|].
          rewrite Hgw in *. by apply Forall_insert.
        - by rewrite Heq.
        - intros i. cbn. destruct (decide (i = Z.to_nat k)) as [->|Hne].
          + rewrite list_lookup_insert_eq by (unfold zlen in Hlen; lia).
            rewrite Z2Nat.id by lia. z_bools. destruct (k + s <=? b); congruence.
          + rewrite list_lookup_insert_ne by done. rewrite Hrows.
            destruct (Z.of_nat i <? k) eqn:E1, (Z.of_nat i <? k + 1) eqn:E2; try done; b_lia. }
      destruct (k + s <=? b) eqn:E; z_props.
      + destruct (row_wrap_some g (k + s) Hg) as (row & _ & -> & Hrow & _); [lia|]. cbn [mbind result_bind].
        destruct (row_wrap_some g k Hg) as (old & _ & _ & Hold & _); [lia|].
        unfold Framebuffer.update_row. rewrite index_row by lia.
        rewrite (vec_alter_Ok _ _ _ old row) by (done || lia). cbn. apply Hset.
        * pose proof Hg as (_ & _ & Hall). rewrite Forall_lookup, Hgw in Hall. by eapply Hall.
        * rewrite Hrows in Hrow. rewrite (proj2 (Z.ltb_ge _ _)) in Hrow by lia.
          by rewrite <- Z2Nat.inj_add by lia.
      + destruct (row_wrap_some g k Hg) as (old & _ & _ & Hold & _); [lia|].
        unfold Framebuffer.update_row. rewrite index_row by lia.
        rewrite (vec_alter_Ok _ _ _ old (Row.reset 0 old)) by (done || lia). cbn.
        pose proof Hg as (_ & _ & Hall). rewrite Forall_lookup in Hall. destruct (Hall _ _ Hold) as [Hlen _].
        rewrite (row_reset_make (fb_width last) old) by congruence. apply Hset; [|done].
        apply row_ok_make; [lia|by left]. }
  destruct (proj1 (safe_inv _ _) Hsafe) as (last' & Heq & Hok & Hrows & Hl'). exists last'. conjs; try done.
  intros i. rewrite Hl'. destruct (Z.of_nat i <? b + 1) eqn:E1, (Z.of_nat i <=? b) eqn:E2; try done; b_lia.
Qed.

End display.
End DisplayTheorems.
