(* ===== verification/DisplayFrame.v ===== *)
(** * A whole frame

    The scroll that [Display::new_frame] recognises, the parts around the
    cells (bell, title, reverse video, size, cursor, visibility, rendition)
    and the theorem that the terminal then shows the frame. *)

From S2P Require Import Prelude VtParser Utf8 TerminalFramebuffer FramebufferWf TerminalDispatcher DispatcherProps TerminalFunctions FunctionSafety TerminalEmulator EmulatorSafety ScreenProps SequenceProps EmulatorProps TerminalDisplay TerminalEffects DisplayProps.

Module FrameTheorems.
Import DispatcherLemmas EmulatorGuarantees SequenceTheorems EffectLemmas DisplayTheorems RFC3629.

Section frame.
Context `{Wcwidth}.
Implicit Types (f r last : Framebuffer.t) (fr : FrameState.t).

(** ** The scroll *)

Lemma ds_fb_ok r d :
  fb_ok r → ds_ok d → DrawState.width d = fb_width r → DrawState.height d = fb_height r →
  fb_ok (Framebuffer.set_ds d r).
Proof. intros Hr Hd Hw Hh. apply set_ds_ok; [done|]. by split. Qed.

(** Leaves the linear arithmetic of a new draw state. *)
Ltac new_ds Hr :=
  apply ds_fb_ok; [done| |done|done]; destruct Hr as ((?&?&?&?&?&?&?&?&?)&_);
  unfold ds_ok; cbn; conjs; (done || lia).

Lemma goto_ok y x r : fb_ok r → 0 ≤ y < fb_height r → 0 ≤ x < fb_width r → fb_ok (goto y x r).
Proof. intros Hr Hy Hx. new_ds Hr. Qed.

Lemma margins_ok top bottom r :
  fb_ok r → 0 ≤ top ≤ bottom → bottom < fb_height r → fb_ok (margins top bottom r).
Proof.
  intros Hr Ht Hb. pose proof Hr as ((?&?&_)&_). apply goto_ok; [new_ds Hr|cbn; lia..].
Qed.

Lemma set_renditions_ok rr r :
  rend_ok rr → fb_ok r → fb_ok (Framebuffer.on_ds (DrawState.set_renditions rr) r).
Proof. intros Hrr Hr. new_ds Hr. Qed.

(** Selecting a rendition, wherever the cursor is *)
Lemma select_effect rr fr r :
  rend_ok rr → rend r = FrameState.current_rendition fr →
  step fr r (Display.select_rendition rr fr) (Framebuffer.on_ds (DrawState.set_renditions rr) r).
Proof.
  intros Hrr Hrend. unfold Display.select_rendition. destruct (negb _) eqn:E.
  - eapply step_str; [|by apply (step_append (Renditions.sgr rr)); [apply effect_rendition|]]. done.
  - apply negb_false_iff, rend_eqb in E. rewrite <- E, <- Hrend.
    replace (Framebuffer.on_ds _ r) with r; [apply step_refl|].
    unfold Framebuffer.on_ds. destruct r as [rs ic w b d]. destruct d. reflexivity.
Qed.

(** Both cases of a hidden cursor compute to the goal or to a hypothesis. *)
Ltac by_side v := destruct v; first [reflexivity | assumption].

(** Line feeds at the bottom of a region, and the margins taken back *)
Lemma scroll_terminal (n : nat) b v r :
  plain r → fb_height r ≤ Dispatcher.PARAM_MAX → (1 ≤ n)%nat → 1 ≤ b < fb_height r →
  ∃ r4, let r5 := margins 0 (fb_height r - 1) r4 in
    effect (replicate n 10) (goto b 0 (hide v (margins 0 b r))) r4
    ∧ meta r4 = meta r
    ∧ effect (Display.stbm 1 (fb_height r)) r4 r5
    ∧ plain r5 ∧ meta r5 = meta r ∧ rend r5 = rend r
    ∧ visible r5 = (if v then false else visible r)
    ∧ scrolled (Z.of_nat n) b r r5.
Proof.
  intros (Hf & Ho & Ha & Hi & Ht & Hb) Hh Hn Hbh. pose proof Hf as (((Hw0 & Hh0) & _) & _).
  set (r2 := margins 0 b r). set (r3 := goto b 0 (hide v r2)).
  assert (fb_ok r2) as Hr2 by (apply margins_ok; (done || lia)).
  assert (fb_width (hide v r2) = fb_width r ∧ fb_height (hide v r2) = fb_height r) as [Hw2 Hh2]
    by (by destruct v).
  assert (fb_ok r3) as Hr3 by (apply goto_ok; [by apply hide_ok|lia..]).
  destruct (effect_line_feeds n b r3) as (r4 & Heff & Hr4 & Hscr & Heq);
    [by_side v|exact Hr3|by_side v|by_side v|reflexivity|lia|reflexivity|exact Hn|].
  assert (Framebuffer.ds r4 = Framebuffer.ds (goto b (col_of r3) r3)) as Hds4 by (by rewrite Heq).
  assert (Framebuffer.newrow r3 = Framebuffer.newrow r) as Hnew by by_side v.
  assert (Framebuffer.rows r3 = Framebuffer.rows r) as Hrows3 by by_side v.
  assert (fb_height r4 = fb_height r) as Hh4 by (rewrite Hds4; by_side v).
  exists r4. cbv zeta. assert (fb_ok (margins 0 (fb_height r - 1) r4)) as Hr5.
  { apply margins_ok; [exact Hr4|lia..]. }
  assert (effect (Display.stbm (0 + 1) (fb_height r - 1 + 1)) r4 (margins 0 (fb_height r - 1) r4)) as Hm.
  { apply effect_margins; [exact Hr4| |lia..]. rewrite Hds4. by_side v. }
  replace (fb_height r - 1 + 1) with (fb_height r) in Hm by lia.
  conjs; [exact Heff| |exact Hm|..].
  - rewrite Heq. by_side v.
  - unfold plain. conjs; [exact Hr5|..]; unfold margins; cbn; rewrite ?Hds4; by_side v.
  - unfold meta, margins. cbn. rewrite Hds4, Heq. by_side v.
  - unfold margins. cbn. rewrite Hds4. by_side v.
  - unfold margins. cbn. rewrite Hds4. by_side v.
  - intros i. change (Framebuffer.rows (margins 0 (fb_height r - 1) r4)) with (Framebuffer.rows r4).
    rewrite Hscr, Hnew. by rewrite Hrows3.
Qed.

(** Screens whose rows are equal look the same. *)
Lemma look_rows f r i k j :
  Framebuffer.rows f !! i = Framebuffer.rows r !! k → look_at f i j = look_at r k j.
Proof. intros Heq. unfold look_at, cell_at. by rewrite Heq. Qed.

Lemma matched_look f last s n i j :
  rows_match f last s n → 0 ≤ s → Z.of_nat i < n → look_at f i j = look_at last (i + Z.to_nat s) j.
Proof.
  intros Hm Hs Hi. apply look_rows. specialize (Hm (Z.of_nat i) ltac:(lia)).
  rewrite Nat2Z.id in Hm. rewrite Hm. f_equal. lia.
Qed.

(** The terminal and the encoder's last frame scroll alike. *)
Lemma scrolled_alike n b last last' r r' :
  (∀ i j, look_at r i j = look_at last i j) →
  scrolled n b r r' → Framebuffer.newrow r = Row.make (fb_width last) 0 →
  (∀ i : nat, Framebuffer.rows last' !! i =
     if Z.of_nat i <=? b then
       (if Z.of_nat i + n <=? b then Framebuffer.rows last !! (i + Z.to_nat n)%nat
        else Some (Row.make (fb_width last) 0))
     else Framebuffer.rows last !! i) →
  ∀ i j, look_at r' i j = look_at last' i j.
Proof.
  intros Hsame Hscr Hnew Hlast i j. specialize (Hscr i). specialize (Hlast i). rewrite Hnew in Hscr.
  destruct (Z.of_nat i <=? b); [destruct (Z.of_nat i + n <=? b)|].
  - rewrite (look_rows r' r i (i + Z.to_nat n)), (look_rows last' last i (i + Z.to_nat n)) by done.
    apply Hsame.
  - apply look_rows. congruence.
  - rewrite (look_rows r' r i i), (look_rows last' last i i) by done. apply Hsame.
Qed.

Lemma drawn_same f m fr r :
  (∀ i j, look_at r i j = look_at (FrameState.last_frame fr) i j) →
  (∀ i j, Z.of_nat i < m → look_at (FrameState.last_frame fr) i j = look_at f i j) →
  drawn true f m 0 fr r.
Proof.
  intros Hsame Hf. split; [|by auto]. intros i j [Hi|[_ Hj]]; [|lia].
  rewrite Hsame. by apply Hf.
Qed.

Lemma row_inv_top f fr r m :
  sync true f fr r → fy fr = m → 0 ≤ m ≤ fb_height f → forced fr = false →
  tracks (FrameState.cursor_x fr) (FrameState.cursor_y fr) r →
  (∀ i j, look_at r i j = look_at (FrameState.last_frame fr) i j) →
  (∀ i j, Z.of_nat i < m → look_at (FrameState.last_frame fr) i j = look_at f i j) →
  row_inv true f fr r 0.
Proof.
  intros Hs <- Hm Hf Htr Hsame Hl. unfold row_inv. rewrite Hf. conjs; try done; try lia.
  by apply drawn_same.
Qed.

Lemma silent_move_last row col fr :
  FrameState.last_frame (FrameState.append_silent_move row col fr)
  = hide (visible (FrameState.last_frame fr)) (FrameState.last_frame fr).
Proof. unfold FrameState.append_silent_move. by destruct (DrawState.cursor_visible _). Qed.

Lemma meta_moved v y x top bottom r : meta (goto y x (hide v (margins top bottom r))) = meta r.
Proof. by destruct v. Qed.

Lemma scroll_region_spec f fr r s b :
  drawable f → sync true f fr r → FrameState.current_rendition fr = Display.initial_rendition →
  (∀ i j, look_at r i j = look_at (FrameState.last_frame fr) i j) →
  1 ≤ s → 1 ≤ b < fb_height f →
  let moved := FrameState.append_silent_move b 0
                 (FrameState.append (Display.stbm (0 + 1) (b + 1)) fr) in
  let fed := FrameState.append (replicate (Z.to_nat s) 10) moved in
  ∃ last' r', Display.move_rows s 0 b (FrameState.last_frame fed) = Ok last'
    ∧ let fr' := FrameState.append (Display.stbm 1 (fb_height f)) (FrameState.set_last last' fed) in
      step fr r fr' r' ∧ sync true f fr' r'
      ∧ (∀ i j, look_at r' i j = look_at last' i j)
      ∧ (∀ i : nat, Z.of_nat i + s <= b →
           Framebuffer.rows last' !! i = last_rows fr !! (i + Z.to_nat s)%nat).
Proof.
  intros (Hf & Hph & Hpw & _) Hs Hcr Hsame Hs1 Hb moved fed.
  pose proof Hs as (Hp & Hw & Hh & Hrend & Hinit). destruct (Hinit eq_refl) as (Hv & Hl & Hlw & Hlh).
  set (v := visible (FrameState.last_frame fr)).
  assert (FrameState.last_frame fed = hide v (FrameState.last_frame fr)) as Hfed.
  { exact (silent_move_last b 0 (FrameState.append (Display.stbm (0 + 1) (b + 1)) fr)). }
  assert (fb_width (hide v (FrameState.last_frame fr)) = fb_width f
    ∧ fb_height (hide v (FrameState.last_frame fr)) = fb_height f) as [Hvw Hvh] by (by destruct v).
  destruct (move_rows_spec s b (hide v (FrameState.last_frame fr))) as (last' & Hmv & Hok & Heq & Hrows);
    [by apply hide_ok|lia|lia|].
  destruct (scroll_terminal (Z.to_nat s) b v r Hp) as (r4 & Heff4 & Hm4 & Heff5 & Hp5 & Hm5 & Hr5 & Hv5 & Hscr);
    [lia..|]. rewrite Hh in *. rewrite Z2Nat.id in Hscr by lia.
  pose proof Hp as (Hfr & Ho & _). pose proof Hfr as (((Hw0 & _) & _) & _).
  assert (step fr r fed r4) as Hst4.
  { eapply step_trans; [apply (step_append (Display.stbm (0 + 1) (b + 1)))|].
    { apply effect_margins; (done || lia). }
    { done. }
    eapply step_trans; [apply (silent_move_effect b 0); [|done|cbn; lia..]|].
    { apply margins_ok; (done || lia). }
    apply step_append; [exact Heff4|]. rewrite Hm4. symmetry. apply (meta_moved v). }
  exists last', (margins 0 (fb_height f - 1) r4). rewrite Hfed. conjs; [done|].
  cbv zeta. assert (last_rows fr = Framebuffer.rows (hide v (FrameState.last_frame fr))) as Hlr
    by by_side v.
  conjs.
  - eapply step_trans; [exact Hst4|].
    eapply step_str; [|apply (step_append (Display.stbm 1 (fb_height f)) fed)];
      [done|done|by rewrite Hm5, Hm4].
  - destruct (meta_size _ _ Hm5) as [? ?].
    assert (Framebuffer.ds last' = Framebuffer.ds (hide v (FrameState.last_frame fr))) as Hds
      by (by rewrite Heq).
    unfold sync. conjs; [done|congruence|congruence| |].
    + rewrite Hr5, Hrend. symmetry.
      apply (silent_move_fields b 0 (FrameState.append (Display.stbm (0 + 1) (b + 1)) fr)).
    + intros _. rewrite Hv5, Hv. change (FrameState.last_frame (FrameState.append _ _)) with last'. rewrite Hds.
      conjs; [by destruct v eqn:Ev|done|congruence|congruence].
  - eapply (scrolled_alike s b (hide v (FrameState.last_frame fr))); [|exact Hscr| |exact Hrows].
    + intros i j. rewrite Hsame. apply look_rows. by rewrite Hlr.
    + unfold Framebuffer.newrow, DrawState.get_background_rendition. rewrite Hvw, Hw, Hrend, Hcr. done.
  - intros i Hi. rewrite Hrows, Hlr. by z_bools.
Qed.

Lemma draw_scroll_spec f fr r :
  drawable f → row_inv true f fr r 0 → fy fr = 0 → forced fr = false →
  ∃ fr' r', Display.draw_scroll f fr = Ok fr' ∧ step fr r fr' r'
    ∧ row_inv true f fr' r' 0 ∧ forced fr' = false.
Proof.
  intros Hdraw Hinv Hy0 Hforce. pose proof Hinv as (Hs & Hy & Hfo & Htr & Hdone & Hrest).
  pose proof Hs as (Hp & Hw & Hh & Hrend & Hinit). destruct (Hinit eq_refl) as (Hv & Hl & Hlw & Hlh).
  assert (∀ i j, look_at r i j = look_at (FrameState.last_frame fr) i j) as Hsame.
  { intros i j. apply Hrest; [done|]. unfold before. lia. }
  unfold Display.draw_scroll. pose proof Hdraw as (Hf & _). pose proof Hf as (((Hw0 & Hh0) & _) & _).
  destruct (scroll_search_spec (Z.to_nat (fb_height f)) 0 f (FrameState.last_frame fr))
    as (s & m & -> & Hm); [done|done|done|lia|lia|]. cbn [mbind result_bind].
  destruct (m =? 0) eqn:Em; z_props.
  { exists fr, r. conjs; auto using step_refl. }
  destruct Hm as [?|(Hm1 & Hs0 & Hfit & Hmatch)]; [lia|].
  destruct (s =? 0) eqn:Es; z_props.
  { subst s. eexists _, r. conjs; [done|exact (step_refl fr r)| |done].
    apply (row_inv_top f _ r m); [done|done|lia|done|by apply Htr|done|]. intros i j Hi. symmetry.
    rewrite (matched_look f (FrameState.last_frame fr) 0 m) by (done || lia). f_equal. lia. }
  cbv zeta.
  change (27 :: bytes_of_string "[0m") with (Renditions.sgr Display.initial_rendition).
  fold (Display.select_rendition Display.initial_rendition (FrameState.set_y m fr)).
  set (fr1 := Display.select_rendition Display.initial_rendition (FrameState.set_y m fr)).
  assert (step fr r fr1 (Framebuffer.on_ds (DrawState.set_renditions Display.initial_rendition) r)) as Hst1.
  { eapply step_trans; [|apply (select_effect _ (FrameState.set_y m fr)); [by split; left|done]].
    exact (step_refl fr r). }
  set (r1 := Framebuffer.on_ds _ r) in *. set (b := 0 + s + m - 1).
  assert (fx fr1 = fx fr ∧ fy fr1 = m ∧ forced fr1 = false
    ∧ FrameState.last_frame fr1 = FrameState.last_frame fr
    ∧ FrameState.current_rendition fr1 = Display.initial_rendition) as (Hx1 & Hy1 & Hf1 & Hl1 & Hc1).
  { unfold fr1, Display.select_rendition. destruct (negb _) eqn:E; [done|].
    apply negb_false_iff, rend_eqb in E. done. }
  destruct (scroll_region_spec f fr1 r1 s b) as (last' & r' & Hmv & Hst & Hs' & Hlook & Hrows);
    [done| |done| |lia|lia|].
  { unfold sync. rewrite Hl1, Hc1. conjs; try done. destruct Hp as (? & ?). split; [|done].
    apply set_renditions_ok; [by split; left|done]. }
  { intros i j. rewrite Hl1. apply Hsame. }
  rewrite (proj2 (Z.ltb_lt b _)) by lia. cbn [assert_that mbind result_bind].
  change (0 + s + m - 1) with b. rewrite Hmv. cbn [mbind result_bind].
  destruct (silent_move_fields b 0 (FrameState.append (Display.stbm (0 + 1) (b + 1)) fr1))
    as (_ & Hym & Hfm & _).
  eexists _, r'. conjs; [done| | |].
  - exact (step_trans _ _ _ _ _ _ Hst1 Hst).
  - apply (row_inv_top f _ r' m); [exact Hs'| |lia| |split; intros; cbn in *; lia|exact Hlook|].
    { rewrite <- Hy1. exact Hym. }
    { rewrite <- Hf1. exact Hfm. }
    intros i j Hi. rewrite (matched_look f (FrameState.last_frame fr) s m) by (done || lia).
    apply look_rows. rewrite <- Hl1. apply Hrows. lia.
  - rewrite <- Hf1. exact Hfm.
Qed.

(** ** Around the cells *)

(** [fr'] is [fr] with octets appended that take the terminal [r] to [r']. *)
Definition emits fr r fr' r' : Prop := ∃ s, fr' = FrameState.append s fr ∧ effect s r r'.

Lemma append_nil fr : FrameState.append [] fr = fr.
Proof. destruct fr. unfold FrameState.append, FrameState.set_str. cbn. by rewrite app_nil_r. Qed.

Lemma append_append s1 s2 fr :
  FrameState.append s2 (FrameState.append s1 fr) = FrameState.append (s1 ++ s2) fr.
Proof.
  unfold FrameState.append, FrameState.set_str. destruct fr. cbn. by rewrite <- app_assoc.
Qed.

Lemma emits_refl fr r : emits fr r fr r.
Proof. exists []. split; [by rewrite append_nil|apply effect_nil]. Qed.

Lemma emits_append s fr r r' : effect s r r' → emits fr r (FrameState.append s fr) r'.
Proof. by exists s. Qed.

Lemma emits_trans fr1 r1 fr2 r2 fr3 r3 :
  emits fr1 r1 fr2 r2 → emits fr2 r2 fr3 r3 → emits fr1 r1 fr3 r3.
Proof.
  intros (s1 & -> & He1) (s2 & -> & He2). exists (s1 ++ s2).
  split; [apply append_append|by eapply effect_app].
Qed.

(** The title, the reverse video and the cells are as before, no wrap is
    pending, and the rest of the draw state is unchanged. *)
Definition header_rel (title : list Z) (rv : bool) r r' : Prop :=
  Framebuffer.rows r' = Framebuffer.rows r
  ∧ Framebuffer.window_title r' = title
  ∧ Framebuffer.ds r' = DrawState.set_reverse_video rv (Framebuffer.ds r).

Lemma reverse_same r b :
  b = DrawState.reverse_video (Framebuffer.ds r) →
  Framebuffer.ds r = DrawState.set_reverse_video b (Framebuffer.ds r).
Proof. intros ->. by destruct (Framebuffer.ds r). Qed.

Lemma unpend_same r : pending r = false → set_wrap_pending false r = r.
Proof.
  destruct r as [rs ic w b d]. unfold set_wrap_pending, Framebuffer.on_ds, Framebuffer.set_ds. cbn.
  intros Hp. f_equal. destruct d. cbn in *. by subst.
Qed.

Lemma bell_spec f fr r :
  pending r = false →
  ∃ r', emits fr r (Display.draw_bell f fr) r'
    ∧ header_rel (Framebuffer.window_title r) (DrawState.reverse_video (Framebuffer.ds r)) r r'.
Proof.
  intros Hp. unfold Display.draw_bell. destruct (negb _).
  - eexists. split; [apply emits_append, effect_bell|]. rewrite unpend_same by done.
    split_and!; [done|done|exact (reverse_same r _ eq_refl)].
  - exists r. split; [apply emits_refl|]. split_and!; [done|done|exact (reverse_same r _ eq_refl)].
Qed.

Lemma osc_append n t fr :
  title_ok t →
  Display.osc n t fr = FrameState.append ([27; 93; n; 59] ++ (t ≫= RFC3629.encode) ++ [7]) fr.
Proof.
  intros [Ht _]. unfold Display.osc, Display.append_chars. rewrite text_octets by done.
  rewrite !append_append. done.
Qed.

Lemma title_spec D init f fr r :
  Display.has_title D = true → title_ok (Framebuffer.window_title f) →
  title_ok (Framebuffer.icon_name f) →
  (init = true → Framebuffer.window_title r = Framebuffer.window_title (FrameState.last_frame fr)) →
  ∃ r', emits fr r (Display.draw_title D init f fr) r'
    ∧ header_rel (Framebuffer.window_title f) (DrawState.reverse_video (Framebuffer.ds r)) r r'.
Proof.
  intros HD Ht Hi Hinit. unfold Display.draw_title. rewrite HD. cbn [andb]. cbv zeta.
  destruct (_ || _) eqn:E.
  - clear E. destruct (list_eqb _ _ _).
    + eexists. rewrite osc_append by done. split; [by apply emits_append, effect_title; [left|]|].
      split_and!; [done|done|exact (reverse_same r _ eq_refl)].
    + eexists. rewrite !osc_append by done. split.
      { eapply emits_trans; apply emits_append; apply effect_title; auto. }
      split_and!; [done|done|exact (reverse_same r _ eq_refl)].
  - apply orb_false_iff in E as [E1 E2]. apply orb_false_iff in E1 as [Ei _].
    apply negb_false_iff in Ei, E2. apply (list_eqb_spec Z.eqb Z.eqb_eq) in E2.
    exists r. split; [apply emits_refl|]. split_and!; [done| |exact (reverse_same r _ eq_refl)].
    rewrite E2. auto.
Qed.

Lemma reverse_spec init f fr r :
  (init = true → DrawState.reverse_video (Framebuffer.ds r)
                 = DrawState.reverse_video (Framebuffer.ds (FrameState.last_frame fr))) →
  ∃ r', emits fr r (Display.draw_reverse_video init f fr) r'
    ∧ header_rel (Framebuffer.window_title r) (DrawState.reverse_video (Framebuffer.ds f)) r r'.
Proof.
  intros Hinit. unfold Display.draw_reverse_video. cbv zeta. destruct (_ || _) eqn:E.
  - eexists. split; [apply emits_append, effect_reverse_video|]. by split_and!.
  - apply orb_false_iff in E as [Ei E]. apply negb_false_iff in Ei, E. apply Bool.eqb_prop in E.
    exists r. split; [apply emits_refl|]. split_and!; [done|done|]. apply reverse_same.
    rewrite E. symmetry. auto.
Qed.

(** The terminal shows [last]: only the title and the reverse video count
    when the size has changed. *)
Definition shows r last f : Prop :=
  Framebuffer.window_title r = Framebuffer.window_title last
  ∧ DrawState.reverse_video (Framebuffer.ds r) = DrawState.reverse_video (Framebuffer.ds last)
  ∧ (fb_width last = fb_width f → fb_height last = fb_height f → appearance r = appearance last).

Lemma header_trans t1 t2 b1 b2 r1 r2 r3 :
  header_rel t1 b1 r1 r2 → header_rel t2 b2 r2 r3 → header_rel t2 b2 r1 r3.
Proof. intros (H1 & H2 & H3) (H4 & H5 & H6). split_and!; [congruence|done|by rewrite H6, H3]. Qed.

Lemma header_spec D init last f r :
  Display.has_title D = true → drawable f → pending r = false →
  (init = true → shows r last f) →
  let fr := Display.draw_reverse_video init f
              (Display.draw_title D init f (Display.draw_bell f (FrameState.make last))) in
  ∃ r', emits (FrameState.make last) r fr r'
    ∧ header_rel (Framebuffer.window_title f) (DrawState.reverse_video (Framebuffer.ds f)) r r'.
Proof.
  intros HD (_ & _ & _ & Ht & Hi & _) Hp Hinit. cbv zeta.
  destruct (bell_spec f (FrameState.make last) r Hp) as (r1 & (s1 & -> & He1) & Hh1).
  destruct (title_spec D init f (FrameState.append s1 (FrameState.make last)) r1)
    as (r2 & (s2 & -> & He2) & Hh2); [done|done|done| |].
  { intros Hin. destruct (Hinit Hin) as (Hw & _). destruct Hh1 as (_ & -> & _). exact Hw. }
  pose proof (header_trans _ _ _ _ _ _ _ Hh1 Hh2) as Hh12. rewrite append_append in *.
  destruct (reverse_spec init f (FrameState.append (s1 ++ s2) (FrameState.make last)) r2)
    as (r3 & (s3 & -> & He3) & Hh3).
  { intros Hin. destruct (Hinit Hin) as (_ & Hrv & _). destruct Hh12 as (_ & _ & ->).
    destruct Hh1 as (_ & _ & ->). exact Hrv. }
  rewrite append_append. exists r3. split.
  - eexists. split; [done|]. eapply effect_app; [by eapply effect_app|done].
  - destruct Hh12 as (Hr & Ht2 & Hd). destruct Hh3 as (Hr3 & Ht3 & Hd3).
    split_and!; [congruence|congruence|by rewrite Hd3, Hd].
Qed.

Lemma header_plain t b r r' : header_rel t b r r' → plain r → plain r'.
Proof.
  intros (Hr & _ & Hd) ((((Hs & Hc) & ?) & Hl & Hrows) & ?). unfold plain, fb_ok. rewrite Hr, Hd. done.
Qed.

(** The redrawing of the whole screen *)
Lemma full_margins r :
  plain r → fb_height r ≤ Dispatcher.PARAM_MAX → pending r = false →
  ∃ r', effect (Display.stbm 1 (fb_height r)) r r' ∧ plain r' ∧ meta r' = meta r.
Proof.
  intros Hp Hh Hpend. pose proof Hp as (Hf & Ho & Ha & Hi & Ht & Hb).
  pose proof Hf as (((Hw0 & Hh0) & _) & _). destruct (decide (fb_height r = 1)) as [E|Hne].
  - exists r. conjs; [|done|done]. rewrite E. pose proof (effect_no_margins r E) as He.
    by rewrite unpend_same in He.
  - exists (margins 0 (fb_height r - 1) r). conjs; [|split|done].
    + pose proof (effect_margins 0 (fb_height r - 1) r) as He.
      replace (fb_height r - 1 + 1) with (fb_height r) in He by lia. apply He; (done || lia).
    + apply margins_ok; (done || lia).
    + by split_and!.
Qed.

Lemma clear_spec r :
  plain r → fb_height r ≤ Dispatcher.PARAM_MAX → pending r = false →
  ∃ r', effect (Display.stbm 1 (fb_height r) ++ Display.clear_screen) r r'
    ∧ plain r' ∧ meta r' = meta r ∧ at_pos r' 0 0 ∧ rend r' = Display.initial_rendition.
Proof.
  intros Hp Hh Hpend. destruct (full_margins r Hp Hh Hpend) as (r1 & He1 & Hp1 & Hm1).
  pose proof Hp1 as (Hf1 & Hrest1). pose proof Hf1 as (((Hw0 & Hh0) & _) & _).
  set (r2 := Framebuffer.on_ds (DrawState.set_renditions Display.initial_rendition) r1).
  assert (fb_ok r2) as Hf2 by (apply set_renditions_ok; [by split; left|done]).
  assert (fb_ok (goto 0 0 r2)) as Hf3 by (apply goto_ok; [done|cbn; lia..]).
  destruct (effect_erase_screen (goto 0 0 r2) Hf3) as (r4 & He4 & Hf4 & Heq & _).
  assert (Framebuffer.ds r4 = Framebuffer.ds (goto 0 0 r2)) as Hds by (by rewrite Heq).
  exists r4. conjs.
  - eapply effect_app; [exact He1|]. unfold Display.clear_screen.
    change (27 :: bytes_of_string "[0m") with (Renditions.sgr Display.initial_rendition).
    eapply (effect_app (Renditions.sgr Display.initial_rendition));
      [apply effect_rendition; by split; left|].
    eapply (effect_app (27 :: bytes_of_string "[H")); [apply effect_home; [done|apply Hrest1]|].
    exact He4.
  - split; [done|]. rewrite Hds. exact Hrest1.
  - rewrite <- Hm1. unfold meta. by rewrite Hds, Heq.
  - unfold at_pos. by rewrite Hds.
  - by rewrite Hds.
Qed.

(** Appearance, cell by cell *)
Lemma look_lookup f i j :
  look_at f i j = ((fun row : Row.t => look <$> row) <$> Framebuffer.rows f) !! i ≫= (.!! j).
Proof.
  unfold look_at, cell_at. rewrite list_lookup_fmap.
  destruct (Framebuffer.rows f !! i) as [row|]; [|done]. cbn. by rewrite list_lookup_fmap.
Qed.

Lemma cells_eq f r :
  fb_ok f → fb_ok r → fb_height r = fb_height f →
  (∀ i j, Z.of_nat i < fb_height f → look_at r i j = look_at f i j) →
  app_cells (appearance r) = app_cells (appearance f).
Proof.
  intros (_ & Hlf & _) (_ & Hlr & _) Hh Heq. unfold appearance. cbn.
  apply list_eq_same_length with (n := length (Framebuffer.rows f)); rewrite ?length_fmap;
    [done|unfold zlen in *; lia|]. intros i a b Hi Ha Hb.
  apply list_eq. intros j. specialize (Heq i j ltac:(unfold zlen in *; lia)).
  rewrite !look_lookup, Ha, Hb in Heq. exact Heq.
Qed.

Lemma appearance_look r last :
  appearance r = appearance last →
  (∀ i j, look_at r i j = look_at last i j) ∧ row_of r = row_of last ∧ col_of r = col_of last
  ∧ visible r = visible last ∧ rend r = rend last.
Proof.
  intros Heq. pose proof (f_equal app_cells Heq) as Hc. pose proof (f_equal app_cursor Heq) as Hp.
  unfold appearance in *. cbn in *. simplify_eq.
  conjs; try done. intros i j. by rewrite !look_lookup, Hc.
Qed.

(** "has size changed?" *)
Lemma size_spec init last f fr r :
  drawable f → fb_ok last → FrameState.last_frame fr = last → forced fr = false →
  plain r → pending r = false → fb_width r = fb_width f → fb_height r = fb_height f →
  (init = true → fb_width last = fb_width f → fb_height last = fb_height f →
     (∀ i j, look_at r i j = look_at last i j) ∧ row_of r = row_of last ∧ col_of r = col_of last
     ∧ visible r = visible last ∧ rend r = rend last) →
  ∃ init' fr' r', Display.draw_size init f fr = (init', fr') ∧ step fr r fr' r'
    ∧ row_inv init' f (FrameState.set_y 0 fr') r' 0 ∧ forced fr' = false.
Proof.
  intros (Hf & Hph & _) Hl <- Hforce Hp Hpend Hw Hh Hinit. pose proof Hf as (((Hw0 & Hh0) & _) & _).
  unfold Display.draw_size. cbv zeta. destruct (_ || _) eqn:E.
  - destruct (clear_spec r) as (r' & He & Hp' & Hm' & Hat & Hrend); [done|lia|done|].
    destruct (meta_size _ _ Hm') as [Hw' Hh'].
    eexists _, _, r'. conjs; [done| | |done].
    + eapply step_str; [|apply (step_append (Display.stbm 1 (fb_height r) ++ Display.clear_screen) fr)];
        [|done|done]. rewrite append_append, Hh. done.
    + unfold row_inv. cbn -[Display.clear_screen]. rewrite Hforce. conjs; try done; try lia.
      * unfold sync. conjs; try done; congruence.
      * intros _. split; [intros _ _; exact Hat|lia].
      * split; [|done]. intros i j. unfold before. lia.
  - apply orb_false_iff in E as [E1 E3]. apply orb_false_iff in E1 as [E1 E2].
    apply negb_false_iff in E1, E2, E3. apply Z.eqb_eq in E2, E3.
    destruct (Hinit E1) as (Hlook & Hrow & Hcol & Hvis & Hrend); [congruence..|]. subst init.
    eexists true, _, r. conjs; [done|by apply (step_refl fr r)| |done].
    apply (row_inv_top f _ r 0); [|done|lia|done| |exact Hlook|intros; lia].
    + unfold sync. cbn. conjs; try done.
    + cbn. rewrite <- Hrow, <- Hcol. split; [by intros _ _|]. pose proof Hp as (((_&?&_)&_)&_). lia.
Qed.

(** The end of a frame *)
Lemma cursor_spec init f fr r :
  drawable f → plain r → fb_width r = fb_width f → fb_height r = fb_height f →
  tracks (FrameState.cursor_x fr) (FrameState.cursor_y fr) r →
  ∃ r', step fr r (Display.draw_cursor init f fr) r' ∧ steady r r'
    ∧ at_pos r' (row_of f) (col_of f) ∧ ∀ i j, look_at r' i j = look_at r i j.
Proof.
  intros (Hf & Hph & Hpw & _) Hp Hw Hh Htr. pose proof Hf as ((_ & Hc & Hr & _) & _).
  unfold Display.draw_cursor. cbv zeta. destruct (_ || _) eqn:E.
  - pose proof Hp as (Hfr & Ho & _).
    destruct (goto_plain (row_of f) (col_of f) r Hp) as (Hp' & Hm & Hat & Hcells & Hrd & Hv); [lia..|].
    exists (goto (row_of f) (col_of f) r). conjs; [|by split_and!|done|].
    + eapply step_str; [|apply (step_append (FrameState.cup (row_of f) (col_of f)) fr)]; [done| |done].
      apply effect_goto; (done || lia).
    + intros i j. unfold look_at. by rewrite Hcells.
  - apply orb_false_iff in E as [E1 E3]. apply orb_false_iff in E1 as [E1 E2].
    apply negb_false_iff in E2, E3. apply Z.eqb_eq in E2, E3.
    exists r. conjs; [apply step_refl|by split_and!| |done].
    rewrite E2, E3. apply Htr; lia.
Qed.

Lemma visibility_spec init f fr r :
  (init = true → visible r = visible (FrameState.last_frame fr)) →
  step fr r (Display.draw_visibility init f fr)
    (Framebuffer.on_ds (DrawState.set_cursor_visible (visible f)) r).
Proof.
  intros Hinit. unfold Display.draw_visibility. cbv zeta. destruct (_ || _) eqn:E.
  - apply step_append; [|done]. apply effect_visible.
  - apply orb_false_iff in E as [E1 E2]. apply negb_false_iff in E1, E2. apply Bool.eqb_prop in E2.
    rewrite E2, <- Hinit by done. replace (Framebuffer.on_ds _ r) with r; [apply step_refl|].
    unfold Framebuffer.on_ds. destruct r as [rs ic w b d]. destruct d. reflexivity.
Qed.

Lemma rendition_spec init f fr r :
  rend_ok (rend f) → rend r = FrameState.current_rendition fr →
  step fr r (Display.draw_rendition init f fr)
    (Framebuffer.on_ds (DrawState.set_renditions (rend f)) r).
Proof.
  intros Hr Hrend. unfold Display.draw_rendition. cbv zeta. destruct (_ || _) eqn:E.
  - eapply step_str; [|apply (step_append (Renditions.sgr (rend f)))]; [done| |done].
    by apply effect_rendition.
  - apply orb_false_iff in E as [_ E]. apply negb_false_iff, rend_eqb in E. rewrite E, <- Hrend.
    replace (Framebuffer.on_ds _ r) with r; [apply step_refl|].
    unfold Framebuffer.on_ds. destruct r as [rs ic w b d]. destruct d. reflexivity.
Qed.

Lemma end_spec init f fr r :
  drawable f → row_inv init f fr r 0 → fy fr = fb_height f → forced fr = false →
  ∃ r', step fr r
          (Display.draw_rendition init f (Display.draw_visibility init f (Display.draw_cursor init f fr))) r'
    ∧ plain r' ∧ pending r' = false ∧ fb_height r' = fb_height f
    ∧ (∀ i j, Z.of_nat i < fb_height f → look_at r' i j = look_at f i j)
    ∧ row_of r' = row_of f ∧ col_of r' = col_of f ∧ visible r' = visible f ∧ rend r' = rend f.
Proof.
  intros Hdraw (Hs & _ & _ & Htr & Hdone & _) Hy Hforce. rewrite Hy in Hdone. specialize (Htr Hforce).
  pose proof Hdraw as (((_ & _ & _ & _ & _ & _ & _ & Hrf & _) & _) & _).
  pose proof Hs as (Hp & Hw & Hh & Hrend & Hinit).
  destruct (cursor_spec init f fr r) as (r1 & Hst1 & Hs1 & Hat & Hlook); try done.
  destruct Hs1 as (Hp1 & Hm1 & Hr1 & Hv1). destruct (meta_size _ _ Hm1) as [Hw1 Hh1].
  set (fr1 := Display.draw_cursor init f fr) in *.
  assert (FrameState.last_frame fr1 = FrameState.last_frame fr
    ∧ FrameState.current_rendition fr1 = FrameState.current_rendition fr) as [Hl1 Hc1].
  { unfold fr1, Display.draw_cursor. cbv zeta. by destruct (_ || _). }
  pose proof (visibility_spec init f fr1 r1) as Hst2.
  set (r2 := Framebuffer.on_ds _ r1) in Hst2. set (fr2 := Display.draw_visibility init f fr1) in *.
  assert (FrameState.current_rendition fr2 = FrameState.current_rendition fr) as Hc2.
  { unfold fr2, Display.draw_visibility. cbv zeta. by destruct (_ || _). }
  pose proof (rendition_spec init f fr2 r2 Hrf) as Hst3.
  set (r3 := Framebuffer.on_ds _ r2) in Hst3.
  exists r3. destruct Hat as (? & ? & ?). conjs; try done; try congruence.
  - eapply step_trans; [exact Hst1|]. eapply step_trans; [apply Hst2|apply Hst3].
    + intros Hi. rewrite Hv1, Hl1. by apply Hinit.
    + rewrite Hc2, <- Hrend. exact Hr1.
  - destruct Hp1 as [Hf1 Hrest]. split; [|exact Hrest]. apply set_renditions_ok; [done|].
    apply on_ds_ok; [|done]. apply (FunctionLemmas.set_flag_keeps (visible f)).
  - rewrite <- Hh. exact Hh1.
  - intros i j Hi. rewrite <- Hdone by (by left). exact (Hlook i j).
Qed.

(** ** The frame *)

Lemma appearance_intro f r :
  fb_ok f → fb_ok r → fb_height r = fb_height f →
  (∀ i j, Z.of_nat i < fb_height f → look_at r i j = look_at f i j) →
  Framebuffer.window_title r = Framebuffer.window_title f →
  DrawState.reverse_video (Framebuffer.ds r) = DrawState.reverse_video (Framebuffer.ds f) →
  row_of r = row_of f → col_of r = col_of f → visible r = visible f → rend r = rend f →
  appearance r = appearance f.
Proof.
  intros Hf Hr Hh Hlook Ht Hv Hrow Hcol Hvis Hrend.
  pose proof (cells_eq f r Hf Hr Hh Hlook) as Hc. unfold appearance in *. cbn in Hc.
  by rewrite Hc, Ht, Hv, Hrow, Hcol, Hvis, Hrend.
Qed.

Lemma new_frame_effect D init last f r `{!SpacingLaws} :
  Display.has_title D = true → drawable f → fb_ok last →
  plain r → pending r = false → fb_width r = fb_width f → fb_height r = fb_height f →
  (init = true → shows r last f) →
  ∃ s r', Display.new_frame D init last f = Ok s ∧ effect s r r'
    ∧ plain r' ∧ pending r' = false ∧ appearance r' = appearance f.
Proof.
  intros HD Hdraw Hl Hp Hpend Hw Hh Hshows. pose proof Hdraw as (Hf & _).
  destruct (header_spec D init last f r HD Hdraw Hpend Hshows) as (r1 & (s1 & Hfr1 & He1) & Hh1).
  unfold Display.new_frame. cbv zeta. rewrite Hfr1. clear Hfr1.
  pose proof (header_plain _ _ _ _ Hh1 Hp) as Hp1. destruct Hh1 as (Hrows & Htitle & Hds).
  destruct (size_spec init last f (FrameState.append s1 (FrameState.make last)) r1)
    as (init' & fr2 & r2 & -> & Hst2 & Hinv2 & Hf2); try done; try (by rewrite Hds).
  { intros Hin Hlw Hlh. destruct (Hshows Hin) as (_ & _ & Happ).
    destruct (appearance_look _ _ (Happ Hlw Hlh)) as (Hlook & ? & ? & ? & ?).
    rewrite Hds. split_and!; try done. intros i j. rewrite <- Hlook. apply look_rows. by rewrite Hrows. }
  assert (∃ fr3 r3, (if init' then Display.draw_scroll f (FrameState.set_y 0 fr2)
      else Ok (FrameState.set_y 0 fr2)) = Ok fr3
    ∧ step fr2 r2 fr3 r3 ∧ row_inv init' f fr3 r3 0 ∧ forced fr3 = false) as (fr3 & r3 & -> & Hst3 & Hinv3 & Hf3).
  { destruct init'; [by apply (draw_scroll_spec f (FrameState.set_y 0 fr2))|].
    eexists _, r2. conjs; [done|exact (step_refl fr2 r2)|done|done]. }
  cbn [mbind result_bind].
  destruct (draw_rows_spec D init' f fr3 r3 Hdraw Hinv3) as (fr4 & r4 & -> & Hst4 & Hy4 & Hinv4 & Hf4); [done|].
  cbn [mbind result_bind].
  destruct (end_spec init' f fr4 r4) as (r5 & Hst5 & Hp5 & Hpend5 & Hh5 & Hlook & ? & ? & ? & ?); try done.
  pose proof (step_trans _ _ _ _ _ _ Hst2 (step_trans _ _ _ _ _ _ Hst3 (step_trans _ _ _ _ _ _ Hst4 Hst5)))
    as [(s & Hs & He) Hmeta].
  exists (s1 ++ s), r5. conjs; try done.
  - by rewrite Hs.
  - by eapply effect_app.
  - unfold meta in Hmeta. simplify_eq. apply appearance_intro; try done; try congruence; [apply Hp5|].
    rewrite Hds in *. done.
Qed.


End frame.

(** The frame after some octets on a fresh screen of eight by three *)
Definition shown (s : list Z) : Framebuffer.t :=
  match (c ← @Complete.make 8 3; @Complete.act _ with_marks s c) with
  | Ok (_, c) => Emulator.fb (Complete.terminal c)
  | Fault _ => ScreenTheorems.sample 1
  end.

Definition before_lines : list Z := bytes_of_string "one" ++ [13; 10] ++ bytes_of_string "two".

(** A scrolled screen with colour, a combining character and a title *)
Definition after_lines : list Z :=
  before_lines ++ [13; 10] ++ [27; 93; 50; 59] ++ bytes_of_string "ti" ++ [7]
  ++ bytes_of_string "three" ++ [13; 10; 27] ++ bytes_of_string "[31me" ++ [0xCC; 0x81]
  ++ bytes_of_string " wrapped".

Definition before_screen : Framebuffer.t :=
  ltac:(let f := eval vm_compute in (shown before_lines) in exact f).

Definition after_screen : Framebuffer.t :=
  ltac:(let f := eval vm_compute in (shown after_lines) in exact f).

#[local] Instance with_marks_spacing : @SpacingLaws with_marks.
Proof. by split. Qed.


End FrameTheorems.
