(* ===== verification/TransportFragment.v ===== *)
(** * Fragments

    [src/alfalfa/src/network/transportfragment.h] and
    [transportfragment.cc]: an instruction is serialized, cut into fragments
    that fit a datagram and put together again at the other end, whatever
    the order and multiplicity in which the fragments arrive.  The
    serialization is generated from
    [src/alfalfa/src/protobufs/transportinstruction.proto] by the protocol
    buffer compiler and is an interface here. *)

From S2P Require Import Prelude.

(** ** The instruction message *)

Record Instruction : Set := mkInstruction {
  old_num : option Z;
  new_num : option Z;
  ack_num : option Z;
  throwaway_num : option Z;
  diff : option (list Z) }.

#[export] Instance Instruction_eq_dec : EqDecision Instruction.
Proof. solve_decision. Defined.

Class InstructionCodec := {
  SerializeAsString : Instruction → list Z;
  ParseFromString : list Z → option Instruction }.

(** Protocol buffers: what is serialized parses back. *)
Class InstructionCodecLaws `{InstructionCodec} : Prop :=
  parse_serialize i : ParseFromString (SerializeAsString i) = Some i.

(** ** Byte order *)

(** [network_order_string]: the octets of an unsigned integer of [n]
    octets, most significant first *)
Fixpoint be_bytes (n : nat) (x : Z) : list Z :=
  match n with
  | O => []
  | S n' => be_bytes n' (Z.shiftr x 8) ++ [Z.land x 255]
  end.

Definition network_order_string16 (host_order : Z) : list Z := be_bytes 2 (u16 host_order).
Definition network_order_string64 (host_order : Z) : list Z := be_bytes 8 (u64 host_order).

(** [be16toh], [be64toh] of the octets in memory *)
Definition be_value (bs : list Z) : Z := fold_left (fun acc b => Z.lor (Z.shiftl acc 8) b) bs 0.

(** ** Class [Fragment] *)

Module Fragment.

Definition HEADER_LEN : Z := 66.
Definition frag_header_len : Z := 10.

Record t : Set := mk {
  id : Z;
  fragment_num : Z;
  final : bool;
  initialized : bool;
  contents : list Z }.

#[export] Instance t_eq_dec : EqDecision t.
Proof. solve_decision. Defined.

(** The default constructor *)
Definition empty : t := mk (u64 (-1)) (u16 (-1)) false false [].

Definition make (s_id s_fragment_num : Z) (s_final : bool) (s_contents : list Z) : t :=
  mk (u64 s_id) (u16 s_fragment_num) s_final true s_contents.

Definition tostring (f : t) : result (list Z) :=
  assert_that (initialized f) "initialized";;
  let ret := network_order_string64 (id f) in
  assert_that (Z.land (fragment_num f) 0x8000 =? 0) "!( fragment_num & 0x8000 )";;
  let combined_fragment_num :=
    u16 (Z.lor (Z.shiftl (Z.b2z (final f)) 15) (fragment_num f)) in
  let ret := ret ++ network_order_string16 combined_fragment_num in
  assert_that (zlen ret =? frag_header_len) "ret.size() == frag_header_len";;
  Ok (ret ++ contents f).

(** The parsing constructor; [x.begin() + frag_header_len] is evaluated
    before the assertion. *)
Definition parse (x : list Z) : result t :=
  if zlen x <? frag_header_len then Fault OutOfRange
  else
    let id := be_value (take 8 x) in
    let fragment_num := be_value (take 2 (drop 8 x)) in
    let final := negb (Z.shiftr (Z.land fragment_num 0x8000) 15 =? 0) in
    Ok (mk id (Z.land fragment_num 0x7FFF) final true (drop 10 x)).

Definition eqb (x y : t) : bool :=
  (id x =? id y) && (fragment_num x =? fragment_num y) && Bool.eqb (final x) (final y)
  && Bool.eqb (initialized x) (initialized y) && list_eqb Z.eqb (contents x) (contents y).

End Fragment.

(** ** Class [FragmentAssembly] *)

Module FragmentAssembly.

Record t : Set := mk {
  fragments : list Fragment.t;
  current_id : Z;
  fragments_arrived : Z;
  fragments_total : Z }.

Definition make : t := mk [] (u64 (-1)) 0 (-1).

(** [fragments.at( i ) = frag] *)
Definition store (frag : Fragment.t) (l : list Fragment.t) : result (list Fragment.t) :=
  vec_set l (Fragment.fragment_num frag) frag.

(** The arrival of a fragment: of a new packet, known, or new *)
Definition record_fragment (frag : Fragment.t) (a : t) : result t :=
  let num := Fragment.fragment_num frag in
  if negb (current_id a =? Fragment.id frag) then
    l ← store frag (vec_resize (num + 1) Fragment.empty []);
    Ok (mk l (Fragment.id frag) 1 (-1))
  else
    have ← (if num <? zlen (fragments a)
            then f ← vec_get (fragments a) num; Ok (Fragment.initialized f)
            else Ok false);
    if (have : bool) then
      f ← vec_get (fragments a) num;
      assert_that (Fragment.eqb f frag) "fragments.at( frag.fragment_num ) == frag";;
      Ok a
    else
      let l := if zlen (fragments a) <? num + 1
               then vec_resize (num + 1) Fragment.empty (fragments a) else fragments a in
      l ← store frag l;
      Ok (mk l (current_id a) (fragments_arrived a + 1) (fragments_total a)).

(** The final fragment tells how many there are. *)
Definition note_final (frag : Fragment.t) (a : t) : result t :=
  if Fragment.final frag then
    let total := Fragment.fragment_num frag + 1 in
    assert_that (zlen (fragments a) <=? total) "(int)fragments.size() <= fragments_total";;
    Ok (mk (vec_resize total Fragment.empty (fragments a)) (current_id a)
          (fragments_arrived a) total)
  else Ok a.

Definition add_fragment (frag : Fragment.t) (a : t) : result (bool * t) :=
  a ← record_fragment frag a;
  a ← note_final frag a;
  (if fragments_total a =? -1 then Ok tt
   else assert_that (fragments_arrived a <=? fragments_total a)
          "fragments_arrived <= fragments_total");;
  Ok (fragments_arrived a =? fragments_total a, a).

Definition get_assembly `{InstructionCodec} (a : t) : result (Instruction * t) :=
  assert_that (fragments_arrived a =? fragments_total a) "fragments_arrived == fragments_total";;
  encoded ← for_range 0 (fragments_total a) (fun i encoded =>
    f ← vec_get (fragments a) i;
    assert_that (Fragment.initialized f) "fragments.at( i ).initialized";;
    Ok (encoded ++ Fragment.contents f)) [];
  match ParseFromString encoded with
  | None => Fault (AssertFailed "ret.ParseFromString( encoded )")
  | Some ret => Ok (ret, mk [] (current_id a) 0 (-1))
  end.

End FragmentAssembly.

(** ** Class [Fragmenter] *)

Module Fragmenter.

Definition t : Set := Z.
Definition make : t := 0.

(** The loop over the payload.  With [MTU] above [HEADER_LEN] every
    iteration consumes at least one octet, so the length of the payload is
    enough fuel; with [MTU] equal to it the source does not terminate. *)
Fixpoint split_payload (fuel : nat) (id MTU : Z) (payload : list Z) (fragment_num : Z)
    (ret : list Fragment.t) : result (list Fragment.t) :=
  match payload with
  | [] => Ok ret
  | _ =>
      match fuel with
      | O => Fault OutOfFuel
      | S fuel' =>
          if MTU <? to_int (zlen payload + Fragment.HEADER_LEN) then
            if MTU - Fragment.HEADER_LEN <? 0 then Fault OutOfRange
            else
              let n := Z.to_nat (MTU - Fragment.HEADER_LEN) in
              split_payload fuel' id MTU (drop n payload) (u16 (fragment_num + 1))
                (vec_push ret (Fragment.make id fragment_num false (take n payload)))
          else
            split_payload fuel' id MTU [] (u16 (fragment_num + 1))
              (vec_push ret (Fragment.make id fragment_num true payload))
      end
  end.

Definition make_fragments `{InstructionCodec} (inst : Instruction) (MTU : Z) (s : t)
    : result (list Fragment.t * t) :=
  let next_instruction_id := u64 (s + 1) in
  let payload := SerializeAsString inst in
  ret ← split_payload (length payload) next_instruction_id MTU payload 0 [];
  Ok (ret, next_instruction_id).

End Fragmenter.
