(* ===== verification/Octets.v ===== *)
(** * Octets and byte order

    The lemmas on big-endian numbers that the wire formats and the cipher
    share: [be_bytes] and [be_value] are inverse, and both commute with
    concatenation and exclusive or. *)

From S2P Require Import Prelude TransportFragment.

Definition octet (b : Z) : Prop := 0 ≤ b < 256.

(** ** Byte order *)

Lemma be_bytes_length n x : length (be_bytes n x) = n.
Proof. revert x. induction n as [|n IH]; intros x; [done|]. cbn. rewrite length_app, IH. cbn. lia. Qed.

Lemma shift_split x : Z.lor (Z.shiftl (Z.shiftr x 8) 8) (Z.land x 255) = x.
Proof.
  apply Z.bits_inj'. intros k Hk. change 255 with (Z.ones 8).
  rewrite Z.lor_spec, Z.shiftl_spec, Z.land_spec by done.
  destruct (decide (k < 8)) as [Hlt|Hge].
  - rewrite Z.testbit_neg_r, Z.ones_spec_low by lia. by rewrite andb_true_r.
  - rewrite Z.shiftr_spec, Z.ones_spec_high by lia. rewrite andb_false_r, orb_false_r.
    f_equal. lia.
Qed.

Lemma be_value_bytes n x : 0 ≤ x < 2 ^ (8 * Z.of_nat n) → be_value (be_bytes n x) = x.
Proof.
  revert x. induction n as [|n IH]; intros x Hx.
  { change (2 ^ _) with 1 in Hx. cbn. lia. }
  cbn [be_bytes]. unfold be_value. rewrite fold_left_app. cbn [fold_left].
  change (fold_left _ (be_bytes n _) 0) with (be_value (be_bytes n (Z.shiftr x 8))).
  rewrite IH; [apply shift_split|]. rewrite Z.shiftr_div_pow2 by lia.
  replace (8 * Z.of_nat (S n)) with (8 * Z.of_nat n + 8) in Hx by lia.
  rewrite Z.pow_add_r in Hx by lia. split; [apply Z.div_pos; lia|].
  apply Z.div_lt_upper_bound; lia.
Qed.

Lemma be_value_snoc bs b : be_value (bs ++ [b]) = Z.lor (Z.shiftl (be_value bs) 8) b.
Proof. unfold be_value. by rewrite fold_left_app. Qed.

Lemma shiftr_octet x b : octet b → Z.shiftr (Z.lor (Z.shiftl x 8) b) 8 = x.
Proof.
  intros Hb. rewrite Z.shiftr_lor, Z.shiftr_shiftl_l, Z.shiftl_0_r by lia.
  rewrite (Z.shiftr_div_pow2 b), Z.div_small, Z.lor_0_r by (unfold octet in *; lia). done.
Qed.

Lemma land_octet x b : octet b → Z.land (Z.lor (Z.shiftl x 8) b) 255 = b.
Proof.
  intros Hb. rewrite Z.land_lor_distr_l. change 255 with (Z.ones 8).
  rewrite !Z.land_ones, Z.shiftl_mul_pow2, Z.mod_mul, Z.mod_small by (unfold octet in *; lia). done.
Qed.

Lemma be_bytes_value bs : Forall octet bs → be_bytes (length bs) (be_value bs) = bs.
Proof.
  induction bs as [|b bs IH] using rev_ind; intros Hall; [done|].
  apply Forall_app in Hall as [Hbs Hb%Forall_inv].
  rewrite length_app, Nat.add_comm, be_value_snoc. cbn [length Nat.add be_bytes].
  by rewrite shiftr_octet, land_octet, IH.
Qed.

Lemma be_value_range bs : Forall octet bs → 0 ≤ be_value bs < 2 ^ (8 * zlen bs).
Proof.
  induction bs as [|b bs IH] using rev_ind; intros Hall; [done|].
  apply Forall_app in Hall as [Hbs Hb%Forall_inv]. specialize (IH Hbs).
  rewrite be_value_snoc, zlen_app. change (zlen [b]) with 1. pose proof (zlen_nonneg bs).
  rewrite Z.shiftl_mul_pow2 by lia. pose proof (Z.add_lor_land (be_value bs * 2 ^ 8) b) as Hsum.
  assert (Z.land (be_value bs * 2 ^ 8) b = 0) as Hz; [|rewrite Hz in Hsum].
  { rewrite <- (Z.mod_small b (2 ^ 8)) by (unfold octet in Hb; lia).
    rewrite <- Z.land_ones, (Z.land_comm b), Z.land_assoc, Z.land_ones, Z.mod_mul by lia.
    apply Z.land_0_l. }
  replace (8 * (zlen bs + 1)) with (8 * zlen bs + 8) by lia. rewrite Z.pow_add_r by lia.
  unfold octet in Hb. lia.
Qed.

(** ** Concatenation and exclusive or *)

Lemma octet_land x : octet (Z.land x 255).
Proof. change 255 with (Z.ones 8). rewrite Z.land_ones by lia. unfold octet. pose proof (Z.mod_pos_bound x (2 ^ 8)). lia. Qed.

Lemma be_bytes_octets n x : Forall octet (be_bytes n x).
Proof.
  revert x. induction n as [|n IH]; intros x; [done|]. cbn. apply Forall_app. split; [done|].
  apply Forall_singleton, octet_land.
Qed.

(** A number above and one below the bit [n] *)
Lemma testbit_high x n k : 0 ≤ x < 2 ^ n → n ≤ k → Z.testbit x k = false.
Proof.
  intros Hx Hk. destruct (decide (x = 0)) as [->|]; [apply Z.testbit_0_l|].
  apply Z.bits_above_log2; [lia|]. apply Z.log2_lt_pow2; [lia|].
  apply Z.lt_le_trans with (2 ^ n); [lia|]. apply Z.pow_le_mono_r; lia.
Qed.

Lemma lor_shiftl_add hi lo n : 0 ≤ n → 0 ≤ lo < 2 ^ n → Z.lor (Z.shiftl hi n) lo = hi * 2 ^ n + lo.
Proof.
  intros Hn Hlo. rewrite <- (Z.shiftl_mul_pow2 hi n) by done.
  pose proof (Z.add_lor_land (Z.shiftl hi n) lo) as Hsum.
  assert (Z.land (Z.shiftl hi n) lo = 0) as Hz; [|lia].
  apply Z.bits_inj'. intros k Hk. rewrite Z.land_spec, Z.shiftl_spec, Z.testbit_0_l by done.
  destruct (decide (k < n)); [by rewrite (Z.testbit_neg_r hi) by lia|].
  rewrite (testbit_high lo n k) by lia. apply andb_false_r.
Qed.

Lemma lxor_shiftl_lor a b c d n : 0 ≤ n → 0 ≤ b < 2 ^ n → 0 ≤ d < 2 ^ n →
  Z.lxor (Z.lor (Z.shiftl a n) b) (Z.lor (Z.shiftl c n) d)
  = Z.lor (Z.shiftl (Z.lxor a c) n) (Z.lxor b d).
Proof.
  intros Hn Hb Hd. apply Z.bits_inj'. intros k Hk.
  rewrite !Z.lxor_spec, !Z.lor_spec, !Z.shiftl_spec, !Z.lxor_spec by done.
  destruct (decide (k < n)).
  - by rewrite (Z.testbit_neg_r a), (Z.testbit_neg_r c) by lia.
  - rewrite (testbit_high b n k), (testbit_high d n k) by lia. by rewrite !orb_false_r.
Qed.

Lemma lxor_range a b n : 0 ≤ n → 0 ≤ a < 2 ^ n → 0 ≤ b < 2 ^ n → 0 ≤ Z.lxor a b < 2 ^ n.
Proof.
  intros Hn Ha Hb. assert (0 ≤ Z.lxor a b) by (apply Z.lxor_nonneg; lia). split; [done|].
  destruct (decide (Z.lxor a b = 0)) as [->|Hne]; [lia|]. apply Z.log2_lt_pow2; [lia|].
  apply Z.nle_gt. intros Hle. assert (Z.testbit (Z.lxor a b) (Z.log2 (Z.lxor a b)) = true) as Hbit
    by (apply Z.bit_log2; lia).
  by rewrite Z.lxor_spec, (testbit_high a n), (testbit_high b n) in Hbit by lia.
Qed.

Lemma octet_lxor a b : octet a → octet b → octet (Z.lxor a b).
Proof. apply (lxor_range a b 8). lia. Qed.

Lemma be_value_app xs ys : Forall octet ys →
  be_value (xs ++ ys) = Z.lor (Z.shiftl (be_value xs) (8 * zlen ys)) (be_value ys).
Proof.
  intros Hys. induction ys as [|y ys IH] using rev_ind.
  { rewrite app_nil_r. change (8 * zlen []) with 0. by rewrite Z.shiftl_0_r, Z.lor_0_r. }
  apply Forall_app in Hys as [Hys Hy%Forall_inv]. specialize (IH Hys).
  rewrite app_assoc, !be_value_snoc, IH, zlen_app. change (zlen [y]) with 1. pose proof (zlen_nonneg ys).
  rewrite Z.shiftl_lor, Z.shiftl_shiftl, Z.lor_assoc by lia. do 2 f_equal. f_equal. lia.
Qed.

Lemma be_value_lxor xs ys : length xs = length ys → Forall octet xs → Forall octet ys →
  be_value (zip_with Z.lxor xs ys) = Z.lxor (be_value xs) (be_value ys).
Proof.
  revert ys. induction xs as [|x xs IH] using rev_ind; intros ys Hlen Hxs Hys.
  { by destruct ys. }
  destruct ys as [|y ys _] using rev_ind; [rewrite length_app in Hlen; cbn in Hlen; lia|].
  rewrite !length_app in Hlen. cbn in Hlen.
  apply Forall_app in Hxs as [Hxs Hx%Forall_inv], Hys as [Hys Hy%Forall_inv].
  rewrite zip_with_app by lia. cbn [zip_with]. rewrite !be_value_snoc, IH by (done || lia).
  symmetry. by apply lxor_shiftl_lor.
Qed.

Lemma be_bytes_lxor n x y : be_bytes n (Z.lxor x y) = zip_with Z.lxor (be_bytes n x) (be_bytes n y).
Proof.
  revert x y. induction n as [|n IH]; intros x y; [done|]. cbn.
  rewrite zip_with_app by by rewrite !be_bytes_length.
  rewrite Z.shiftr_lxor, IH. cbn. do 2 f_equal. apply Z.bits_inj'. intros k Hk.
  rewrite !Z.land_spec, !Z.lxor_spec, !Z.land_spec.
  by destruct (Z.testbit x k), (Z.testbit y k), (Z.testbit 255 k).
Qed.

Lemma be_bytes_zlen n x : zlen (be_bytes n x) = Z.of_nat n.
Proof. unfold zlen. by rewrite be_bytes_length. Qed.
