(* ===== verification/FragmentProps.v ===== *)
(** * Properties of fragmentation

    The wire format of a fragment round-trips; a payload is cut into
    numbered pieces that fit the datagram; and the receiver puts them
    together from any arrival order, with duplicates. *)

From S2P Require Import Prelude TransportFragment Octets.

Module FragmentTheorems.

#[local] Existing Instance Fragment.t_eq_dec.

(** ** The wire format *)

(** The flag bit and the fifteen bits of the number do not overlap. *)
Lemma land_small x : 0 ≤ x < 2 ^ 15 → Z.land x 0x8000 = 0 ∧ Z.land x 0x7FFF = x.
Proof.
  intros Hx. split.
  - rewrite <- (Z.mod_small x (2 ^ 15)) by done. rewrite <- Z.land_ones, <- Z.land_assoc by lia.
    change (Z.land (Z.ones 15) 32768) with 0. apply Z.land_0_r.
  - change 0x7FFF with (Z.ones 15). rewrite Z.land_ones by lia. by apply Z.mod_small.
Qed.

Lemma combined_num (b : bool) x :
  0 ≤ x < 2 ^ 15 →
  let c := u16 (Z.lor (Z.shiftl (Z.b2z b) 15) x) in
  0 ≤ c < 2 ^ 16 ∧ negb (Z.shiftr (Z.land c 0x8000) 15 =? 0) = b ∧ Z.land c 0x7FFF = x.
Proof.
  intros Hx. cbv zeta. destruct (land_small x Hx) as [H1 H2].
  assert (u16 (Z.lor (Z.shiftl (Z.b2z b) 15) x) = Z.lor (Z.shiftl (Z.b2z b) 15) x) as Hc.
  { unfold uwrap. rewrite <- Z.land_ones, Z.land_lor_distr_l by lia. f_equal; [by destruct b|].
    rewrite Z.land_ones by lia. apply Z.mod_small. lia. }
  split; [apply uwrap_range; lia|]. rewrite Hc, !Z.land_lor_distr_l, H1, H2. by destruct b.
Qed.

Definition frag_ok (f : Fragment.t) : Prop :=
  Fragment.initialized f = true ∧ 0 ≤ Fragment.id f < 2 ^ 64
  ∧ 0 ≤ Fragment.fragment_num f < 2 ^ 15.

(** The header takes ten octets. *)
Lemma tostring_length f :
  frag_ok f → ∃ x, Fragment.tostring f = Ok x ∧ zlen x = 10 + zlen (Fragment.contents f).
Proof.
  intros (Hi & Hid & Hnum). unfold Fragment.tostring. rewrite Hi. cbn [assert_that mbind result_bind].
  destruct (land_small (Fragment.fragment_num f) Hnum) as [-> _].
  change (assert_that (0 =? 0) _) with (Ok tt). cbn [mbind result_bind].
  assert (∀ x c, zlen (network_order_string64 x ++ network_order_string16 c) = 10) as Hl.
  { intros x c. rewrite zlen_app. unfold zlen, network_order_string64, network_order_string16.
    by rewrite !be_bytes_length. }
  rewrite Hl. change (assert_that (10 =? _) _) with (Ok tt). cbn [mbind result_bind].
  eexists. split; [done|]. by rewrite zlen_app, Hl.
Qed.

(** A fragment survives its wire format: what [tostring] writes, the
    parsing constructor reads back, flag and all, as long as the number
    fits in fifteen bits; a larger number is stopped by the assertion. *)
Theorem fragment_roundtrip (f : Fragment.t) :
  Fragment.initialized f = true → 0 ≤ Fragment.id f < 2 ^ 64 →
  0 ≤ Fragment.fragment_num f < 2 ^ 16 →
  match Fragment.tostring f with
  | Ok x => Fragment.fragment_num f < 2 ^ 15 ∧ Fragment.parse x = Ok f
  | Fault ft => 2 ^ 15 ≤ Fragment.fragment_num f
                ∧ ft = AssertFailed "!( fragment_num & 0x8000 )"
  end.
Proof.
  intros Hi Hid Hnum. unfold Fragment.tostring. rewrite Hi. cbn [assert_that mbind result_bind].
  destruct (decide (Fragment.fragment_num f < 2 ^ 15)) as [Hlt|Hge].
  - destruct (land_small (Fragment.fragment_num f) ltac:(lia)) as [-> _].
    change (assert_that (0 =? 0) _) with (Ok tt). cbn [mbind result_bind].
    destruct (combined_num (Fragment.final f) (Fragment.fragment_num f) ltac:(lia)) as (Hc & Hf & Hn).
    set (c := u16 (Z.lor _ _)) in *. clearbody c.
    unfold network_order_string64, network_order_string16.
    rewrite (uwrap_small 64), (uwrap_small 16) by done.
    pose proof (be_bytes_length 8 (Fragment.id f)) as Hl8.
    pose proof (be_bytes_length 2 c) as Hl2.
    rewrite zlen_app. unfold zlen. rewrite Hl8, Hl2.
    change (assert_that (Z.of_nat 8 + Z.of_nat 2 =? _) _) with (Ok tt). cbn [mbind result_bind].
    split; [done|]. unfold Fragment.parse.
    assert ((zlen ((be_bytes 8 (Fragment.id f) ++ be_bytes 2 c) ++ Fragment.contents f)
      <? Fragment.frag_header_len) = false) as ->.
    { rewrite !zlen_app. unfold zlen. rewrite Hl8, Hl2. unfold Fragment.frag_header_len. apply Z.ltb_ge. change (Z.of_nat 8) with 8. change (Z.of_nat 2) with 2. lia. }
    rewrite <- app_assoc, (take_app_length' _ _ 8), (drop_app_length' _ _ 8) by done.
    rewrite (take_app_length' _ _ 2) by done.
    rewrite app_assoc, (drop_app_length' _ _ 10) by (by rewrite length_app, Hl8, Hl2).
    rewrite !be_value_bytes by (cbn; lia). rewrite Hf, Hn. destruct f. cbn in *. by subst.
  - assert (Z.testbit (Fragment.fragment_num f) 15 = true) as Hbit.
    { apply Z.testbit_true; [lia|]. assert (Fragment.fragment_num f / 2 ^ 15 = 1) as ->; [|done].
      symmetry. apply Z.div_unique with (Fragment.fragment_num f - 2 ^ 15); lia. }
    assert (Z.land (Fragment.fragment_num f) 0x8000 ≠ 0) as Hne.
    { intros Hz. assert (Z.testbit (Z.land (Fragment.fragment_num f) 0x8000) 15 = true) as Hb.
      { rewrite Z.land_spec, Hbit. done. }
      by rewrite Hz in Hb. }
    rewrite (proj2 (Z.eqb_neq _ _) Hne). cbn. split; [lia|done].
Qed.

Lemma fragment_roundtrip_witness :
  match Fragment.tostring (Fragment.make 7 3 true [1; 2; 3]) with
  | Ok x => 3 < 2 ^ 15 ∧ Fragment.parse x = Ok (Fragment.make 7 3 true [1; 2; 3])
  | Fault ft => 2 ^ 15 ≤ 3 ∧ ft = AssertFailed "!( fragment_num & 0x8000 )"
  end.
Proof. apply (fragment_roundtrip (Fragment.make 7 3 true [1; 2; 3])); by vm_compute. Defined.

(** ** Cutting a payload *)

(** The fragments [l], numbered from [k], are the pieces of [payload], each
    of one to [m] octets, and exactly the last is final. *)
Definition is_split (id m k : Z) (payload : list Z) (l : list Fragment.t) : Prop :=
  l ≠ [] ∧ concat (Fragment.contents <$> l) = payload
  ∧ ∀ i f, l !! i = Some f →
      f = Fragment.mk id (k + Z.of_nat i) (bool_decide (S i = length l)) true (Fragment.contents f)
      ∧ 1 ≤ zlen (Fragment.contents f) ≤ m.

Lemma is_split_cons id m k c payload l :
  is_split id m (k + 1) payload l → 1 ≤ zlen c ≤ m →
  is_split id m k (c ++ payload) (Fragment.mk id k false true c :: l).
Proof.
  intros (Hne & Hcat & Hall) Hc. split_and!; [done|by cbn; rewrite Hcat|].
  intros [|i] f Hf; cbn in Hf.
  - simplify_eq. rewrite bool_decide_eq_false_2; [|destruct l; [done|cbn; lia]].
    split; [f_equal; lia|done].
  - destruct (Hall i f Hf) as [-> ?]. split; [|done]. cbn. f_equal; [lia|].
    apply bool_decide_ext. lia.
Qed.

Lemma split_payload_spec fuel id MTU payload k ret :
  0 ≤ id < 2 ^ 64 → Fragment.HEADER_LEN < MTU →
  payload ≠ [] → (length payload ≤ fuel)%nat →
  zlen payload + Fragment.HEADER_LEN < 2 ^ 31 →
  0 ≤ k < 2 ^ 15 → zlen payload ≤ (2 ^ 15 - k) * (MTU - Fragment.HEADER_LEN) →
  ∃ l, Fragmenter.split_payload fuel id MTU payload k ret = Ok (ret ++ l)
    ∧ is_split id (MTU - Fragment.HEADER_LEN) k payload l ∧ k + zlen l ≤ 2 ^ 15.
Proof.
  intros Hid HM. unfold Fragment.HEADER_LEN in *. revert payload k ret.
  induction fuel as [|fuel IH]; intros payload k ret Hne Hfuel Hint Hk Hlen;
    (destruct payload as [|b payload]; [done|]); [cbn in Hfuel; lia|].
  cbn [Fragmenter.split_payload]. set (p := b :: payload) in *.
  assert (1 ≤ zlen p) by (unfold p; rewrite zlen_cons; pose proof (zlen_nonneg payload); lia).
  unfold Fragment.HEADER_LEN. rewrite to_int_small by lia.
  destruct (MTU <? zlen p + 66) eqn:Hbig.
  - z_bools. set (n := Z.to_nat (MTU - 66)).
    assert (Z.of_nat n = MTU - 66) as Hn by (unfold n; lia). clearbody n.
    assert (length (drop n p) = (length p - n)%nat) as Hld by apply length_drop.
    assert (zlen (drop n p) = zlen p - (MTU - 66)) as Hzd.
    { unfold zlen in *. rewrite Hld. lia. }
    assert (k < 2 ^ 15 - 1) as Hk1.
    { destruct (decide (k = 2 ^ 15 - 1)) as [->|]; [|lia].
      replace (2 ^ 15 - (2 ^ 15 - 1)) with 1 in Hlen by lia. lia. }
    rewrite (uwrap_small 16 (k + 1)) by lia.
    destruct (IH (drop n p) (k + 1) (vec_push ret (Fragment.make id k false (take n p))))
      as (l & -> & Hl & Hcount).
    + intros Hd. rewrite Hd in Hzd. change (zlen []) with 0 in Hzd. lia.
    + unfold zlen in *. lia.
    + lia.
    + lia.
    + rewrite Hzd. nia.
    + eexists. unfold vec_push. rewrite <- app_assoc. split; [done|].
      unfold Fragment.make. rewrite (uwrap_small 64), (uwrap_small 16) by lia.
      pose proof (is_split_cons id (MTU - 66) k (take n p) (drop n p) l Hl) as Hs.
      rewrite take_drop in Hs. split; [|cbn [app]; rewrite zlen_cons; lia].
      apply Hs. unfold zlen in *. rewrite length_take. lia.
  - eexists. split.
    { destruct fuel; cbn [Fragmenter.split_payload]; done. }
    unfold Fragment.make. rewrite (uwrap_small 64), (uwrap_small 16) by lia.
    split; [|rewrite zlen_cons, zlen_nil; lia].
    split_and!; [done|by cbn; rewrite app_nil_r|]. intros [|i] f Hf; [|done]. cbn in Hf. simplify_eq.
    split; [f_equal; lia|]. cbn [Fragment.contents]. lia.
Qed.

Section fragmenter.
Context `{InstructionCodec}.

(** An instruction whose serialization fits 2{^15} fragments *)
Definition fits (inst : Instruction) (MTU : Z) : Prop :=
  Fragment.HEADER_LEN < MTU
  ∧ SerializeAsString inst ≠ []
  ∧ zlen (SerializeAsString inst) + Fragment.HEADER_LEN < 2 ^ 31
  ∧ zlen (SerializeAsString inst) ≤ 2 ^ 15 * (MTU - Fragment.HEADER_LEN).

Lemma make_fragments_spec inst MTU s :
  fits inst MTU →
  ∃ l, Fragmenter.make_fragments inst MTU s = Ok (l, u64 (s + 1))
    ∧ is_split (u64 (s + 1)) (MTU - Fragment.HEADER_LEN) 0 (SerializeAsString inst) l
    ∧ zlen l ≤ 2 ^ 15.
Proof.
  intros (HM & Hne & Hint & Hlen). unfold Fragmenter.make_fragments.
  pose proof (uwrap_range 64 (s + 1)).
  destruct (split_payload_spec (length (SerializeAsString inst)) (u64 (s + 1)) MTU
    (SerializeAsString inst) 0 []) as (l & -> & Hl & ?); [lia|done..|lia|lia|].
  exists l. by split.
Qed.

(** C15.  Fragmentation terminates and is faithful: for a datagram larger
    than the header, a non-empty serialization comes out as fragments of the
    next instruction number whose contents concatenate to it, numbered from
    zero, each non-empty and within the datagram, exactly the last marked
    final - so each one has a wire form. *)
Theorem fragmentation (inst : Instruction) (MTU s : Z) :
  fits inst MTU →
  ∃ l, Fragmenter.make_fragments inst MTU s = Ok (l, u64 (s + 1))
    ∧ concat (Fragment.contents <$> l) = SerializeAsString inst
    ∧ ∀ i f, l !! i = Some f →
        Fragment.id f = u64 (s + 1) ∧ Fragment.fragment_num f = Z.of_nat i
        ∧ Fragment.final f = bool_decide (S i = length l)
        ∧ 1 ≤ zlen (Fragment.contents f) ≤ MTU - Fragment.HEADER_LEN
        ∧ ∃ x, Fragment.tostring f = Ok x ∧ zlen x ≤ MTU - Fragment.HEADER_LEN + 10.
Proof.
  intros Hfits. pose proof Hfits as (HM & _ & _ & Hlen).
  destruct (make_fragments_spec inst MTU s Hfits) as (l & Heq & (_ & Hcat & Hall) & Hn).
  exists l. split_and!; [done..|]. intros i f Hf. destruct (Hall i f Hf) as [-> Hc].
  cbn [Fragment.id Fragment.fragment_num Fragment.final Fragment.contents].
  cbn [Fragment.contents] in Hc. split_and!; [done|lia|done|lia|lia|].
  apply lookup_lt_Some in Hf. pose proof (uwrap_range 64 (s + 1)).
  match goal with |- ∃ x, Fragment.tostring ?g = _ ∧ _ =>
    destruct (tostring_length g) as (x & -> & Hx) end.
  { split_and!; cbn; [done|lia..|]. unfold zlen in Hn. lia. }
  exists x. split; [done|]. rewrite Hx. cbn [Fragment.contents]. lia.
Qed.
End fragmenter.

(** ** Reassembly *)

(** The number of fragments present *)
Definition present (l : list Fragment.t) : Z :=
  zlen (filter (fun f => Fragment.initialized f = true) l).

Lemma present_app l k : present (l ++ k) = present l + present k.
Proof. unfold present. by rewrite filter_app, zlen_app. Qed.

Lemma present_cons f l : present (f :: l) = (if Fragment.initialized f then 1 else 0) + present l.
Proof.
  unfold present. rewrite filter_cons. case_decide as Hi.
  - rewrite Hi. by rewrite zlen_cons.
  - destruct (Fragment.initialized f); [done|]. lia.
Qed.

Lemma present_empty n : present (replicate n Fragment.empty) = 0.
Proof. induction n as [|n IH]; [done|]. cbn [replicate]. by rewrite present_cons, IH. Qed.

Lemma present_nonneg l : 0 ≤ present l.
Proof. apply zlen_nonneg. Qed.

Lemma present_le l : present l ≤ zlen l.
Proof.
  induction l as [|f l IH]; [done|]. rewrite present_cons, zlen_cons.
  destruct (Fragment.initialized f); lia.
Qed.

Lemma present_full l : present l = zlen l → Forall (fun f => Fragment.initialized f = true) l.
Proof.
  induction l as [|f l IH]; [by constructor|]. rewrite present_cons, zlen_cons.
  pose proof (present_le l). destruct (Fragment.initialized f) eqn:Hf; [|lia].
  intros. constructor; [done|apply IH; lia].
Qed.

Lemma present_all l : Forall (fun f => Fragment.initialized f = true) l → present l = zlen l.
Proof. induction 1 as [|f l Hf _ IH]; [done|]. by rewrite present_cons, zlen_cons, Hf, IH. Qed.

(** Filling an empty slot adds one. *)
Lemma present_insert i f g l :
  l !! i = Some g → Fragment.initialized g = false → Fragment.initialized f = true →
  present (<[i := f]> l) = present l + 1.
Proof.
  intros Hg Hgi Hfi. apply lookup_lt_Some in Hg as Hlt.
  rewrite insert_take_drop by done. rewrite <- (take_drop_middle l i g Hg) at 3.
  rewrite !present_app, !present_cons, Hgi, Hfi. lia.
Qed.

Section assembly.
Context (id m : Z) (payload : list Z) (l : list Fragment.t).
Hypothesis Hsplit : is_split id m 0 payload l.

(** What the receiver holds after the arrivals [A], all of them pieces of
    one instruction *)
Definition holds (A : list Fragment.t) (a : FragmentAssembly.t) : Prop :=
  FragmentAssembly.current_id a = id
  ∧ zlen (FragmentAssembly.fragments a) ≤ zlen l
  ∧ (∀ i s, FragmentAssembly.fragments a !! i = Some s → s = Fragment.empty ∨ l !! i = Some s)
  ∧ (∀ i f, l !! i = Some f → (f ∈ A ↔ FragmentAssembly.fragments a !! i = Some f))
  ∧ FragmentAssembly.fragments_arrived a = present (FragmentAssembly.fragments a)
  ∧ (FragmentAssembly.fragments_total a = -1
     ∨ FragmentAssembly.fragments_total a = zlen l
       ∧ zlen (FragmentAssembly.fragments a) = zlen l)
  ∧ (∀ f, l !! (length l - 1)%nat = Some f → f ∈ A → FragmentAssembly.fragments_total a = zlen l).

Lemma piece i f :
  l !! i = Some f →
  Fragment.id f = id ∧ Fragment.fragment_num f = Z.of_nat i
  ∧ Fragment.final f = bool_decide (S i = length l) ∧ Fragment.initialized f = true.
Proof.
  intros Hf. destruct Hsplit as (_ & _ & Hall). destruct (Hall i f Hf) as [Heq _].
  rewrite Heq. cbn. split_and!; [done|lia|done..].
Qed.

Lemma eqb_refl f : Fragment.eqb f f = true.
Proof.
  unfold Fragment.eqb. rewrite !Z.eqb_refl, !eqb_reflx.
  by rewrite (proj2 (list_eqb_spec Z.eqb Z.eqb_eq _ _) eq_refl).
Qed.

(** The first half of [add_fragment]: storing a fragment of the current
    instruction *)
Definition stored (f : Fragment.t) (A : list Fragment.t) (a a1 : FragmentAssembly.t) : Prop :=
  FragmentAssembly.current_id a1 = id
  ∧ FragmentAssembly.fragments_total a1 = FragmentAssembly.fragments_total a
  ∧ zlen (FragmentAssembly.fragments a) ≤ zlen (FragmentAssembly.fragments a1) ≤ zlen l
  ∧ (∀ i s, FragmentAssembly.fragments a1 !! i = Some s → s = Fragment.empty ∨ l !! i = Some s)
  ∧ (∀ i g, l !! i = Some g → (g ∈ A ++ [f] ↔ FragmentAssembly.fragments a1 !! i = Some g))
  ∧ FragmentAssembly.fragments_arrived a1 = present (FragmentAssembly.fragments a1).

(** Growing the vector with empty slots *)
Lemma grow_slots (k : Z) (fs : list Fragment.t) (i : nat) s :
  zlen fs ≤ k → vec_resize k Fragment.empty fs !! i = Some s →
  s = Fragment.empty ∨ fs !! i = Some s.
Proof.
  intros Hk. unfold vec_resize. rewrite resize_ge by (unfold zlen in Hk; lia).
  intros [?|[_ [? _]%lookup_replicate]]%lookup_app_Some; [by right|by left].
Qed.

Lemma grow_keeps k fs i s :
  zlen fs ≤ k → fs !! i = Some s → vec_resize k Fragment.empty fs !! i = Some s.
Proof.
  intros Hk Hs. unfold vec_resize. rewrite resize_ge by (unfold zlen in Hk; lia).
  by apply lookup_app_l_Some.
Qed.

Lemma grow_present k fs : zlen fs ≤ k → present (vec_resize k Fragment.empty fs) = present fs.
Proof.
  intros Hk. unfold vec_resize. rewrite resize_ge by (unfold zlen in Hk; lia).
  rewrite present_app, present_empty. lia.
Qed.

(** Storing a new fragment in its empty slot *)
Lemma fill_slot A a fs i f :
  holds A a → l !! i = Some f → f ∉ A →
  zlen (FragmentAssembly.fragments a) ≤ zlen fs → Z.of_nat i < zlen fs → zlen fs ≤ zlen l →
  fs = vec_resize (zlen fs) Fragment.empty (FragmentAssembly.fragments a) →
  stored f A a (FragmentAssembly.mk (<[i := f]> fs) id
    (FragmentAssembly.fragments_arrived a + 1) (FragmentAssembly.fragments_total a)).
Proof.
  intros (_ & Hlen & Hslots & Hseen & Harr & _) Hf HA Hge Hi Hle Hfs.
  destruct (piece i f Hf) as (_ & _ & _ & Hinit).
  assert (∃ s, fs !! i = Some s ∧ Fragment.initialized s = false) as (s & Hs & Hsi).
  { destruct (lookup_lt_is_Some_2 fs i) as [s Hs]; [unfold zlen in Hi; lia|]. exists s. split; [done|].
    rewrite Hfs in Hs. apply grow_slots in Hs as [->|Hs]; [done| |done].
    destruct (Hslots i s Hs) as [->|Hs']; [done|]. exfalso.
    assert (s = f) as -> by congruence. by apply HA, (Hseen i f Hf). }
  split_and!; cbn -[Z.add]; try done; try (unfold zlen in *; rewrite length_insert; lia).
  - intros j x Hx. destruct (decide (i = j)) as [->|Hne].
    + rewrite list_lookup_insert_eq in Hx by (unfold zlen in Hi; lia). simplify_eq. by right.
    + rewrite list_lookup_insert_ne in Hx by done. rewrite Hfs in Hx.
      apply grow_slots in Hx as [->|Hx]; [by left|by apply Hslots|done].
  - intros j g Hg. rewrite elem_of_app, list_elem_of_singleton, (Hseen j g Hg).
    destruct (decide (i = j)) as [->|Hne].
    + rewrite list_lookup_insert_eq by (unfold zlen in Hi; lia). naive_solver.
    + rewrite list_lookup_insert_ne by done. split.
      * intros [Hin| ->]; [rewrite Hfs; by apply grow_keeps|].
        destruct (piece i f Hf) as (_ & Hi1 & _), (piece j f Hg) as (_ & Hj1 & _). lia.
      * rewrite Hfs. intros [->|Hx]%grow_slots; [|by left|done].
        by destruct (piece j _ Hg) as (_ & _ & _ & ?).
  - rewrite (present_insert i f s) by done. rewrite Hfs, grow_present by done. lia.
Qed.

Lemma resize_same (fs : list Fragment.t) : vec_resize (zlen fs) Fragment.empty fs = fs.
Proof. unfold vec_resize, zlen. rewrite Nat2Z.id. apply resize_all. Qed.

Lemma record_spec A a i f :
  holds A a → l !! i = Some f →
  ∃ a1, FragmentAssembly.record_fragment f a = Ok a1 ∧ stored f A a a1.
Proof.
  intros Ha Hf. pose proof Ha as (Hid & Hlen & Hslots & Hseen & Harr & _).
  destruct (piece i f Hf) as (Hfid & Hfn & _ & Hinit). apply lookup_lt_Some in Hf as Hil.
  unfold FragmentAssembly.record_fragment. rewrite Hid, Hfid, Z.eqb_refl, Hfn. cbn [negb].
  destruct (decide (f ∈ A)) as [HA|HA].
  - apply (Hseen i f Hf) in HA as Hs. apply lookup_lt_Some in Hs as Hlt.
    assert ((Z.of_nat i <? zlen (FragmentAssembly.fragments a)) = true) as -> by (unfold zlen; lia).
    assert (vec_get (FragmentAssembly.fragments a) (Z.of_nat i) = Ok f) as Hget.
    { apply vec_get_Ok. rewrite Nat2Z.id. split; [lia|done]. }
    rewrite Hget. cbn [mbind result_bind]. rewrite Hinit. cbn [mbind result_bind].
    rewrite eqb_refl. cbn. exists a. split; [done|].
    split_and!; try done. intros j g Hg.
    rewrite elem_of_app, list_elem_of_singleton, (Hseen j g Hg). split; [|by left].
    intros [?| ->]; [done|]. destruct (piece j f Hg) as (_ & ? & _). by replace j with i by lia.
  - assert ((if Z.of_nat i <? zlen (FragmentAssembly.fragments a)
       then f ← vec_get (FragmentAssembly.fragments a) (Z.of_nat i); Ok (Fragment.initialized f)
       else Ok false) = Ok false) as ->.
    { destruct (Z.of_nat i <? _) eqn:E; [|done].
      destruct (lookup_lt_is_Some_2 (FragmentAssembly.fragments a) i) as [s Hs]; [unfold zlen in E; lia|].
      rewrite (proj2 (vec_get_Ok _ _ s)) by (rewrite Nat2Z.id; split; [lia|done]). cbn.
      destruct (Hslots i s Hs) as [->|Hs']; [done|]. exfalso. assert (s = f) as -> by congruence.
      by apply HA, (Hseen i f Hf). }
    cbn [mbind result_bind].
    set (fs := if zlen (FragmentAssembly.fragments a) <? Z.of_nat i + 1 then _ else _).
    assert (zlen fs = Z.max (zlen (FragmentAssembly.fragments a)) (Z.of_nat i + 1)) as Hfl.
    { unfold fs. destruct (_ <? _) eqn:E; [rewrite zlen_resize; lia|lia]. }
    assert (fs = vec_resize (zlen fs) Fragment.empty (FragmentAssembly.fragments a)) as Hfs.
    { rewrite Hfl. unfold fs. destruct (_ <? _) eqn:E.
      - f_equal. lia.
      - rewrite Z.max_l by lia. by rewrite resize_same. }
    unfold FragmentAssembly.store. rewrite Hfn, vec_set_Ok by lia. cbn [mbind result_bind].
    eexists. split; [done|]. rewrite Nat2Z.id.
    apply fill_slot; try done; unfold zlen in *; lia.
Qed.

Lemma note_final_spec A a a1 i f :
  holds A a → l !! i = Some f → stored f A a a1 →
  ∃ a2, FragmentAssembly.note_final f a1 = Ok a2 ∧ holds (A ++ [f]) a2.
Proof.
  intros (_ & _ & _ & _ & _ & Htot & Hlast) Hf (Hid & Ht & Hlen & Hslots & Hseen & Harr).
  destruct (piece i f Hf) as (_ & Hfn & Hfin & _). apply lookup_lt_Some in Hf as Hil.
  unfold FragmentAssembly.note_final. rewrite Hfin, Hfn. case_bool_decide as Hend.
  - assert (Z.of_nat i + 1 = zlen l) as Hn by (unfold zlen; lia). rewrite Hn. z_bools.
    cbn [assert_that mbind result_bind]. eexists. split; [done|].
    split_and!; cbn; try done.
    + by rewrite zlen_resize by lia.
    + intros j s Hs. apply grow_slots in Hs as [->|Hs]; [by left|by apply Hslots|lia].
    + intros j g Hg. rewrite (Hseen j g Hg). split.
      * intros. apply grow_keeps; [lia|done].
      * intros [->|?]%grow_slots; [|done|lia]. by destruct (piece j _ Hg) as (_ & _ & _ & ?).
    + by rewrite grow_present by lia.
    + right. split; [done|]. by rewrite zlen_resize by lia.
  - exists a1. split; [done|]. split_and!; try done; [lia| |].
    + rewrite Ht. destruct Htot as [?|[? Hfull]]; [by left|right]. split; [done|lia].
    + intros g Hg. rewrite elem_of_app, list_elem_of_singleton, Ht. intros [?| ->]; [by eapply Hlast|].
      destruct (piece _ f Hg) as (_ & ? & _). lia.
Qed.

(** All the pieces have arrived. *)
Definition complete (A : list Fragment.t) : Prop := ∀ f, f ∈ l → f ∈ A.

Lemma complete_fragments A a :
  holds A a → complete A →
  FragmentAssembly.fragments a = l ∧ FragmentAssembly.fragments_total a = zlen l
  ∧ FragmentAssembly.fragments_arrived a = zlen l.
Proof.
  intros (_ & Hlen & _ & Hseen & Harr & _ & Hlast) Hc.
  assert (FragmentAssembly.fragments a = l) as Heq.
  { apply list_eq_same_length with (length l); [done|unfold zlen in Hlen|].
    - destruct Hsplit as (Hne & _). destruct (lookup_lt_is_Some_2 l (length l - 1)) as [f Hf].
      { destruct l; [done|cbn; lia]. }
      apply (Hseen _ _ Hf), lookup_lt_Some in Hc as Hl; [lia|by eapply list_elem_of_lookup_2].
    - intros i x y Hi Hx Hy. assert (x = y); [|done]. apply list_elem_of_lookup_2 in Hy as Hin.
      apply Hc, (Hseen i y Hy) in Hin. congruence. }
  rewrite Harr, Heq. split_and!; [done| |].
  - destruct (lookup_lt_is_Some_2 l (length l - 1)) as [f Hf].
    { destruct Hsplit as (Hne & _). destruct l; [done|cbn; lia]. }
    apply (Hlast f Hf). apply Hc. by eapply list_elem_of_lookup_2.
  - apply present_all. apply Forall_lookup. intros i f Hf. by destruct (piece i f Hf) as (_ & _ & _ & ?).
Qed.

Lemma arrived_complete A a :
  holds A a → FragmentAssembly.fragments_arrived a = FragmentAssembly.fragments_total a → complete A.
Proof.
  intros (_ & _ & Hslots & Hseen & Harr & Htot & _) Heq f Hf.
  pose proof (present_nonneg (FragmentAssembly.fragments a)).
  destruct Htot as [?|[Ht Hl]]; [lia|].
  assert (present (FragmentAssembly.fragments a) = zlen (FragmentAssembly.fragments a)) as Hp by lia.
  apply present_full in Hp. rewrite Forall_lookup in Hp.
  apply list_elem_of_lookup_1 in Hf as (i & Hi). apply (Hseen i f Hi).
  destruct (lookup_lt_is_Some_2 (FragmentAssembly.fragments a) i) as [s Hs].
  { apply lookup_lt_Some in Hi. unfold zlen in Hl. lia. }
  destruct (Hslots i s Hs) as [->|Hs']; [by specialize (Hp i _ Hs)|congruence].
Qed.

Lemma add_fragment_spec A a i f :
  holds A a → l !! i = Some f →
  ∃ b a', FragmentAssembly.add_fragment f a = Ok (b, a') ∧ holds (A ++ [f]) a'
    ∧ (b = true ↔ complete (A ++ [f])).
Proof.
  intros Ha Hf. destruct (record_spec A a i f Ha Hf) as (a1 & H1 & Hs).
  destruct (note_final_spec A a a1 i f Ha Hf Hs) as (a2 & H2 & Ha2).
  unfold FragmentAssembly.add_fragment. rewrite H1. cbn [mbind result_bind]. rewrite H2.
  cbn [mbind result_bind]. pose proof Ha2 as (_ & _ & _ & _ & Harr & Htot & _).
  assert ((if FragmentAssembly.fragments_total a2 =? -1 then Ok tt
    else assert_that (FragmentAssembly.fragments_arrived a2 <=? FragmentAssembly.fragments_total a2)
      "fragments_arrived <= fragments_total") = Ok tt) as ->.
  { destruct (_ =? -1) eqn:E; [done|]. destruct Htot as [?|[Ht Hl]]; [lia|].
    rewrite Harr, Ht. pose proof (present_le (FragmentAssembly.fragments a2)).
    by rewrite (proj2 (Z.leb_le _ _)) by lia. }
  cbn [mbind result_bind]. eexists _, a2. split_and!; [done..|]. rewrite Z.eqb_eq. split.
  - by apply arrived_complete.
  - intros Hc. destruct (complete_fragments _ _ Ha2 Hc) as (_ & -> & ->). done.
Qed.

(** A fragment of another instruction starts afresh. *)
Definition fresh : FragmentAssembly.t := FragmentAssembly.mk [] id 0 (-1).

Lemma fresh_holds : holds [] fresh.
Proof.
  split_and!; try done; [apply zlen_nonneg|..].
  - intros i f _. split; [by intros ?%not_elem_of_nil|done].
  - by left.
  - by intros f _ ?%not_elem_of_nil.
Qed.

Lemma add_fragment_new a i f :
  FragmentAssembly.current_id a ≠ id → l !! i = Some f →
  FragmentAssembly.add_fragment f a = FragmentAssembly.add_fragment f fresh.
Proof.
  intros Hne Hf. destruct (piece i f Hf) as (Hfid & Hfn & _).
  unfold FragmentAssembly.add_fragment. f_equal.
  unfold FragmentAssembly.record_fragment. rewrite Hfid. cbn [FragmentAssembly.current_id fresh].
  rewrite Z.eqb_refl, (proj2 (Z.eqb_neq _ _) Hne). cbn [negb FragmentAssembly.fragments fresh].
  change (zlen []) with 0. rewrite Hfn. z_bools. done.
Qed.
End assembly.

(** Feeding a list of fragments; the answer is the last one's. *)
Fixpoint add_all (fs : list Fragment.t) (b : bool) (a : FragmentAssembly.t)
    : result (bool * FragmentAssembly.t) :=
  match fs with
  | [] => Ok (b, a)
  | f :: fs' => '(b, a) ← FragmentAssembly.add_fragment f a; add_all fs' b a
  end.

Lemma add_all_spec id m payload l fs A a b :
  is_split id m 0 payload l → holds id l A a → (b = true ↔ complete l A) →
  Forall (fun f => f ∈ l) fs →
  ∃ b' a', add_all fs b a = Ok (b', a') ∧ holds id l (A ++ fs) a'
    ∧ (b' = true ↔ complete l (A ++ fs)).
Proof.
  intros Hs Ha Hb Hfs. revert A a b Ha Hb. induction Hfs as [|f fs Hf _ IH]; intros A a b Ha Hb.
  { rewrite app_nil_r. by exists b, a. }
  apply list_elem_of_lookup_1 in Hf as (i & Hi).
  destruct (add_fragment_spec id m payload l Hs A a i f Ha Hi) as (b1 & a1 & Heq & Ha1 & Hb1).
  cbn [add_all]. rewrite Heq. cbn [mbind result_bind].
  destruct (IH (A ++ [f]) a1 b1 Ha1 Hb1) as (b' & a' & ? & Hh & Hc).
  rewrite <- app_assoc in Hh, Hc. by exists b', a'.
Qed.

Section receiver.
Context `{InstructionCodecLaws}.

Lemma get_assembly_spec id m inst l A a :
  is_split id m 0 (SerializeAsString inst) l → holds id l A a → complete l A →
  FragmentAssembly.get_assembly a = Ok (inst, fresh id).
Proof.
  intros Hs Ha Hc. pose proof Ha as (Hid & _). pose proof Hs as (_ & Hcat & _).
  destruct (complete_fragments id m _ l Hs A a Ha Hc) as (Hf & Ht & Harr).
  unfold FragmentAssembly.get_assembly. rewrite Harr, Ht, Z.eqb_refl, Hf.
  cbn [assert_that mbind result_bind].
  assert (safe (for_range 0 (zlen l) (fun i encoded =>
    f ← vec_get l i;
    assert_that (Fragment.initialized f) "fragments.at( i ).initialized";;
    Ok (encoded ++ Fragment.contents f)) [])
    (fun enc => enc = concat (Fragment.contents <$> take (Z.to_nat (zlen l)) l))) as Hloop.
  { apply (for_range_spec _ (fun j enc => enc = concat (Fragment.contents <$> take (Z.to_nat j) l)));
      [apply zlen_nonneg|done|].
    intros j enc Hj ->. apply wp_bind, vec_get_spec; [done|]. intros f Hfj.
    destruct (piece id m _ l Hs _ f Hfj) as (_ & _ & _ & ->). cbn [assert_that mbind result_bind].
    apply wp_ok. replace (Z.to_nat (j + 1)) with (S (Z.to_nat j)) by lia.
    rewrite (take_S_r _ _ _ Hfj), fmap_app, concat_app. cbn. by rewrite app_nil_r. }
  apply safe_inv in Hloop as (enc & -> & ->). cbn [mbind result_bind].
  rewrite take_ge by (unfold zlen; lia). rewrite Hcat, parse_serialize. by rewrite Hid.
Qed.

(** C14.  Reassembly.  Let the fragments of an instruction arrive in any
    order and any number of times at a receiver whose current packet is
    another one.  No assertion fails; the receiver reports completion
    exactly when every fragment has arrived, and the instruction it then
    returns is the one that was sent. *)
Theorem reassembly (inst : Instruction) (MTU s : Z) (frags arrivals : list Fragment.t) (s' : Z)
    (a : FragmentAssembly.t) :
  fits inst MTU → Fragmenter.make_fragments inst MTU s = Ok (frags, s') →
  FragmentAssembly.current_id a ≠ s' →
  arrivals ≠ [] → Forall (fun f => f ∈ frags) arrivals →
  ∃ done a', add_all arrivals false a = Ok (done, a')
    ∧ (done = true ↔ ∀ f, f ∈ frags → f ∈ arrivals)
    ∧ (done = true → ∃ a'', FragmentAssembly.get_assembly a' = Ok (inst, a'')).
Proof.
  intros Hfits Hmake Hcur Hne Hall.
  destruct (make_fragments_spec inst MTU s Hfits) as (l & Hl & Hs & _).
  rewrite Hl in Hmake. injection Hmake as -> <-.
  destruct arrivals as [|f fs]; [done|]. inversion Hall as [|?? Hf Hfs]; subst.
  apply list_elem_of_lookup_1 in Hf as (i & Hi). cbn [add_all].
  rewrite (add_fragment_new _ _ _ _ Hs a i f Hcur Hi).
  destruct (add_fragment_spec _ _ _ _ Hs [] _ i f (fresh_holds _ _) Hi) as (b1 & a1 & -> & Ha1 & Hb1).
  cbn [mbind result_bind].
  destruct (add_all_spec _ _ _ _ fs _ a1 b1 Hs Ha1 Hb1 Hfs) as (b' & a' & Heq & Ha' & Hb').
  exists b', a'. split_and!; [done|done|]. intros Hdone. eexists.
  eapply get_assembly_spec; [done..|]. by apply Hb'.
Qed.
End receiver.

(** ** A codec, for the witnesses: each number is absent (0) or present (1)
    and itself, the difference comes last. *)

Definition put_num (n : option Z) : list Z := match n with None => [0] | Some v => [1; v] end.

Definition get_num (s : list Z) : option (option Z * list Z) :=
  match s with
  | 0 :: r => Some (None, r)
  | 1 :: v :: r => Some (Some v, r)
  | _ => None
  end.

Definition put_all (i : Instruction) : list Z :=
  put_num (old_num i) ++ put_num (new_num i) ++ put_num (ack_num i) ++ put_num (throwaway_num i)
  ++ match diff i with None => [0] | Some d => 1 :: d end.

Definition get_all (s : list Z) : option Instruction :=
  '(o, s) ← get_num s; '(n, s) ← get_num s; '(a, s) ← get_num s; '(t, s) ← get_num s;
  match s with
  | [0] => Some (mkInstruction o n a t None)
  | 1 :: d => Some (mkInstruction o n a t (Some d))
  | _ => None
  end.

Definition plain_codec : InstructionCodec :=
  {| SerializeAsString := put_all; ParseFromString := get_all |}.

Lemma plain_codec_laws : @InstructionCodecLaws plain_codec.
Proof. intros [[] [] [] [] []]; done. Qed.

Definition sample_inst : Instruction :=
  mkInstruction (Some 3) (Some 4) (Some 9) (Some 3) (Some [104; 101; 108; 108; 111]).

Lemma fragmentation_witness :
  @fits plain_codec sample_inst 70 ∧
  ∃ l, @Fragmenter.make_fragments plain_codec sample_inst 70 0 = Ok (l, 1)
    ∧ concat (Fragment.contents <$> l) = put_all sample_inst
    ∧ ∀ i f, l !! i = Some f →
        Fragment.id f = 1 ∧ Fragment.fragment_num f = Z.of_nat i
        ∧ Fragment.final f = bool_decide (S i = length l)
        ∧ 1 ≤ zlen (Fragment.contents f) ≤ 70 - Fragment.HEADER_LEN
        ∧ ∃ x, Fragment.tostring f = Ok x ∧ zlen x ≤ 70 - Fragment.HEADER_LEN + 10.
Proof.
  assert (@fits plain_codec sample_inst 70) as Hfits by (by vm_compute).
  split; [exact Hfits|]. apply (@fragmentation plain_codec sample_inst 70 0 Hfits).
Defined.

(** Four fragments, the last first, the first twice *)
Definition sample_frags : list Fragment.t :=
  [Fragment.mk 1 0 false true [1; 3; 1; 4]; Fragment.mk 1 1 false true [1; 9; 1; 3];
   Fragment.mk 1 2 false true [1; 104; 101; 108]; Fragment.mk 1 3 true true [108; 111]].

Definition sample_arrivals : list Fragment.t :=
  [Fragment.mk 1 3 true true [108; 111]; Fragment.mk 1 0 false true [1; 3; 1; 4];
   Fragment.mk 1 0 false true [1; 3; 1; 4]; Fragment.mk 1 2 false true [1; 104; 101; 108];
   Fragment.mk 1 1 false true [1; 9; 1; 3]].

Lemma reassembly_witness :
  ∃ done a', add_all sample_arrivals false FragmentAssembly.make = Ok (done, a')
    ∧ (done = true ↔ ∀ f, f ∈ sample_frags → f ∈ sample_arrivals)
    ∧ (done = true → ∃ a'', @FragmentAssembly.get_assembly plain_codec a' = Ok (sample_inst, a'')).
Proof.
  apply (@reassembly plain_codec plain_codec_laws sample_inst 70 0 sample_frags sample_arrivals 1
    FragmentAssembly.make).
  - by vm_compute.
  - by vm_compute.
  - by vm_compute.
  - by vm_compute.
  - apply (bool_decide_unpack _). by vm_compute.
Defined.
End FragmentTheorems.
