(* ===== verification/StateSync.v ===== *)
(** * Synchronized state objects

    [src/alfalfa/src/statesync/user.h] and [user.cc]: the stream of user
    input that the client sends; and the part of
    [completeterminal.h]/[completeterminal.cc] that the server's screen
    state adds to the terminal of [TerminalEmulator]: the difference
    between two screens as a host message and its application, echo
    acknowledgments and comparison.  The messages are
    generated from the [.proto] files and are interfaces here.

    [SyncState] is the interface the transport layer requires of a state. *)

From S2P Require Import Prelude VtParser Utf8 TerminalFramebuffer TerminalDispatcher TerminalEmulator TerminalDisplay.

(** ** The interface of a synchronized state *)

(** [diff_from x existing len] is the difference, limited to [len] where
    the state supports it; [subtract_self] is [x.subtract( &x )], the call
    in which the argument is the object itself. *)
Class SyncState (S : Type) := {
  diff_from : S → S → Z → result (list Z);
  apply_string : list Z → S → result S;
  subtract : S → S → result S;
  subtract_self : S → result S;
  state_eqb : S → S → bool }.

(** ** Class [UserEvent] *)

Module UserEvent.

Inductive UserEventType : Set := UserByteType | ResizeType.

#[export] Instance UserEventType_eq_dec : EqDecision UserEventType.
Proof. solve_decision. Defined.

Record t : Set := mk {
  type : UserEventType;
  userbyte : Z;
  resize : Z * Z }.

#[export] Instance t_eq_dec : EqDecision t.
Proof. solve_decision. Defined.

(** The two constructors; [Resize( -1, -1 )] has [size_t] members. *)
Definition of_byte (c : Z) : t := mk UserByteType c (u64 (-1), u64 (-1)).
Definition of_resize (w h : Z) : t := mk ResizeType 0 (w, h).

Definition eqb (x y : t) : bool :=
  bool_decide (type x = type y) && Parser.UserByte_eqb (userbyte x) (userbyte y)
  && Parser.Resize_eqb (resize x) (resize y).

End UserEvent.

(** ** The user message ([userinput.proto]) *)

(** An instruction carries each extension or not. *)
Record UserInstruction : Set := mkUserInstruction {
  keystroke : option (list Z);
  resize_ext : option (Z * Z) }.

#[export] Instance UserInstruction_eq_dec : EqDecision UserInstruction.
Proof. solve_decision. Defined.

Class UserCodec := {
  serialize_user : list UserInstruction → list Z;
  parse_user : list Z → option (list UserInstruction) }.

Class UserCodecLaws `{UserCodec} : Prop :=
  parse_serialize_user m : parse_user (serialize_user m) = Some m.

(** ** Class [UserStream] *)

Module UserStream.

Definition t : Set := list UserEvent.t.

Definition push_back_byte (c : Z) (actions : t) : t := vec_push actions (UserEvent.of_byte c).
Definition push_back_resize (w h : Z) (actions : t) : t := vec_push actions (UserEvent.of_resize w h).

(** [get_action] *)
Definition get_action (i : Z) (actions : t) : result Parser.ActionKind :=
  e ← vec_get actions i;
  Ok match UserEvent.type e with
     | UserEvent.UserByteType => Parser.UserByte (UserEvent.userbyte e)
     | UserEvent.ResizeType =>
         Parser.Resize (fst (UserEvent.resize e)) (snd (UserEvent.resize e))
     end.

(** The loops of [subtract] and [diff_from] over the other stream: what is
    left of [actions] behind it *)
Fixpoint skip_prefix (prefix actions : t) : result t :=
  match prefix with
  | [] => Ok actions
  | i :: prefix' =>
      match actions with
      | [] => Fault (AssertFailed "!actions.empty()")
      | a :: actions' =>
          assert_that (UserEvent.eqb i a) "*i == actions.front()";;
          skip_prefix prefix' actions'
      end
  end.

Definition subtract (actions prefix : t) : result t := skip_prefix prefix actions.

(** With the stream itself as the prefix the first [pop_front] invalidates
    the iterator that the loop then advances. *)
Definition subtract_self (actions : t) : result t :=
  match actions with [] => Ok [] | _ => Fault OutOfRange end.

(** The conversion of a [size_t] to the message's [int32] and back *)
Definition to_int32 (x : Z) : Z := to_int x.
Definition of_int32 (x : Z) : Z := u64 x.

(** One event added to the message: a key joins a preceding keystroke
    instruction. *)
Definition add_event (output : list UserInstruction) (e : UserEvent.t) : list UserInstruction :=
  match UserEvent.type e with
  | UserEvent.UserByteType =>
      let new_inst := mkUserInstruction (Some [UserEvent.userbyte e]) None in
      match last output with
      | Some (mkUserInstruction (Some keys) r) =>
          take (length output - 1) output
          ++ [mkUserInstruction (Some (keys ++ [UserEvent.userbyte e])) r]
      | _ => output ++ [new_inst]
      end
  | UserEvent.ResizeType =>
      output ++ [mkUserInstruction None
                   (Some (to_int32 (fst (UserEvent.resize e)), to_int32 (snd (UserEvent.resize e))))]
  end.

Definition apply_instruction (actions : t) (i : UserInstruction) : t :=
  match keystroke i with
  | Some the_bytes => fold_left (fun a c => push_back_byte c a) the_bytes actions
  | None =>
      match resize_ext i with
      | Some (w, h) => push_back_resize (of_int32 w) (of_int32 h) actions
      | None => actions
      end
  end.

Section messages.
Context `{UserCodec}.

Definition diff_from (actions existing : t) : result (list Z) :=
  my_it ← skip_prefix existing actions;
  Ok (serialize_user (fold_left add_event my_it [])).

Definition apply_string (diff : list Z) (actions : t) : result t :=
  match parse_user diff with
  | None => Fault (AssertFailed "input.ParseFromString( diff )")
  | Some input => Ok (fold_left apply_instruction input actions)
  end.

#[export] Instance sync_user : SyncState t := {|
  StateSync.diff_from := fun actions existing _ => diff_from actions existing;
  StateSync.apply_string := apply_string;
  StateSync.subtract := subtract;
  StateSync.subtract_self := subtract_self;
  StateSync.state_eqb := list_eqb UserEvent.eqb |}.
End messages.
End UserStream.

(** ** Class [Flood] ([flood.h]): no state, as much filler as allowed; 120
    is the letter x *)

Module Flood.
Definition t : Set := unit.

#[export] Instance sync_flood : SyncState t := {|
  diff_from := fun _ _ len => Ok (replicate (Z.to_nat len) 120);
  apply_string := fun _ s => Ok s;
  subtract := fun s _ => Ok s;
  subtract_self := fun s => Ok s;
  state_eqb := fun _ _ => true |}.
End Flood.

(** ** The host message ([hostinput.proto]) and class [Complete] *)

Record HostInstruction : Set := mkHostInstruction {
  hostbytes : option (list Z);
  host_resize : option (Z * Z);
  echoack : option Z }.

Class HostCodec := {
  serialize_host : list HostInstruction → list Z;
  parse_host : list Z → option (list HostInstruction) }.

Class HostCodecLaws `{HostCodec} : Prop :=
  parse_serialize_host m : parse_host (serialize_host m) = Some m.

Module CompleteState.

(** The members [parser] and [terminal] are [Complete.t]. *)
Record t : Set := mk {
  screen : Complete.t;
  input_history : list (Z * Z);
  echo_ack : Z }.

Definition ECHO_TIMEOUT : Z := 50.

(** The loop that looks for the newest frame old enough *)
Definition newest_old_frame (now : Z) (h : list (Z * Z)) : Z :=
  fold_left (fun newest '(num, time) => if time <? u64 (now - ECHO_TIMEOUT) then num else newest) h 0.

Definition set_echo_ack (now : Z) (s : t) : bool * t :=
  let newest_echo_ack := newest_old_frame now (input_history s) in
  let h := filter (fun p => ¬ fst p < newest_echo_ack) (input_history s) in
  (negb (echo_ack s =? newest_echo_ack), mk (screen s) h newest_echo_ack).

Definition register_input_frame (n now : Z) (s : t) : t :=
  mk (screen s) (vec_push (input_history s) (n, now)) (echo_ack s).

Definition INT_MAX : Z := 2 ^ 31 - 1.

Definition wait_time (now : Z) (s : t) : Z :=
  match input_history s with
  | _ :: (_, time) :: _ =>
      let next_echo_ack_time := u64 (time + ECHO_TIMEOUT) in
      if next_echo_ack_time <=? now then 0 else to_int (next_echo_ack_time - now)
  | _ => INT_MAX
  end.

(** [operator==]: the parser state is irrelevant *)
Definition eqb (x y : t) : bool :=
  Emulator.eqb (Complete.terminal (screen x)) (Complete.terminal (screen y))
  && (echo_ack x =? echo_ack y).

(** [subtract] does nothing. *)
Definition subtract (s prefix : t) : result t := Ok s.

Section messages.
Context `{Mbrtowc, Wcwidth, HostCodec}.

Definition make (width height : Z) : result t :=
  c ← Complete.make width height; Ok (mk c [] 0).

(** [display( false )] *)
Definition display : result Display.t := Display.make None.

Definition get_fb (s : t) : Framebuffer.t := Emulator.fb (Complete.terminal (screen s)).

(** The instructions of a difference: the echo acknowledgment, the new
    size and the octets that redraw the screen, each if it changed *)
Definition echo_instructions (s existing : t) : result (list HostInstruction) :=
  if echo_ack existing =? echo_ack s then Ok []
  else
    assert_that (echo_ack existing <=? echo_ack s) "get_echo_ack() >= existing.get_echo_ack()";;
    Ok [mkHostInstruction None None (Some (echo_ack s))].

Definition screen_instructions (s existing : t) : result (list HostInstruction) :=
  let f := get_fb s in
  let g := get_fb existing in
  if Framebuffer.eqb g f then Ok []
  else
    let resize :=
      if negb (DrawState.width (Framebuffer.ds g) =? DrawState.width (Framebuffer.ds f))
         || negb (DrawState.height (Framebuffer.ds g) =? DrawState.height (Framebuffer.ds f))
      then [mkHostInstruction None
              (Some (DrawState.width (Framebuffer.ds f), DrawState.height (Framebuffer.ds f))) None]
      else [] in
    d ← display;
    hoststring ← Display.new_frame d true g f;
    Ok (resize ++ [mkHostInstruction (Some hoststring) None None]).

Definition diff_from (s existing : t) : result (list Z) :=
  new_echo ← echo_instructions s existing;
  new_insts ← screen_instructions s existing;
  Ok (serialize_host (new_echo ++ new_insts)).

(** One instruction of a host message *)
Definition apply_instruction (i : HostInstruction) (s : t) : result t :=
  match hostbytes i with
  | Some bytes =>
      '(terminal_to_host, c) ← Complete.act bytes (screen s);
      assert_that (zlen terminal_to_host =? 0) "terminal_to_host.empty()";;
      Ok (mk c (input_history s) (echo_ack s))
  | None =>
      match host_resize i with
      | Some (w, h) =>
          '(_, c) ← Complete.act_action
                      (Parser.new_action (Parser.Resize (u64 w) (u64 h))) (screen s);
          Ok (mk c (input_history s) (echo_ack s))
      | None =>
          match echoack i with
          | Some n =>
              assert_that (echo_ack s <=? n) "inst_echo_ack_num >= echo_ack";;
              Ok (mk (screen s) (input_history s) n)
          | None => Ok s
          end
      end
  end.

Definition apply_string (diff : list Z) (s : t) : result t :=
  match parse_host diff with
  | None => Fault (AssertFailed "input.ParseFromString( diff )")
  | Some input => for_each input apply_instruction s
  end.
End messages.

(** [compare]: whether the screens differ; the source also prints where *)
Definition compare (s other : t) : result bool :=
  let f := Emulator.fb (Complete.terminal (screen s)) in
  let g := Emulator.fb (Complete.terminal (screen other)) in
  ret ← for_range 0 (DrawState.width (Framebuffer.ds f)) (fun x ret =>
    for_range 0 (DrawState.height (Framebuffer.ds f)) (fun y ret =>
      a ← Framebuffer.get_cell y x f;
      b ← Framebuffer.get_cell y x g;
      Ok (ret || Cell.compare a b)) ret) false;
  Ok (ret
      || negb (DrawState.cursor_row (Framebuffer.ds f) =? DrawState.cursor_row (Framebuffer.ds g))
      || negb (DrawState.cursor_col (Framebuffer.ds f) =? DrawState.cursor_col (Framebuffer.ds g))).

End CompleteState.
