(* ===== verification/StateSyncProps.v ===== *)
(** * Properties of the synchronized states

    The difference between two user streams rebuilds the longer one from the
    shorter; common prefixes can be cut; echo acknowledgments never go
    back. *)

From Stdlib Require Import Sorted.
From S2P Require Import Prelude VtParser TerminalFramebuffer TerminalEmulator StateSync.

Module StateSyncTheorems.

(** ** User streams *)

(** Events as the two constructors make them, with sizes that fit the
    message *)
Definition event_ok (e : UserEvent.t) : Prop :=
  match UserEvent.type e with
  | UserEvent.UserByteType => UserEvent.resize e = (u64 (-1), u64 (-1))
  | UserEvent.ResizeType =>
      UserEvent.userbyte e = 0
      ∧ 0 ≤ fst (UserEvent.resize e) < 2 ^ 31 ∧ 0 ≤ snd (UserEvent.resize e) < 2 ^ 31
  end.

Lemma event_eqb x y : UserEvent.eqb x y = true ↔ x = y.
Proof.
  destruct x as [tx bx [wx hx]], y as [ty by_ [wy hy]]. unfold UserEvent.eqb, Parser.UserByte_eqb,
    Parser.Resize_eqb. cbn. rewrite !andb_true_iff, bool_decide_eq_true, !Z.eqb_eq. naive_solver.
Qed.

Lemma skip_prefix_Ok p a r : UserStream.skip_prefix p a = Ok r ↔ a = p ++ r.
Proof.
  revert a. induction p as [|i p IH]; intros a; simpl.
  { split; [by intros [= ->]|by intros ->]. }
  destruct a as [|x a]; [done|]. destruct (UserEvent.eqb i x) eqn:E; cbn.
  - apply event_eqb in E as ->. rewrite IH. naive_solver.
  - split; [done|]. intros [= -> ->]. by rewrite (proj2 (event_eqb i i) eq_refl) in E.
Qed.

(** The events an instruction stands for *)
Definition events_of (i : UserInstruction) : list UserEvent.t :=
  match keystroke i with
  | Some bytes => UserEvent.of_byte <$> bytes
  | None =>
      match resize_ext i with
      | Some (w, h) => [UserEvent.of_resize (u64 w) (u64 h)]
      | None => []
      end
  end.

Lemma push_bytes bytes a :
  fold_left (fun a c => UserStream.push_back_byte c a) bytes a = a ++ (UserEvent.of_byte <$> bytes).
Proof.
  revert a. induction bytes as [|c bytes IH]; intros a; simpl; [by rewrite app_nil_r|].
  rewrite IH. unfold UserStream.push_back_byte, vec_push. by rewrite <- app_assoc.
Qed.

Lemma apply_events m a :
  fold_left UserStream.apply_instruction m a = a ++ concat (events_of <$> m).
Proof.
  revert a. induction m as [|i m IH]; intros a; simpl; [by rewrite app_nil_r|].
  rewrite IH, app_assoc. f_equal. unfold UserStream.apply_instruction, events_of.
  destruct (keystroke i) as [bytes|]; [apply push_bytes|].
  destruct (resize_ext i) as [[w h]|]; [done|by rewrite app_nil_r].
Qed.

Lemma add_event_events out e :
  event_ok e → concat (events_of <$> UserStream.add_event out e) = concat (events_of <$> out) ++ [e].
Proof.
  destruct e as [[] b [w h]]; unfold event_ok; cbn; intros He.
  - assert (UserEvent.mk UserEvent.UserByteType b (w, h) = UserEvent.of_byte b) as ->.
    { unfold UserEvent.of_byte. by rewrite He. }
    unfold UserStream.add_event. cbn. destruct (last out) as [[[keys|] r]|] eqn:Hlast.
    2,3: by rewrite fmap_app, concat_app.
    apply last_Some in Hlast as [out' ->].
    replace (length (out' ++ [mkUserInstruction (Some keys) r]) - 1)%nat with (length out')
      by (rewrite length_app; cbn; lia).
    rewrite take_app_length, !fmap_app, !concat_app. cbn [fmap list_fmap concat events_of keystroke].
    by rewrite !app_nil_r, fmap_app, app_assoc.
  - destruct He as (-> & Hw & Hh). unfold UserStream.add_event. cbn.
    rewrite fmap_app, concat_app. f_equal. cbn. unfold UserEvent.of_resize, UserStream.to_int32.
    rewrite !to_int_small, !uwrap_small by lia. done.
Qed.

Lemma add_all_events es out :
  Forall event_ok es →
  concat (events_of <$> fold_left UserStream.add_event es out) = concat (events_of <$> out) ++ es.
Proof.
  intros Hes. revert out. induction Hes as [|e es He _ IH]; intros out; simpl; [by rewrite app_nil_r|].
  rewrite IH, add_event_events by done. by rewrite <- app_assoc.
Qed.

(** C16.  The difference between a user stream and a prefix of it, applied
    to that prefix, gives the stream back - runs of keys are merged on the
    wire and split again - and a difference exists only from a prefix. *)
Theorem user_stream_roundtrip `{UserCodecLaws} (existing actions : UserStream.t) :
  Forall event_ok actions →
  match UserStream.diff_from actions existing with
  | Ok d => UserStream.apply_string d existing = Ok actions
  | Fault _ => ¬ ∃ rest, actions = existing ++ rest
  end.
Proof.
  intros Hok. unfold UserStream.diff_from.
  destruct (UserStream.skip_prefix existing actions) as [rest|ft] eqn:Hskip; cbn.
  - apply skip_prefix_Ok in Hskip as ->. apply Forall_app in Hok as [_ Hok].
    unfold UserStream.apply_string. rewrite parse_serialize_user, apply_events.
    by rewrite add_all_events.
  - intros [rest Hrest]. apply skip_prefix_Ok in Hrest. congruence.
Qed.

(** [subtract] cuts a common prefix and nothing else, and is the
    inverse of appending; it stops at an assertion when the other stream is
    not a prefix. *)
Theorem subtract_prefix (actions prefix rest : UserStream.t) :
  UserStream.subtract actions prefix = Ok rest ↔ actions = prefix ++ rest.
Proof. apply skip_prefix_Ok. Qed.

(** A codec for the witness: a length before each part *)
Definition put_inst (i : UserInstruction) : list Z :=
  match keystroke i, resize_ext i with
  | Some k, None => 1 :: zlen k :: k
  | None, Some (w, h) => [2; w; h]
  | Some k, Some (w, h) => 3 :: w :: h :: zlen k :: k
  | None, None => [0]
  end.

Fixpoint get_insts (fuel : nat) (s : list Z) : option (list UserInstruction) :=
  match fuel, s with
  | _, [] => Some []
  | S n, 0 :: s => (mkUserInstruction None None ::.) <$> get_insts n s
  | S n, 1 :: k :: s =>
      (mkUserInstruction (Some (take (Z.to_nat k) s)) None ::.) <$> get_insts n (drop (Z.to_nat k) s)
  | S n, 2 :: w :: h :: s => (mkUserInstruction None (Some (w, h)) ::.) <$> get_insts n s
  | S n, 3 :: w :: h :: k :: s =>
      (mkUserInstruction (Some (take (Z.to_nat k) s)) (Some (w, h)) ::.)
        <$> get_insts n (drop (Z.to_nat k) s)
  | _, _ => None
  end.

Definition list_codec : UserCodec := {|
  serialize_user := fun m => concat (put_inst <$> m);
  parse_user := fun s => get_insts (length s) s |}.

Lemma get_put fuel m : (length m ≤ fuel)%nat → get_insts fuel (concat (put_inst <$> m)) = Some m.
Proof.
  revert fuel. induction m as [|i m IH]; intros fuel Hf; [by destruct fuel|].
  destruct fuel as [|fuel]; [cbn in Hf; lia|]. cbn [fmap list_fmap concat].
  specialize (IH fuel ltac:(cbn in Hf; lia)).
  destruct i as [[k|] [[w h]|]]; unfold put_inst at 1; cbn [keystroke resize_ext app get_insts];
    unfold zlen; rewrite ?Nat2Z.id, ?take_app_length, ?drop_app_length, IH; done.
Qed.

Lemma list_codec_laws : @UserCodecLaws list_codec.
Proof.
  intros m. unfold parse_user, serialize_user, list_codec. apply get_put.
  induction m as [|i m IH]; [done|]. cbn [fmap list_fmap concat]. rewrite length_app.
  assert (1 ≤ length (put_inst i))%nat by (destruct i as [[k|] [[w h]|]]; cbn; lia).
  cbn [length]. lia.
Qed.

Lemma user_stream_roundtrip_witness :
  let old := [UserEvent.of_byte 108] in
  let new := [UserEvent.of_byte 108; UserEvent.of_byte 115; UserEvent.of_byte 10;
              UserEvent.of_resize 80 24; UserEvent.of_byte 3] in
  Forall event_ok new ∧
  match @UserStream.diff_from list_codec new old with
  | Ok d => @UserStream.apply_string list_codec d old = Ok new
  | Fault _ => ¬ ∃ rest, new = old ++ rest
  end.
Proof.
  intros old new. assert (Forall event_ok new) as Hok.
  { unfold new. repeat constructor; by vm_compute. }
  split; [exact Hok|]. apply (@user_stream_roundtrip list_codec list_codec_laws old new Hok).
Defined.

(** ** Echo acknowledgments *)

Inductive echo_op : Set :=
  | Register (n now : Z)
  | SetEcho (now : Z).

Definition op_time (o : echo_op) : Z := match o with Register _ now | SetEcho now => now end.

Definition do_op (s : CompleteState.t) (o : echo_op) : CompleteState.t :=
  match o with
  | Register n now => CompleteState.register_input_frame n now s
  | SetEcho now => snd (CompleteState.set_echo_ack now s)
  end.

(** The clock runs forward from where [frozen_timestamp] starts it, and the
    frames are numbered in order. *)
Fixpoint ops_ok (last_num last_time : Z) (ops : list echo_op) : Prop :=
  match ops with
  | [] => True
  | o :: ops' =>
      last_time ≤ op_time o < 2 ^ 64
      ∧ match o with
        | Register n now => last_num ≤ n ∧ ops_ok n now ops'
        | SetEcho now => ops_ok last_num now ops'
        end
  end.

(** The history is ordered, and it still has the frame that was
    acknowledged. *)
Definition history_ok (last_num now : Z) (s : CompleteState.t) : Prop :=
  StronglySorted (fun p q => fst p ≤ fst q) (CompleteState.input_history s)
  ∧ Forall (fun p => 0 ≤ fst p ≤ last_num) (CompleteState.input_history s)
  ∧ 0 ≤ last_num
  ∧ (CompleteState.echo_ack s = 0
     ∨ ∃ t, (CompleteState.echo_ack s, t) ∈ CompleteState.input_history s
            ∧ t < now - CompleteState.ECHO_TIMEOUT).

(** The scan returns 0 or the number of an old enough frame, and no old
    enough frame of the ordered history has a larger number. *)
Lemma newest_old_frame_spec now h :
  StronglySorted (fun p q => fst p ≤ fst q) h →
  ∀ init, Forall (fun p => init ≤ fst p) h →
  let r := fold_left (fun newest '(num, time) =>
             if time <? u64 (now - CompleteState.ECHO_TIMEOUT) then num else newest) h init in
  init ≤ r
  ∧ (r = init ∨ ∃ t, (r, t) ∈ h ∧ t < u64 (now - CompleteState.ECHO_TIMEOUT))
  ∧ ∀ n t, (n, t) ∈ h → t < u64 (now - CompleteState.ECHO_TIMEOUT) → n ≤ r.
Proof.
  intros Hs. induction Hs as [|[n t] h Hs IH Hle]; intros init Hinit; cbn zeta.
  { cbn. split_and!; [lia|by left|]. by intros ?? ?%not_elem_of_nil. }
  inversion Hinit as [|?? Hn Hrest]; subst. cbn [fold_left]. cbn in Hn.
  destruct (t <? _) eqn:Ht.
  - destruct (IH n) as (H1 & H2 & H3); [done|]. cbn zeta in *. split_and!; [lia| |].
    + right. destruct H2 as [->|(t' & Hin & Ht')]; [exists t|exists t'].
      * split; [left|lia].
      * split; [by right|done].
    + intros n' t' [[= -> ->]|Hin]%elem_of_cons Ht'; [lia|by eapply H3].
  - destruct (IH init) as (H1 & H2 & H3); [done|]. cbn zeta in *. split_and!; [lia| |].
    + destruct H2 as [?|(t' & Hin & Ht')]; [by left|right]. exists t'. split; [by right|done].
    + intros n' t' [[= -> ->]|Hin]%elem_of_cons Ht'; [lia|by eapply H3].
Qed.

Lemma StronglySorted_filter {A} (R : A → A → Prop) (P : A → Prop) `{∀ x, Decision (P x)} l :
  StronglySorted R l → StronglySorted R (filter P l).
Proof.
  induction 1 as [|x l Hs IH Hx]; [constructor|]. rewrite filter_cons. case_decide; [|done].
  constructor; [done|]. apply Forall_forall. intros y [_ Hy]%list_elem_of_filter.
  rewrite Forall_forall in Hx. auto.
Qed.

Lemma set_echo_ack_step last_num last now s :
  history_ok last_num last s → CompleteState.ECHO_TIMEOUT ≤ last ≤ now → now < 2 ^ 64 →
  history_ok last_num now (snd (CompleteState.set_echo_ack now s))
  ∧ CompleteState.echo_ack s ≤ CompleteState.echo_ack (snd (CompleteState.set_echo_ack now s)).
Proof.
  intros (Hsort & Hnum & Hln & Hecho) Hlast Hnow. unfold CompleteState.set_echo_ack. cbn.
  unfold CompleteState.newest_old_frame.
  destruct (newest_old_frame_spec now _ Hsort 0) as (H1 & H2 & H3).
  { eapply Forall_impl; [exact Hnum|]. by intros p [? _]. }
  cbn zeta in *. set (r := fold_left _ _ 0) in *.
  rewrite uwrap_small in H2, H3 by (unfold CompleteState.ECHO_TIMEOUT in *; lia).
  split.
  - split_and!; cbn; [by apply StronglySorted_filter| |done|].
    + apply Forall_forall. intros p [_ Hp]%list_elem_of_filter. rewrite Forall_forall in Hnum. auto.
    + destruct H2 as [->|(t & Hin & Ht)]; [by left|right]. exists t. split; [|done].
      apply list_elem_of_filter. split; [cbn; lia|done].
  - cbn. destruct Hecho as [->|(t & Hin & Ht)]; [done|]. apply (H3 _ t Hin). lia.
Qed.

Lemma register_step last_num last n now s :
  history_ok last_num last s → last_num ≤ n → last ≤ now →
  history_ok n now (CompleteState.register_input_frame n now s).
Proof.
  intros (Hsort & Hnum & Hln & Hecho) Hn Hnow. unfold history_ok. cbn. unfold vec_push.
  split_and!; [| |lia|].
  - clear Hecho. induction Hsort as [|p h Hs IH Hp]; [by repeat constructor|]. inversion Hnum as [|?? Hp0 Hh]; subst.
    cbn. constructor.
    + by apply IH.
    + apply Forall_app. split; [done|]. constructor; [cbn; lia|constructor].
  - apply Forall_app. split; [|constructor; [cbn; lia|constructor]].
    eapply Forall_impl; [exact Hnum|]. intros p Hp. cbn beta in *. lia.
  - destruct Hecho as [?|(t & Hin & Ht)]; [by left|right]. exists t. split; [|lia].
    apply elem_of_app. by left.
Qed.

Definition run_ops (ops : list echo_op) (s : CompleteState.t) : CompleteState.t :=
  fold_left do_op ops s.

(** Each step keeps the history and does not lower the acknowledgment. *)
Lemma run_ops_spec ops last_num last s :
  history_ok last_num last s → CompleteState.ECHO_TIMEOUT ≤ last → ops_ok last_num last ops →
  (∃ n t, history_ok n t (run_ops ops s))
  ∧ CompleteState.echo_ack s ≤ CompleteState.echo_ack (run_ops ops s).
Proof.
  revert last_num last s. induction ops as [|o ops IH]; intros last_num last s Hs Hlast Hops.
  { split; [eauto|done]. }
  destruct Hops as [Ht Hops]. destruct o as [n now|now]; cbn in *.
  - destruct Hops as [Hn Hops].
    destruct (IH n now (CompleteState.register_input_frame n now s)) as [Hh Hle]; [|lia|done|].
    { eapply register_step; [done|done|lia]. }
    split; [exact Hh|exact Hle].
  - destruct (set_echo_ack_step last_num last now s Hs) as [Hs' Hle]; [lia|lia|].
    destruct (IH last_num now _ Hs' ltac:(lia) Hops) as [Hh Hle']. split; [exact Hh|].
    etrans; [exact Hle|exact Hle'].
Qed.

(** C17.  Echo acknowledgments are monotone: from a fresh screen state,
    after any sequence of registered input frames and updates with a clock
    that runs forward and frames numbered in order, a further sequence
    never lowers the acknowledged frame - the client's assertion on receipt
    holds - although [set_echo_ack] rescans from zero each time; and what is
    acknowledged is 0 or a frame still in the history. *)
Theorem echo_ack_monotone (c : Complete.t) (ops more : list echo_op) :
  ops_ok 0 1000 (ops ++ more) →
  let s := run_ops ops (CompleteState.mk c [] 0) in
  let s' := run_ops more s in
  CompleteState.echo_ack s ≤ CompleteState.echo_ack s'
  ∧ (CompleteState.echo_ack s' = 0
     ∨ ∃ t, (CompleteState.echo_ack s', t) ∈ CompleteState.input_history s').
Proof.
  intros Hops. cbv zeta. set (s0 := CompleteState.mk c [] 0).
  assert (∀ ops n t s, history_ok n t s → CompleteState.ECHO_TIMEOUT ≤ t → ops_ok n t (ops ++ more) →
    CompleteState.echo_ack (run_ops ops s) ≤ CompleteState.echo_ack (run_ops more (run_ops ops s))
    ∧ ∃ n t, history_ok n t (run_ops more (run_ops ops s))) as Hgen.
  { clear. induction ops as [|o ops IH]; intros n t s Hs Ht Hops.
    - destruct (run_ops_spec more n t s Hs Ht Hops) as [(n' & t' & ?) ?]. cbn. eauto.
    - destruct Hops as [Hot Hops]. destruct o as [m now|now]; cbn in *.
      + destruct Hops as [Hm Hops]. apply (IH m now); [|lia|done].
        eapply register_step; [done|done|lia].
      + apply (IH n now); [|lia|done]. eapply set_echo_ack_step; [done|lia|lia]. }
  destruct (Hgen ops 0 1000 s0) as [Hle (n & t & Hh)]; [|done|done|].
  { split_and!; cbn; [constructor|constructor|done|by left]. }
  split; [done|]. destruct Hh as (_ & _ & _ & [?|(t' & ? & _)]); [by left|right; eauto].
Qed.

Lemma echo_ack_monotone_witness :
  let ops := [Register 1 1000; Register 2 1030; SetEcho 1060] in
  let more := [SetEcho 1100; SetEcho 1500] in
  let c := Complete.mk (Utf8.UTF8Parser.init)
    (Emulator.mk (Framebuffer.mk [] [] [] 0
       (DrawState.mk 1 1 0 0 0 0 true [] 0 0 (Renditions.make 0) SavedCursor.make
          false false true false true false false)) TerminalDispatcher.Dispatcher.make UserInput.Ground) in
  let s := run_ops ops (CompleteState.mk c [] 0) in
  let s' := run_ops more s in
  CompleteState.echo_ack s ≤ CompleteState.echo_ack s'
  ∧ (CompleteState.echo_ack s' = 0
     ∨ ∃ t, (CompleteState.echo_ack s', t) ∈ CompleteState.input_history s').
Proof. intros ops more c. apply (echo_ack_monotone c ops more). cbn. lia. Defined.
End StateSyncTheorems.
