(* ===== verification/ScreenSync.v ===== *)
(** * Screens in step

    The server's screen state and the client's copy of it: a client that
    shows one screen of the server and applies the difference to another
    shows that one.  The client's terminal is driven by the strings of the
    display encoder ([DisplayFrame]). *)

From S2P Require Import Prelude VtParser Utf8 TerminalFramebuffer FramebufferWf TerminalDispatcher DispatcherProps TerminalFunctions FunctionSafety TerminalEmulator EmulatorSafety ScreenProps SequenceProps EmulatorProps TerminalDisplay TerminalEffects DisplayProps DisplayFrame StateSync.

Module ScreenSyncTheorems.
Import DispatcherLemmas EmulatorGuarantees SequenceTheorems EffectLemmas DisplayTheorems FrameTheorems RFC3629.

(** ** Resizing the client's terminal *)

Definition flags (d : DrawState.t) : bool * bool * bool * bool * bool * bool :=
  (DrawState.origin_mode d, DrawState.auto_wrap_mode d, DrawState.insert_mode d,
   DrawState.reverse_video d, DrawState.cursor_visible d, DrawState.next_print_will_wrap d).

Definition region (d : DrawState.t) : Z * Z :=
  (DrawState.scrolling_region_top_row d, DrawState.scrolling_region_bottom_row d).

Lemma reinitialize_tabs_flags n d d' :
  DrawState.reinitialize_tabs n d = Ok d' → flags d' = flags d ∧ region d' = region d.
Proof.
  unfold DrawState.reinitialize_tabs. destruct (DrawState.default_tabs d); [|done].
  cbn [assert_that mbind result_bind]. destruct (for_range _ _ _ _); [|done]. by intros [= <-].
Qed.

Lemma snap_flags d :
  flags (DrawState.snap_cursor_to_border d) = flags d
  ∧ region (DrawState.snap_cursor_to_border d) = region d.
Proof. unfold DrawState.snap_cursor_to_border. cbv zeta. by split_ifs. Qed.

Lemma ds_resize_flags w h d d' :
  DrawState.resize w h d = Ok d' →
  flags d' = flags d
  ∧ region d' = if negb (DrawState.width d =? w) || negb (DrawState.height d =? h)
                then (0, h - 1) else region d.
Proof.
  unfold DrawState.resize. cbv zeta.
  set (d1 := if _ : bool then _ else d).
  assert (flags d1 = flags d ∧ region d1 = if negb (DrawState.width d =? w) || negb (DrawState.height d =? h)
                then (0, h - 1) else region d) as [<- <-].
  { unfold d1. by destruct (_ || _). }
  clearbody d1. set (d2 := DrawState.set_tabs _ d1).
  assert (flags d2 = flags d1 ∧ region d2 = region d1) as [<- <-] by done. clearbody d2.
  destruct (if DrawState.default_tabs d2 then _ else _) as [d3|] eqn:E; [|done].
  assert (flags d3 = flags d2 ∧ region d3 = region d2) as [<- <-].
  { destruct (DrawState.default_tabs d2); [by eapply reinitialize_tabs_flags|by simplify_eq]. }
  cbn [mbind result_bind]. set (d4 := DrawState.set_height h (DrawState.set_width w d3)).
  assert (flags d4 = flags d3 ∧ region d4 = region d3) as [<- <-] by done. clearbody d4.
  destruct (snap_flags d4) as [<- <-]. destruct (_ || _); by intros [= <-].
Qed.

Lemma resize_plain w h r :
  plain r → 0 < w → 0 < h →
  ∃ r', Framebuffer.resize w h r = Ok r' ∧ plain r' ∧ fb_width r' = w ∧ fb_height r' = h
    ∧ pending r' = pending r ∧ Framebuffer.window_title r' = Framebuffer.window_title r
    ∧ DrawState.reverse_video (Framebuffer.ds r') = DrawState.reverse_video (Framebuffer.ds r).
Proof.
  intros (Hf & Ho & Ha & Hi & Ht & Hb) Hw Hh.
  destruct (proj1 (safe_inv _ _) (fb_resize_spec _ w h r Hf Hw Hh)) as (r' & Heq & Hok & Hw' & Hh').
  exists r'. revert Heq. unfold Framebuffer.resize. z_bools. cbn [assert_that mbind result_bind].
  destruct (map_result _ _) as [rs|]; [|done]. cbn [mbind result_bind].
  unfold Framebuffer.on_ds_result. cbn [Framebuffer.ds Framebuffer.set_rows].
  destruct (DrawState.resize w h _) as [d'|] eqn:E; [|done]. cbn [mbind result_bind]. intros [= <-].
  apply ds_resize_flags in E as [Hfl Hreg]. cbn in *. unfold flags in Hfl. simplify_eq.
  assert (region d' = (0, DrawState.height d' - 1)) as Hreg'.
  { rewrite Hreg. unfold region. rewrite Ht, Hb. destruct (_ || _) eqn:E; [done|]. do 2 f_equal.
    apply orb_false_iff in E as [_ E]. apply negb_false_iff in E. lia. }
  unfold region in Hreg'. simplify_eq. unfold plain. cbn. conjs; congruence.
Qed.

Section sync.
Context `{Wcwidth, HostCodec}.
Implicit Types (A B R : CompleteState.t) (f g r : Framebuffer.t).

(** A terminal that shows [f], is between sequences, in the modes of one
    that received only frames, and has nothing to say *)
Definition displays (c : Complete.t) f : Prop :=
  ∃ r d u, c = grounded (Emulator.mk r d u)
    ∧ plain r ∧ pending r = false ∧ disp_ok d ∧ Dispatcher.terminal_to_host d = []
    ∧ appearance r = appearance f.

(** The client's copy [R] of the server's screen [A] *)
Definition in_step R A : Prop :=
  displays (CompleteState.screen R) (CompleteState.get_fb A)
  ∧ CompleteState.echo_ack R = CompleteState.echo_ack A.

(** ** Equality of screens *)

Lemma rows_eqb (a b : list Row.t) : list_eqb Row.eqb a b = true → a = b.
Proof.
  revert b. induction a as [|x a IH]; intros [|y b]; cbn; try done.
  intros [Hxy Hab]%andb_true_iff. apply row_eqb in Hxy as ->. by rewrite (IH b Hab).
Qed.

Lemma eqb_appearance f g : Framebuffer.eqb f g = true → appearance f = appearance g.
Proof.
  unfold Framebuffer.eqb, DrawState.eqb. rewrite !andb_true_iff.
  intros (((Hrows & Ht) & _) & ((((((_ & _) & Hc) & Hr) & Hv) & Hrv) & Hrd)).
  apply rows_eqb in Hrows. apply (list_eqb_spec Z.eqb Z.eqb_eq) in Ht.
  apply Z.eqb_eq in Hc, Hr. apply Bool.eqb_prop in Hv, Hrv. apply rend_eqb in Hrd.
  unfold appearance. by rewrite Hrows, Ht, Hc, Hr, Hv, Hrv, Hrd.
Qed.

(** The appearance determines the size. *)
Lemma appearance_size f g :
  fb_ok f → fb_ok g → appearance f = appearance g →
  fb_width f = fb_width g ∧ fb_height f = fb_height g.
Proof.
  intros (((Hw & Hh) & _) & Hlf & Hrf) (_ & Hlg & Hrg) Heq.
  pose proof (f_equal app_cells Heq) as Hc. unfold appearance in Hc. cbn in Hc.
  pose proof (f_equal length Hc) as Hlen. rewrite !length_fmap in Hlen.
  assert (fb_height f = fb_height g) as Hheight by (unfold zlen in *; lia). split; [|done].
  destruct (Framebuffer.rows f) as [|a fs]; [unfold zlen in Hlf; cbn in Hlf; lia|].
  destruct (Framebuffer.rows g) as [|b gs]; [done|]. cbn in Hc.
  apply (f_equal head) in Hc. cbn in Hc. simplify_eq.
  apply (f_equal length) in Hc. rewrite !length_fmap in Hc.
  inversion Hrf as [|?? [Ha _] _]; subst. inversion Hrg as [|?? [Hb _] _]; subst.
  unfold zlen in *. congruence.
Qed.

(** ** Single instructions *)

Lemma apply_hostbytes s R c :
  Complete.act s (CompleteState.screen R) = Ok ([], c) →
  CompleteState.apply_instruction (mkHostInstruction (Some s) None None) R
  = Ok (CompleteState.mk c (CompleteState.input_history R) (CompleteState.echo_ack R)).
Proof. intros Heq. unfold CompleteState.apply_instruction. cbn. by rewrite Heq. Qed.

Lemma to_int_u64 x : 0 ≤ x ≤ Dispatcher.PARAM_MAX → to_int (u64 x) = x.
Proof.
  change Dispatcher.PARAM_MAX with 65535. intros Hx.
  rewrite (uwrap_small 64) by lia. by apply to_int_small; lia.
Qed.

Lemma apply_resize w h R r d u :
  CompleteState.screen R = grounded (Emulator.mk r d u) →
  plain r → Dispatcher.terminal_to_host d = [] →
  0 < w ≤ Dispatcher.PARAM_MAX → 0 < h ≤ Dispatcher.PARAM_MAX →
  ∃ r', CompleteState.apply_instruction (mkHostInstruction None (Some (w, h)) None) R
    = Ok (CompleteState.mk (grounded (Emulator.mk r' (Dispatcher.set_terminal_to_host [] d) u))
           (CompleteState.input_history R) (CompleteState.echo_ack R))
    ∧ plain r' ∧ fb_width r' = w ∧ fb_height r' = h
    ∧ pending r' = pending r ∧ Framebuffer.window_title r' = Framebuffer.window_title r
    ∧ DrawState.reverse_video (Framebuffer.ds r') = DrawState.reverse_video (Framebuffer.ds r).
Proof.
  intros Hscr Hp Hd Hw Hh. destruct (resize_plain w h r Hp) as (r' & Heq & Hrest); [lia..|].
  exists r'. split; [|done]. unfold CompleteState.apply_instruction. cbn [hostbytes host_resize].
  unfold Complete.act_action, Emulator.act_on_terminal. rewrite Hscr.
  cbn -[to_int u64 Framebuffer.resize]. unfold Emulator.resize. cbn -[to_int u64 Framebuffer.resize].
  rewrite !to_int_u64 by lia. by rewrite Heq.
Qed.

(** ** A difference *)

Lemma echo_spec R A B :
  in_step R A → CompleteState.echo_ack A ≤ CompleteState.echo_ack B →
  ∃ ins R', CompleteState.echo_instructions B A = Ok ins
    ∧ for_each ins CompleteState.apply_instruction R = Ok R'
    ∧ CompleteState.screen R' = CompleteState.screen R
    ∧ CompleteState.echo_ack R' = CompleteState.echo_ack B.
Proof.
  intros [_ He] Hle. unfold CompleteState.echo_instructions.
  destruct (CompleteState.echo_ack A =? CompleteState.echo_ack B) eqn:E.
  - exists [], R. conjs; try done. lia.
  - z_bools. eexists _, _. conjs; [done| | |].
    + cbn [for_each]. unfold CompleteState.apply_instruction. cbn [hostbytes host_resize echoack].
      rewrite He. z_bools. done.
    + done.
    + done.
Qed.

Lemma redraw_spec R f g r d u `{!SpacingLaws} :
  CompleteState.screen R = grounded (Emulator.mk r d u) →
  plain r → pending r = false → disp_ok d → Dispatcher.terminal_to_host d = [] →
  fb_width r = fb_width f → fb_height r = fb_height f →
  fb_ok g → drawable f → shows r g f →
  ∃ s R', Display.new_frame (Display.mk true true true false) true g f = Ok s
    ∧ CompleteState.apply_instruction (mkHostInstruction (Some s) None None) R = Ok R'
    ∧ CompleteState.echo_ack R' = CompleteState.echo_ack R
    ∧ displays (CompleteState.screen R') f.
Proof.
  intros Hscr Hp Hpend Hd Hempty Hw Hh Hg Hf Hshows.
  destruct (new_frame_effect (Display.mk true true true false) true g f r)
    as (s & r' & Hs & He & Hp' & Hpend' & Happ); try done.
  destruct (He d u Hd) as (d' & (Hd' & Hreply) & Hact).
  exists s, (CompleteState.mk (grounded (Emulator.mk r' (Dispatcher.set_terminal_to_host [] d') u))
              (CompleteState.input_history R) (CompleteState.echo_ack R)). conjs; [done| |done|].
  - apply apply_hostbytes. rewrite Hscr. unfold Complete.act. rewrite Hact. cbn.
    by rewrite Hreply, Hempty.
  - by exists r', (Dispatcher.set_terminal_to_host [] d'), u.
Qed.

Lemma screen_spec R A B `{!SpacingLaws} :
  displays (CompleteState.screen R) (CompleteState.get_fb A) →
  fb_ok (CompleteState.get_fb A) → drawable (CompleteState.get_fb B) →
  ∃ ins R', CompleteState.screen_instructions B A = Ok ins
    ∧ for_each ins CompleteState.apply_instruction R = Ok R'
    ∧ CompleteState.echo_ack R' = CompleteState.echo_ack R
    ∧ displays (CompleteState.screen R') (CompleteState.get_fb B).
Proof.
  intros (r & d & u & Hscr & Hp & Hpend & Hd & Hempty & Happ) HA HB.
  unfold CompleteState.screen_instructions. cbv zeta.
  set (g := CompleteState.get_fb A) in *. set (f := CompleteState.get_fb B) in *.
  destruct (Framebuffer.eqb g f) eqn:Eeq.
  { exists [], R. conjs; try done. apply eqb_appearance in Eeq. exists r, d, u. by rewrite <- Eeq. }
  pose proof Hp as (Hr & _). destruct (appearance_size r g Hr HA Happ) as [Hrw Hrh].
  pose proof HB as ((((Hw0 & Hh0) & _) & _) & Hph & Hpw & _).
  assert (shows r g f) as (Ht & Hrv & Hlook).
  { split_and!; [exact (f_equal app_title Happ)|exact (f_equal app_reverse Happ)|by intros _ _]. }
  change CompleteState.display with (Ok (Display.mk true true true false)). cbn [mbind result_bind].
  destruct (_ || _) eqn:E.
  - destruct (apply_resize (fb_width f) (fb_height f) R r d u)
      as (r1 & Happly & Hp1 & Hw1 & Hh1 & Hpend1 & Ht1 & Hrv1); try done.
    destruct (redraw_spec (CompleteState.mk (grounded (Emulator.mk r1 (Dispatcher.set_terminal_to_host [] d) u))
        (CompleteState.input_history R) (CompleteState.echo_ack R)) f g r1 (Dispatcher.set_terminal_to_host [] d) u)
      as (s & R' & -> & Hred & He & Hdisp); try done; try congruence.
    { split_and!; [congruence|congruence|]. intros Hgw Hgh. by rewrite Hgw, Hgh, !Z.eqb_refl in E. }
    cbn [mbind result_bind]. eexists _, R'. conjs; [done| |done|done].
    cbn [app for_each]. rewrite Happly. cbn [mbind result_bind]. by rewrite Hred.
  - z_props. destruct (redraw_spec R f g r d u) as (s & R' & -> & Hred & He & Hdisp); try done; try congruence.
    cbn [mbind result_bind]. eexists _, R'. conjs; [done| |done|done].
    cbn [app for_each]. by rewrite Hred.
Qed.

Lemma diff_step R A B `{!SpacingLaws, !HostCodecLaws} :
  in_step R A → fb_ok (CompleteState.get_fb A) → drawable (CompleteState.get_fb B) →
  CompleteState.echo_ack A ≤ CompleteState.echo_ack B →
  ∃ diff R', CompleteState.diff_from B A = Ok diff
    ∧ CompleteState.apply_string diff R = Ok R' ∧ in_step R' B.
Proof.
  intros Hin HA HB Hle. destruct (echo_spec R A B Hin Hle) as (is1 & R1 & Hi1 & Hf1 & Hs1 & He1).
  destruct Hin as [Hdisp _]. rewrite <- Hs1 in Hdisp.
  destruct (screen_spec R1 A B Hdisp HA HB) as (is2 & R2 & Hi2 & Hf2 & He2 & Hs2).
  unfold CompleteState.diff_from. rewrite Hi1. cbn [mbind result_bind]. rewrite Hi2. cbn [mbind result_bind].
  eexists _, R2. conjs; [done| |split; [done|congruence]].
  unfold CompleteState.apply_string. rewrite parse_serialize_host, for_each_app, Hf1. exact Hf2.
Qed.

(** ** A fresh screen *)

Lemma make_plain w h f :
  Framebuffer.make w h = Ok f → plain f ∧ pending f = false.
Proof.
  intros Heq. assert (0 < w ∧ 0 < h) as [Hw Hh].
  { revert Heq. unfold Framebuffer.make. destruct (DrawState.make w h); [|done]. cbn [mbind result_bind].
    destruct (0 <? h) eqn:Eh; [|done]. cbn [assert_that mbind result_bind].
    destruct (0 <? w) eqn:Ew; [|done]. lia. }
  destruct (proj1 (safe_inv _ _) (fb_make_spec _ w h Hw Hh)) as (f' & Heq' & Hf & Hfw & Hfh).
  assert (f' = f) as -> by congruence. clear Heq'. revert Heq. unfold Framebuffer.make, DrawState.make.
  destruct (DrawState.reinitialize_tabs _ _) as [d|] eqn:E; [|done]. cbn [mbind result_bind]. z_bools.
  cbn [assert_that mbind result_bind]. intros [= <-].
  apply reinitialize_tabs_flags in E as [Hfl Hreg]. cbn in Hfh. unfold flags in Hfl. unfold region in Hreg.
  cbn in Hfl, Hreg. simplify_eq. unfold plain. cbn. conjs; congruence.
Qed.

Lemma fresh_in_step w h C :
  CompleteState.make w h = Ok C → in_step C C ∧ fb_ok (CompleteState.get_fb C).
Proof.
  unfold CompleteState.make, Complete.make, Emulator.make.
  destruct (Framebuffer.make _ _) as [f|] eqn:E; [|done]. cbn. intros [= <-].
  apply make_plain in E as [Hp Hpend]. split; [split; [|done]|apply Hp].
  exists f, Dispatcher.make, UserInput.Ground. cbn. by conjs.
Qed.

(** ** Histories of screens *)

(** Pairs of a screen of the server and the client's copy of it: the first
    is the fresh screen, and each further one is made from the difference
    to any earlier one. *)
Inductive copies (C : CompleteState.t) : list (CompleteState.t * CompleteState.t) → Prop :=
| copies_start : copies C [(C, C)]
| copies_step history A R B R' diff :
    copies C history → (A, R) ∈ history →
    drawable (CompleteState.get_fb B) →
    CompleteState.echo_ack A ≤ CompleteState.echo_ack B →
    CompleteState.diff_from B A = Ok diff → CompleteState.apply_string diff R = Ok R' →
    copies C ((B, R') :: history).

Lemma copies_in_step w h C history A R `{!SpacingLaws, !HostCodecLaws} :
  CompleteState.make w h = Ok C → copies C history → (A, R) ∈ history →
  in_step R A ∧ fb_ok (CompleteState.get_fb A).
Proof.
  intros HC Hc. revert A R.
  induction Hc as [|history A R B R' diff Hc IH HAR HB Hle Hdiff Happly]; intros A0 R0 Hin.
  - apply list_elem_of_singleton in Hin as [= -> ->]. by eapply fresh_in_step.
  - apply elem_of_cons in Hin as [[= -> ->]|Hin]; [|by apply IH]. split; [|apply HB].
    destruct (IH _ _ HAR) as [Hin HA].
    destruct (diff_step R A B Hin HA HB Hle) as (diff1 & R1 & Hd1 & Ha1 & Hin1).
    rewrite Hdiff in Hd1. injection Hd1 as <-. rewrite Happly in Ha1. by injection Ha1 as <-.
Qed.

(** C1.  Screen synchronization.  Start a client and a server from the same
    fresh screen, and let every further copy be made by applying the
    difference between a new screen of the server and any screen that the
    client has a copy of.  Every copy shows exactly what the server's screen
    shows and has its echo acknowledgment; and from each of them every
    drawable screen whose acknowledgment is not older can be reached:
    [diff_from] succeeds - also across a change of size -, the client applies
    it without failing an assertion, and its result shows the new screen. *)
Theorem screens_in_step w h C history A R B `{!SpacingLaws, !HostCodecLaws} :
  CompleteState.make w h = Ok C → copies C history → (A, R) ∈ history →
  in_step R A
  ∧ (drawable (CompleteState.get_fb B) →
     CompleteState.echo_ack A ≤ CompleteState.echo_ack B →
     ∃ diff R', CompleteState.diff_from B A = Ok diff
       ∧ CompleteState.apply_string diff R = Ok R'
       ∧ in_step R' B ∧ copies C ((B, R') :: history)).
Proof.
  intros HC Hc HAR. destruct (copies_in_step w h C history A R HC Hc HAR) as [Hin HA].
  split; [done|]. intros HB Hle. destruct (diff_step R A B Hin HA HB Hle) as (diff & R' & Hd & Ha & Hin').
  exists diff, R'. conjs; [done|done|done|]. by eapply copies_step.
Qed.
End sync.

(** A codec for the witness: the number of the message *)
#[local] Instance HostInstruction_eq_dec : EqDecision HostInstruction.
Proof. solve_decision. Defined.

#[local] Instance HostInstruction_countable : Countable HostInstruction.
Proof.
  refine (inj_countable' (fun i => (hostbytes i, host_resize i, echoack i))
    (fun '(b, r, e) => mkHostInstruction b r e) _).
  by intros [].
Defined.

#[local] Instance number_codec : HostCodec := {|
  serialize_host m := [Z.pos (countable.encode m)];
  parse_host l := match l with [Z.pos p] => countable.decode p | _ => None end |}.

#[local] Instance number_codec_laws : HostCodecLaws.
Proof. intros m. apply decode_encode. Qed.

Definition fresh_state : CompleteState.t :=
  ltac:(let c := eval vm_compute in (CompleteState.make 8 3) in
        lazymatch c with Ok ?c => exact c end).

(** The server's screen later on, after input was acknowledged *)
Definition later_state : CompleteState.t :=
  CompleteState.mk (grounded (Emulator.mk after_screen Dispatcher.make UserInput.Ground)) [] 7.

#[local] Instance : Wcwidth := with_marks.

Lemma screens_in_step_witness :
  in_step fresh_state fresh_state
  ∧ ∃ diff R', CompleteState.diff_from later_state fresh_state = Ok diff
      ∧ CompleteState.apply_string diff fresh_state = Ok R'
      ∧ in_step R' later_state ∧ copies fresh_state [(later_state, R'); (fresh_state, fresh_state)].
Proof.
  destruct (@screens_in_step with_marks number_codec 8 3 fresh_state [(fresh_state, fresh_state)]
    fresh_state fresh_state later_state with_marks_spacing number_codec_laws) as [Hin Hstep].
  - vm_compute. reflexivity.
  - apply copies_start.
  - apply list_elem_of_singleton. reflexivity.
  - split; [exact Hin|]. apply Hstep; by_eval.
Defined.

End ScreenSyncTheorems.
