(* ===== verification/NetworkTransport.v ===== *)
(** * The transport layer

    [src/alfalfa/src/network/transportstate.h], [transportsender.h],
    [transportsender.cc], [networktransport.h] and [networktransport.cc]:
    the sender keeps a queue of numbered states and sends differences
    against the state it assumes the receiver to have; the receiver keeps
    the states it can be asked to start from.

    The clock is the frozen timestamp, one value per call.  What the sender
    reads from the connection is the record [Connection]; what it hands to
    it is the list of queued datagrams.  An iterator into the list of sent
    states is a position, [None] when the element it pointed to is gone. *)

From S2P Require Import Prelude StateSync TransportFragment.

Record TimestampedState {S : Type} : Type := mkTS {
  timestamp : Z;
  num : Z;
  state : S }.
Arguments TimestampedState : clear implicits.
Arguments mkTS {S} _ _ _.

(** What the sender asks of the connection; [SRTT_quarter] is
    [lrint( ceil( get_SRTT() / 4.0 ) )]. *)
Record Connection : Set := mkConnection {
  SRTT_quarter : Z;
  timeout : Z;
  has_remote_addr : bool;
  window_size : Z;
  MTU : Z;
  tick_length : Z }.

Definition SEND_INTERVAL_MIN : Z := 33.
Definition SEND_INTERVAL_MAX : Z := 250.
Definition ACK_INTERVAL : Z := 3000.
Definition ACK_DELAY : Z := 100.
Definition SHUTDOWN_RETRIES : Z := 16.
Definition ACTIVE_RETRY_TIMEOUT : Z := 10000.
Definition INT_MAX : Z := 2 ^ 31 - 1.

(** [uint64_t( -1 )], which stands for "never" and for the shutdown state *)
Definition NEVER : Z := 2 ^ 64 - 1.

(** ** Class [TransportSender] *)

Module TransportSender.

Section sender.
Context {S : Type}.

Record t : Type := mk {
  current_state : S;
  sent_states : list (TimestampedState S);
  assumed_receiver_state : option nat;
  fragmenter : Fragmenter.t;
  next_ack_time : Z;
  next_send_time : Z;
  shutdown_in_progress : bool;
  shutdown_tries : Z;
  ack_num : Z;
  pending_data_ack : bool;
  SEND_MINDELAY : Z;
  last_heard : Z;
  mindelay_clock : Z }.

#[export] Instance t_eta : Eta t := fun s =>
  mk (current_state s) (sent_states s) (assumed_receiver_state s) (fragmenter s)
    (next_ack_time s) (next_send_time s) (shutdown_in_progress s) (shutdown_tries s)
    (ack_num s) (pending_data_ack s) (SEND_MINDELAY s) (last_heard s) (mindelay_clock s).

Definition set_state (v : S) (s : t) : t := ltac:(with_field s current_state v).
Definition set_sent_states (v : list (TimestampedState S)) (s : t) : t := ltac:(with_field s sent_states v).
Definition set_assumed (v : option nat) (s : t) : t := ltac:(with_field s assumed_receiver_state v).
Definition set_fragmenter (v : Fragmenter.t) (s : t) : t := ltac:(with_field s fragmenter v).
Definition set_next_ack_time (v : Z) (s : t) : t := ltac:(with_field s next_ack_time v).
Definition set_next_send_time (v : Z) (s : t) : t := ltac:(with_field s next_send_time v).
Definition set_shutdown (v : bool) (s : t) : t := ltac:(with_field s shutdown_in_progress v).
Definition set_shutdown_tries (v : Z) (s : t) : t := ltac:(with_field s shutdown_tries v).
Definition set_ack_num (v : Z) (s : t) : t := ltac:(with_field s ack_num v).
Definition set_pending_data_ack (v : bool) (s : t) : t := ltac:(with_field s pending_data_ack v).
Definition set_send_delay (v : Z) (s : t) : t := ltac:(with_field s SEND_MINDELAY v).
Definition remote_heard (v : Z) (s : t) : t := ltac:(with_field s last_heard v).
Definition set_mindelay_clock (v : Z) (s : t) : t := ltac:(with_field s mindelay_clock v).

Definition set_data_ack (s : t) : t := set_pending_data_ack true s.
Definition start_shutdown (s : t) : t := set_shutdown true s.

(** The constructor *)
Definition make (initial_state : S) (now : Z) : t :=
  mk initial_state [mkTS now 0 initial_state] (Some 0%nat) Fragmenter.make now now
    false 0 0 false 0 0 NEVER.

Definition set_current_state (x : S) (s : t) : result t :=
  assert_that (negb (shutdown_in_progress s)) "!shutdown_in_progress";;
  Ok (set_state x s).

(** [sent_states.front()], [sent_states.back()] and the state an iterator
    points to *)
Definition front (s : t) : result (TimestampedState S) := vec_get (sent_states s) 0.
Definition back (s : t) : result (TimestampedState S) :=
  vec_get (sent_states s) (zlen (sent_states s) - 1).
Definition assumed (s : t) : result (TimestampedState S) :=
  match assumed_receiver_state s with
  | None => Fault NullDeref
  | Some i => vec_get (sent_states s) (Z.of_nat i)
  end.

Definition send_interval (c : Connection) : Z :=
  if SRTT_quarter c <? SEND_INTERVAL_MIN then SEND_INTERVAL_MIN
  else if SEND_INTERVAL_MAX <? SRTT_quarter c then SEND_INTERVAL_MAX
  else SRTT_quarter c.

(** The loop of [update_assumed_receiver_state] from the element at
    position [i] *)
Fixpoint assume_from (now patience : Z) (l : list (TimestampedState S)) (i : nat) (acc : nat)
    : result nat :=
  match l with
  | [] => Ok acc
  | st :: l' =>
      assert_that (timestamp st <=? now) "now >= i->timestamp";;
      if u64 (now - timestamp st) <? patience then assume_from now patience l' (i + 1) i
      else Ok acc
  end.

Definition update_assumed_receiver_state (now : Z) (c : Connection) (s : t) : result t :=
  i ← assume_from now (timeout c + ACK_DELAY) (drop 1 (sent_states s)) 1 0;
  Ok (set_assumed (Some i) s).

(** [list::erase]: the position of an iterator afterwards *)
Definition after_erase (k : nat) (it : option nat) : option nat :=
  match it with
  | None => None
  | Some i => if decide (i = k) then None else Some (if decide (k < i)%nat then (i - 1)%nat else i)
  end.

Definition add_sent_state (the_timestamp num : Z) (st : S) (s : t) : t :=
  let l := vec_push (sent_states s) (mkTS the_timestamp num st) in
  if 32 <? zlen l then
    let last := (length l - 16)%nat in
    set_assumed (after_erase last (assumed_receiver_state s)) (set_sent_states (delete last l) s)
  else set_sent_states l s.

(** [list::remove_if( num < ack )]: the position of an iterator afterwards *)
Definition after_remove (p : TimestampedState S → bool) (l : list (TimestampedState S))
    (it : option nat) : option nat :=
  match it with
  | None => None
  | Some i =>
      match l !! i with
      | Some x => if p x then None else Some (length (List.filter (fun y => negb (p y)) (take i l)))
      | None => None
      end
  end.

Definition process_acknowledgment_through (ack : Z) (s : t) : result t :=
  let s :=
    if existsb (fun st => num st =? ack) (sent_states s) then
      let p := fun st => num st <? ack in
      set_assumed (after_remove p (sent_states s) (assumed_receiver_state s))
        (set_sent_states (List.filter (fun st => negb (p st)) (sent_states s)) s)
    else s in
  assert_that (negb (zlen (sent_states s) =? 0)) "!sent_states.empty()";;
  Ok s.

Definition shutdown_ack_timed_out (s : t) : bool := SHUTDOWN_RETRIES <=? shutdown_tries s.

Section states.
Context `{SyncState S, InstructionCodec}.

(** [rationalize_states]: from the back to the front, which is subtracted
    from itself last *)
Definition rationalize_states (s : t) : result t :=
  known ← front s;
  cur ← subtract (current_state s) (state known);
  rest ← map_result (fun st => x ← subtract (state st) (state known);
                               Ok (mkTS (timestamp st) (num st) x)) (drop 1 (sent_states s));
  first ← subtract_self (state known);
  Ok (set_sent_states (mkTS (timestamp known) (num known) first :: rest) (set_state cur s)).

Definition calculate_timers (now : Z) (c : Connection) (s : t) : result t :=
  s ← update_assumed_receiver_state now c s;
  s ← rationalize_states s;
  let s := if pending_data_ack s && (u64 (now + ACK_DELAY) <? next_ack_time s)
           then set_next_ack_time (u64 (now + ACK_DELAY)) s else s in
  back_st ← back s;
  assumed_st ← assumed s;
  front_st ← front s;
  let s :=
    if negb (state_eqb (current_state s) (state back_st)) then
      let s := if mindelay_clock s =? NEVER then set_mindelay_clock now s else s in
      set_next_send_time (Z.max (u64 (mindelay_clock s + SEND_MINDELAY s))
                                (u64 (timestamp back_st + send_interval c))) s
    else if negb (state_eqb (current_state s) (state assumed_st))
            && (now <? u64 (last_heard s + ACTIVE_RETRY_TIMEOUT)) then
      let next := u64 (timestamp back_st + send_interval c) in
      set_next_send_time (if mindelay_clock s =? NEVER then next
                          else Z.max next (u64 (mindelay_clock s + SEND_MINDELAY s))) s
    else if negb (state_eqb (current_state s) (state front_st))
            && (now <? u64 (last_heard s + ACTIVE_RETRY_TIMEOUT)) then
      set_next_send_time (u64 (timestamp back_st + timeout c + ACK_DELAY)) s
    else set_next_send_time NEVER s in
  Ok (if shutdown_in_progress s || (ack_num s =? NEVER)
      then set_next_ack_time (u64 (timestamp back_st + send_interval c)) s else s).

Definition wait_time (now : Z) (c : Connection) (s : t) : result (Z * t) :=
  s ← calculate_timers now c s;
  let next_wakeup := if next_send_time s <? next_ack_time s then next_send_time s
                     else next_ack_time s in
  if negb (has_remote_addr c) then Ok (INT_MAX, s)
  else
    let ret := to_int (u64 (next_wakeup - now)) in
    let ret := if tick_length c <? ret then tick_length c else ret in
    Ok (if ret <? 0 then 0 else ret, s).

(** A datagram handed to the connection, with its [time_to_next] *)
Definition queued : Set := list Z * Z.

(** What one call sends: the instruction, and the datagrams it is cut
    into *)
Record sending : Set := mkSending {
  sent_instruction : Instruction;
  datagrams : list queued }.

(** [send_in_fragments] builds the instruction, cuts it and queues it. *)
Definition make_instruction (d : list Z) (new_num : Z) (s : t) : result Instruction :=
  a ← assumed s;
  f ← front s;
  Ok (mkInstruction (Some (num a)) (Some new_num) (Some (ack_num s)) (Some (num f)) (Some d)).

Definition send_in_fragments (d : list Z) (new_num : Z) (c : Connection) (s : t)
    : result (sending * t) :=
  inst ← make_instruction d new_num s;
  let s := if new_num =? NEVER then set_shutdown_tries (shutdown_tries s + 1) s else s in
  '(frags, fr) ← Fragmenter.make_fragments inst (MTU c) (fragmenter s);
  let s := set_fragmenter fr s in
  strs ← map_result Fragment.tostring frags;
  let q := imap (fun i x => (x, if decide ((i + 1)%nat = length strs) then send_interval c else 0)) strs in
  Ok (mkSending inst q, set_pending_data_ack false s).

Definition send_empty_ack (now : Z) (c : Connection) (s : t) : result (sending * t) :=
  assert_that (next_ack_time s <=? now) "now >= next_ack_time";;
  b ← back s;
  let new_num := if shutdown_in_progress s then NEVER else u64 (num b + 1) in
  let s := add_sent_state now new_num (current_state s) s in
  '(q, s) ← send_in_fragments [] new_num c s;
  Ok (q, set_next_send_time NEVER (set_next_ack_time (u64 (now + ACK_INTERVAL)) s)).

Definition send_to_receiver (d : list Z) (now : Z) (c : Connection) (s : t)
    : result (sending * t) :=
  b ← back s;
  let new_num := if shutdown_in_progress s then NEVER else u64 (num b + 1) in
  a ← assumed s;
  newstate ← apply_string d (state a);
  let s := add_sent_state now new_num newstate s in
  '(q, s) ← send_in_fragments d new_num c s;
  let s := set_assumed (Some (length (sent_states s) - 1)%nat) s in
  Ok (q, set_next_send_time NEVER (set_next_ack_time (u64 (now + ACK_INTERVAL)) s)).

(** [tick], after the connection's own *)
Definition tick (now : Z) (c : Connection) (s : t) : result (option sending * t) :=
  s ← calculate_timers now c s;
  if negb (has_remote_addr c) then Ok (None, s)
  else if (now <? next_ack_time s) && (now <? next_send_time s) then Ok (None, s)
  else
    d ← (if 1000 <? window_size c
         then a ← assumed s; diff_from (current_state s) (state a) (window_size c)
         else Ok []);
    if (zlen d =? 0) && (next_ack_time s <=? now) then
      '(q, s) ← send_empty_ack now c s;
      Ok (Some q, set_mindelay_clock NEVER s)
    else if negb (zlen d =? 0) && ((next_send_time s <=? now) || (next_ack_time s <=? now)) then
      '(q, s) ← send_to_receiver d now c s;
      Ok (Some q, set_mindelay_clock NEVER s)
    else Ok (None, s).
End states.
End sender.
Arguments t : clear implicits.
End TransportSender.

(** ** Class [Transport] *)

Module Transport.

Section transport.
Context {MyState RemoteState : Type}.

Record t : Type := mk {
  sender : TransportSender.t MyState;
  received_states : list (TimestampedState RemoteState);
  last_receiver_state : RemoteState;
  fragments : FragmentAssembly.t }.

#[export] Instance t_eta : Eta t := fun s =>
  mk (sender s) (received_states s) (last_receiver_state s) (fragments s).

Definition set_sender (v : TransportSender.t MyState) (s : t) : t := ltac:(with_field s sender v).
Definition set_received_states (v : list (TimestampedState RemoteState)) (s : t) : t :=
  ltac:(with_field s received_states v).
Definition set_last_receiver_state (v : RemoteState) (s : t) : t :=
  ltac:(with_field s last_receiver_state v).
Definition set_fragments (v : FragmentAssembly.t) (s : t) : t := ltac:(with_field s fragments v).

(** The constructors *)
Definition make (initial_state : MyState) (initial_remote : RemoteState) (now : Z) : t :=
  mk (TransportSender.make initial_state now) [mkTS now 0 initial_remote] initial_remote
    FragmentAssembly.make.

Definition process_throwaway_until (throwaway : Z) (l : list (TimestampedState RemoteState))
    : result (list (TimestampedState RemoteState)) :=
  let l := List.filter (fun st => negb (num st <? throwaway)) l in
  assert_that (0 <? zlen l) "received_states.size() > 0";;
  Ok l.

(** The insertion loop: the new list, and whether the state went to the
    back *)
Fixpoint insert_sorted (new_state : TimestampedState RemoteState)
    (l : list (TimestampedState RemoteState)) : list (TimestampedState RemoteState) * bool :=
  match l with
  | [] => ([new_state], true)
  | i :: l' =>
      if num new_state <? num i then (new_state :: i :: l', false)
      else let '(r, b) := insert_sorted new_state l' in (i :: r, b)
  end.

Section states.
Context `{SyncState RemoteState, InstructionCodec}.

(** An unset number reads as zero, an unset difference as empty. *)
Definition field (n : option Z) : Z := default 0 n.
Definition inst_diff (i : Instruction) : list Z := default [] (diff i).

(** The receiver's half of [recv] for a complete instruction.  The
    iterator [reference_state] does not survive the removal of the element
    it points to. *)
Definition receive (inst : Instruction) (now : Z) (l : list (TimestampedState RemoteState))
    : result (list (TimestampedState RemoteState) * option bool) :=
  let new_num := field (new_num inst) in
  let old_num := field (old_num inst) in
  if existsb (fun st => new_num =? num st) l then Ok (l, None)
  else
    match List.find (fun st => old_num =? num st) l with
    | None => Ok (l, None)
    | Some reference_state =>
        l ← process_throwaway_until (field (throwaway_num inst)) l;
        if 1024 <? zlen l then Ok (l, None)
        else if num reference_state <? field (throwaway_num inst) then Fault NullDeref
        else
          st ← (if zlen (inst_diff inst) =? 0 then Ok (state reference_state)
                else apply_string (inst_diff inst) (state reference_state));
          let '(l, at_back) := insert_sorted (mkTS now new_num st) l in
          Ok (l, Some at_back)
    end.

Definition process_instruction (inst : Instruction) (now : Z) (s : t) : result t :=
  snd_ ← TransportSender.process_acknowledgment_through (field (ack_num inst)) (sender s);
  let s := set_sender snd_ s in
  '(l, outcome) ← receive inst now (received_states s);
  let s := set_received_states l s in
  match outcome with
  | Some true =>
      let snd_ := TransportSender.set_ack_num (field (new_num inst)) (sender s) in
      let snd_ := TransportSender.remote_heard now snd_ in
      Ok (set_sender (if zlen (inst_diff inst) =? 0 then snd_
                      else TransportSender.set_data_ack snd_) s)
  | _ => Ok s
  end.

(** [recv] of the datagram [s] that the connection returned *)
Definition recv (datagram : list Z) (now : Z) (s : t) : result t :=
  frag ← Fragment.parse datagram;
  '(complete, fa) ← FragmentAssembly.add_fragment frag (fragments s);
  if (complete : bool) then
    '(inst, fa) ← FragmentAssembly.get_assembly fa;
    process_instruction inst now (set_fragments fa s)
  else Ok (set_fragments fa s).

(** [get_remote_diff]; the one-argument [diff_from] it calls is [diff1] *)
Definition get_remote_diff (diff1 : RemoteState → RemoteState → result (list Z)) (s : t)
    : result (list Z * t) :=
  b ← vec_get (received_states s) (zlen (received_states s) - 1);
  ret ← diff1 (state b) (last_receiver_state s);
  oldest ← vec_get (received_states s) 0;
  rest ← map_result (fun st => x ← subtract (state st) (state oldest);
                               Ok (mkTS (timestamp st) (num st) x)) (drop 1 (received_states s));
  first ← subtract_self (state oldest);
  let l := mkTS (timestamp oldest) (num oldest) first :: rest in
  b ← vec_get l (zlen l - 1);
  Ok (ret, set_last_receiver_state (state b) (set_received_states l s)).
End states.
End transport.
Arguments t : clear implicits.
End Transport.
