(* ===== verification/TransportProps.v ===== *)
(** * Properties of the transport layer

    The queue of sent states, the receiver's list, and their agreement over
    a network that loses, duplicates and reorders. *)

From Stdlib Require Import Sorted.
From S2P Require Import Prelude StateSync TransportFragment FragmentProps NetworkTransport.

Module TransportTheorems.

Section queue.
Context {S : Type}.
Implicit Types (l : list (TimestampedState S)).

Definition sorted_nums l : Prop := StronglySorted (fun a b => num a < num b) l.

Definition sorted_times (now : Z) l : Prop :=
  StronglySorted (fun a b => timestamp a ≤ timestamp b) l
  ∧ Forall (fun a => 0 ≤ timestamp a ≤ now) l.

(** ** The assumed receiver state *)

Lemma assume_all now patience l i acc :
  Forall (fun st => timestamp st ≤ now ∧ u64 (now - timestamp st) < patience) l →
  TransportSender.assume_from now patience l i acc =
    Ok (match l with [] => acc | _ => (i + length l - 1)%nat end).
Proof.
  intros Hl. revert i acc. induction Hl as [|st l [Ht Hp] _ IH]; intros i acc; [done|].
  cbn [TransportSender.assume_from]. z_bools. cbn [assert_that mbind result_bind].
  rewrite IH. destruct l; f_equal; cbn; lia.
Qed.

Lemma assume_from_spec now patience l i acc :
  sorted_times now l → now < 2 ^ 64 →
  ∃ r, TransportSender.assume_from now patience l i acc = Ok r
    ∧ (r = acc ∨ l ≠ [] ∧ r = (i + length l - 1)%nat).
Proof.
  intros [Hs Hf] Hnow. destruct l as [|st l]; [by exists acc; auto|].
  inversion Hs as [|?? _ Hle]; inversion Hf as [|?? Hst Hrest]; subst.
  destruct (decide (u64 (now - timestamp st) < patience)) as [Hlt|Hge].
  - rewrite assume_all; [eexists; split; [done|by right]|].
    constructor; [split; [lia|done]|]. apply Forall_forall. intros x Hx.
    rewrite Forall_forall in Hle, Hrest. specialize (Hle x Hx). specialize (Hrest x Hx). cbn in *.
    rewrite uwrap_small in * by lia. lia.
  - exists acc. cbn [TransportSender.assume_from]. z_bools. cbn [assert_that mbind result_bind]. auto.
Qed.

Lemma sorted_times_drop now l : sorted_times now l → sorted_times now (drop 1 l).
Proof. intros [Hs Hf]. destruct l; [done|]. inversion Hs; inversion Hf; subst. by split. Qed.

(** The first or the last: the ones in between are only passed over. *)
Definition assumed_ok (s : TransportSender.t S) : Prop :=
  TransportSender.assumed_receiver_state s = Some 0%nat
  ∨ TransportSender.assumed_receiver_state s
    = Some (length (TransportSender.sent_states s) - 1)%nat.

Lemma update_assumed_ok now c (s : TransportSender.t S) :
  TransportSender.sent_states s ≠ [] → sorted_times now (TransportSender.sent_states s) → now < 2 ^ 64 →
  ∃ i, TransportSender.update_assumed_receiver_state now c s = Ok (TransportSender.set_assumed (Some i) s)
    ∧ assumed_ok (TransportSender.set_assumed (Some i) s).
Proof.
  intros Hne Ht Hnow. unfold TransportSender.update_assumed_receiver_state.
  destruct (assume_from_spec now (timeout c + ACK_DELAY) (drop 1 (TransportSender.sent_states s)) 1 0)
    as (r & -> & Hr); [by apply sorted_times_drop|done|].
  exists r. split; [done|]. unfold assumed_ok. cbn.
  destruct Hr as [->|[Hd ->]]; [by left|right]. f_equal. rewrite length_drop.
  destruct (TransportSender.sent_states s) as [|? [|]]; cbn in *; [done|done|lia].
Qed.

(** Adding a state keeps the iterator on its element. *)
Lemma add_sent_state_assumed ts n st (s : TransportSender.t S) a :
  assumed_ok s → TransportSender.assumed s = Ok a →
  TransportSender.assumed (TransportSender.add_sent_state ts n st s) = Ok a.
Proof.
  intros Hok. unfold TransportSender.assumed, TransportSender.add_sent_state.
  set (l := TransportSender.sent_states s) in *.
  destruct (TransportSender.assumed_receiver_state s) as [i|] eqn:Hi; [|done].
  intros Hget. apply vec_get_Ok in Hget as [_ Hget]. rewrite Nat2Z.id in Hget.
  apply lookup_lt_Some in Hget as Hlt.
  destruct (32 <? zlen (vec_push l _)) eqn:Hbig; cbn.
  - rewrite zlen_push in Hbig. unfold zlen in Hbig.
    unfold vec_push. rewrite length_app. cbn [length].
    set (k := (length l + 1 - 16)%nat). unfold assumed_ok in Hok. fold l in Hok. rewrite Hi in Hok.
    destruct Hok as [[= ->]|[= ->]]; unfold TransportSender.after_erase; cbn.
    + rewrite decide_False, decide_False by (unfold k; lia).
      apply vec_get_Ok. split; [lia|]. rewrite list_lookup_delete. rewrite decide_True by (unfold k; lia).
      by rewrite lookup_app_l.
    + rewrite decide_False, decide_True by (unfold k; lia).
      apply vec_get_Ok. split; [lia|]. rewrite Nat2Z.id, list_lookup_delete.
      rewrite decide_False by (unfold k; lia).
      replace (Datatypes.S (length l - 1 - 1)) with (length l - 1)%nat by lia.
      by rewrite lookup_app_l.
  - rewrite Hi. apply vec_get_Ok. split; [lia|]. rewrite Nat2Z.id. by apply lookup_app_l_Some.
Qed.

(** ** The queue as a list *)

Lemma sorted_sublist {A} (R : A → A → Prop) (l k : list A) :
  l `sublist_of` k → StronglySorted R k → StronglySorted R l.
Proof.
  induction 1 as [|x l k Hsub IH|x l k Hsub IH]; intros Hs; [constructor| |].
  - inversion Hs as [|?? Hk Hx]; subst. constructor; [by apply IH|].
    rewrite Forall_forall in Hx |- *. intros y Hy. apply Hx. by eapply elem_of_sublist.
  - inversion Hs; subst. by apply IH.
Qed.

Lemma sorted_app_one {A} (R : A → A → Prop) (l : list A) (x : A) :
  StronglySorted R l → Forall (fun y => R y x) l → StronglySorted R (l ++ [x]).
Proof.
  induction 1 as [|y l Hs IH Hy]; intros Hx; cbn; [by repeat constructor|].
  inversion Hx; subst. constructor; [by apply IH|]. apply Forall_app. by split; [|constructor].
Qed.

(** What is in the queue after a state was added *)
Lemma add_sent_state_list ts n st (s : TransportSender.t S) :
  TransportSender.sent_states s ≠ [] →
  let l' := TransportSender.sent_states (TransportSender.add_sent_state ts n st s) in
  l' `sublist_of` TransportSender.sent_states s ++ [mkTS ts n st]
  ∧ mkTS ts n st ∈ l'
  ∧ l' !! 0%nat = TransportSender.sent_states s !! 0%nat
  ∧ last l' = Some (mkTS ts n st).
Proof.
  intros Hne. cbv zeta. unfold TransportSender.add_sent_state, vec_push.
  set (l := TransportSender.sent_states s) in *. set (x := mkTS ts n st).
  assert (0 < length l)%nat by (destruct l; [done|cbn; lia]).
  destruct (32 <? zlen (l ++ [x])) eqn:Hbig; cbn.
  - assert (32 ≤ length l)%nat.
    { apply Z.ltb_lt in Hbig. unfold zlen in Hbig. rewrite length_app in Hbig. cbn [length] in Hbig. lia. }
    rewrite length_app. cbn [length].
    set (k := (length l + 1 - 16)%nat).
    assert (delete k (l ++ [x]) = delete k l ++ [x]) as ->.
    { apply list_eq. intros i. rewrite list_lookup_delete.
      destruct (decide (i < k)%nat).
      - rewrite !lookup_app_l; [|rewrite length_delete; [lia|apply lookup_lt_is_Some_2; lia]|lia].
        by rewrite list_lookup_delete, decide_True.
      - assert (length (delete k l) = (length l - 1)%nat) as Hld.
        { rewrite length_delete; [done|]. apply lookup_lt_is_Some_2. lia. }
        destruct (decide (i < length l - 1)%nat).
        + rewrite !lookup_app_l by lia. by rewrite list_lookup_delete, decide_False.
        + rewrite !lookup_app_r by lia. f_equal. lia. }
    split_and!.
    + apply sublist_app; [apply sublist_delete|done].
    + apply elem_of_app. right. by apply list_elem_of_singleton.
    + rewrite lookup_app_l by (rewrite length_delete; [lia|apply lookup_lt_is_Some_2; lia]).
      by rewrite list_lookup_delete, decide_True by lia.
    + by rewrite last_snoc.
  - split_and!; [done| | |by rewrite last_snoc].
    + apply elem_of_app. right. by apply list_elem_of_singleton.
    + by rewrite lookup_app_l.
Qed.

(** ** The sender's invariant *)

Definition sender_ok (now : Z) (s : TransportSender.t S) : Prop :=
  TransportSender.sent_states s ≠ []
  ∧ sorted_nums (TransportSender.sent_states s)
  ∧ sorted_times now (TransportSender.sent_states s).

Lemma back_last (s : TransportSender.t S) b :
  TransportSender.back s = Ok b ↔ last (TransportSender.sent_states s) = Some b.
Proof.
  unfold TransportSender.back. rewrite vec_get_Ok, last_lookup. split.
  - intros [Hz Hb]. rewrite <- Hb. f_equal. unfold zlen. lia.
  - intros Hb. apply lookup_lt_Some in Hb as Hlt. split; [unfold zlen; lia|].
    rewrite <- Hb. f_equal. unfold zlen. lia.
Qed.

Lemma front_head (s : TransportSender.t S) f :
  TransportSender.front s = Ok f ↔ TransportSender.sent_states s !! 0%nat = Some f.
Proof. unfold TransportSender.front. rewrite vec_get_Ok. naive_solver lia. Qed.

(** In a sorted queue the last number is the largest, the first the
    smallest. *)
Lemma sorted_last l b x :
  sorted_nums l → last l = Some b → x ∈ l → num x ≤ num b.
Proof.
  intros Hs [l' ->]%last_Some [Hx|Hx%list_elem_of_singleton]%elem_of_app.
  - induction l' as [|y l' IH]; [by apply not_elem_of_nil in Hx|].
    inversion Hs as [|?? Hs' Hy]; subst. apply elem_of_cons in Hx as [->|Hx]; [|by apply IH].
    rewrite Forall_app, Forall_singleton in Hy. lia.
  - by subst.
Qed.

Lemma sorted_first l f x :
  sorted_nums l → l !! 0%nat = Some f → x ∈ l → num f ≤ num x.
Proof.
  intros Hs Hf Hx. destruct l as [|y l]; [done|]. cbn in Hf. simplify_eq.
  inversion Hs as [|?? _ Hy]; subst. rewrite Forall_forall in Hy.
  apply elem_of_cons in Hx as [->|Hx]; [done|]. by apply Z.lt_le_incl, Hy.
Qed.

Lemma add_sent_state_ok now ts n st (s : TransportSender.t S) b :
  sender_ok now s → TransportSender.back s = Ok b → num b < n → now ≤ ts →
  sender_ok ts (TransportSender.add_sent_state ts n st s).
Proof.
  intros (Hne & Hn & Ht & Htf) Hb%back_last Hlt Hts.
  destruct (add_sent_state_list ts n st s Hne) as (Hsub & Hin & _).
  split_and!.
  - intros Hnil. rewrite Hnil in Hin. by apply not_elem_of_nil in Hin.
  - eapply sorted_sublist; [exact Hsub|]. apply sorted_app_one; [done|].
    apply Forall_forall. intros x Hx. cbn. pose proof (sorted_last _ _ _ Hn Hb Hx). lia.
  - split.
    + eapply sorted_sublist; [exact Hsub|]. apply sorted_app_one; [done|].
      eapply Forall_impl; [exact Htf|]. intros x Hx. cbn in *. lia.
    + apply Forall_forall. intros x Hx. eapply elem_of_sublist in Hx; [|exact Hsub].
      rewrite Forall_forall in Htf. apply elem_of_app in Hx as [Hx|Hx].
      2: apply list_elem_of_singleton in Hx as ->.
      all: cbn.
      * apply Htf in Hx. cbn in Hx. lia.
      * apply last_Some_elem_of in Hb. apply Htf in Hb. cbn in Hb. lia.
Qed.

Lemma filter_sub {A} (p : A → bool) (l : list A) : List.filter p l `sublist_of` l.
Proof.
  induction l as [|x l IH]; [constructor|]. cbn. destruct (p x); by constructor.
Qed.

Lemma sender_ok_sublist now (s s' : TransportSender.t S) :
  sender_ok now s → TransportSender.sent_states s' ≠ [] →
  TransportSender.sent_states s' `sublist_of` TransportSender.sent_states s → sender_ok now s'.
Proof.
  intros (_ & Hn & Ht & Hf) Hne Hsub. split_and!; [done|by eapply sorted_sublist|].
  split; [by eapply sorted_sublist|]. rewrite Forall_forall in Hf |- *.
  intros x Hx. apply Hf. by eapply elem_of_sublist.
Qed.

(** An acknowledgment removes a proper prefix: the newest state stays, and
    the acknowledged one comes to the front. *)
Lemma process_ack_ok now ack (s : TransportSender.t S) :
  sender_ok now s →
  ∃ s', TransportSender.process_acknowledgment_through ack s = Ok s' ∧ sender_ok now s'
    ∧ TransportSender.sent_states s' `sublist_of` TransportSender.sent_states s
    ∧ last (TransportSender.sent_states s') = last (TransportSender.sent_states s)
    ∧ TransportSender.current_state s' = TransportSender.current_state s
    ∧ TransportSender.shutdown_in_progress s' = TransportSender.shutdown_in_progress s
    ∧ ((∃ st, st ∈ TransportSender.sent_states s ∧ num st = ack) →
       ∃ st, TransportSender.sent_states s' !! 0%nat = Some st ∧ num st = ack).
Proof.
  intros Hs. pose proof Hs as (Hne & Hn & _). unfold TransportSender.process_acknowledgment_through.
  destruct (existsb _ _) eqn:Hex.
  - apply existsb_exists in Hex as (st & Hin%list_elem_of_In & Hack%Z.eqb_eq).
    set (p := fun st => negb (num st <? ack)). set (l := TransportSender.sent_states s) in *.
    assert (st ∈ List.filter p l) as Hst.
    { apply list_elem_of_In, List.filter_In. split; [by apply list_elem_of_In|]. unfold p.
      rewrite Hack, Z.ltb_irrefl. done. }
    assert (List.filter p l ≠ []) as Hfne.
    { intros Hnil. rewrite Hnil in Hst. by apply not_elem_of_nil in Hst. }
    assert (last (List.filter p l) = last l) as Hlast.
    { destruct (last l) as [b|] eqn:Hb; [|apply last_None in Hb; by rewrite Hb in Hin; apply not_elem_of_nil in Hin].
      pose proof (sorted_last l b st Hn Hb Hin). apply last_Some in Hb as [l' ->].
      rewrite List.filter_app. cbn. assert (p b = true) as -> by (unfold p; lia). by rewrite last_snoc. }
    cbn. assert ((zlen (List.filter p l) =? 0) = false) as ->.
    { destruct (List.filter p l); [done|]. rewrite zlen_cons. pose proof (zlen_nonneg l0). lia. }
    cbn. eexists. split; [done|].
    split; [eapply sender_ok_sublist; [exact Hs|done|apply filter_sub]|].
    split_and!; try done; [apply filter_sub|].
    intros _. destruct (List.filter p l) as [|f r] eqn:Hfl; [done|]. exists f. split; [done|].
    assert (f ∈ List.filter p l) as Hf by (rewrite Hfl; left).
    apply list_elem_of_In, List.filter_In in Hf as [_ Hpf].
    assert (sorted_nums (List.filter p l)) as Hsf by (eapply sorted_sublist; [apply filter_sub|done]).
    assert (num f ≤ num st) by (eapply sorted_first; [exact Hsf|by rewrite Hfl|by rewrite Hfl]).
    unfold p in Hpf. lia.
  - assert ((zlen (TransportSender.sent_states s) =? 0) = false) as ->.
    { destruct (TransportSender.sent_states s); [done|]. rewrite zlen_cons. pose proof (zlen_nonneg l). lia. }
    cbn. exists s. split_and!; try done; try apply Hs. intros (st & Hin & Hack).
    assert (existsb (fun st => num st =? ack) (TransportSender.sent_states s) = true) as Ht; [|congruence].
    apply existsb_exists. exists st. split; [by apply list_elem_of_In|lia].
Qed.
Lemma insert_sorted_elem (n x : TimestampedState S) l :
  x ∈ fst (Transport.insert_sorted n l) ↔ x = n ∨ x ∈ l.
Proof.
  induction l as [|y l IH]; cbn.
  - rewrite list_elem_of_singleton. set_solver.
  - destruct (num n <? num y); cbn; [set_solver|].
    destruct (Transport.insert_sorted n l) as [r b]. cbn in *. set_solver.
Qed.

End queue.

(** ** Agreement of sender and receiver *)

(** A state whose [subtract] does nothing (as [Complete] and [Flood]) and
    whose difference is empty only between equal states *)
Class PlainState (S : Type) `{SyncState S} : Prop := {
  subtract_id (x y : S) : subtract x y = Ok x;
  subtract_self_id (x : S) : subtract_self x = Ok x;
  diff_empty (x y : S) len : diff_from x y len = Ok [] → x = y }.

Section system.
Context {S : Type} `{PlainState S, InstructionCodec}.

(** The sender, the receiver's list, everything ever sent, and the state
    that each number was given to. *)
Record system : Type := mkSystem {
  snd_side : TransportSender.t S;
  rcv_side : list (TimestampedState S);
  network : list Instruction;
  history : list (Z * S);
  clock : Z }.

(** Steps.  The user changes the current state; the sender ticks with a
    window large enough for differences to be computed; an acknowledgment of
    any number arrives at the sender; any instruction ever sent is delivered
    to the receiver, which may be its first, a late or a repeated delivery;
    time passes. *)
Inductive sys_step : system → system → Prop :=
  | step_set x snd' sys :
      TransportSender.set_current_state x (snd_side sys) = Ok snd' →
      sys_step sys (mkSystem snd' (rcv_side sys) (network sys) (history sys) (clock sys))
  | step_time now sys :
      clock sys ≤ now < 2 ^ 64 →
      sys_step sys (mkSystem (snd_side sys) (rcv_side sys) (network sys) (history sys) now)
  | step_idle c snd' sys :
      1000 < window_size c →
      TransportSender.tick (clock sys) c (snd_side sys) = Ok (None, snd') →
      sys_step sys (mkSystem snd' (rcv_side sys) (network sys) (history sys) (clock sys))
  | step_send c sent b snd' sys :
      1000 < window_size c →
      (∀ b, TransportSender.back (snd_side sys) = Ok b → num b + 1 < NEVER) →
      TransportSender.tick (clock sys) c (snd_side sys) = Ok (Some sent, snd') →
      TransportSender.back snd' = Ok b →
      sys_step sys (mkSystem snd' (rcv_side sys)
        (TransportSender.sent_instruction sent :: network sys)
        ((num b, state b) :: history sys) (clock sys))
  | step_ack ack snd' sys :
      TransportSender.process_acknowledgment_through ack (snd_side sys) = Ok snd' →
      sys_step sys (mkSystem snd' (rcv_side sys) (network sys) (history sys) (clock sys))
  | step_deliver inst l' o sys :
      inst ∈ network sys →
      Transport.receive inst (clock sys) (rcv_side sys) = Ok (l', o) →
      sys_step sys (mkSystem (snd_side sys) l' (network sys) (history sys) (clock sys)).

Definition sys_init (x : S) (now : Z) : system :=
  mkSystem (TransportSender.make x now) [mkTS now 0 x] [] [(0, x)] now.

Inductive reachable (x : S) (now : Z) : system → Prop :=
  | reach_init : 0 ≤ now < 2 ^ 64 → reachable x now (sys_init x now)
  | reach_step sys sys' : reachable x now sys → sys_step sys sys' → reachable x now sys'.

(** An instruction that leads from one recorded state to another *)
Definition inst_ok (h : list (Z * S)) (i : Instruction) : Prop :=
  ∃ o n t d s0 s1, old_num i = Some o ∧ new_num i = Some n ∧ throwaway_num i = Some t
    ∧ diff i = Some d ∧ t ≤ o ∧ (o, s0) ∈ h ∧ (n, s1) ∈ h
    ∧ (if zlen d =? 0 then Ok s0 else apply_string d s0) = Ok s1.

Definition sys_ok (sys : system) : Prop :=
  sender_ok (clock sys) (snd_side sys)
  ∧ clock sys < 2 ^ 64
  ∧ TransportSender.shutdown_in_progress (snd_side sys) = false
  ∧ (∀ st, st ∈ TransportSender.sent_states (snd_side sys) → (num st, state st) ∈ history sys)
  ∧ NoDup (history sys).*1
  ∧ (∀ n x, (n, x) ∈ history sys → ∀ b, last (TransportSender.sent_states (snd_side sys)) = Some b →
       0 ≤ n ≤ num b)
  ∧ (∀ i, i ∈ network sys → inst_ok (history sys) i)
  ∧ (∀ st, st ∈ rcv_side sys → (num st, state st) ∈ history sys).

Lemma history_fun sys n x y :
  sys_ok sys → (n, x) ∈ history sys → (n, y) ∈ history sys → x = y.
Proof.
  intros (_ & _ & _ & _ & Hnd & _) Hx Hy. induction (history sys) as [|[m z] h IH]; cbn in *.
  { by apply not_elem_of_nil in Hx. }
  apply NoDup_cons in Hnd as [Hm Hnd].
  assert (∀ v, (n, v) ∈ h → n ∈ h.*1) as Hin by (intros v ?; by apply (list_elem_of_fmap_2 fst h (n, v))).
  apply elem_of_cons in Hx as [Hx|Hx], Hy as [Hy|Hy]; simplify_eq.
  - done.
  - by apply Hin in Hy.
  - by apply Hin in Hx.
  - by apply IH.
Qed.

(** *** The sender's step *)

Lemma rationalize_id (s s' : TransportSender.t S) :
  TransportSender.rationalize_states s = Ok s' →
  TransportSender.sent_states s ≠ [] → s' = s.
Proof.
  unfold TransportSender.rationalize_states, TransportSender.front. intros Heq Hne.
  destruct (TransportSender.sent_states s) as [|k l] eqn:Hl; [done|].
  change (vec_get (k :: l) 0) with (Ok k) in Heq. cbn [mbind result_bind] in Heq.
  rewrite subtract_id, subtract_self_id in Heq. cbn [mbind result_bind drop] in Heq.
  rewrite map_result_id in Heq by (apply Forall_true; intros [???]; by rewrite subtract_id).
  cbn in Heq. rewrite drop_0 in Heq. injection Heq as <-.
  destruct s, k. cbn in *. by subst.
Qed.

(** The parts of the sender that timers leave alone *)
Definition same_states (s s' : TransportSender.t S) : Prop :=
  TransportSender.sent_states s' = TransportSender.sent_states s
  ∧ TransportSender.current_state s' = TransportSender.current_state s
  ∧ TransportSender.shutdown_in_progress s' = TransportSender.shutdown_in_progress s.

Lemma calculate_timers_spec now c (s s' : TransportSender.t S) :
  sender_ok now s → now < 2 ^ 64 → TransportSender.calculate_timers now c s = Ok s' →
  same_states s s' ∧ assumed_ok s'.
Proof.
  intros (Hne & _ & Ht) Hnow. unfold TransportSender.calculate_timers.
  destruct (update_assumed_ok now c s Hne Ht Hnow) as (i & -> & Hi). cbn [mbind result_bind].
  destruct (TransportSender.rationalize_states _) as [s1|] eqn:Hr; [|done].
  apply rationalize_id in Hr as ->; [|done]. cbn [mbind result_bind].
  set (s1 := TransportSender.set_assumed (Some i) s) in *.
  assert (same_states s s1) as Hsame by done. clearbody s1.
  set (s2 := if _ && _ then TransportSender.set_next_ack_time _ s1 else s1).
  assert (same_states s s2 ∧ assumed_ok s2) as [Hs2 Ha2].
  { unfold s2. by destruct (_ && _). }
  clearbody s2. destruct (TransportSender.back s2) as [b|]; [|done]. cbn [mbind result_bind].
  destruct (TransportSender.assumed s2) as [a|]; [|done]. cbn [mbind result_bind].
  destruct (TransportSender.front s2) as [f|]; [|done]. cbn [mbind result_bind].
  intros [= <-]. destruct Hs2 as (Hq1 & Hq2 & Hq3). unfold same_states, assumed_ok in *.
  destruct (negb (state_eqb _ (state b))); [destruct (_ =? NEVER)|
    destruct (_ && _); [|destruct (_ && _)]]; cbn; destruct (_ || _); cbn; auto.
Qed.

Lemma sending_spec d n c (s s' : TransportSender.t S) sent :
  TransportSender.send_in_fragments d n c s = Ok (sent, s') →
  ∃ a f, TransportSender.assumed s = Ok a ∧ TransportSender.front s = Ok f
    ∧ TransportSender.sent_instruction sent =
        mkInstruction (Some (num a)) (Some n) (Some (TransportSender.ack_num s)) (Some (num f)) (Some d)
    ∧ same_states s s'.
Proof.
  unfold TransportSender.send_in_fragments, TransportSender.make_instruction.
  destruct (TransportSender.assumed s) as [a|]; [|done]. cbn [mbind result_bind].
  destruct (TransportSender.front s) as [f|]; [|done]. cbn [mbind result_bind].
  set (s1 := if n =? NEVER then _ else s).
  assert (same_states s s1) as Hsame by (unfold s1; by destruct (n =? NEVER)).
  destruct (Fragmenter.make_fragments _ _ _) as [[frags fr]|]; [|done]. cbn [mbind result_bind].
  destruct (map_result _ _); [|done]. cbn [mbind result_bind]. intros [= <- <-].
  by exists a, f.
Qed.

(** What a tick that sends something does: the instruction leads from a
    state of the queue to the one that is added to it. *)
Lemma tick_spec now c (s s' : TransportSender.t S) sent :
  sender_ok now s → now < 2 ^ 64 → 1000 < window_size c →
  TransportSender.shutdown_in_progress s = false →
  TransportSender.tick now c s = Ok (Some sent, s') →
  ∃ a f b d newst ack s1,
    a ∈ TransportSender.sent_states s
    ∧ TransportSender.sent_states s !! 0%nat = Some f
    ∧ last (TransportSender.sent_states s) = Some b
    ∧ (if zlen d =? 0 then Ok (state a) else apply_string d (state a)) = Ok newst
    ∧ TransportSender.sent_instruction sent =
        mkInstruction (Some (num a)) (Some (u64 (num b + 1))) ack (Some (num f)) (Some d)
    ∧ same_states s s1
    ∧ same_states (TransportSender.add_sent_state now (u64 (num b + 1)) newst s1) s'.
Proof.
  intros Hok Hnow Hwin Hsd. pose proof Hok as (Hne & _). unfold TransportSender.tick.
  destruct (TransportSender.calculate_timers now c s) as [s1|] eqn:Ht; [|done]. cbn [mbind result_bind].
  destruct (calculate_timers_spec now c s s1 Hok Hnow Ht) as [(Hl & Hcur & Hsh) Ha].
  destruct (negb (has_remote_addr c)); [done|]. destruct (_ && _); [done|].
  rewrite (proj2 (Z.ltb_lt _ _) Hwin).
  destruct (TransportSender.assumed s1) as [a|] eqn:Hassumed; [|done]. cbn [mbind result_bind].
  destruct (diff_from _ (state a) _) as [d|] eqn:Hd; [|done]. cbn [mbind result_bind].
  assert (a ∈ TransportSender.sent_states s) as Hain.
  { rewrite <- Hl. unfold TransportSender.assumed in Hassumed.
    destruct (TransportSender.assumed_receiver_state s1) as [i|]; [|done].
    apply vec_get_Ok in Hassumed as [_ Hassumed]. by eapply list_elem_of_lookup_2. }
  assert (∀ newst d sent s2,
    (if zlen d =? 0 then Ok (state a) else apply_string d (state a)) = Ok newst →
    (∃ b, TransportSender.back s1 = Ok b
      ∧ TransportSender.send_in_fragments d (u64 (num b + 1)) c
          (TransportSender.add_sent_state now (u64 (num b + 1)) newst s1) = Ok (sent, s2)) →
    ∃ f b ack,
      TransportSender.sent_states s !! 0%nat = Some f
      ∧ last (TransportSender.sent_states s) = Some b
      ∧ TransportSender.sent_instruction sent =
          mkInstruction (Some (num a)) (Some (u64 (num b + 1))) ack (Some (num f)) (Some d)
      ∧ same_states (TransportSender.add_sent_state now (u64 (num b + 1)) newst s1) s2) as Hsend.
  { intros newst d' sent' s2 Hnew (b & Hb & Hsf).
    destruct (sending_spec _ _ _ _ _ _ Hsf) as (a' & f & Ha' & Hf & Hi & Hss).
    rewrite (add_sent_state_assumed _ _ _ _ a Ha Hassumed) in Ha'. simplify_eq.
    apply front_head in Hf.
    rewrite (proj1 (proj2 (proj2 (add_sent_state_list now (u64 (num b + 1)) newst s1
      ltac:(by rewrite Hl))))), Hl in Hf.
    apply back_last in Hb. rewrite Hl in Hb. by exists f, b, (Some (TransportSender.ack_num
      (TransportSender.add_sent_state now (u64 (num b + 1)) newst s1))). }
  destruct (_ && _) eqn:Hack.
  - apply andb_true_iff in Hack as [Hz _]. assert (d = []) as ->.
    { destruct d; [done|]. rewrite zlen_cons in Hz. pose proof (zlen_nonneg d). lia. }
    apply diff_empty in Hd. unfold TransportSender.send_empty_ack.
    destruct (assert_that _ _); [|done]. cbn [mbind result_bind].
    destruct (TransportSender.back s1) as [b|] eqn:Hb; [|done]. cbn [mbind result_bind].
    rewrite Hsh, Hsd, Hd.
    destruct (TransportSender.send_in_fragments _ _ _ _) as [[q s2]|] eqn:Hsf; [|done].
    cbn [mbind result_bind]. intros [= <- <-].
    destruct (Hsend (state a) [] q s2 eq_refl) as (f & b' & ack & ? & ? & ? & Hss); [eauto|].
    exists a, f, b', [], (state a), ack, s1. split_and!; try done.
  - destruct (negb (zlen d =? 0) && _) eqn:Hnz; [|done].
    apply andb_true_iff in Hnz as [Hnz%negb_true_iff _]. unfold TransportSender.send_to_receiver.
    destruct (TransportSender.back s1) as [b|] eqn:Hb; [|done]. cbn [mbind result_bind].
    rewrite Hassumed. cbn [mbind result_bind].
    destruct (apply_string d (state a)) as [newst|] eqn:Hap; [|done]. cbn [mbind result_bind].
    rewrite Hsh, Hsd.
    destruct (TransportSender.send_in_fragments _ _ _ _) as [[q s2]|] eqn:Hsf; [|done].
    cbn [mbind result_bind]. intros [= <- <-].
    destruct (Hsend newst d q s2) as (f & b' & ack & ? & ? & ? & Hss); [by rewrite Hnz|eauto|].
    exists a, f, b', d, newst, ack, s1. split_and!; try done. by rewrite Hnz.
Qed.

Lemma tick_idle now c (s s' : TransportSender.t S) :
  sender_ok now s → now < 2 ^ 64 → TransportSender.tick now c s = Ok (None, s') → same_states s s'.
Proof.
  intros Hok Hnow. unfold TransportSender.tick.
  destruct (TransportSender.calculate_timers now c s) as [s1|] eqn:Ht; [|done]. cbn [mbind result_bind].
  destruct (calculate_timers_spec now c s s1 Hok Hnow Ht) as [Hsame _].
  destruct (negb (has_remote_addr c)); [by intros [= <-]|].
  destruct (_ && _); [by intros [= <-]|].
  destruct (if 1000 <? window_size c then _ else _) as [d|]; [|done]. cbn [mbind result_bind].
  destruct ((zlen d =? 0) && _).
  { destruct (TransportSender.send_empty_ack _ _ _) as [[??]|]; done. }
  destruct (negb (zlen d =? 0) && _); [|by intros [= <-]].
  destruct (TransportSender.send_to_receiver _ _ _ _) as [[??]|]; done.
Qed.

(** *** The receiver's step *)

(** Delivering an instruction that leads between recorded states succeeds,
    and adds at most the state it leads to. *)
Lemma receive_spec (h : list (Z * S)) inst now l :
  (∀ n x y, (n, x) ∈ h → (n, y) ∈ h → x = y) → inst_ok h inst →
  (∀ st, st ∈ l → (num st, state st) ∈ h) →
  ∃ l' o, Transport.receive inst now l = Ok (l', o)
    ∧ (∀ st, st ∈ l' → (num st, state st) ∈ h).
Proof.
  intros Hfun (o & n & t & d & s0 & s1 & Ho & Hn & Ht & Hd & Hto & Hs0 & Hs1 & Hap) Hl.
  unfold Transport.receive, Transport.inst_diff. rewrite Ho, Hn, Ht, Hd.
  cbn [Transport.field default from_option id].
  destruct (existsb _ l); [eauto|].
  destruct (List.find _ l) as [r|] eqn:Hfind; [|eauto].
  apply List.find_some in Hfind as [Hin%list_elem_of_In Hr%Z.eqb_eq].
  unfold Transport.process_throwaway_until.
  set (p := fun st => negb (num st <? t)).
  assert (r ∈ List.filter p l) as Hrf.
  { apply list_elem_of_In, List.filter_In. split; [by apply list_elem_of_In|]. unfold p. lia. }
  assert (∀ st, st ∈ List.filter p l → (num st, state st) ∈ h) as Hlf.
  { intros st Hst%list_elem_of_In. apply List.filter_In in Hst as [Hst _]. apply Hl.
    by apply list_elem_of_In. }
  assert ((0 <? zlen (List.filter p l)) = true) as ->.
  { destruct (List.filter p l) as [|x r']; [by apply not_elem_of_nil in Hrf|].
    rewrite zlen_cons. pose proof (zlen_nonneg r'). lia. }
  cbn [assert_that mbind result_bind]. destruct (1024 <? _); [eauto|].
  z_bools. assert (state r = s0) as ->.
  { eapply Hfun; [|exact Hs0]. rewrite Hr. by apply Hl. }
  rewrite Hap. cbn [mbind result_bind].
  pose proof (insert_sorted_elem (mkTS now n s1)) as Hins.
  destruct (Transport.insert_sorted _ _) as [l' b] eqn:Hl'. exists l', (Some b). split; [done|].
  intros st Hst. specialize (Hins st (List.filter p l)). rewrite Hl' in Hins. cbn in Hins.
  apply Hins in Hst as [->|Hst]; [done|by apply Hlf].
Qed.

(** *** The invariant *)

Lemma inst_ok_mono h p i : inst_ok h i → inst_ok (p :: h) i.
Proof.
  intros (o & n & t & d & s0 & s1 & ? & ? & ? & ? & ? & ? & ? & ?).
  exists o, n, t, d, s0, s1. split_and!; try done; by right.
Qed.

Lemma same_states_ok now (s s' : TransportSender.t S) :
  same_states s s' → sender_ok now s → sender_ok now s'.
Proof. intros (Hl & _) Hs. unfold sender_ok in *. by rewrite Hl. Qed.

(** Only the sender's timers, current state or iterator changed. *)
Lemma sys_ok_sender sys snd' :
  sys_ok sys →
  TransportSender.sent_states snd' = TransportSender.sent_states (snd_side sys) →
  TransportSender.shutdown_in_progress snd' = TransportSender.shutdown_in_progress (snd_side sys) →
  sys_ok (mkSystem snd' (rcv_side sys) (network sys) (history sys) (clock sys)).
Proof.
  intros (Hok & Hc & Hsd & Hin & Hnd & Hle & Hnet & Hrcv) Hl Hs.
  unfold sys_ok, sender_ok in *. cbn. rewrite Hl, Hs. destruct Hok as (? & ? & ?). by split_and!.
Qed.

Lemma step_send_ok sys c sent b snd' :
  sys_ok sys → 1000 < window_size c →
  (∀ b, TransportSender.back (snd_side sys) = Ok b → num b + 1 < NEVER) →
  TransportSender.tick (clock sys) c (snd_side sys) = Ok (Some sent, snd') →
  TransportSender.back snd' = Ok b →
  sys_ok (mkSystem snd' (rcv_side sys) (TransportSender.sent_instruction sent :: network sys)
            ((num b, state b) :: history sys) (clock sys)).
Proof.
  intros (Hok & Hc & Hsd & Hin & Hnd & Hle & Hnet & Hrcv) Hwin Hnum Htick Hb.
  destruct (tick_spec _ _ _ _ _ Hok Hc Hwin Hsd Htick)
    as (a & f & b0 & d & newst & ack & s1 & Ha & Hf & Hb0 & Hap & Hinst & Hs1 & Hs').
  pose proof (proj2 (back_last _ _) Hb0) as Hback. specialize (Hnum _ Hback).
  assert (0 ≤ num b0) as Hb0n.
  { apply last_Some_elem_of in Hb0 as Hb0in. by apply (Hle _ _ (Hin _ Hb0in) _ Hb0). }
  assert (u64 (num b0 + 1) = num b0 + 1) as Hu by (apply uwrap_small; unfold NEVER in *; lia).
  rewrite Hu in *.
  assert (sender_ok (clock sys) s1) as Hok1 by (by eapply same_states_ok).
  pose proof Hs1 as (Hl1 & _ & Hsd1). pose proof Hs' as (Hl' & _ & Hsd').
  assert (TransportSender.back s1 = Ok b0) as Hback1 by (apply back_last; by rewrite Hl1).
  destruct (add_sent_state_list (clock sys) (num b0 + 1) newst s1 (proj1 Hok1)) as (Hsub & _ & _ & Hlast).
  assert (b = mkTS (clock sys) (num b0 + 1) newst) as ->.
  { apply back_last in Hb. rewrite Hl', Hlast in Hb. congruence. }
  assert (∀ n x, (n, x) ∈ history sys → 0 ≤ n ≤ num b0) as Hbound by (intros n x Hx; by eapply Hle).
  unfold sys_ok. cbn. split_and!; [|done| | | | | |].
  - eapply same_states_ok; [exact Hs'|]. eapply add_sent_state_ok; [done|exact Hback1|lia|done].
  - rewrite Hsd'. unfold TransportSender.add_sent_state.
    by destruct (32 <? _); cbn; rewrite Hsd1.
  - intros st Hst. rewrite Hl' in Hst. eapply elem_of_sublist in Hst; [|exact Hsub].
    rewrite Hl1 in Hst. apply elem_of_app in Hst as [Hst|Hst].
    + right. by apply Hin.
    + apply list_elem_of_singleton in Hst as ->. left.
  - constructor; [|done]. intros ([n x] & Hn & Hx)%list_elem_of_fmap. cbn in Hn. subst.
    apply Hbound in Hx. lia.
  - intros n x Hx b'. rewrite Hl', Hlast. intros [= <-]. cbn.
    apply elem_of_cons in Hx as [[= -> ->]|Hx]; [lia|]. apply Hbound in Hx. lia.
  - intros i Hi. apply elem_of_cons in Hi as [->|Hi]; [|by apply inst_ok_mono, Hnet].
    rewrite Hinst. exists (num a), (num b0 + 1), (num f), d, (state a), newst.
    split_and!; try done.
    + eapply sorted_first; [apply Hok|exact Hf|done].
    + right. by apply Hin.
    + left.
  - intros st Hst. right. by apply Hrcv.
Qed.

Lemma step_ack_ok sys ack snd' :
  sys_ok sys →
  TransportSender.process_acknowledgment_through ack (snd_side sys) = Ok snd' →
  sys_ok (mkSystem snd' (rcv_side sys) (network sys) (history sys) (clock sys)).
Proof.
  intros (Hok & Hc & Hsd & Hin & Hnd & Hle & Hnet & Hrcv) Hack.
  destruct (process_ack_ok _ ack _ Hok) as (s' & Heq & Hok' & Hsub & Hlast & _ & Hsd' & _).
  assert (s' = snd') as -> by congruence. unfold sys_ok. cbn. split_and!; try done.
  - congruence.
  - intros st Hst. apply Hin. by eapply elem_of_sublist.
  - intros n x Hx b. rewrite Hlast. by apply (Hle n x).
Qed.

Lemma sys_step_ok sys sys' : sys_ok sys → sys_step sys sys' → sys_ok sys'.
Proof.
  intros Hok Hstep. destruct Hstep as [x snd' sys Hset|now sys Hnow|c snd' sys Hw Ht
    |c sent b snd' sys Hw Hn Ht Hb|ack snd' sys Ha|inst l' o sys Hi Hr].
  - unfold TransportSender.set_current_state in Hset.
    destruct (assert_that _ _); [|done]. cbn in Hset. injection Hset as <-.
    by apply sys_ok_sender.
  - destruct Hok as ((Hne & Hns & Hts & Htf) & Hrest). unfold sys_ok, sender_ok. cbn.
    destruct Hrest as (Hc & ? & ? & ? & ? & ? & ?). split_and!; try done; [|lia].
    split; [done|]. eapply Forall_impl; [exact Htf|]. intros y ?. cbn in *. lia.
  - pose proof Hok as (Hsok & Hc & _).
    destruct (tick_idle _ _ _ _ Hsok Hc Ht) as (? & ? & ?). by apply sys_ok_sender.
  - by eapply step_send_ok.
  - by eapply step_ack_ok.
  - pose proof Hok as (Hsok & Hc & Hsd & Hin & Hnd & Hle & Hnet & Hrcv).
    destruct (receive_spec (history sys) inst (clock sys) (rcv_side sys)) as (l2 & o2 & Heq & Hl2).
    { intros n x y. by apply history_fun. }
    { by apply Hnet. }
    { done. }
    assert (l2 = l') as -> by congruence. by unfold sys_ok.
Qed.

Lemma reachable_ok x now sys : reachable x now sys → sys_ok sys.
Proof.
  induction 1 as [Hnow|sys sys' _ IH Hstep]; [|by eapply sys_step_ok].
  unfold sys_ok, sender_ok, sorted_nums, sorted_times. cbn. split_and!; try done; try lia.
  - by repeat constructor.
  - by repeat constructor.
  - repeat constructor; cbn; lia.
  - intros st ->%list_elem_of_singleton. left.
  - repeat constructor. by intros ?%not_elem_of_nil.
  - intros n y [= -> ->]%list_elem_of_singleton b [= <-]. cbn. lia.
  - by intros i ?%not_elem_of_nil.
  - intros st ->%list_elem_of_singleton. left.
Qed.

End system.

(** C18.  The assumed receiver state is always the first or the last of the
    queue when the queue is in order, so that the state which
    [add_sent_state] erases from the middle is never the one the iterator
    points to: the iterator stays on its element. *)
Theorem assumed_state_survives {S : Type} (now n : Z) (c : Connection) (x : S)
    (s s1 : TransportSender.t S) (a : TimestampedState S) :
  sender_ok now s → now < 2 ^ 64 →
  TransportSender.update_assumed_receiver_state now c s = Ok s1 →
  TransportSender.assumed s1 = Ok a →
  assumed_ok s1 ∧ TransportSender.assumed (TransportSender.add_sent_state now n x s1) = Ok a.
Proof.
  intros (Hne & _ & Ht) Hnow Hup Ha.
  destruct (update_assumed_ok now c s Hne Ht Hnow) as (i & Heq & Hok).
  rewrite Heq in Hup. injection Hup as <-. split; [done|]. by apply add_sent_state_assumed.
Qed.

(** The receiver's list stays strictly ordered by number, whatever
    instruction arrives, and never holds two states of one number. *)
Theorem received_states_sorted {S : Type} `{SyncState S} (inst : Instruction) (now : Z)
    (l l' : list (TimestampedState S)) (o : option bool) :
  sorted_nums l → Transport.receive inst now l = Ok (l', o) → sorted_nums l'.
Proof.
  intros Hl. unfold Transport.receive. destruct (existsb _ l) eqn:Hex; [by intros [= <- <-]|].
  destruct (List.find _ l) as [r|]; [|by intros [= <- <-]].
  unfold Transport.process_throwaway_until. set (p := fun st => negb (_ <? _)).
  destruct (assert_that _ _); [|done]. cbn [mbind result_bind].
  assert (sorted_nums (List.filter p l)) as Hf by (eapply sorted_sublist; [apply filter_sub|done]).
  assert (∀ st, st ∈ List.filter p l → num st ≠ Transport.field (new_num inst)) as Hnew.
  { intros st Hst%list_elem_of_In Heq. apply List.filter_In in Hst as [Hst _].
    assert (existsb (fun st => Transport.field (new_num inst) =? num st) l = true); [|congruence].
    apply existsb_exists. exists st. split; [done|lia]. }
  destruct (1024 <? _); [by intros [= <- <-]|]. destruct (_ <? _); [done|].
  destruct (if zlen _ =? 0 then _ else _) as [st|]; [|done]. cbn [mbind result_bind].
  destruct (Transport.insert_sorted _ _) as [l2 b] eqn:Hins. intros [= <- <-].
  revert l2 b Hins. clear Hl Hex. induction Hf as [|y k Hk IH Hy]; intros l2 b Hins; cbn in Hins.
  { injection Hins as <- <-. by repeat constructor. }
  destruct (_ <? num y) eqn:Hlt.
  - injection Hins as <- <-. constructor; [by constructor|]. constructor; [cbn; lia|].
    eapply Forall_impl; [exact Hy|]. intros z Hz. cbn in *. lia.
  - destruct (Transport.insert_sorted _ k) as [r2 b2] eqn:Hr2. injection Hins as <- <-.
    constructor; [eapply IH; [|done]; intros z Hz; apply Hnew; by right|].
    apply Forall_forall. intros z Hz.
    pose proof (insert_sorted_elem (mkTS now (Transport.field (new_num inst)) st) z k) as He.
    rewrite Hr2 in He. cbn in He. apply He in Hz as [->|Hz].
    + cbn. specialize (Hnew y ltac:(left)). lia.
    + rewrite Forall_forall in Hy. by apply Hy.
Qed.

(** ** A state for the witnesses: a text, sent whole when it changed *)

Definition text_state : SyncState (list Z) := {|
  diff_from := fun x y _ => Ok (if decide (x = y) then [] else 1 :: x);
  apply_string := fun d _ => Ok (drop 1 d);
  subtract := fun x _ => Ok x;
  subtract_self := fun x => Ok x;
  state_eqb := list_eqb Z.eqb |}.

Lemma text_state_plain : @PlainState (list Z) text_state.
Proof.
  split; try done. intros x y len. cbn. case_decide; [done|by intros [= ]].
Qed.

#[local] Existing Instance text_state.
#[local] Existing Instance text_state_plain.
#[local] Existing Instance FragmentTheorems.plain_codec.

Definition sample_conn (window : Z) : Connection := mkConnection 40 1000 true window 200 20.

(** The text is set, sent, and delivered twice. *)
Definition sample_sender : TransportSender.t (list Z) := TransportSender.make [] 1000.
Definition changed_sender : TransportSender.t (list Z) := TransportSender.set_state [104; 105] sample_sender.

Definition sample_sent : TransportSender.sending :=
  ltac:(let x := eval vm_compute in (TransportSender.tick 1000 (sample_conn 2000) changed_sender) in
        lazymatch x with Ok (Some ?r, _) => exact r end).

Definition sent_sender : TransportSender.t (list Z) :=
  ltac:(let x := eval vm_compute in (TransportSender.tick 1000 (sample_conn 2000) changed_sender) in
        lazymatch x with Ok (_, ?s) => exact s end).

Definition sent_inst : Instruction :=
  mkInstruction (Some 0) (Some 1) (Some 0) (Some 0) (Some [1; 104; 105]).

Definition delivered : list (TimestampedState (list Z)) := [mkTS 1000 0 []; mkTS 1000 1 [104; 105]].

Definition sample_sys : system :=
  mkSystem sent_sender delivered [sent_inst] [(1, [104; 105]); (0, [])] 1000.

Lemma sample_reachable : @reachable (list Z) text_state FragmentTheorems.plain_codec [] 1000 sample_sys.
Proof.
  set (sys1 := mkSystem changed_sender [mkTS 1000 0 []] [] [(0, [])] 1000).
  set (sys2 := mkSystem sent_sender [mkTS 1000 0 []] [sent_inst] [(1, [104; 105]); (0, [])] 1000).
  assert (@sys_step (list Z) text_state FragmentTheorems.plain_codec sys1 sys2) as H12.
  { apply (step_send (sample_conn 2000) sample_sent
      (mkTS 1000 1 [104; 105]) sent_sender sys1).
    - done.
    - intros b Hb. assert (b = mkTS 1000 0 []) as -> by (vm_compute in Hb; congruence). done.
    - by vm_compute.
    - by vm_compute. }
  assert (@sys_step (list Z) text_state FragmentTheorems.plain_codec sys2 sample_sys) as H23.
  { assert (@Transport.receive (list Z) text_state sent_inst 1000 [mkTS 1000 0 []] = Ok (delivered, Some true)) as Hr by (by vm_compute).
    pose proof (step_deliver sent_inst delivered (Some true) sys2) as Hd.
    cbn [snd_side rcv_side network history clock sys2] in Hd. apply Hd; [left|exact Hr]. }
  eapply reach_step; [|exact H23]. eapply reach_step; [|exact H12].
  eapply reach_step; [apply reach_init; lia|]. by apply (step_set [104; 105] changed_sender).
Qed.


Lemma assumed_state_survives_witness :
  let s1 := TransportSender.set_assumed (Some 0%nat) changed_sender in
  assumed_ok s1 ∧ TransportSender.assumed (TransportSender.add_sent_state 1000 1 [7] s1)
    = Ok (mkTS 1000 0 []).
Proof.
  apply (assumed_state_survives 1000 1 (sample_conn 2000) [7] changed_sender); try done.
  unfold sender_ok, sorted_nums, sorted_times. cbn. split_and!; [done|by repeat constructor..|].
  repeat constructor; cbn; lia.
Defined.

Lemma received_states_sorted_witness :
  sorted_nums delivered ∧ sorted_nums delivered.
Proof.
  assert (sorted_nums [mkTS 1000 0 ([] : list Z)]) as Hs by (by repeat constructor).
  split; exact (received_states_sorted sent_inst 1000 [mkTS 1000 0 []] delivered (Some true) Hs eq_refl).
Defined.

(** With a window of at most 1000 octets the difference is not
    computed, and an empty acknowledgment that falls due is recorded as if
    the receiver now had the current state: a text changed to "hi" is
    recorded under number 1 by the sender, while the receiver, given the
    same instruction, holds the empty text under number 1. *)
Theorem empty_ack_desynchronises :
  ∃ sent snd' l' st,
    TransportSender.tick 1000 (sample_conn 1000) changed_sender = Ok (Some sent, snd')
    ∧ Transport.receive (TransportSender.sent_instruction sent) 1000 [mkTS 1000 0 []] = Ok (l', Some true)
    ∧ TransportSender.back snd' = Ok (mkTS 1000 1 [104; 105])
    ∧ last l' = Some st ∧ num st = 1 ∧ state st = [].
Proof. do 4 eexists. split_and!; by vm_compute. Qed.

(** The receiver keeps an iterator to the reference state across the
    removal of thrown-away states: an instruction that throws away its own
    reference makes it use the erased element.  The sender above never
    sends one (C3); a peer that does reaches this fault. *)
Theorem thrown_away_reference :
  Transport.receive (mkInstruction (Some 0) (Some 2) (Some 0) (Some 1) (Some [1; 7])) 1000 delivered
  = Fault NullDeref.
Proof. by vm_compute. Qed.
End TransportTheorems.
