(* ===== verification/PacketQueues.v ===== *)
(** * Packet queues

    [src/alfalfa/src/network/tracked-packet.h], [ingress-queue.h],
    [codel.h], [codel.cc], [pkt-classifier.h], [pkt-classifier.cc],
    [queue-gang.h] and [queue-gang.cc]: a queue per flow, the CoDel queue
    discipline on each of them, and deficit round robin over the flows.

    [Network::timestamp()] is the frozen clock, one value [now] per call.
    Octets are numbers from 0 to 255. *)

From S2P Require Import Prelude Double.

(** ** Class [TrackedPacket] *)

Record TrackedPacket : Set := mkPacket {
  tstamp : Z;
  contents : list Z }.

#[export] Instance TrackedPacket_eq_dec : EqDecision TrackedPacket.
Proof. solve_decision. Defined.

(** ** Class [IngressQueue] *)

Module IngressQueue.

Record t : Set := mk {
  packets : list TrackedPacket;
  total_length : Z }.

#[export] Instance t_eq_dec : EqDecision t.
Proof. solve_decision. Defined.

Definition make : t := mk [] 0.

Definition empty (q : t) : bool := zlen (packets q) =? 0.

Definition front (q : t) : result TrackedPacket := vec_get (packets q) 0.

(** [_total_length] is an [unsigned int]. *)
Definition pop (q : t) : result t :=
  p ← front q;
  Ok (mk (drop 1 (packets q)) (u32 (total_length q - zlen (contents p)))).

Definition push (s : TrackedPacket) (q : t) : t :=
  mk (vec_push (packets q) s) (u32 (total_length q + zlen (contents s))).

Definition deque (q : t) : result (TrackedPacket * t) :=
  if empty q then Ok (mkPacket (u64 (-1)) [], q)
  else
    pkt ← front q;
    q ← pop q;
    Ok (pkt, q).

Definition enque (now : Z) (payload : list Z) (q : t) : t := push (mkPacket now payload) q.

End IngressQueue.

(** ** Class [CoDel] *)

Module CoDel.

Definition target : Z := 5.
Definition interval : Z := 100.
Definition maxpacket : Z := 1500.

Record t : Set := mk {
  first_above_time : Z;
  drop_next : Z;
  count : Z;
  dropping : bool;
  drop_count : Z }.

#[export] Instance t_eta : Eta t := fun c =>
  mk (first_above_time c) (drop_next c) (count c) (dropping c) (drop_count c).

Definition set_first_above_time (v : Z) (c : t) : t := ltac:(with_field c first_above_time v).
Definition set_drop_next (v : Z) (c : t) : t := ltac:(with_field c drop_next v).
Definition set_count (v : Z) (c : t) : t := ltac:(with_field c count v).
Definition set_dropping (v : bool) (c : t) : t := ltac:(with_field c dropping v).
Definition set_drop_count (v : Z) (c : t) : t := ltac:(with_field c drop_count v).

Definition make : t := mk 0 0 0 false 0.

(** [t + interval/sqrt(count)], computed in double precision *)
Definition control_law (time : Z) (c : t) : result Z :=
  Double.to_u64 (Double.add (Double.of_Z time)
                   (Double.div (Double.of_Z interval) (Double.sqrt (Double.of_Z (count c))))).

Definition drop (c : t) : t := set_drop_count (u32 (drop_count c + 1)) c.

(** A packet and [ok_to_drop] *)
Definition dodeque (now : Z) (q : IngressQueue.t) (c : t)
    : result (TrackedPacket * bool * IngressQueue.t * t) :=
  '(p, q) ← IngressQueue.deque q;
  if zlen (contents p) =? 0 then Ok (p, false, q, set_first_above_time 0 c)
  else
    let sojourn_time := u64 (now - tstamp p) in
    if (sojourn_time <? target) || (IngressQueue.total_length q <? maxpacket)
    then Ok (p, false, q, set_first_above_time 0 c)
    else if first_above_time c =? 0
    then Ok (p, false, q, set_first_above_time (u64 (now + interval)) c)
    else if first_above_time c <=? now then Ok (p, true, q, c)
    else Ok (p, false, q, c).

(** [while (now >= drop_next && dropping)]; every iteration drops a packet
    of the queue, and an empty queue ends it. *)
Fixpoint drop_loop (fuel : nat) (now : Z) (p : TrackedPacket) (q : IngressQueue.t) (c : t)
    : result (TrackedPacket * IngressQueue.t * t) :=
  if (drop_next c <=? now) && dropping c then
    match fuel with
    | O => Fault OutOfFuel
    | S fuel' =>
        let c := drop c in
        let c := set_count (u32 (count c + 1)) c in
        '(p, ok_to_drop, q, c) ← dodeque now q c;
        if negb ok_to_drop then drop_loop fuel' now p q (set_dropping false c)
        else
          next ← control_law (drop_next c) c;
          drop_loop fuel' now p q (set_drop_next next c)
    end
  else Ok (p, q, c).

Definition deque (now : Z) (q : IngressQueue.t) (c : t)
    : result (TrackedPacket * IngressQueue.t * t) :=
  '(p, ok_to_drop, q, c) ← dodeque now q c;
  if zlen (contents p) =? 0 then Ok (p, q, set_dropping false c)
  else if dropping c then
    if negb ok_to_drop then Ok (p, q, set_dropping false c)
    else drop_loop (S (length (IngressQueue.packets q))) now p q c
  else if ok_to_drop
          && ((u64 (now - drop_next c) <? interval)
              || (interval <=? u64 (now - first_above_time c))) then
    let c := drop c in
    '(p, _, q, c) ← dodeque now q c;
    let c := set_dropping true c in
    let c := set_count (if u64 (now - drop_next c) <? interval
                        then (if 2 <? count c then count c - 2 else 1) else 1) c in
    next ← control_law now c;
    Ok (p, q, set_drop_next next c)
  else Ok (p, q, c).

Definition enque (now : Z) (payload : list Z) (q : IngressQueue.t) : IngressQueue.t :=
  IngressQueue.enque now payload q.

End CoDel.

(** ** Class [PktClassifier] *)

Module PktClassifier.

Definition HASH_SIZE : Z := 64.
Definition ETHERTYPE_ARP : Z := 0x0806.
Definition ETHERTYPE_IP : Z := 0x0800.

(** The octets behind [c_str()]: those of the string and a terminating
    zero *)
Definition c_str (s : list Z) : list Z := s ++ [0].

(** [ntohs] of the two octets at [offset] *)
Definition ntohs_at (offset : Z) (s : list Z) : result Z :=
  hi ← vec_get (c_str s) offset;
  lo ← vec_get (c_str s) (offset + 1);
  Ok (hi * 256 + lo).

(** [ether_type] is behind the two addresses of six octets each. *)
Definition get_eth_header (ethernet_frame : list Z) : result Z := ntohs_at 12 ethernet_frame.

(** [ip_hl] is in the first octet of the IP header, [ip_p] the tenth; the
    Ethernet header has fourteen. *)
Definition get_flow_id (packet_str : list Z) : result Z :=
  eth_type ← get_eth_header packet_str;
  if eth_type =? ETHERTYPE_ARP then Ok (u8 (-1))
  else if eth_type =? ETHERTYPE_IP then
    _ ← vec_get (c_str packet_str) 14;
    protocol ← vec_get (c_str packet_str) (14 + 9);
    Ok (u8 protocol)
  else Ok (u8 (-1)).

(** Both read the two ports and return the empty string. *)
Definition get_udp_header (udp_packet : list Z) : result (list Z) :=
  _ ← ntohs_at 0 udp_packet; _ ← ntohs_at 2 udp_packet; Ok [].
Definition get_tcp_header (tcp_packet : list Z) : result (list Z) :=
  _ ← ntohs_at 0 tcp_packet; _ ← ntohs_at 2 tcp_packet; Ok [].

Definition pkt_hash (packet : list Z) : list Z :=
  if HASH_SIZE <=? zlen packet
  then drop (Z.to_nat (zlen packet - HASH_SIZE)) packet else packet.

End PktClassifier.

(** ** Class [QueueGang] *)

Module QueueGang.

Definition MTU_SIZE : Z := 1434.

(** [_flow_credits] and [_flow_quantums] have type [double] but hold only
    sums and differences of 1434 and packet sizes below 2^32, which are
    exact. *)
Record t : Set := mk {
  flow_queues : gmap Z IngressQueue.t;
  flow_credits : gmap Z Z;
  flow_quantums : gmap Z Z;
  active_list : list Z;
  active_indicator : gmap Z bool;
  current_flow : Z;
  codel_servo_bank : gmap Z CoDel.t;
  qdisc : Z;
  current_qlimit : Z }.

#[export] Instance t_eta : Eta t := fun g =>
  mk (flow_queues g) (flow_credits g) (flow_quantums g) (active_list g) (active_indicator g)
    (current_flow g) (codel_servo_bank g) (qdisc g) (current_qlimit g).

Definition set_flow_queues (v : gmap Z IngressQueue.t) (g : t) : t := ltac:(with_field g flow_queues v).
Definition set_flow_credits (v : gmap Z Z) (g : t) : t := ltac:(with_field g flow_credits v).
Definition set_flow_quantums (v : gmap Z Z) (g : t) : t := ltac:(with_field g flow_quantums v).
Definition set_active_list (v : list Z) (g : t) : t := ltac:(with_field g active_list v).
Definition set_active_indicator (v : gmap Z bool) (g : t) : t := ltac:(with_field g active_indicator v).
Definition set_current_flow (v : Z) (g : t) : t := ltac:(with_field g current_flow v).
Definition set_codel_servo_bank (v : gmap Z CoDel.t) (g : t) : t := ltac:(with_field g codel_servo_bank v).
Definition set_qlimit (v : Z) (g : t) : t := ltac:(with_field g current_qlimit v).

Definition QDISC_CODEL : Z := 0.
Definition QDISC_SPROUT : Z := 1.

(** The constructor: a [bool] stored in an [int] *)
Definition make (s_qdisc : bool) : t := mk ∅ ∅ ∅ [] ∅ 0 ∅ (Z.b2z s_qdisc) 0.

(** [map::at] *)
Definition at_ {A} (m : gmap Z A) (k : Z) : result A :=
  match m !! k with Some x => Ok x | None => Fault (Thrown "std::out_of_range") end.

(** The queues in the order of [std::map]: keys are of type [uint8_t]. *)
Definition queue_list (g : t) : list (Z * IngressQueue.t) :=
  omap (fun k => (fun q => (k, q)) <$> flow_queues g !! k) (seqZ 0 256).

Definition aggregate_length (g : t) : Z :=
  fold_left (fun acc '(_, q) => u32 (IngressQueue.total_length q + acc)) (queue_list g) 0.

(** [std::max_element]: the first of the largest *)
Definition longest_queue (g : t) : result Z :=
  match queue_list g with
  | [] => Fault OutOfRange
  | kq :: l =>
      Ok (fst (fold_left (fun m kq =>
        if IngressQueue.total_length (snd m) <? IngressQueue.total_length (snd kq)
        then kq else m) l kq))
  end.

Definition empty (g : t) : bool :=
  fold_left (fun acc '(_, q) => IngressQueue.empty q && acc) (queue_list g) true.

Definition already_seen (flow_id : Z) (g : t) : bool :=
  bool_decide (is_Some (flow_queues g !! flow_id)).

Definition create_new_queue (flow_id : Z) (g : t) : result t :=
  assert_that (negb (already_seen flow_id g)) "_flow_queues.find( flow_id ) == _flow_queues.end()";;
  let g := set_flow_queues (<[flow_id := IngressQueue.make]> (flow_queues g)) g in
  let g := set_flow_credits (<[flow_id := 0]> (flow_credits g)) g in
  let g := set_flow_quantums (<[flow_id := MTU_SIZE]> (flow_quantums g)) g in
  let g := set_active_indicator (<[flow_id := false]> (active_indicator g)) g in
  Ok (if qdisc g =? QDISC_CODEL
      then set_codel_servo_bank (<[flow_id := CoDel.make]> (codel_servo_bank g)) g else g).

(** Drop from the front of the longest queue when the limit is exceeded. *)
Definition sprout_aqm (g : t) : result t :=
  assert_that (0 <? current_qlimit g) "_current_qlimit > 0";;
  if current_qlimit g <? aggregate_length g then
    k ← longest_queue g;
    q ← at_ (flow_queues g) k;
    _ ← IngressQueue.front q;
    q ← IngressQueue.pop q;
    Ok (set_flow_queues (<[k := q]> (flow_queues g)) g)
  else Ok g.

(** The deficit round robin bookkeeping of [enque] *)
Definition activate (flow_id : Z) (g : t) : result t :=
  b ← at_ (active_indicator g) flow_id;
  if negb b then
    _ ← at_ (flow_credits g) flow_id;
    let g := set_active_indicator (<[flow_id := true]> (active_indicator g)) g in
    let g := set_active_list (vec_push (active_list g) flow_id) g in
    Ok (set_flow_credits (<[flow_id := 0]> (flow_credits g)) g)
  else Ok g.

Definition enque (now : Z) (packet : list Z) (g : t) : result t :=
  flow_id ← PktClassifier.get_flow_id packet;
  g ← (if negb (already_seen flow_id g) then create_new_queue flow_id g else Ok g);
  g ← (if qdisc g =? QDISC_SPROUT then sprout_aqm g else Ok g);
  q ← at_ (flow_queues g) flow_id;
  let g := set_flow_queues (<[flow_id := IngressQueue.enque now packet q]> (flow_queues g)) g in
  activate flow_id g.

(** [deque( flow_id )] *)
Definition deque (now flow_id : Z) (g : t) : result (list Z * t) :=
  q ← at_ (flow_queues g) flow_id;
  assert_that (negb (IngressQueue.empty q)) "!_flow_queues.at( flow_id ).empty()";;
  if qdisc g =? QDISC_CODEL then
    c ← at_ (codel_servo_bank g) flow_id;
    '(packet, q, c) ← CoDel.deque now q c;
    let g := set_codel_servo_bank (<[flow_id := c]> (codel_servo_bank g)) g in
    let g := set_flow_queues (<[flow_id := q]> (flow_queues g)) g in
    Ok (if 0 <? zlen (contents packet) then contents packet else [], g)
  else
    '(tracked_pkt, q) ← IngressQueue.deque q;
    Ok (contents tracked_pkt, set_flow_queues (<[flow_id := q]> (flow_queues g)) g).

(** The end of [get_next_packet]: the flow leaves the active list, or goes
    to its end, or stays in front *)
Definition reschedule (flow pkt_size : Z) (g : t) : result t :=
  q ← at_ (flow_queues g) flow;
  credit ← at_ (flow_credits g) flow;
  if IngressQueue.empty q then
    _ ← at_ (active_indicator g) flow;
    let g := set_flow_credits (<[flow := 0]> (flow_credits g)) g in
    let g := set_active_list (drop 1 (active_list g)) g in
    Ok (set_active_indicator (<[flow := false]> (active_indicator g)) g)
  else if credit <? pkt_size then
    Ok (set_active_list (vec_push (drop 1 (active_list g)) flow) g)
  else Ok g.

Definition get_next_packet (now : Z) (g : t) : result (list Z * t) :=
  match active_list g with
  | [] => Ok ([], g)
  | flow :: _ =>
      let g := set_current_flow flow g in
      q ← at_ (flow_queues g) flow;
      p ← IngressQueue.front q;
      let pkt_size := u32 (zlen (contents p)) in
      credit ← at_ (flow_credits g) flow;
      credit ← (if credit <? pkt_size
                then quantum ← at_ (flow_quantums g) flow; Ok (credit + quantum) else Ok credit);
      assert_that (negb (IngressQueue.empty q)) "!_flow_queues.at( _current_flow ).empty()";;
      assert_that (pkt_size <=? credit) "pkt_size <= _flow_credits.at( _current_flow )";;
      let g := set_flow_credits (<[flow := credit - pkt_size]> (flow_credits g)) g in
      '(p, g) ← deque now flow g;
      g ← reschedule flow pkt_size g;
      Ok (p, g)
  end.

End QueueGang.
