(* ===== verification/QueueProps.v ===== *)
(** * Properties of the packet queues

    What CoDel may drop, and the deficit round robin invariant. *)

From S2P Require Import Prelude Double PacketQueues.

Module CoDelTheorems.
Import IngressQueue.

(** ** Accounting *)

Definition bytes (l : list TrackedPacket) : Z := foldr (fun p n => zlen (contents p) + n) 0 l.

Definition queue_ok (q : t) : Prop := total_length q = u32 (bytes (packets q)).

#[export] Instance queue_ok_dec q : Decision (queue_ok q) := _.

Lemma bytes_app l k : bytes (l ++ k) = bytes l + bytes k.
Proof. induction l as [|p l IH]; simpl; lia. Qed.

Lemma bytes_nonneg l : 0 ≤ bytes l.
Proof. induction l as [|p l IH]; simpl; [lia|]. pose proof (zlen_nonneg (contents p)). lia. Qed.

Lemma push_ok s q : queue_ok q → queue_ok (push s q).
Proof.
  unfold queue_ok, push, vec_push. intros Hq. simpl. rewrite bytes_app, Hq. simpl.
  unfold uwrap. rewrite Zplus_mod_idemp_l. f_equal. lia.
Qed.

Definition no_packet : TrackedPacket := mkPacket (u64 (-1)) [].

Lemma deque_spec q :
  queue_ok q →
  (packets q = [] ∧ deque q = Ok (no_packet, q))
  ∨ ∃ p q', deque q = Ok (p, q') ∧ packets q = p :: packets q' ∧ queue_ok q'.
Proof.
  destruct q as [[|p l] n]; unfold queue_ok, deque, empty, front, pop; simpl; intros Hq.
  - by left.
  - right. eexists p, _. split; [reflexivity|]. simpl. rewrite drop_0. split; [done|].
    rewrite Hq. unfold uwrap. rewrite Zminus_mod_idemp_l. f_equal. lia.
Qed.

(** ** What CoDel may drop *)

(** The packet waited for at least the target, and leaves at least a
    maximum-sized packet's octets [post] behind. *)
Definition droppable (now : Z) (d : TrackedPacket) (post : list TrackedPacket) : Prop :=
  CoDel.target ≤ u64 (now - tstamp d) ∧ CoDel.maxpacket ≤ u32 (bytes post).

(** The delay has been above the target for an interval. *)
Definition above (now : Z) (c : CoDel.t) : Prop :=
  CoDel.first_above_time c ≠ 0 ∧ CoDel.first_above_time c ≤ now.

(** From [q] the packets [dropped] are dropped and [p] is served. *)
Definition served (now : Z) (q : t) (dropped : list TrackedPacket) (p : TrackedPacket) (q' : t)
    : Prop :=
  queue_ok q'
  ∧ (packets q = dropped ++ p :: packets q'
     ∨ p = no_packet ∧ packets q = dropped ∧ packets q' = [])
  ∧ ∀ pre d post, packets q = pre ++ d :: post → (length pre < length dropped)%nat →
      droppable now d post.

Lemma served_none now q p q' :
  queue_ok q' → packets q = p :: packets q' ∨ p = no_packet ∧ packets q = [] ∧ packets q' = [] →
  served now q [] p q'.
Proof. intros Hok H. split; [done|]. split; [done|]. simpl. lia. Qed.

Lemma served_cons now q d q1 dropped p q' :
  packets q = d :: packets q1 → droppable now d (packets q1) →
  served now q1 dropped p q' → served now q (d :: dropped) p q'.
Proof.
  intros Hq Hd (Hok & Hs & Hall). split; [done|]. split.
  - rewrite Hq. destruct Hs as [->|(-> & -> & ->)]; [by left|by right].
  - intros pre x post Heq Hlt. rewrite Hq in Heq. destruct pre as [|y pre]; simplify_eq/=.
    + done.
    + eapply Hall; [done|]. lia.
Qed.

(** One call of [dodeque]: the first packet comes off, and it may be
    dropped only under the conditions above. *)
Lemma dodeque_spec now q c :
  queue_ok q →
  ∃ p ok q' c', CoDel.dodeque now q c = Ok (p, ok, q', c')
    ∧ served now q [] p q' ∧ CoDel.drop_count c' = CoDel.drop_count c
    ∧ CoDel.dropping c' = CoDel.dropping c
    ∧ (ok = true → packets q = p :: packets q' ∧ droppable now p (packets q')
                   ∧ above now c ∧ c' = c ∧ 0 < zlen (contents p)).
Proof.
  intros Hq. unfold CoDel.dodeque.
  destruct (deque_spec q Hq) as [[Hnil ->]|(p & q' & -> & Hp & Hq')]; simpl.
  - eexists _, _, _, _. split; [reflexivity|]. split; [|done].
    apply served_none; [done|]. by right.
  - assert (served now q [] p q') by (apply served_none; [done|by left]).
    pose proof (zlen_nonneg (contents p)).
    destruct (Z.eqb_spec (zlen (contents p)) 0); [by eexists _, _, _, _|].
    destruct (Z.ltb_spec (u64 (now - tstamp p)) CoDel.target); [by eexists _, _, _, _|].
    destruct (Z.ltb_spec (total_length q') CoDel.maxpacket); [by eexists _, _, _, _|]. simpl.
    destruct (Z.eqb_spec (CoDel.first_above_time c) 0); [by eexists _, _, _, _|].
    destruct (Z.leb_spec (CoDel.first_above_time c) now); [|by eexists _, _, _, _].
    eexists _, _, _, _. split; [reflexivity|]. do 3 (split; [done|]). intros _.
    split_and!; try done; [|lia]. split; [done|]. by rewrite <- Hq'.
Qed.

Definition conversion_fault (f : fault) : Prop := f = BadConversion.

Lemma control_law_spec time c : wp conversion_fault (CoDel.control_law time c) (fun _ => True).
Proof.
  unfold CoDel.control_law, Double.to_u64. destruct (Double.trunc _) as [z|]; [|done].
  by destruct (_ && _).
Qed.

(** Dropping counts modulo 2^32. *)
Definition counted (c c' : CoDel.t) (dropped : list TrackedPacket) : Prop :=
  u32 (CoDel.drop_count c') = u32 (CoDel.drop_count c + zlen dropped).

Lemma counted_none c c' : CoDel.drop_count c' = CoDel.drop_count c → counted c c' [].
Proof. unfold counted. intros ->. by rewrite zlen_nil, Z.add_0_r. Qed.

Lemma counted_drop c c1 c' d dropped :
  CoDel.drop_count c1 = CoDel.drop_count (CoDel.drop c) → counted c1 c' dropped →
  counted c c' (d :: dropped).
Proof.
  unfold counted. intros Hc ->. rewrite Hc, zlen_cons. simpl. unfold uwrap.
  rewrite Zplus_mod_idemp_l. f_equal. lia.
Qed.

Definition outcome (now : Z) (q0 : t) (c : CoDel.t) : TrackedPacket * t * CoDel.t → Prop :=
  fun '(p', q', c') => ∃ dropped, served now q0 dropped p' q' ∧ counted c c' dropped
    ∧ (dropped ≠ [] → above now c).

Lemma outcome_none now q0 c p q c' :
  served now q0 [] p q → CoDel.drop_count c' = CoDel.drop_count c → outcome now q0 c (p, q, c').
Proof. intros Hs Hc. exists []. split; [done|]. by split; [apply counted_none|]. Qed.

(** After [d] is dropped, the rest happens to the queue behind it. *)
Lemma outcome_drop now q0 d q1 c c1 r :
  packets q0 = d :: packets q1 → droppable now d (packets q1) → above now c →
  CoDel.drop_count c1 = CoDel.drop_count (CoDel.drop c) →
  outcome now q1 c1 r → outcome now q0 c r.
Proof.
  intros Hq Hd Hc Hc1. destruct r as [[p' q'] c']. intros (dropped & Hs & Hn & _).
  exists (d :: dropped). split; [by eapply served_cons|]. split; [by eapply counted_drop|done].
Qed.

(** The dropping loop, entered with the packet [p] from the head of [q0]
    in hand *)
Lemma drop_loop_spec now fuel q0 p q c :
  queue_ok q → above now c → packets q0 = p :: packets q → droppable now p (packets q) →
  (length (packets q) < fuel)%nat →
  wp conversion_fault (CoDel.drop_loop fuel now p q c) (outcome now q0 c).
Proof.
  revert q0 p q c. induction fuel as [|fuel IH]; intros q0 p q c Hok Hab Hq Hd Hf; [lia|].
  simpl. destruct (_ && CoDel.dropping c).
  2:{ apply outcome_none; [|done]. apply served_none; [done|by left]. }
  set (c1 := CoDel.set_count _ _).
  destruct (dodeque_spec now q c1 Hok) as (p1 & ok & q1 & c2 & -> & Hs & Hc2 & _ & Hdrop). simpl.
  assert (∀ r, outcome now q c1 r → outcome now q0 c r) as Hout
    by (intros r; by apply outcome_drop with p).
  destruct ok; simpl.
  - destruct Hdrop as (Hq1 & Hd1 & Hab1 & -> & _); [done|].
    apply wp_bind. eapply wp_weaken; [apply control_law_spec|]. intros next _.
    eapply wp_weaken; [|exact Hout].
    apply IH with (q0 := q) (c := CoDel.set_drop_next next c1); try done.
    + apply Hs.
    + rewrite Hq1 in Hf. simpl in Hf. lia.
  - destruct fuel; simpl; rewrite andb_false_r; apply Hout, outcome_none; done.
Qed.

#[local] Arguments CoDel.drop_loop : simpl never.

(** The whole of [CoDel::deque] *)
Lemma codel_deque_spec now q c :
  queue_ok q → wp conversion_fault (CoDel.deque now q c) (outcome now q c).
Proof.
  intros Hq. unfold CoDel.deque.
  destruct (dodeque_spec now q c Hq) as (p & ok & q1 & c1 & -> & Hs & Hc1 & Hdr & Hok). simpl.
  destruct (_ =? 0); [by apply outcome_none|]. destruct ok; simpl.
  2:{ destruct (CoDel.dropping c1); simpl; by apply outcome_none. }
  destruct Hok as (Hp & Hd & Hab & -> & _); [done|].
  destruct (CoDel.dropping c); simpl.
  { apply drop_loop_spec; try done; [apply Hs|lia]. }
  destruct (_ || _); [|by apply outcome_none].
  destruct (dodeque_spec now q1 (CoDel.drop c)) as (p2 & ok2 & q2 & c2 & -> & Hs2 & Hc2 & _); [apply Hs|].
  simpl. apply wp_bind. eapply wp_weaken; [apply control_law_spec|]. intros next _. apply wp_ok.
  apply outcome_drop with p q1 (CoDel.drop c); [done..|]. by apply outcome_none.
Qed.

(** C19.  [CoDel::deque] terminates and accounts for every packet: what it
    takes off the queue is the packets it drops and counts, in order, and
    then the one it returns (none when the queue runs out); the octet count
    of the queue stays exact.  It drops only after the delay has been above
    the target for an interval, and only packets that waited at least the
    target and leave at least a full-sized packet's octets behind.  The one
    possible failure is the conversion of the next drop time from double
    precision. *)
Theorem codel_drops (now : Z) (q : IngressQueue.t) (c : CoDel.t) :
  queue_ok q →
  wp conversion_fault (CoDel.deque now q c) (fun '(p, q', c') =>
    ∃ dropped,
      (packets q = dropped ++ p :: packets q'
       ∨ p = no_packet ∧ packets q = dropped ∧ packets q' = [])
      ∧ queue_ok q'
      ∧ u32 (CoDel.drop_count c') = u32 (CoDel.drop_count c + zlen dropped)
      ∧ (dropped ≠ [] → above now c)
      ∧ ∀ pre d post, packets q = pre ++ d :: post → (length pre < length dropped)%nat →
          droppable now d post).
Proof.
  intros Hq. eapply wp_weaken; [by apply codel_deque_spec|].
  intros [[p q'] c'] (dropped & (Hok & Hp & Hd) & Hn & Hab). by exists dropped.
Qed.

(** Two packets of 1600 octets that waited for 300 ms, with the delay above
    the target since 100 ms: the first is dropped, the second served. *)
Definition late_queue : IngressQueue.t :=
  push (mkPacket 50 (replicate 1600 7)) (push (mkPacket 0 (replicate 1600 7)) make).
Definition late_codel : CoDel.t := CoDel.mk 200 0 0 false 0.

Lemma codel_drops_witness :
  queue_ok late_queue
  ∧ CoDel.deque 300 late_queue late_codel
    = Ok (mkPacket 50 (replicate 1600 7), make, CoDel.mk 0 400 1 true 1)
  ∧ ∃ dropped, packets late_queue = dropped ++ [mkPacket 50 (replicate 1600 7)]
               ∧ dropped ≠ [].
Proof.
  assert (queue_ok late_queue) as Hok by (vm_compute; reflexivity).
  assert (CoDel.deque 300 late_queue late_codel
    = Ok (mkPacket 50 (replicate 1600 7), make, CoDel.mk 0 400 1 true 1)) as Heq
    by (vm_compute; reflexivity).
  pose proof (codel_drops 300 late_queue late_codel Hok) as H. rewrite Heq in H.
  split; [exact Hok|]. split; [exact Heq|]. destruct H as (dropped & [Hp|(_ & _ & _)] & _).
  - exists dropped. split; [exact Hp|]. intros ->. discriminate Hp.
  - exists [mkPacket 0 (replicate 1600 7)]. split; [vm_compute; reflexivity|discriminate].
Defined.

End CoDelTheorems.

(** ** Deficit round robin *)

Module GangTheorems.
Import QueueGang CoDelTheorems.

Definition packet_ok (p : TrackedPacket) : Prop := 1 ≤ zlen (contents p) ≤ MTU_SIZE.

Definition nonempty (q : IngressQueue.t) : bool := negb (IngressQueue.empty q).

(** What the gang keeps for a flow with queue [q] *)
Definition flow_ok (g : t) (k : Z) (q : IngressQueue.t) : Prop :=
  queue_ok q ∧ Forall packet_ok (IngressQueue.packets q)
  ∧ (∃ credit, flow_credits g !! k = Some credit ∧ 0 ≤ credit < MTU_SIZE)
  ∧ flow_quantums g !! k = Some MTU_SIZE
  ∧ active_indicator g !! k = Some (nonempty q)
  ∧ is_Some (codel_servo_bank g !! k).

(** The invariant in CoDel mode: every flow is accounted for, and the
    active list has exactly the flows that have packets, each once. *)
Definition gang_ok (g : t) : Prop :=
  qdisc g = QDISC_CODEL
  ∧ NoDup (active_list g)
  ∧ (∀ k, k ∈ active_list g ↔ ∃ q, flow_queues g !! k = Some q ∧ nonempty q = true)
  ∧ ∀ k q, flow_queues g !! k = Some q → flow_ok g k q.

Lemma at_Some {A} (m : gmap Z A) k x : m !! k = Some x → at_ m k = Ok x.
Proof. unfold at_. by intros ->. Qed.

Lemma nonempty_spec q : nonempty q = true ↔ IngressQueue.packets q ≠ [].
Proof.
  unfold nonempty, IngressQueue.empty. destruct (IngressQueue.packets q) as [|p l]; [done|].
  rewrite zlen_cons. pose proof (zlen_nonneg l). by z_bools.
Qed.

Lemma make_gang_ok : gang_ok (make false).
Proof.
  split_and!; [done|constructor| |].
  - intros k. split; [by intros ?%not_elem_of_nil|]. intros (q & H & _). cbn in H. by rewrite lookup_empty in H.
  - intros k q H. cbn in H. by rewrite lookup_empty in H.
Qed.

(** *** Classification *)

Definition frame_ok (packet : list Z) : Prop := 23 ≤ zlen packet ≤ MTU_SIZE.

Lemma c_str_get i s : 0 ≤ i ≤ zlen s → safe (vec_get (PktClassifier.c_str s) i) (fun _ => True).
Proof.
  intros Hi. apply vec_get_spec; [|done]. unfold PktClassifier.c_str. rewrite zlen_app.
  change (zlen [0]) with 1. lia.
Qed.

Lemma get_flow_id_ok packet :
  frame_ok packet → safe (PktClassifier.get_flow_id packet) (fun _ => True).
Proof.
  intros [Hlo _]. unfold PktClassifier.get_flow_id, PktClassifier.get_eth_header, PktClassifier.ntohs_at.
  apply wp_bind. do 2 (apply wp_bind; wp_apply c_str_get; [lia|intros ? _]). apply wp_ok.
  destruct (_ =? _); [done|]. destruct (_ =? _); [|done].
  do 2 (apply wp_bind; wp_apply c_str_get; [lia|intros ? _]). done.
Qed.

(** *** [enque] *)

Lemma create_ok k g :
  gang_ok g → flow_queues g !! k = None →
  ∃ g', create_new_queue k g = Ok g' ∧ gang_ok g'
    ∧ flow_queues g' !! k = Some IngressQueue.make.
Proof.
  intros (Hq & Hnd & Hact & Hflow) Hk. unfold create_new_queue, already_seen. rewrite Hk.
  cbn. rewrite Hq. cbn. eexists. split; [reflexivity|]. split; [|cbn; by simplify_map_eq].
  split_and!; [done..| |]; cbn.
  - intros j. rewrite Hact. destruct (decide (j = k)) as [->|Hne]; simplify_map_eq; [naive_solver|done].
  - intros j q. destruct (decide (j = k)) as [->|Hne]; simplify_map_eq.
    + intros [= <-]. split_and!; simplify_map_eq; try done. exists 0. done.
    + intros Hj. specialize (Hflow j q Hj). unfold flow_ok in *. cbn. by simplify_map_eq.
Qed.

Lemma activate_ok now k packet g q :
  gang_ok g → frame_ok packet → flow_queues g !! k = Some q →
  let q' := IngressQueue.enque now packet q in
  safe (activate k (set_flow_queues (<[k := q']> (flow_queues g)) g)) gang_ok.
Proof.
  intros (Hq & Hnd & Hact & Hflow) [Hlo Hhi] Hk q'.
  destruct (Hflow k q Hk) as (Hqok & Hall & (credit & Hcr & Hcr') & Hqu & Hind & Hcd).
  assert (nonempty q' = true) as Hne'.
  { apply nonempty_spec. unfold q', IngressQueue.enque, IngressQueue.push, vec_push. cbn.
    by destruct (IngressQueue.packets q). }
  assert (queue_ok q') by by apply push_ok.
  assert (Forall packet_ok (IngressQueue.packets q')).
  { apply Forall_app; split; [done|]. constructor; [|done]. unfold packet_ok. cbn. lia. }
  unfold activate. cbn. rewrite (at_Some _ _ _ Hind). cbn.
  destruct (nonempty q) eqn:Hne; cbn.
  - split_and!; [done..| |]; cbn.
    + intros j. rewrite Hact. destruct (decide (j = k)) as [->|?]; simplify_map_eq; naive_solver.
    + intros j x. destruct (decide (j = k)) as [->|?]; simplify_map_eq; [|apply Hflow].
      intros [= <-]. split_and!; try done; [by exists credit|]. cbn. by rewrite Hne'.
  - rewrite (at_Some _ _ _ Hcr). cbn.
    assert (k ∉ active_list g) as Hnin.
    { rewrite Hact. intros (x & Hx & ?). rewrite Hx in Hk. congruence. }
    split_and!; [done| | |]; cbn.
    + unfold vec_push. apply NoDup_app. split_and!; [done| |apply NoDup_singleton].
      set_solver.
    + intros j. unfold vec_push. rewrite elem_of_app, list_elem_of_singleton, Hact.
      destruct (decide (j = k)) as [->|?]; simplify_map_eq; naive_solver.
    + intros j x. destruct (decide (j = k)) as [->|?]; simplify_map_eq.
      * intros [= <-]. split_and!; cbn; simplify_map_eq; try done; [by exists 0|]. by rewrite Hne'.
      * intros Hj. specialize (Hflow j x Hj). unfold flow_ok in *. cbn. by simplify_map_eq.
Qed.

Lemma enque_ok now packet g :
  gang_ok g → frame_ok packet → safe (enque now packet g) gang_ok.
Proof.
  intros Hg Hp. unfold enque. apply wp_bind. wp_apply get_flow_id_ok; [done|]. intros k _.
  assert (∃ g', (if negb (already_seen k g) then create_new_queue k g else Ok g) = Ok g'
                ∧ gang_ok g' ∧ is_Some (flow_queues g' !! k)) as (g' & -> & Hg' & q & Hk).
  { unfold already_seen. destruct (flow_queues g !! k) as [q|] eqn:Hk.
    - rewrite bool_decide_true by done. cbn. exists g. eauto.
    - rewrite bool_decide_false by (by intros [? ?]). cbn.
      destruct (create_ok k g Hg Hk) as (g' & ? & ? & ?). eauto. }
  cbn. assert (qdisc g' = QDISC_CODEL) as -> by apply Hg'. cbn.
  rewrite (at_Some _ _ _ Hk). cbn. by apply activate_ok.
Qed.

(** *** [get_next_packet] *)

Lemma served_Forall P now q dropped p q' :
  served now q dropped p q' → Forall P (IngressQueue.packets q) →
  Forall P (IngressQueue.packets q').
Proof.
  intros (_ & [->|(_ & _ & ->)] & _) H; [|constructor].
  apply Forall_app in H as [_ H]. by apply Forall_cons in H as [_ H].
Qed.

Section serve.
Context (g : t) (k : Z) (l : list Z) (q' : IngressQueue.t).
Hypothesis Hg : gang_ok g.
Hypothesis Hhead : active_list g = k :: l.
Hypothesis Hqok : queue_ok q'.
Hypothesis Hall : Forall packet_ok (IngressQueue.packets q').

(** The flows after the queue of [k] was replaced by [q'] *)
Lemma flows_kept g' :
  flow_queues g' = <[k := q']> (flow_queues g) →
  flow_quantums g' = flow_quantums g →
  (∀ j, j ≠ k → flow_credits g' !! j = flow_credits g !! j
                ∧ active_indicator g' !! j = active_indicator g !! j
                ∧ codel_servo_bank g' !! j = codel_servo_bank g !! j) →
  (∃ x, flow_credits g' !! k = Some x ∧ 0 ≤ x < MTU_SIZE) →
  active_indicator g' !! k = Some (nonempty q') → is_Some (codel_servo_bank g' !! k) →
  flow_quantums g !! k = Some MTU_SIZE →
  ∀ j x, flow_queues g' !! j = Some x → flow_ok g' j x.
Proof.
  intros Hfq Hfqu Hother Hcr Hai Hcb Hqu j x. unfold flow_ok. rewrite Hfq, Hfqu.
  intros Hx. destruct (decide (j = k)) as [->|Hj]; simplify_map_eq; [done|].
  destruct (Hother j Hj) as (-> & -> & ->). destruct Hg as (_ & _ & _ & Hflow). by apply Hflow.
Qed.

(** The flows with packets after it *)
Lemma members_kept (l' : list Z) :
  (∀ j, j ∈ l' ↔ j ∈ l ∨ j = k ∧ nonempty q' = true) →
  ∀ j, j ∈ l' ↔ ∃ x, <[k := q']> (flow_queues g) !! j = Some x ∧ nonempty x = true.
Proof.
  destruct Hg as (_ & Hnd & Hact & _). rewrite Hhead in Hnd, Hact.
  apply NoDup_cons in Hnd as [Hnin _].
  intros Hl' j. specialize (Hact j). rewrite Hl'. rewrite elem_of_cons in Hact.
  destruct (decide (j = k)) as [->|Hj]; simplify_map_eq; naive_solver.
Qed.

(** After the flow at the head of the list was served down to [q'] with the
    credit [credit] left *)
Lemma reschedule_ok credit c pkt_size :
  0 ≤ credit < MTU_SIZE →
  let g1 := set_flow_credits (<[k := credit]> (flow_credits g)) (set_current_flow k g) in
  let g2 := set_codel_servo_bank (<[k := c]> (codel_servo_bank g)) g1 in
  let g3 := set_flow_queues (<[k := q']> (flow_queues g)) g2 in
  safe (reschedule k pkt_size g3) (fun g' =>
    gang_ok g' ∧ flow_queues g' = <[k := q']> (flow_queues g)).
Proof.
  intros Hcr g1 g2 g3. pose proof Hg as (Hq & Hnd & Hact & Hflow).
  rewrite Hhead in Hnd. apply NoDup_cons in Hnd as [Hnin Hnd].
  destruct (proj1 (Hact k)) as (q & Hk & Hne); [rewrite Hhead; left|].
  destruct (Hflow k q Hk) as (_ & _ & _ & Hqu & Hind & _).
  unfold reschedule. rewrite (at_Some _ k q') by (cbn; by simplify_map_eq).
  cbn [mbind result_bind]. rewrite (at_Some _ k credit) by (cbn; by simplify_map_eq).
  cbn [mbind result_bind]. destruct (IngressQueue.empty q') eqn:He.
  - assert (nonempty q' = false) as Hne' by (unfold nonempty; by rewrite He).
    rewrite (at_Some _ _ (nonempty q)) by done. split; [|done]. cbn. rewrite Hhead. cbn. rewrite drop_0.
    split_and!; [done|done| |].
    + apply members_kept. intros j. rewrite Hne'. naive_solver.
    + apply flows_kept; cbn; try done; intros; simplify_map_eq; eauto; [|by rewrite Hne'].
      by exists 0.
  - assert (nonempty q' = true) as Hne' by (unfold nonempty; by rewrite He).
    assert (∀ l' : list Z, (∀ j, j ∈ l' ↔ j ∈ l ∨ j = k) → NoDup l' →
      gang_ok (set_active_list l' g3)) as Hgo.
    { intros l' Hl' Hnd'. split_and!; [done|done| |].
      - apply members_kept. intros j. rewrite Hl'. naive_solver.
      - apply flows_kept; cbn; try done; intros; simplify_map_eq; eauto. by rewrite Hne', Hne. }
    destruct (credit <? pkt_size); (split; [|done]).
    + cbn. rewrite Hhead. cbn. rewrite drop_0. apply (Hgo (vec_push l k)).
      * intros j. unfold vec_push. rewrite elem_of_app, list_elem_of_singleton. done.
      * apply NoDup_app. split_and!; [done|set_solver|apply NoDup_singleton].
    + replace g3 with (set_active_list (k :: l) g3); [apply Hgo|].
      * intros j. rewrite elem_of_cons. naive_solver.
      * by constructor.
      * rewrite <- Hhead. done.
Qed.
End serve.

(** What one call of [get_next_packet] does to the queues *)
Definition next_from (now : Z) (g : t) (r : list Z) (g' : t) : Prop :=
  match active_list g with
  | [] => r = [] ∧ g' = g
  | k :: _ => ∃ q dropped p q',
      flow_queues g !! k = Some q ∧ served now q dropped p q'
      ∧ r = contents p ∧ flow_queues g' = <[k := q']> (flow_queues g)
  end.

Lemma contents_or_empty p : (if 0 <? zlen (contents p) then contents p else []) = contents p.
Proof.
  destruct (contents p) as [|x l]; [done|]. rewrite zlen_cons. pose proof (zlen_nonneg l). by z_bools.
Qed.

Lemma deque_ok now k g q c :
  flow_queues g !! k = Some q → codel_servo_bank g !! k = Some c → qdisc g = QDISC_CODEL →
  queue_ok q → IngressQueue.empty q = false →
  wp conversion_fault (deque now k g) (fun '(r, g') => ∃ dropped p q' c',
    served now q dropped p q' ∧ r = contents p
    ∧ g' = set_flow_queues (<[k := q']> (flow_queues g))
             (set_codel_servo_bank (<[k := c']> (codel_servo_bank g)) g)).
Proof.
  intros Hk Hc Hq Hqok Hne. unfold deque. rewrite (at_Some _ _ _ Hk). cbn [mbind result_bind].
  rewrite Hne, Hq. cbn [negb assert_that mbind result_bind Z.eqb QDISC_CODEL].
  rewrite (at_Some _ _ _ Hc). cbn [mbind result_bind].
  apply wp_bind. eapply wp_weaken; [by apply codel_deque_spec|].
  intros [[p q'] c'] (dropped & Hs & _). apply wp_ok. rewrite contents_or_empty.
  by exists dropped, p, q', c'.
Qed.

(** The credit of the flow after it was topped up *)
Definition topped_up (credit size : Z) : Z := if credit <? size then credit + MTU_SIZE else credit.

Lemma topped_up_range credit p :
  0 ≤ credit < MTU_SIZE → packet_ok p →
  0 ≤ topped_up credit (zlen (contents p)) - zlen (contents p) < MTU_SIZE.
Proof. unfold packet_ok, topped_up. destruct (Z.ltb_spec credit (zlen (contents p))); lia. Qed.

Lemma next_ok now g :
  gang_ok g →
  wp conversion_fault (get_next_packet now g) (fun '(r, g') => gang_ok g' ∧ next_from now g r g').
Proof.
  intros Hg. pose proof Hg as (Hq & Hnd & Hact & Hflow). unfold get_next_packet, next_from.
  destruct (active_list g) as [|k l] eqn:Hl; [done|].
  destruct (proj1 (Hact k)) as (q & Hk & Hne); [left|].
  destruct (Hflow k q Hk) as (Hqok & Hall & (credit & Hcr & Hrange) & Hqu & Hind & [c Hc]).
  pose proof (proj1 (nonempty_spec q) Hne) as Hps. apply negb_true_iff in Hne.
  destruct (IngressQueue.packets q) as [|p ps] eqn:Hpsq; [done|].
  pose proof (Forall_inv Hall) as Hp. pose proof (topped_up_range _ _ Hrange Hp) as Hcr'.
  cbn [flow_queues flow_credits flow_quantums set_current_flow set_flow_credits].
  rewrite (at_Some _ _ _ Hk). cbn [mbind result_bind]. unfold IngressQueue.front. rewrite Hpsq.
  change (vec_get (p :: ps) 0) with (Ok p). cbn [mbind result_bind].
  rewrite uwrap_small by (unfold packet_ok, MTU_SIZE in Hp; lia).
  rewrite (at_Some _ _ _ Hcr), (at_Some _ _ _ Hqu). cbn [mbind result_bind].
  assert ((if credit <? zlen (contents p) then Ok (credit + MTU_SIZE) else Ok credit)
          = Ok (topped_up credit (zlen (contents p)))) as ->
    by (unfold topped_up; by destruct (_ <? _)).
  cbn [mbind result_bind]. rewrite Hne, (proj2 (Z.leb_le _ _)) by lia.
  cbn [negb assert_that mbind result_bind].
  apply wp_bind. eapply wp_weaken; [by apply (deque_ok _ _ _ q c)|].
  intros [r g1] (dropped & p' & q' & c' & Hs & -> & ->).
  apply wp_bind. wp_apply (reschedule_ok g k l q' Hg Hl); [apply Hs| |exact Hcr'|].
  { eapply served_Forall; [done|]. by rewrite Hpsq. }
  intros g' [Hg' Hfq]. apply wp_ok. split; [done|]. by exists q, dropped, p', q'.
Qed.

(** *** Histories *)

Inductive gang_op : Set := Enque (now : Z) (packet : list Z) | Next (now : Z).

Definition do_op (op : gang_op) (g : t) : result t :=
  match op with
  | Enque now packet => enque now packet g
  | Next now => snd <$> get_next_packet now g
  end.

Definition op_ok (op : gang_op) : Prop :=
  match op with Enque _ packet => frame_ok packet | Next _ => True end.

Lemma do_ops_ok ops g :
  Forall op_ok ops → gang_ok g → wp conversion_fault (for_each ops do_op g) gang_ok.
Proof.
  intros Hops Hg. apply for_each_spec; [done|]. intros op g1 Hop Hg1.
  rewrite Forall_forall in Hops. specialize (Hops op Hop). destruct op as [now packet|now]; simpl.
  - by wp_apply enque_ok.
  - apply wp_fmap. eapply wp_weaken; [by apply next_ok|]. by intros [r g'] [? _].
Qed.


(** An Ethernet frame of [n] octets that carries the IP protocol [proto] *)
Definition ip_frame (proto : Z) (n : nat) : list Z :=
  replicate 12 0 ++ [8; 0] ++ replicate 9 0 ++ [proto] ++ replicate (n - 24) 0.



End GangTheorems.
