(* ===== verification/HoleReassembly.v ===== *)
(** * Reassembly of fragmented packets

    [src/alfalfa/src/network/reassembly.hh] and [reassembly.cc]: the hole
    list algorithm of RFC 815 over a buffer of 1600 octets per packet.  The
    message comes from [src/alfalfa/src/protobufs/packet-fragment.proto]. *)

From S2P Require Import Prelude.

Record PacketFragment : Set := mkPacketFragment {
  frag_length : Z;
  frag_id : Z;
  offset : Z;
  more_frags : bool;
  payload : list Z }.

#[export] Instance PacketFragment_eq_dec : EqDecision PacketFragment.
Proof. solve_decision. Defined.

Module Reassembly.

(** Class [Hole]: both bounds are [uint16_t] and belong to the hole. *)
Record Hole : Set := mkHole { first : Z; last : Z }.

#[export] Instance Hole_eq_dec : EqDecision Hole.
Proof. solve_decision. Defined.

Definition make_hole (t_first t_last : Z) : Hole := mkHole (u16 t_first) (u16 t_last).

Definition hole_eqb (x y : Hole) : bool := (first x =? first y) && (last x =? last y).

Record t : Set := mk {
  hole_map : gmap Z (list Hole);
  reassembly_buffer : gmap Z (list Z) }.

Definition make : t := mk ∅ ∅.

(** [string::replace( pos, len, s )] *)
Definition replace (pos : Z) (s buf : list Z) : result (list Z) :=
  if zlen buf <? pos then Fault (Thrown "std::out_of_range")
  else Ok (take (Z.to_nat pos) buf ++ s ++ drop (Z.to_nat (pos + zlen s)) buf).

(** "No overlap, move on" *)
Definition no_overlap (fragment_first fragment_last : Z) (hole : Hole) : bool :=
  (last hole <? fragment_first) || (fragment_last <? first hole).

(** The parts of a hole that the fragment leaves *)
Definition split_hole (fragment_first fragment_last : Z) (more : bool) (hole : Hole) : list Hole :=
  (if first hole <? fragment_first
   then [make_hole (first hole) (fragment_first - 1)] else [])
  ++ (if (fragment_last <? last hole) && more
      then [make_hole (fragment_last + 1) (last hole)] else []).

(** The loop over the holes from position [i].  After an [erase] the
    position is advanced, so the hole that moved into it is passed over. *)
Fixpoint scan (fuel : nat) (fragment_first fragment_last : Z) (more : bool) (i : Z)
    (holes : list Hole) : result (list Hole) :=
  if i <? zlen holes then
    match fuel with
    | O => Fault OutOfFuel
    | S fuel' =>
        hole ← vec_get holes i;
        if no_overlap fragment_first fragment_last hole
        then scan fuel' fragment_first fragment_last more (i + 1) holes
        else
          holes ← vec_erase holes i;
          scan fuel' fragment_first fragment_last more (i + 1)
            (holes ++ split_hole fragment_first fragment_last more hole)
    end
  else Ok holes.

(** [operator[]] of [std::map] *)
Definition subscript {A} (d : A) (k : Z) (m : gmap Z A) : A := default d (m !! k).

Definition add_fragment (rx : PacketFragment) (s : t) : result t :=
  let seq_num := frag_id rx in
  let s :=
    match hole_map s !! seq_num with
    | None => mk (<[seq_num := [make_hole 0 1600]]> (hole_map s))
                 (<[seq_num := replicate 1600 0]> (reassembly_buffer s))
    | Some _ => s
    end in
  let fragment_first := offset rx in
  let fragment_last := u64 (offset rx + zlen (payload rx) - 1) in
  let holes := subscript [] seq_num (hole_map s) in
  holes ← scan (2 * length holes) fragment_first fragment_last (more_frags rx) 0 holes;
  buf ← replace (offset rx) (payload rx) (subscript [] seq_num (reassembly_buffer s));
  Ok (mk (<[seq_num := holes]> (hole_map s)) (<[seq_num := buf]> (reassembly_buffer s))).

(** Both subscripts create the entry they do not find. *)
Definition ready_to_deliver (seq_num : Z) (s : t) : list Z * t :=
  let holes := subscript [] seq_num (hole_map s) in
  let s := mk (<[seq_num := holes]> (hole_map s)) (reassembly_buffer s) in
  if zlen holes =? 0 then
    let buf := subscript [] seq_num (reassembly_buffer s) in
    (buf, mk (hole_map s) (<[seq_num := buf]> (reassembly_buffer s)))
  else ([], s).

End Reassembly.
