(* ===== verification/ReassemblyProps.v ===== *)
(** * Properties of the hole list

    The scan over the holes terminates for any fragment; and the fragments
    of a packet, in any order and multiplicity, rebuild it. *)

From S2P Require Import Prelude HoleReassembly.

Module ReassemblyTheorems.
Import Reassembly.

Definition hole_ok (h : Hole) : Prop := 0 ≤ first h ≤ last h ∧ last h < 2 ^ 16.

Definition overlap (f l : Z) (h : Hole) : bool := negb (no_overlap f l h).

Lemma overlap_spec f l h : overlap f l h = true ↔ f ≤ last h ∧ first h ≤ l.
Proof. unfold overlap, no_overlap. rewrite negb_true_iff, orb_false_iff, !Z.ltb_ge. lia. Qed.

Lemma overlap_false f l h : overlap f l h = false ↔ last h < f ∨ l < first h.
Proof. rewrite <- not_true_iff_false, overlap_spec. lia. Qed.

(** The parts of a hole that an overlapping fragment leaves *)
Lemma split_hole_spec f l more h :
  hole_ok h → overlap f l h = true → 0 ≤ f ≤ l + 1 →
  split_hole f l more h =
    (if first h <? f then [mkHole (first h) (f - 1)] else [])
    ++ (if (l <? last h) && more then [mkHole (l + 1) (last h)] else []).
Proof.
  intros [Hh Hh'] Ho Hf. apply overlap_spec in Ho. unfold split_hole, make_hole. f_equal.
  - destruct (Z.ltb_spec (first h) f); [|done]. by rewrite !uwrap_small by lia.
  - destruct (Z.ltb_spec l (last h)); [|done]. by rewrite !uwrap_small by lia.
Qed.

Lemma split_hole_parts f l more h :
  hole_ok h → overlap f l h = true → 0 ≤ f ≤ l + 1 →
  Forall (fun p => hole_ok p ∧ overlap f l p = false) (split_hole f l more h)
  ∧ (length (split_hole f l more h) ≤ 2)%nat.
Proof.
  intros Hh Ho Hf. rewrite split_hole_spec by done. pose proof Hh as [Hh1 Hh2].
  apply overlap_spec in Ho. unfold hole_ok.
  destruct (Z.ltb_spec (first h) f), (Z.ltb_spec l (last h)), more; simpl; (split; [|lia]);
    repeat constructor; simpl; try lia; apply overlap_false; simpl; lia.
Qed.

(** ** Termination *)

Definition overlaps (f l : Z) (holes : list Hole) : list Hole := List.filter (overlap f l) holes.

Lemma overlaps_app f l h k : overlaps f l (h ++ k) = overlaps f l h ++ overlaps f l k.
Proof. apply List.filter_app. Qed.

Lemma overlaps_none f l holes :
  Forall (fun p => overlap f l p = false) holes → overlaps f l holes = [].
Proof. unfold overlaps. induction 1 as [|h k Hh _ IH]; simpl; [done|]. by rewrite Hh. Qed.

Lemma overlaps_nil f l holes :
  overlaps f l holes = [] → Forall (fun p => overlap f l p = false) holes.
Proof.
  unfold overlaps. induction holes as [|h k IH]; simpl; [done|].
  destruct (overlap f l h) eqn:Ho; [done|]. intros H. constructor; auto.
Qed.

Lemma overlaps_false holes f l x : overlaps f l holes = [] → x ∈ holes → overlap f l x = false.
Proof. intros H%overlaps_nil. rewrite Forall_forall in H. apply H. Qed.

Lemma overlaps_single f l holes h :
  overlaps f l holes = [h] →
  ∃ pre post, holes = pre ++ h :: post ∧ overlaps f l pre = [] ∧ overlap f l h = true
    ∧ overlaps f l post = [].
Proof.
  induction holes as [|x holes IH]; [done|]. unfold overlaps. cbn [List.filter].
  destruct (overlap f l x) eqn:Ho.
  - intros [= -> Hnil]. by exists [], holes.
  - intros (pre & post & -> & Hpre & Hh & Hpost)%IH. exists (x :: pre), post.
    split_and!; [done| |done|done]. unfold overlaps. cbn [List.filter]. by rewrite Ho.
Qed.

Lemma overlaps_drop_le f l n holes :
  (length (overlaps f l (drop n holes)) ≤ length (overlaps f l holes))%nat.
Proof.
  rewrite <- (take_drop n holes) at 2. rewrite overlaps_app, length_app. lia.
Qed.

(** One step of the scan at position [n] *)
Lemma scan_step fuel f l more (n : nat) holes h :
  holes !! n = Some h →
  scan (S fuel) f l more (Z.of_nat n) holes =
    if no_overlap f l h then scan fuel f l more (Z.of_nat (S n)) holes
    else scan fuel f l more (Z.of_nat (S n)) (delete n holes ++ split_hole f l more h).
Proof.
  intros Hn. pose proof (lookup_lt_Some _ _ _ Hn) as Hlt. cbn [scan].
  rewrite (proj2 (Z.ltb_lt _ _)) by (unfold zlen; lia).
  rewrite (proj2 (vec_get_Ok holes (Z.of_nat n) h)) by (rewrite Nat2Z.id; split; [lia|done]).
  cbn [mbind result_bind]. unfold vec_erase.
  rewrite (proj2 (in_range_spec _ _)) by (unfold zlen; lia). rewrite Nat2Z.id.
  cbn [mbind result_bind]. by replace (Z.of_nat n + 1) with (Z.of_nat (S n)) by lia.
Qed.

Lemma scan_end fuel f l more (n : nat) holes :
  (length holes ≤ n)%nat → scan fuel f l more (Z.of_nat n) holes = Ok holes.
Proof. intros Hn. destruct fuel; cbn [scan]; by rewrite (proj2 (Z.ltb_ge _ _)) by (unfold zlen; lia). Qed.

(** Each step passes a hole or replaces an overlapping one by parts that do
    not overlap. *)
Lemma scan_terminates fuel f l more n holes :
  Forall hole_ok holes → 0 ≤ f ≤ l + 1 →
  (length holes - n + length (overlaps f l (drop n holes)) ≤ fuel)%nat →
  safe (scan fuel f l more (Z.of_nat n) holes) (Forall hole_ok).
Proof.
  intros Hok Hf. revert n holes Hok. induction fuel as [|fuel IH]; intros n holes Hok Hfuel.
  { rewrite scan_end by lia. done. }
  destruct (holes !! n) as [h|] eqn:Hn.
  2:{ apply lookup_ge_None in Hn. rewrite scan_end by lia. done. }
  rewrite (scan_step fuel f l more n holes h Hn). pose proof (lookup_lt_Some _ _ _ Hn) as Hlt.
  rewrite (drop_S _ _ _ Hn) in Hfuel. unfold overlaps in Hfuel. cbn [List.filter] in Hfuel.
  fold (overlaps f l (drop (S n) holes)) in Hfuel. unfold overlap in Hfuel at 1.
  destruct (no_overlap f l h) eqn:Ho; cbn [negb] in Hfuel.
  { apply IH; [done|]. lia. }
  assert (hole_ok h) by (by eapply Forall_lookup_1).
  destruct (split_hole_parts f l more h) as [Hparts Hlen]; [done|by unfold overlap; rewrite Ho|done|].
  apply Forall_and in Hparts as [Hparts1 Hparts2].
  apply IH; [apply Forall_app; split; [by apply Forall_delete|done]|].
  rewrite length_app, length_delete by done. cbn [length] in Hfuel.
  assert (length (overlaps f l (drop (S n) (delete n holes ++ split_hole f l more h)))
          ≤ length (overlaps f l (drop (S n) holes)))%nat; [|lia].
  rewrite drop_app, overlaps_app, length_app.
  rewrite (overlaps_none f l (drop _ (split_hole _ _ _ _))) by by apply Forall_drop.
  rewrite delete_take_drop, drop_app, drop_ge, length_take, drop_drop by (rewrite length_take; lia).
  cbn [app length]. rewrite Nat.add_0_r, Nat.min_l by lia.
  rewrite <- drop_drop. apply overlaps_drop_le.
Qed.

(** A run of holes that the fragment does not meet is passed over. *)
Lemma scan_skip fuel f l more pre rest (n : nat) holes :
  holes = take n holes ++ pre ++ rest → (n ≤ length holes)%nat → overlaps f l pre = [] →
  scan (length pre + fuel) f l more (Z.of_nat n) holes
  = scan fuel f l more (Z.of_nat (n + length pre)) holes.
Proof.
  revert n. induction pre as [|h pre IH]; intros n Hh Hn Hpre.
  { by rewrite Nat.add_0_r. }
  apply overlaps_nil, Forall_cons in Hpre as [Ho Hpre].
  assert (holes !! n = Some h) as Hnh.
  { rewrite Hh, lookup_app_r; rewrite length_take; [|lia].
    by replace (n - n `min` length holes)%nat with 0%nat by lia. }
  pose proof (lookup_lt_Some _ _ _ Hnh). cbn [length Nat.add].
  rewrite (scan_step _ _ _ _ _ _ h Hnh). unfold overlap in Ho. apply negb_false_iff in Ho. rewrite Ho.
  rewrite IH; [f_equal; lia| |lia|by apply overlaps_none].
  rewrite (take_S_r _ _ _ Hnh), <- app_assoc. exact Hh.
Qed.

Lemma scan_none fuel f l more holes :
  overlaps f l holes = [] → (length holes ≤ fuel)%nat →
  scan fuel f l more 0 holes = Ok holes.
Proof.
  intros Ho Hf. replace fuel with (length holes + (fuel - length holes))%nat by lia.
  rewrite (scan_skip _ f l more holes [] 0 holes); [|by rewrite app_nil_r|lia|done].
  apply scan_end. lia.
Qed.

(** A fragment that meets exactly one hole, of which it leaves parts *)
Lemma scan_one f l more pre h post :
  Forall hole_ok (pre ++ h :: post) → 0 ≤ f ≤ l + 1 →
  overlaps f l pre = [] → overlap f l h = true → overlaps f l post = [] →
  scan (2 * length (pre ++ h :: post)) f l more 0 (pre ++ h :: post)
  = Ok (pre ++ post ++ split_hole f l more h).
Proof.
  intros Hok Hf Hpre Hh Hpost. rewrite Forall_app, Forall_cons in Hok. destruct Hok as (_ & Hokh & _).
  destruct (split_hole_parts f l more h Hokh Hh Hf) as [Hparts Hlen].
  apply Forall_and in Hparts as [_ Hparts]. rewrite length_app. cbn [length].
  replace (2 * (length pre + S (length post)))%nat
    with (length pre + S (length pre + S (2 * length post)))%nat by lia.
  rewrite (scan_skip _ f l more pre (h :: post) 0); [|done|lia|done]. cbn [Nat.add].
  rewrite (scan_step _ _ _ _ _ _ h) by by rewrite list_lookup_middle.
  unfold overlap in Hh. apply negb_true_iff in Hh. rewrite Hh, delete_middle, <- app_assoc.
  set (rest := post ++ split_hole f l more h).
  destruct rest as [|x rest'] eqn:Hrest.
  { rewrite app_nil_r. apply scan_end. lia. }
  assert (overlaps f l rest' = []).
  { apply overlaps_none. eapply Forall_cons_1. rewrite <- Hrest.
    apply Forall_app. split; [by apply overlaps_nil|done]. }
  assert (length rest' ≤ length pre + S (2 * length post))%nat as Hr.
  { assert (length (x :: rest') ≤ length post + 2)%nat; [|cbn in *; lia].
    rewrite <- Hrest. unfold rest. rewrite length_app. lia. }
  replace (length pre + S (2 * length post))%nat
    with (length rest' + (length pre + S (2 * length post) - length rest'))%nat by lia.
  rewrite (scan_skip _ f l more rest' [] (S (length pre))); [|rewrite app_nil_r|rewrite length_app; cbn; lia|done].
  - apply scan_end. rewrite length_app. cbn. lia.
  - rewrite (cons_middle x), (app_assoc pre), take_app_length' by (rewrite length_app; cbn; lia). done.
Qed.

(** ** The fragments of a packet *)

(** The pieces of a packet as messages, from the offset [off] *)
Fixpoint cut (id total off : Z) (pieces : list (list Z)) : list PacketFragment :=
  match pieces with
  | [] => []
  | p :: ps =>
      mkPacketFragment total id off (negb (zlen ps =? 0)) p :: cut id total (off + zlen p) ps
  end.

(** Where the [i]-th piece begins *)
Definition bound (pieces : list (list Z)) (i : nat) : Z := zlen (concat (take i pieces)).

Lemma length_cut id total off pieces : length (cut id total off pieces) = length pieces.
Proof. revert off. induction pieces as [|x l IH]; intros off; simpl; [done|]. by rewrite IH. Qed.

Lemma cut_lookup id total off pieces i p :
  pieces !! i = Some p →
  cut id total off pieces !! i =
    Some (mkPacketFragment total id (off + bound pieces i) (bool_decide (S i < length pieces)%nat) p).
Proof.
  revert off i. induction pieces as [|x ps IH]; intros off i; [done|]. destruct i as [|i]; simpl.
  - intros [= ->]. change (bound (p :: ps) 0) with 0. f_equal. f_equal; [lia|].
    destruct ps; [done|]. rewrite zlen_cons. rewrite bool_decide_true by (simpl; lia).
    pose proof (zlen_nonneg ps). by z_bools.
  - intros Hi. rewrite (IH _ _ Hi). f_equal. unfold bound. simpl. rewrite zlen_app. f_equal; [lia|].
    apply bool_decide_ext. lia.
Qed.

Section packet.
Context (pieces : list (list Z)).
Hypothesis Hpieces : Forall (fun p => p ≠ []) pieces.
Hypothesis Htotal : zlen (concat pieces) ≤ 1600.

Abbreviation start i := (bound pieces i).
Abbreviation stop i := (bound pieces (S i) - 1).

Lemma bound_S i p : pieces !! i = Some p → bound pieces (S i) = bound pieces i + zlen p.
Proof.
  intros Hi. unfold bound. rewrite (take_S_r _ _ _ Hi), concat_app, zlen_app. simpl.
  by rewrite app_nil_r.
Qed.

Lemma bound_step i : (i < length pieces)%nat → bound pieces i < bound pieces (S i).
Proof.
  intros Hi. apply lookup_lt_is_Some in Hi as [p Hp]. rewrite (bound_S _ _ Hp).
  assert (p ≠ []) by (by eapply Forall_lookup_1 in Hpieces). destruct p; [done|].
  rewrite zlen_cons. pose proof (zlen_nonneg p). lia.
Qed.

Lemma bound_mono i j : (i ≤ j)%nat → bound pieces i ≤ bound pieces j.
Proof.
  intros Hij. unfold bound. rewrite <- (take_drop i (take j pieces)).
  rewrite take_take, Nat.min_l by done.
  rewrite concat_app, zlen_app. pose proof (zlen_nonneg (concat (drop i (take j pieces)))). lia.
Qed.

Lemma bound_0 : bound pieces 0 = 0.
Proof. done. Qed.

Lemma bound_range i : 0 ≤ bound pieces i ≤ 1600.
Proof.
  split; [apply zlen_nonneg|]. etrans; [|exact Htotal]. unfold bound.
  rewrite <- (take_drop i pieces) at 2. rewrite concat_app, zlen_app.
  pose proof (zlen_nonneg (concat (drop i pieces))). lia.
Qed.

(** ** The invariant on the holes *)

Definition covers (h : Hole) (i : nat) : Prop := first h ≤ start i ∧ stop i ≤ last h.

(** [arr] are the pieces that arrived: they meet no hole, every other one
    lies in the one hole it meets, and every hole has such a piece. *)
Definition holes_ok (arr : gset nat) (holes : list Hole) : Prop :=
  Forall hole_ok holes
  ∧ (∀ i, (i < length pieces)%nat → i ∈ arr → overlaps (start i) (stop i) holes = [])
  ∧ (∀ i, (i < length pieces)%nat → (i ∉ arr) →
       ∃ h, overlaps (start i) (stop i) holes = [h] ∧ covers h i)
  ∧ ∀ h, h ∈ holes → ∃ i, (i < length pieces)%nat ∧ (i ∉ arr) ∧ covers h i.

Lemma holes_ok_initial :
  pieces ≠ [] → holes_ok ∅ [make_hole 0 1600].
Proof.
  intros Hne. change (make_hole 0 1600) with (mkHole 0 1600).
  assert (∀ i, (i < length pieces)%nat → covers (mkHole 0 1600) i) as Hc.
  { intros i Hi. pose proof (bound_range i). pose proof (bound_range (S i)). split; cbn; lia. }
  split_and!.
  - repeat constructor; done.
  - set_solver.
  - intros i Hi _. exists (mkHole 0 1600). split; [|by apply Hc]. unfold overlaps. cbn [List.filter].
    pose proof (bound_range i). pose proof (bound_step i Hi).
    rewrite (proj2 (overlap_spec _ _ _)); [done|]. cbn. lia.
  - intros h ->%list_elem_of_singleton. exists 0%nat. destruct pieces; [done|].
    split; [simpl; lia|]. split; [set_solver|]. apply Hc. simpl. lia.
Qed.

(** A piece that meets a hole lies in it and has not arrived. *)
Lemma meets arr holes h i :
  holes_ok arr holes → h ∈ holes → (i < length pieces)%nat →
  overlap (start i) (stop i) h = true →
  (i ∉ arr) ∧ covers h i ∧ overlaps (start i) (stop i) holes = [h].
Proof.
  intros (_ & Harr & Hnot & _) Hh Hi Ho.
  assert (h ∈ overlaps (start i) (stop i) holes) as Hin.
  { unfold overlaps. rewrite list_elem_of_In, filter_In, <- list_elem_of_In. done. }
  assert (i ∉ arr) as Hni by (intros Hin'; rewrite (Harr i Hi Hin') in Hin; set_solver).
  destruct (Hnot i Hi Hni) as (h' & Heq & Hc). rewrite Heq in Hin.
  apply list_elem_of_singleton in Hin as <-. done.
Qed.

Section arrival.
Context (arr : gset nat) (pre post : list Hole) (h : Hole) (i : nat).
Hypothesis Hok : holes_ok arr (pre ++ h :: post).
Hypothesis Hi : (i < length pieces)%nat.
Hypothesis Hh : overlap (start i) (stop i) h = true.

Abbreviation parts := (split_hole (start i) (stop i) (bool_decide (S i < length pieces)%nat) h).

Lemma parts_eq :
  parts = (if first h <? start i then [mkHole (first h) (start i - 1)] else [])
          ++ (if (stop i <? last h) && bool_decide (S i < length pieces)%nat
              then [mkHole (bound pieces (S i)) (last h)] else []).
Proof.
  destruct Hok as (Hall & _). rewrite Forall_app, Forall_cons in Hall. destruct Hall as (_ & Hokh & _).
  pose proof (bound_range i). pose proof (bound_step i Hi).
  rewrite split_hole_spec by (done || lia). by replace (stop i + 1) with (bound pieces (S i)) by lia.
Qed.

(** Every other piece meets the parts as it met the hole, and lies in the
    part it meets. *)
Lemma parts_overlap j :
  (j < length pieces)%nat → j ≠ i →
  (overlap (start j) (stop j) h = false ∧ overlaps (start j) (stop j) parts = [])
  ∨ (overlap (start j) (stop j) h = true
     ∧ ∃ p, overlaps (start j) (stop j) parts = [p] ∧ covers p j).
Proof.
  intros Hj Hne. pose proof (bound_step i Hi). pose proof (bound_step j Hj).
  assert (h ∈ pre ++ h :: post) as Hin by set_solver.
  destruct (meets _ _ h i Hok Hin Hi Hh) as (_ & [Hc1 Hc2] & _).
  destruct (overlap (start j) (stop j) h) eqn:Ho; [right; split; [done|]|left; split; [done|]].
  - destruct (meets _ _ h j Hok Hin Hj Ho) as (_ & [Hd1 Hd2] & _). rewrite parts_eq, overlaps_app.
    destruct (decide (j < i)%nat).
    + pose proof (bound_mono (S j) i ltac:(lia)). exists (mkHole (first h) (start i - 1)).
      rewrite (proj2 (Z.ltb_lt _ _)) by lia. unfold overlaps at 1. cbn [List.filter].
      rewrite (proj2 (overlap_spec _ _ _)) by (cbn; lia). split; [|split; cbn; lia].
      rewrite overlaps_none; [done|]. destruct (_ && _); [|done]. constructor; [|done].
      apply overlap_false. cbn. lia.
    + pose proof (bound_mono (S i) j ltac:(lia)). exists (mkHole (bound pieces (S i)) (last h)).
      rewrite (overlaps_none _ _ (if first h <? start i then _ else _)).
      2:{ destruct (_ <? _); [|done]. constructor; [|done]. apply overlap_false. cbn. lia. }
      rewrite (proj2 (Z.ltb_lt _ _)), bool_decide_true by lia. unfold overlaps. cbn [andb List.filter app].
      rewrite (proj2 (overlap_spec _ _ _)) by (cbn; lia). split; [done|split; cbn; lia].
  - apply overlaps_none. apply overlap_false in Ho. rewrite parts_eq.
    apply Forall_app; split.
    + destruct (_ <? _); [|done]. constructor; [|done]. apply overlap_false. cbn. lia.
    + destruct (_ && _); [|done]. constructor; [|done]. apply overlap_false. cbn. lia.
Qed.

(** Each part has a piece of its own that has not arrived. *)
Lemma parts_have_pieces p :
  p ∈ parts → ∃ j, (j < length pieces)%nat ∧ (j ∉ {[i]} ∪ arr) ∧ covers p j.
Proof.
  assert (h ∈ pre ++ h :: post) as Hin by set_solver.
  destruct (meets _ _ h i Hok Hin Hi Hh) as (_ & [Hc1 Hc2] & _).
  pose proof (bound_step i Hi). pose proof (bound_range i).
  destruct Hok as (Hall & _). rewrite Forall_app, Forall_cons in Hall.
  destruct Hall as (_ & [Hokh _] & _). rewrite parts_eq, elem_of_app. intros [Hp|Hp].
  - destruct (Z.ltb_spec (first h) (start i)); [|set_solver]. apply list_elem_of_singleton in Hp as ->.
    destruct i as [|i']; [rewrite bound_0 in *; lia|]. pose proof (bound_step i' ltac:(lia)).
    destruct (meets _ _ h i' Hok Hin) as (Hn & [Hd1 Hd2] & _); [lia|apply overlap_spec; lia|].
    exists i'. split; [lia|]. split; [set_solver by lia|]. split; cbn; lia.
  - destruct (Z.ltb_spec (stop i) (last h)); [|set_solver].
    case_bool_decide; [|set_solver]. apply list_elem_of_singleton in Hp as ->.
    pose proof (bound_step (S i) ltac:(lia)).
    destruct (meets _ _ h (S i) Hok Hin) as (Hn & [Hd1 Hd2] & _); [lia|apply overlap_spec; lia|].
    exists (S i). split; [lia|]. split; [set_solver by lia|]. split; cbn; lia.
Qed.
(** The arrival of piece [i] in its hole *)
Lemma holes_ok_add :
  overlaps (start i) (stop i) pre = [] → overlaps (start i) (stop i) post = [] →
  holes_ok ({[i]} ∪ arr) (pre ++ post ++ parts).
Proof.
  intros Hpre Hpost. pose proof (bound_step i Hi). pose proof (bound_range i).
  pose proof Hok as (Hall & Harr & Hnot & Hhas). rewrite Forall_app, Forall_cons in Hall.
  destruct Hall as (Hall1 & Hokh & Hall2).
  destruct (split_hole_parts (start i) (stop i) (bool_decide (S i < length pieces)%nat) h Hokh Hh)
    as [Hparts _]; [lia|]. apply Forall_and in Hparts as [Hp1 Hp2].
  assert (∀ j, overlaps (start j) (stop j) (pre ++ h :: post) =
    overlaps (start j) (stop j) pre ++ overlaps (start j) (stop j) [h] ++ overlaps (start j) (stop j) post)
    as Hsplit by (intros j; rewrite <- !overlaps_app; done).
  split_and!.
  - rewrite !Forall_app. done.
  - intros j Hj Hin. rewrite !overlaps_app. destruct (decide (j = i)) as [->|Hne].
    { by rewrite Hpre, Hpost, overlaps_none. }
    assert (j ∈ arr) as Hja by set_solver. specialize (Harr j Hj Hja). rewrite Hsplit in Harr.
    apply app_nil in Harr as [-> [Hno ->]%app_nil].
    destruct (parts_overlap j Hj Hne) as [[_ ->]|[Ho _]]; [done|].
    unfold overlaps in Hno. cbn in Hno. by rewrite Ho in Hno.
  - intros j Hj Hin. assert (j ≠ i) as Hne by set_solver. assert (j ∉ arr) as Hja by set_solver.
    destruct (Hnot j Hj Hja) as (h' & Heq & Hcov). rewrite Hsplit in Heq. rewrite !overlaps_app.
    destruct (parts_overlap j Hj Hne) as [[Ho ->]|[Ho (p & -> & Hcp)]].
    + unfold overlaps in Heq at 2. cbn in Heq. rewrite Ho in Heq. cbn in Heq.
      exists h'. by rewrite app_nil_r.
    + unfold overlaps in Heq at 2. cbn in Heq. rewrite Ho in Heq. cbn in Heq.
      exists p. destruct (overlaps (start j) (stop j) pre) as [|a [|b k]]; [|done..].
      injection Heq as _ ->. done.
  - intros x Hx. rewrite (assoc_L (++)), elem_of_app in Hx. destruct Hx as [Hx|Hx]; [|by apply parts_have_pieces].
    assert (overlap (start i) (stop i) x = false) as Ho.
    { apply (overlaps_false (pre ++ post)); [|done]. by rewrite overlaps_app, Hpre, Hpost. }
    destruct (Hhas x) as (j & Hj & Hja & Hcov); [set_solver|]. exists j. split; [done|]. split; [|done].
    rewrite not_elem_of_union, not_elem_of_singleton. split; [|done]. intros ->.
    destruct Hcov. rewrite overlap_false in Ho. lia.
Qed.
End arrival.

(** Scanning for piece [i] *)
Lemma scan_piece arr holes i :
  holes_ok arr holes → (i < length pieces)%nat →
  ∃ holes', scan (2 * length holes) (start i) (stop i) (bool_decide (S i < length pieces)%nat) 0 holes
            = Ok holes' ∧ holes_ok ({[i]} ∪ arr) holes'.
Proof.
  intros Hok Hi. destruct (decide (i ∈ arr)) as [Hin|Hnin].
  - exists holes. replace ({[i]} ∪ arr) with arr by set_solver. split; [|done].
    apply scan_none; [|lia]. by apply Hok.
  - destruct Hok as (Hall & Harr & Hnot & Hhas) eqn:E. clear E.
    destruct (Hnot i Hi Hnin) as (h & Hs & _).
    destruct (overlaps_single _ _ _ _ Hs) as (pre & post & -> & Hpre & Hh & Hpost).
    eexists. split; [apply scan_one; try done|by apply holes_ok_add].
    pose proof (bound_range i). pose proof (bound_step i Hi). lia.
Qed.

Lemma no_holes arr holes :
  holes_ok arr holes → holes = [] ↔ ∀ i, (i < length pieces)%nat → i ∈ arr.
Proof.
  intros (_ & Harr & Hnot & Hhas). split.
  - intros -> i Hi. destruct (decide (i ∈ arr)) as [|Hn]; [done|].
    destruct (Hnot i Hi Hn) as (h & Heq & _). done.
  - intros Hall. destruct holes as [|h holes]; [done|].
    destruct (Hhas h) as (i & Hi & Hn & _); [left|]. by destruct Hn; apply Hall.
Qed.

(** ** The buffer *)

Definition buffer_ok (arr : gset nat) (buf : list Z) : Prop :=
  zlen buf = 1600
  ∧ (∀ i x : nat, (i < length pieces)%nat → i ∈ arr → start i ≤ Z.of_nat x ≤ stop i →
       buf !! x = concat pieces !! x)
  ∧ ∀ x : nat, zlen (concat pieces) ≤ Z.of_nat x < 1600 → buf !! x = Some 0.

Lemma buffer_ok_initial : buffer_ok ∅ (replicate 1600 0).
Proof.
  split_and!; [done|set_solver|]. intros x Hx. apply lookup_replicate_2. lia.
Qed.

Lemma piece_lookup i p (x : nat) :
  pieces !! i = Some p → start i ≤ Z.of_nat x ≤ stop i →
  concat pieces !! x = p !! (x - Z.to_nat (start i))%nat
  ∧ (x - Z.to_nat (start i) < length p)%nat.
Proof.
  intros Hi Hx. rewrite (bound_S _ _ Hi) in Hx. pose proof (bound_range i).
  assert (concat pieces = concat (take i pieces) ++ p ++ concat (drop (S i) pieces)) as ->
    by (by rewrite <- (take_drop_middle _ _ _ Hi) at 1; rewrite concat_app).
  unfold bound, zlen in *. rewrite lookup_app_r, lookup_app_l by lia.
  rewrite Nat2Z.id. split; [done|lia].
Qed.

Lemma replace_lookup pos q buf buf' (x : nat) :
  replace pos q buf = Ok buf' → 0 ≤ pos → pos + zlen q ≤ zlen buf →
  buf' !! x = (if (pos <=? Z.of_nat x) && (Z.of_nat x <? pos + zlen q)
               then q !! (x - Z.to_nat pos)%nat else buf !! x)
  ∧ zlen buf' = zlen buf.
Proof.
  unfold replace. intros Hr Hpos Hlen. pose proof (zlen_nonneg q).
  rewrite (proj2 (Z.ltb_ge _ _)) in Hr by lia. injection Hr as <-. unfold zlen in *. split.
  2:{ rewrite !length_app, length_take, length_drop. lia. }
  destruct (Z.leb_spec pos (Z.of_nat x)); cbn [andb].
  2:{ rewrite lookup_app_l by (rewrite length_take; lia). apply lookup_take_lt. lia. }
  rewrite lookup_app_r by (rewrite length_take; lia). rewrite length_take, Nat.min_l by lia.
  destruct (Z.ltb_spec (Z.of_nat x) (pos + Z.of_nat (length q))).
  - by rewrite lookup_app_l by lia.
  - rewrite lookup_app_r, lookup_drop by lia. f_equal. lia.
Qed.

Lemma buffer_ok_add arr buf i p :
  buffer_ok arr buf → pieces !! i = Some p →
  ∃ buf', replace (start i) p buf = Ok buf' ∧ buffer_ok ({[i]} ∪ arr) buf'.
Proof.
  intros (Hlen & Harr & Htail) Hi. pose proof (bound_range i). pose proof (bound_range (S i)).
  pose proof (bound_S _ _ Hi) as HS.
  destruct (replace (start i) p buf) as [buf'|f] eqn:Hr.
  2:{ unfold replace in Hr. by rewrite (proj2 (Z.ltb_ge _ _)) in Hr by lia. }
  assert (∀ x : nat, _) as Hx by (intros x; refine (replace_lookup _ _ _ _ x Hr _ _); lia).
  exists buf'. split; [done|]. split_and!.
  - destruct (Hx 0%nat) as [_ ->]. done.
  - intros j x Hj Hin Hrange. destruct (Hx x) as [-> _].
    destruct ((start i <=? Z.of_nat x) && (Z.of_nat x <? start i + zlen p)) eqn:Hb.
    + apply andb_true_iff in Hb as [Hb1%Z.leb_le Hb2%Z.ltb_lt].
      symmetry. apply (piece_lookup i p x Hi). lia.
    + apply Harr with j; [done| |done]. destruct (decide (j = i)) as [->|]; [|set_solver].
      apply andb_false_iff in Hb as [Hb%Z.leb_gt|Hb%Z.ltb_ge]; lia.
  - intros x Hxr. destruct (Hx x) as [-> _].
    assert (bound pieces (S i) ≤ zlen (concat pieces)).
    { unfold bound. rewrite <- (take_drop (S i) pieces) at 2. rewrite concat_app, zlen_app.
      pose proof (zlen_nonneg (concat (drop (S i) pieces))). lia. }
    rewrite (proj2 (Z.ltb_ge (Z.of_nat x) _)), andb_false_r by lia. by apply Htail.
Qed.

Lemma find_piece (m x : nat) :
  Z.of_nat x < bound pieces m → (m ≤ length pieces)%nat →
  ∃ i, (i < m)%nat ∧ start i ≤ Z.of_nat x ≤ stop i.
Proof.
  induction m as [|m IH]; intros Hx Hm; [rewrite bound_0 in Hx; lia|].
  destruct (decide (Z.of_nat x < bound pieces m)) as [Hlt|Hge].
  - destruct IH as (i & ? & ?); [done|lia|]. exists i. split; [lia|done].
  - exists m. split; lia.
Qed.

Lemma buffer_complete arr buf :
  buffer_ok arr buf → (∀ i, (i < length pieces)%nat → i ∈ arr) →
  buf = concat pieces ++ replicate (1600 - length (concat pieces)) 0.
Proof.
  intros (Hlen & Harr & Htail) Hall. apply list_eq. intros x.
  destruct (decide (Z.of_nat x < zlen (concat pieces))) as [Hx|Hx].
  - rewrite lookup_app_l by (unfold zlen in Hx; lia).
    destruct (find_piece (length pieces) x) as (i & Hi & Hr).
    { unfold bound. by rewrite take_ge by lia. } { done. }
    apply Harr with i; [done|by apply Hall|done].
  - rewrite lookup_app_r by (unfold zlen in Hx; lia).
    destruct (decide (x < 1600)%nat).
    + rewrite Htail by lia. rewrite lookup_replicate_2; [done|]. unfold zlen in *. lia.
    + rewrite !lookup_ge_None_2; [done|rewrite length_replicate; unfold zlen in *; lia|unfold zlen in *; lia].
Qed.

(** ** Arrivals *)

Definition packet_ok (id : Z) (arr : gset nat) (s : t) : Prop :=
  ∃ holes buf, hole_map s !! id = Some holes ∧ reassembly_buffer s !! id = Some buf
    ∧ holes_ok arr holes ∧ buffer_ok arr buf.

(** The entry of a packet before its first fragment *)
Definition seen (id : Z) (s : t) : t :=
  match hole_map s !! id with
  | None => mk (<[id := [make_hole 0 1600]]> (hole_map s))
               (<[id := replicate 1600 0]> (reassembly_buffer s))
  | Some _ => s
  end.

Lemma add_fragment_ok id total arr s i rx :
  packet_ok id arr (seen id s) → cut id total 0 pieces !! i = Some rx →
  ∃ s', add_fragment rx s = Ok s' ∧ packet_ok id ({[i]} ∪ arr) s'.
Proof.
  intros (holes & buf & Hh & Hb & Hhok & Hbok) Hrx.
  destruct (pieces !! i) as [p|] eqn:Hp.
  2:{ apply lookup_lt_Some in Hrx. apply lookup_ge_None in Hp. rewrite length_cut in Hrx. lia. }
  rewrite (cut_lookup _ _ _ _ _ _ Hp) in Hrx. injection Hrx as <-. rewrite Z.add_0_l.
  pose proof (lookup_lt_Some _ _ _ Hp) as Hi. pose proof (bound_step i Hi).
  pose proof (bound_range i). pose proof (bound_range (S i)). pose proof (bound_S _ _ Hp).
  destruct (scan_piece arr holes i Hhok Hi) as (holes' & Hscan & Hhok').
  destruct (buffer_ok_add arr buf i p Hbok Hp) as (buf' & Hrep & Hbok').
  unfold add_fragment. cbn [frag_id offset payload more_frags]. fold (seen id s).
  unfold subscript. rewrite Hh, Hb. cbn [default]. unfold Datatypes.id.
  rewrite uwrap_small by lia.
  replace (start i + zlen p - 1) with (stop i) by lia. rewrite Hscan. cbn [mbind result_bind].
  rewrite Hrep. cbn [mbind result_bind]. eexists. split; [reflexivity|].
  exists holes', buf'. cbn. by simplify_map_eq.
Qed.

Lemma seen_after id arr s : packet_ok id arr s → seen id s = s.
Proof. intros (holes & buf & Hh & _). unfold seen. by rewrite Hh. Qed.

Lemma cut_inj id total i j f :
  cut id total 0 pieces !! i = Some f → cut id total 0 pieces !! j = Some f → i = j.
Proof.
  assert (∀ k g, cut id total 0 pieces !! k = Some g →
                 (k < length pieces)%nat ∧ offset g = start k) as Hoff.
  { intros k g Hg. destruct (pieces !! k) as [p|] eqn:Hp.
    - rewrite (cut_lookup _ _ _ _ _ _ Hp) in Hg. injection Hg as <-.
      split; [by eapply lookup_lt_Some|]. cbn. lia.
    - apply lookup_lt_Some in Hg. apply lookup_ge_None in Hp. rewrite length_cut in Hg. lia. }
  intros [Hi Hoi]%Hoff [Hj Hoj]%Hoff. destruct (decide (i = j)) as [|Hne]; [done|].
  destruct (decide (i < j)%nat).
  - pose proof (bound_step i Hi). pose proof (bound_mono (S i) j ltac:(lia)). lia.
  - pose proof (bound_step j Hj). pose proof (bound_mono (S j) i ltac:(lia)). lia.
Qed.

Lemma arrivals_ok id total arrivals arr s :
  packet_ok id arr s → Forall (fun f => f ∈ cut id total 0 pieces) arrivals →
  ∃ s' arr', for_each arrivals add_fragment s = Ok s' ∧ packet_ok id arr' s'
    ∧ ∀ i f, cut id total 0 pieces !! i = Some f → i ∈ arr' ↔ i ∈ arr ∨ f ∈ arrivals.
Proof.
  revert arr s. induction arrivals as [|f l IH]; intros arr s Hs Hall.
  { exists s, arr. split; [done|]. split; [done|]. set_solver. }
  apply Forall_cons in Hall as [[i Hi]%list_elem_of_lookup Hall].
  destruct (add_fragment_ok id total arr s i f) as (s1 & Hadd & Hs1); [by rewrite (seen_after id arr)|done|].
  destruct (IH _ _ Hs1 Hall) as (s' & arr' & Hrun & Hs' & Harr').
  exists s', arr'. cbn [for_each]. rewrite Hadd. cbn [mbind result_bind]. split; [done|]. split; [done|].
  intros j g Hj. rewrite (Harr' j g Hj), elem_of_union, elem_of_singleton, elem_of_cons.
  split; [intros [[->|?]|?]; [|by left|by right; right]|intros [?|[->|?]]; [by left; right| |by right]].
  - right. left. congruence.
  - left. left. by eapply cut_inj.
Qed.
End packet.

(** C21.  Reassembly.  Cut a packet of at most 1600 octets into non-empty
    pieces and let the fragments arrive in any order and any number of times
    at a receiver that has not seen the packet.  No fragment is refused, the
    packet is delivered exactly when every fragment has arrived, and what is
    delivered is the packet padded with zeros to the 1600 octets of the
    buffer; before that the empty string is returned.  (The hole that the
    scan passes over after an [erase] never matters for such fragments.) *)
Theorem hole_reassembly (id total : Z) (pieces : list (list Z)) (arrivals : list PacketFragment)
    (s : t) :
  Forall (fun p => p ≠ []) pieces → pieces ≠ [] → zlen (concat pieces) ≤ 1600 →
  hole_map s !! id = None →
  arrivals ≠ [] → Forall (fun f => f ∈ cut id total 0 pieces) arrivals →
  ∃ s', for_each arrivals add_fragment s = Ok s'
    ∧ fst (ready_to_deliver id s') =
        if decide (Forall (fun f => f ∈ arrivals) (cut id total 0 pieces))
        then concat pieces ++ replicate (1600 - length (concat pieces)) 0 else [].
Proof.
  intros Hp Hne Ht Hs Ha Hall. destruct arrivals as [|f l]; [done|].
  apply Forall_cons in Hall as [Hf Hall]. destruct (proj1 (list_elem_of_lookup _ _) Hf) as [i Hi].
  destruct (add_fragment_ok pieces Hp Ht id total ∅ s i f) as (s1 & Hadd & Hs1); [|done|].
  { unfold seen. rewrite Hs. exists [make_hole 0 1600], (replicate 1600 0). cbn.
    split_and!; [by simplify_map_eq..|by apply holes_ok_initial|by apply buffer_ok_initial]. }
  destruct (arrivals_ok pieces Hp Ht id total l _ _ Hs1 Hall) as (s' & arr & Hrun & Hs' & Harr).
  exists s'. cbn [for_each]. rewrite Hadd. split; [done|].
  destruct Hs' as (holes & buf & Hh & Hb & Hhok & Hbok).
  unfold ready_to_deliver, subscript. cbn [hole_map reassembly_buffer]. rewrite Hh, Hb. cbn [default].
  assert ((∀ j, (j < length pieces)%nat → j ∈ arr)
          ↔ Forall (fun g => g ∈ f :: l) (cut id total 0 pieces)) as Hiff.
  { rewrite Forall_lookup. split.
    - intros H j g Hj. pose proof (lookup_lt_Some _ _ _ Hj) as Hlt. rewrite length_cut in Hlt.
      specialize (H j Hlt). rewrite (Harr j g Hj) in H. destruct H as [H|H]; [|by right].
      rewrite union_empty_r_L, elem_of_singleton in H. subst. rewrite Hi in Hj. injection Hj as <-. set_solver.
    - intros H j Hlt. rewrite <- (length_cut id total 0) in Hlt. apply lookup_lt_is_Some in Hlt as [g Hg].
      apply (Harr j g Hg). destruct (proj1 (elem_of_cons l g f) (H j g Hg)) as [->|?]; [|by right].
      left. rewrite union_empty_r_L, elem_of_singleton. by eapply cut_inj. }
  destruct (decide _) as [Hd|Hd].
  - rewrite <- Hiff in Hd. rewrite (proj2 (no_holes pieces arr holes Hhok) Hd). cbn.
    by apply buffer_complete with arr.
  - rewrite <- Hiff in Hd. destruct holes as [|h holes].
    { destruct Hd. by apply (no_holes pieces arr []). }
    unfold Datatypes.id. rewrite zlen_cons. pose proof (zlen_nonneg holes). by z_bools.
Qed.

(** Three pieces, in the order 2, 0, 2, 1 *)
Definition sample_pieces : list (list Z) := [[1; 2]; [3]; [4; 5; 6]].
Definition sample_arrivals : list PacketFragment :=
  [mkPacketFragment 6 9 3 false [4; 5; 6]; mkPacketFragment 6 9 0 true [1; 2];
   mkPacketFragment 6 9 3 false [4; 5; 6]; mkPacketFragment 6 9 2 true [3]].

Lemma hole_reassembly_witness :
  ∃ s', for_each sample_arrivals add_fragment make = Ok s'
    ∧ fst (ready_to_deliver 9 s') = [1; 2; 3; 4; 5; 6] ++ replicate 1594 0.
Proof.
  destruct (hole_reassembly 9 6 sample_pieces sample_arrivals make) as (s' & Hrun & Hready).
  - repeat constructor; discriminate.
  - discriminate.
  - vm_compute. discriminate.
  - reflexivity.
  - discriminate.
  - vm_compute. repeat constructor; set_solver.
  - exists s'. split; [exact Hrun|]. rewrite Hready, decide_True; [reflexivity|].
    vm_compute. repeat constructor; set_solver.
Defined.

(** Because the hole after an erased one is passed over, a fragment that
    meets two neighbouring holes closes only the first: here every octet of
    the packet has arrived, and it is not delivered. *)
Lemma skipped_hole :
  ∃ s', for_each [mkPacketFragment 10 1 2 true [2; 3]; mkPacketFragment 10 1 0 true [0; 1; 2; 3; 4; 5];
                  mkPacketFragment 10 1 6 false [6; 7; 8; 9]] add_fragment make = Ok s'
    ∧ fst (ready_to_deliver 1 s') = [].
Proof. eexists. split; [vm_compute; reflexivity|]. vm_compute. reflexivity. Qed.

(** Asking for a packet before its first fragment creates an entry without
    holes: the first of two fragments is then delivered on its own. *)
Lemma delivered_early :
  ∃ s', add_fragment (mkPacketFragment 4 1 0 true [1; 2]) (snd (ready_to_deliver 1 make)) = Ok s'
    ∧ fst (ready_to_deliver 1 s') = [1; 2].
Proof. eexists. split; [vm_compute; reflexivity|]. vm_compute. reflexivity. Qed.

End ReassemblyTheorems.
