(* ===== verification/NetworkConnection.v ===== *)
(** * The datagram connection

    [src/alfalfa/src/crypto/crypto.h] and [crypto.cc] (nonces, messages and
    the session, which frames a message without encrypting it),
    [src/alfalfa/src/network/network.h] and [network.cc] (packet format,
    clocks, the sender's sequence numbers, the receiver's bookkeeping), and
    [src/alfalfa/src/sprout/receiver.hh] and [receiver.cc] (the receiver's
    count of octets received or lost).

    Socket calls are outside the model: a received datagram and its source
    address are arguments, a sent one is part of the result.  The clock is
    the frozen timestamp [now], one value per call. *)

From S2P Require Import Prelude Double TransportFragment.

(** ** [Crypto] *)

Module Nonce.

(** Class [Nonce]: twelve octets *)
Definition t : Set := list Z.

Definition make (val : Z) : t := [0; 0; 0; 0] ++ be_bytes 8 (u64 val).

Definition of_bytes (s_bytes : list Z) : result t :=
  if zlen s_bytes =? 8 then Ok ([0; 0; 0; 0] ++ s_bytes)
  else Fault (Thrown "Nonce representation must be 8 octets long.").

Definition cc_str (n : t) : list Z := drop 4 n.
Definition val (n : t) : Z := be_value (drop 4 n).

End Nonce.

Record Message : Set := mkMessage { nonce : Nonce.t; text : list Z }.

Module Session.

Definition RECEIVE_MTU : Z := 2048.

Definition encrypt (plaintext : Message) : list Z :=
  Nonce.cc_str (nonce plaintext) ++ text plaintext.

(** [body_len] is an [int]; a ciphertext of less than eight octets makes it
    negative and stops at the assertions. *)
Definition decrypt (ciphertext : list Z) : result Message :=
  let body_len := to_int (u64 (zlen ciphertext - 8)) in
  assert_that (u64 body_len <=? RECEIVE_MTU) "(size_t)body_len <= ciphertext_buffer.len()";;
  assert_that (u64 body_len <=? RECEIVE_MTU) "(size_t)pt_len <= plaintext_buffer.len()";;
  nonce ← Nonce.of_bytes (take 8 ciphertext);
  Ok (mkMessage nonce (take (Z.to_nat body_len) (drop 8 ciphertext))).

End Session.

(** ** Class [Packet] *)

Inductive Direction : Set := TO_SERVER | TO_CLIENT.

#[export] Instance Direction_eq_dec : EqDecision Direction.
Proof. solve_decision. Defined.

Module Packet.

Definition DIRECTION_MASK : Z := Z.shiftl 1 63.
Definition SEQUENCE_MASK : Z := Z.lxor (u64 (-1)) DIRECTION_MASK.

Record t : Set := mk {
  seq : Z;
  direction : Direction;
  timestamp : Z;
  timestamp_reply : Z;
  throwaway_window : Z;
  time_to_next : Z;
  payload : list Z }.

#[export] Instance t_eq_dec : EqDecision t.
Proof. solve_decision. Defined.

(** [be16toh( data[ i ] )] *)
Definition field16 (i : nat) (text : list Z) : Z := be_value (take 2 (drop (2 * i) text)).

(** The parsing constructor.  The test asks for four octets, but eight are
    read, and the payload begins behind them. *)
Definition parse (coded_packet : list Z) : result t :=
  message ← Session.decrypt coded_packet;
  let direction :=
    if Z.land (Nonce.val (nonce message)) DIRECTION_MASK =? 0 then TO_SERVER else TO_CLIENT in
  let seq := Z.land (Nonce.val (nonce message)) SEQUENCE_MASK in
  if zlen (text message) <? 4
  then Fault (Thrown "message.text.size() >= 2 * sizeof( uint16_t )")
  else if zlen (text message) <? 8 then Fault OutOfRange
  else
    let data := text message in
    Ok (mk seq direction (field16 0 data) (field16 1 data) (field16 2 data) (field16 3 data)
          (drop 8 data)).

Definition tostring (p : t) : list Z :=
  let direction_seq :=
    Z.lor (Z.shiftl (Z.b2z (bool_decide (direction p = TO_CLIENT))) 63) (Z.land (seq p) SEQUENCE_MASK) in
  let timestamps :=
    be_bytes 2 (timestamp p) ++ be_bytes 2 (timestamp_reply p)
    ++ be_bytes 2 (throwaway_window p) ++ be_bytes 2 (time_to_next p) in
  Session.encrypt (mkMessage (Nonce.make direction_seq) (timestamps ++ payload p)).

End Packet.

(** ** Clocks *)

Definition timestamp16 (now : Z) : Z :=
  let ts := u16 (now mod 65536) in
  if ts =? u16 (-1) then u16 (ts + 1) else ts.

Definition timestamp_diff (tsnew tsold : Z) : result Z :=
  let diff := tsnew - tsold in
  let diff := if diff <? 0 then diff + 65536 else diff in
  assert_that (0 <=? diff) "diff >= 0";;
  assert_that (diff <=? 65535) "diff <= 65535";;
  Ok (u16 diff).

(** ** Class [SendQueue]: sequence numbers and times of recent packets *)

Module SendQueue.

Definition t : Set := list (Z * Z).
Definition REORDER_LIMIT : Z := 10.

(** The loop that forgets packets too old to be reordered *)
Fixpoint forget (now : Z) (q : t) : result t :=
  match q with
  | [] => Fault (AssertFailed "!sent_packets.empty()")
  | (s, ts) :: q' => if ts <? u64 (now - REORDER_LIMIT) then forget now q' else Ok q
  end.

Definition add (now seq : Z) (q : t) : result (Z * t) :=
  q ← forget now (vec_push q (seq, now));
  '(first, _) ← vec_get q 0;
  let throwaway_before_seq := u64 (seq - first) in
  Ok (u16 (if 65535 <? throwaway_before_seq then 65535 else throwaway_before_seq), q).

End SendQueue.

(** ** Class [Receiver::RecvQueue] *)

Module RecvQueue.

(** The priority queue, smallest sequence number first *)
Record t : Set := mk {
  received_sequence_numbers : list (Z * Z);
  throwaway_before : Z }.

Definition make : t := mk [] 0.

Fixpoint push (p : Z * Z) (l : list (Z * Z)) : list (Z * Z) :=
  match l with
  | [] => [p]
  | x :: l' => if fst p <? fst x then p :: l else x :: push p l'
  end.

Definition recv (seq throwaway_window len : Z) (q : t) : t :=
  mk (push (seq, len) (received_sequence_numbers q))
     (Z.max (throwaway_before q) (u64 (seq - throwaway_window))).

(** The loop that pops what is before [throwaway_before] *)
Fixpoint pop_old (before : Z) (l : list (Z * Z)) : list (Z * Z) :=
  match l with
  | [] => []
  | (seq, len) :: l' => if seq <? before then pop_old before l' else l
  end.

(** "cumulative count of bytes received or lost"; the sum is an [int]. *)
Definition packet_count (q : t) : Z * t :=
  let l := pop_old (throwaway_before q) (received_sequence_numbers q) in
  let buffer_sum := fold_left (fun n '(_, len) => to_int (n + len)) l 0 in
  (u64 (throwaway_before q + buffer_sum), mk l (throwaway_before q)).

End RecvQueue.

(** ** Class [Receiver] *)

(** The message of [deliveryforecast.proto] *)
Record DeliveryForecast : Set := mkForecast {
  received_or_lost_count : Z;
  forecast_time : Z;
  counts : list Z }.

(** What the receiver uses of [Process] and of its forecast intervals, with
    their fixed tick length; the assertions of the model may fail. *)
Class DeliveryModel := {
  process : Type;
  evolve : process → result process;
  observe : Z → process → result process;
  normalize : process → process;
  lower_quantiles : process → result (list Z) }.

Definition returns {A} (m : result A) : Prop := m ≠ Fault OutOfFuel.

(** The operations of the model come to an end. *)
Class DeliveryLaws `{DeliveryModel} : Prop := {
  evolve_returns p : returns (evolve p);
  observe_returns n p : returns (observe n p);
  quantiles_return p : returns (lower_quantiles p) }.

Module Receiver.

Definition TICK_LENGTH : Z := 20.

Section receiver.
Context `{DeliveryModel}.

Record t : Type := mk {
  the_process : process;
  time : Z;
  score_time : Z;
  count_this_tick : Double.double;
  cached_forecast : DeliveryForecast;
  recv_queue : RecvQueue.t }.

Definition make (p : process) : t :=
  mk p 0 (u64 (-1)) (Double.of_Z 0) (mkForecast 0 0 []) RecvQueue.make.

Definition warp_to (now : Z) (r : t) : t :=
  mk (the_process r) now now (count_this_tick r) (cached_forecast r) (recv_queue r).

(** [int( _count_this_tick + 0.5 )], but at least one if anything came *)
Definition discrete_observe (count : Double.double) : result Z :=
  match Double.trunc (Double.add count (Double.div (Double.of_Z 1) (Double.of_Z 2))) with
  | None => Fault BadConversion
  | Some n =>
      if negb ((- 2 ^ 31 <=? n) && (n <? 2 ^ 31)) then Fault BadConversion
      else Ok (if Double.ltb (Double.of_Z 0) count && Double.ltb count (Double.of_Z 1) then 1 else n)
  end.

(** One tick *)
Definition tick (r : t) : result t :=
  p ← evolve (the_process r);
  let next := u64 (time r + TICK_LENGTH) in
  if (score_time r <=? time r) || Double.ltb (Double.of_Z 0) (count_this_tick r) then
    n ← discrete_observe (count_this_tick r);
    p ← observe n p;
    Ok (mk p next (score_time r) (Double.of_Z 0) (cached_forecast r) (recv_queue r))
  else Ok (mk p next (score_time r) (count_this_tick r) (cached_forecast r) (recv_queue r)).

Fixpoint advance (fuel : nat) (now : Z) (r : t) : result t :=
  if u64 (time r + TICK_LENGTH) <? now then
    match fuel with
    | O => Fault OutOfFuel
    | S fuel' => r ← tick r; advance fuel' now r
    end
  else Ok r.

(** Every tick moves the time forward by twenty. *)
Definition advance_to (now : Z) (r : t) : result t :=
  assert_that (time r <=? now) "time >= _time";;
  advance (Z.to_nat (now - time r)) now r.

Definition recv (seq throwaway_window time_to_next len : Z) (r : t) : t :=
  mk (the_process r) (time r) (Z.max (u64 (time r + time_to_next)) (score_time r))
     (Double.add (count_this_tick r) (Double.div (Double.of_Z len) (Double.of_Z 1400)))
     (cached_forecast r) (RecvQueue.recv seq throwaway_window len (recv_queue r)).

Definition forecast (r : t) : result (DeliveryForecast * t) :=
  if forecast_time (cached_forecast r) =? time r then Ok (cached_forecast r, r)
  else
    let p := normalize (the_process r) in
    let '(n, q) := RecvQueue.packet_count (recv_queue r) in
    counts ← lower_quantiles p;
    let f := mkForecast n (time r) counts in
    Ok (f, mk p (time r) (score_time r) (count_this_tick r) f q).

End receiver.
Arguments t {_}.
End Receiver.

(** ** Class [Connection] *)

Module Connection.

Definition SEND_MTU : Z := 1480.
Definition MIN_RTO : Z := 50.
Definition MAX_RTO : Z := 5000.
Definition SERVER_ASSOCIATION_TIMEOUT : Z := 2000000.
Definition PORT_HOP_INTERVAL : Z := 2000000.

Section connection.
Context `{DeliveryModel}.

(** An address is a pair of IP address and port. *)
Record t : Type := mk {
  has_remote_addr : bool;
  remote_addr : Z * Z;
  server : bool;
  direction : Direction;
  next_seq : Z;
  saved_timestamp : Z;
  saved_timestamp_received_at : Z;
  expected_receiver_seq : Z;
  last_heard : Z;
  last_port_choice : Z;
  last_roundtrip_success : Z;
  RTT_hit : bool;
  SRTT : Double.double;
  RTTVAR : Double.double;
  have_send_exception : bool;
  forecastr : Receiver.t;
  forecastr_initialized : bool;
  send_queue : SendQueue.t }.

#[export] Instance t_eta : Eta t := fun c =>
  mk (has_remote_addr c) (remote_addr c) (server c) (direction c) (next_seq c)
    (saved_timestamp c) (saved_timestamp_received_at c) (expected_receiver_seq c)
    (last_heard c) (last_port_choice c) (last_roundtrip_success c) (RTT_hit c) (SRTT c)
    (RTTVAR c) (have_send_exception c) (forecastr c) (forecastr_initialized c) (send_queue c).

Definition set_has_remote_addr (v : bool) (c : t) : t := ltac:(with_field c has_remote_addr v).
Definition set_remote_addr (v : Z * Z) (c : t) : t := ltac:(with_field c remote_addr v).
Definition set_next_seq (v : Z) (c : t) : t := ltac:(with_field c next_seq v).
Definition set_saved_timestamp (v : Z) (c : t) : t := ltac:(with_field c saved_timestamp v).
Definition set_saved_timestamp_received_at (v : Z) (c : t) : t :=
  ltac:(with_field c saved_timestamp_received_at v).
Definition set_expected_receiver_seq (v : Z) (c : t) : t := ltac:(with_field c expected_receiver_seq v).
Definition set_last_heard (v : Z) (c : t) : t := ltac:(with_field c last_heard v).
Definition set_last_port_choice (v : Z) (c : t) : t := ltac:(with_field c last_port_choice v).
Definition set_last_roundtrip_success (v : Z) (c : t) : t := ltac:(with_field c last_roundtrip_success v).
Definition set_RTT_hit (v : bool) (c : t) : t := ltac:(with_field c RTT_hit v).
Definition set_SRTT (v : Double.double) (c : t) : t := ltac:(with_field c SRTT v).
Definition set_RTTVAR (v : Double.double) (c : t) : t := ltac:(with_field c RTTVAR v).
Definition set_have_send_exception (v : bool) (c : t) : t := ltac:(with_field c have_send_exception v).
Definition set_forecastr (v : Receiver.t) (c : t) : t := ltac:(with_field c forecastr v).
Definition set_forecastr_initialized (v : bool) (c : t) : t := ltac:(with_field c forecastr_initialized v).
Definition set_send_queue (v : SendQueue.t) (c : t) : t := ltac:(with_field c send_queue v).

(** [setup] chooses a port now. *)
Definition setup (now : Z) (c : t) : t := set_last_port_choice now c.

(** The constructors, once the socket is bound or the address parsed *)
Definition make_server (p : process) (now : Z) : t :=
  setup now
    (mk false (0, 0) true TO_CLIENT 0 (u16 (-1)) 0 0 (u64 (-1)) (u64 (-1)) (u64 (-1)) false
       (Double.of_Z 1000) (Double.of_Z 500) false (Receiver.make p) false []).

Definition make_client (p : process) (now : Z) (addr : Z * Z) : t :=
  set_has_remote_addr true (set_remote_addr addr (setup now
    (mk false (0, 0) false TO_SERVER 0 (u16 (-1)) 0 0 (u64 (-1)) (u64 (-1)) (u64 (-1)) false
       (Double.of_Z 1000) (Double.of_Z 500) false (Receiver.make p) false []))).

Definition new_packet (now : Z) (s_payload : list Z) (time_to_next : Z) (c : t)
    : result (Packet.t * t) :=
  let recent := u64 (now - saved_timestamp_received_at c) <? 1000 in
  let outgoing_timestamp_reply :=
    if recent then u16 (saved_timestamp c + u64 (now - saved_timestamp_received_at c))
    else u16 (-1) in
  let c := if recent then set_saved_timestamp_received_at 0 (set_saved_timestamp (u16 (-1)) c)
           else c in
  '(throwaway_window, q) ← SendQueue.add now (next_seq c) (send_queue c);
  let c := set_send_queue q c in
  let p := Packet.mk (next_seq c) (direction c) (timestamp16 now) outgoing_timestamp_reply
             throwaway_window time_to_next s_payload in
  Ok (p, set_next_seq (u64 (next_seq c + zlen s_payload + 50)) c).

(** [hop_port] closes the socket and sets up a new one. *)
Definition hop_port (now : Z) (c : t) : result t :=
  assert_that (negb (server c)) "!server";;
  Ok (setup now c).

(** [send]; [sendto] tells whether the system call took the whole
    datagram. *)
Definition send (now : Z) (sendto : list Z → bool) (s : list Z) (time_to_next : Z) (c : t)
    : result (option (list Z) * t) :=
  if negb (has_remote_addr c) then Ok (None, c)
  else
    '(px, c) ← new_packet now s time_to_next c;
    let p := Packet.tostring px in
    let c := set_have_send_exception (negb (sendto p)) c in
    c ← (if server c then
           Ok (if SERVER_ASSOCIATION_TIMEOUT <? u64 (now - last_heard c)
               then set_has_remote_addr false c else c)
         else if (PORT_HOP_INTERVAL <? u64 (now - last_port_choice c))
                 && (PORT_HOP_INTERVAL <? u64 (now - last_roundtrip_success c))
         then hop_port now c
         else Ok c);
    Ok (Some p, c).

(** The round-trip estimators for a measurement [R] *)
Definition update_RTT (R : Z) (c : t) : t :=
  let R := Double.of_Z R in
  if negb (Double.ltb R (Double.of_Z 50000)) then c
  else if negb (RTT_hit c)
  then set_RTT_hit true (set_RTTVAR (Double.div R (Double.of_Z 2)) (set_SRTT R c))
  else
    let alpha := Double.div (Double.of_Z 1) (Double.of_Z 8) in
    let beta := Double.div (Double.of_Z 1) (Double.of_Z 4) in
    let var := Double.add (Double.mul (Double.sub (Double.of_Z 1) beta) (RTTVAR c))
                 (Double.mul beta (Double.fabs (Double.sub (SRTT c) R))) in
    let srtt := Double.add (Double.mul (Double.sub (Double.of_Z 1) alpha) (SRTT c))
                  (Double.mul alpha R) in
    set_SRTT srtt (set_RTTVAR var c).

(** "auto-adjust to remote host"; "only client can roam" *)
Definition auto_adjust (now : Z) (from : Z * Z) (c : t) : t :=
  let c := set_last_heard now (set_has_remote_addr true c) in
  if server c && negb (bool_decide (remote_addr c = from)) then set_remote_addr from c else c.

(** The part of [recv] for a packet that is not out of order *)
Definition use_packet (now : Z) (from : Z * Z) (p : Packet.t) (c : t) : result t :=
  let c := set_expected_receiver_seq (u64 (Packet.seq p + 1)) c in
  let c := if negb (Packet.timestamp p =? u16 (-1))
           then set_saved_timestamp_received_at now (set_saved_timestamp (Packet.timestamp p) c)
           else c in
  c ← (if negb (Packet.timestamp_reply p =? u16 (-1)) then
         R ← timestamp_diff (timestamp16 now) (Packet.timestamp_reply p);
         Ok (update_RTT R c)
       else Ok c);
  Ok (auto_adjust now from c).

(** [recv] of the datagram [x] that came from the address [from] *)
Definition recv (now : Z) (x : list Z) (from : Z * Z) (c : t) : result (list Z * t) :=
  if Session.RECEIVE_MTU <? zlen x then Fault (Thrown "Received oversize datagram")
  else
    p ← Packet.parse x;
    if negb (bool_decide (Packet.direction p = if server c then TO_SERVER else TO_CLIENT))
    then Fault (Thrown "p.direction == (server ? TO_SERVER : TO_CLIENT)")
    else
      let c := if negb (forecastr_initialized c)
               then set_forecastr_initialized true
                      (set_forecastr (Receiver.warp_to now (forecastr c)) c)
               else c in
      r ← Receiver.advance_to now (forecastr c);
      let c := set_forecastr (Receiver.recv (Packet.seq p) (Packet.throwaway_window p)
                                (Packet.time_to_next p) (zlen (Packet.payload p)) r) c in
      c ← (if expected_receiver_seq c <=? Packet.seq p then use_packet now from p c else Ok c);
      Ok (Packet.payload p, c).

(** [send_raw] and [recv_raw] bypass the packet format. *)
Definition send_raw (s : list Z) (c : t) : option (list Z) :=
  if negb (has_remote_addr c) then None else Some s.

Definition recv_raw (now : Z) (x : list Z) (from : Z * Z) (c : t) : result (list Z * t) :=
  if Session.RECEIVE_MTU <? zlen x then Fault (Thrown "Received oversize datagram")
  else Ok (x, auto_adjust now from c).

(** [lrint( ceil( SRTT + 4 * RTTVAR ) )], limited *)
Definition timeout (c : t) : result Z :=
  match Double.ceil (Double.add (SRTT c) (Double.mul (Double.of_Z 4) (RTTVAR c))) with
  | None => Fault BadConversion
  | Some z =>
      if negb ((- 2 ^ 63 <=? z) && (z <? 2 ^ 63)) then Fault BadConversion
      else
        let RTO := u64 z in
        Ok (if RTO <? MIN_RTO then MIN_RTO else if MAX_RTO <? RTO then MAX_RTO else RTO)
  end.

(** [forecast] brings the receiver up to date first. *)
Definition forecast (now : Z) (c : t) : result (DeliveryForecast * t) :=
  r ← Receiver.advance_to now (forecastr c);
  '(f, r) ← Receiver.forecast r;
  Ok (f, set_forecastr r c).

End connection.
Arguments t {_}.
End Connection.
