(* ===== verification/ConnectionProps.v ===== *)
(** * Properties of the connection

    The packet format, the receiver's count, and what out-of-order packets
    may not influence. *)

From Stdlib Require Import Sorted.
From S2P Require Import Prelude Double TransportFragment Octets NetworkConnection.

Module ConnectionTheorems.
(** ** The packet format *)

(** The direction bit and the 63 bits of the sequence number *)
Lemma nonce_bits (b : bool) n :
  0 ≤ n < 2 ^ 63 →
  let v := Z.lor (Z.shiftl (Z.b2z b) 63) (Z.land n Packet.SEQUENCE_MASK) in
  0 ≤ v < 2 ^ 64 ∧ (Z.land v Packet.DIRECTION_MASK =? 0) = negb b
  ∧ Z.land v Packet.SEQUENCE_MASK = n.
Proof.
  intros Hn. change Packet.SEQUENCE_MASK with (Z.ones 63). change Packet.DIRECTION_MASK with (2 ^ 63).
  rewrite Z.land_ones, Z.mod_small by (done || lia).
  assert (Z.land n (2 ^ 63) = 0) as H1.
  { rewrite <- (Z.mod_small n (2 ^ 63)) by done. rewrite <- Z.land_ones, <- Z.land_assoc by lia.
    change (Z.land (Z.ones 63) (2 ^ 63)) with 0. apply Z.land_0_r. }
  assert (Z.land n (Z.ones 63) = n) as H2 by (rewrite Z.land_ones by lia; by apply Z.mod_small).
  cbv zeta. rewrite !Z.land_lor_distr_l, H1, H2, Z.lor_0_r.
  destruct b; cbn [Z.b2z negb].
  - change (Z.shiftl 1 63) with (2 ^ 63). split_and!; [..|done|done].
    + apply Z.lor_nonneg. lia.
    + pose proof (Z.add_lor_land (2 ^ 63) n) as Hsum. rewrite (Z.land_comm _ n), H1 in Hsum. lia.
  - change (Z.shiftl 0 63) with 0. rewrite !Z.lor_0_l. split_and!; [lia|lia|done|done].
Qed.

Lemma nonce_join v :
  0 ≤ v < 2 ^ 64 →
  Z.lor (Z.shiftl (Z.b2z (negb (Z.land v Packet.DIRECTION_MASK =? 0))) 63)
    (Z.land (Z.land v Packet.SEQUENCE_MASK) Packet.SEQUENCE_MASK) = v.
Proof.
  intros Hv. change Packet.SEQUENCE_MASK with (Z.ones 63). change Packet.DIRECTION_MASK with (2 ^ 63).
  rewrite <- Z.land_assoc, Z.land_diag.
  assert (Z.shiftl (Z.b2z (negb (Z.land v (2 ^ 63) =? 0))) 63 = Z.land v (2 ^ 63)) as ->.
  { assert (Z.land v (2 ^ 63) = Z.shiftl (Z.b2z (Z.testbit v 63)) 63) as Heq.
    { apply Z.bits_inj'. intros k Hk. rewrite Z.land_spec, Z.pow2_bits_eqb, Z.shiftl_spec by lia.
      destruct (Z.eqb_spec 63 k) as [<-|Hne].
      - rewrite Z.sub_diag, Z.b2z_bit0, andb_true_r. done.
      - rewrite andb_false_r. destruct (decide (k < 63)); [by rewrite Z.testbit_neg_r by lia|].
        destruct (Z.testbit v 63); [|by rewrite Z.testbit_0_l].
        symmetry. apply Z.bits_above_log2; cbn; lia. }
    rewrite Heq. by destruct (Z.testbit v 63). }
  rewrite <- Z.land_lor_distr_r. change (Z.lor (2 ^ 63) (Z.ones 63)) with (Z.ones 64).
  rewrite Z.land_ones by lia. by apply Z.mod_small.
Qed.

Lemma decrypt_spec x :
  zlen x ≤ Session.RECEIVE_MTU + 8 →
  Session.decrypt x =
    if zlen x <? 8 then Fault (AssertFailed "(size_t)body_len <= ciphertext_buffer.len()")
    else Ok (mkMessage ([0; 0; 0; 0] ++ take 8 x) (drop 8 x)).
Proof.
  intros Hlen. unfold Session.RECEIVE_MTU in Hlen. unfold Session.decrypt. pose proof (zlen_nonneg x).
  destruct (Z.ltb_spec (zlen x) 8) as [Hlt|Hge].
  - assert (u64 (to_int (u64 (zlen x - 8))) = zlen x - 8 + 2 ^ 64) as ->.
    { assert (u64 (zlen x - 8) = zlen x - 8 + 2 ^ 64) as ->.
      { symmetry. apply Z.mod_unique with (-1); lia. }
      assert (to_int (zlen x - 8 + 2 ^ 64) = zlen x - 8) as ->.
      { unfold to_int. assert ((zlen x - 8 + 2 ^ 64 + 2 ^ 31) mod 2 ^ 32 = zlen x - 8 + 2 ^ 31); [|lia].
        symmetry. apply Z.mod_unique with (2 ^ 32); lia. }
      symmetry. apply Z.mod_unique with (-1); lia. }
    unfold Session.RECEIVE_MTU. by rewrite (proj2 (Z.leb_gt _ _)) by lia.
  - rewrite (uwrap_small 64 (zlen x - 8)), to_int_small, uwrap_small by lia. unfold Session.RECEIVE_MTU.
    rewrite (proj2 (Z.leb_le _ _)) by lia. cbn [assert_that mbind result_bind]. unfold Nonce.of_bytes.
    assert (zlen (take 8 x) = 8) as -> by (unfold zlen in *; rewrite length_take; lia).
    cbn [Z.eqb mbind result_bind]. rewrite (take_ge (drop 8 x)); [done|].
    rewrite length_drop. unfold zlen in *. lia.
Qed.

Definition packet_ok (p : Packet.t) : Prop :=
  0 ≤ Packet.seq p < 2 ^ 63 ∧ 0 ≤ Packet.timestamp p < 2 ^ 16 ∧ 0 ≤ Packet.timestamp_reply p < 2 ^ 16
  ∧ 0 ≤ Packet.throwaway_window p < 2 ^ 16 ∧ 0 ≤ Packet.time_to_next p < 2 ^ 16
  ∧ zlen (Packet.payload p) ≤ Session.RECEIVE_MTU - 8.

(** The four numbers of the header *)
Lemma header_fields a b c d rest :
  0 ≤ a < 2 ^ 16 → 0 ≤ b < 2 ^ 16 → 0 ≤ c < 2 ^ 16 → 0 ≤ d < 2 ^ 16 →
  let x := (be_bytes 2 a ++ be_bytes 2 b ++ be_bytes 2 c ++ be_bytes 2 d) ++ rest in
  Packet.field16 0 x = a ∧ Packet.field16 1 x = b ∧ Packet.field16 2 x = c ∧ Packet.field16 3 x = d
  ∧ drop 8 x = rest ∧ zlen x = 8 + zlen rest.
Proof.
  intros Ha Hb Hc Hd. cbv zeta.
  rewrite <- (be_value_bytes 2 a) at 2 by done. rewrite <- (be_value_bytes 2 b) at 3 by done.
  rewrite <- (be_value_bytes 2 c) at 4 by done. rewrite <- (be_value_bytes 2 d) at 5 by done.
  rewrite zlen_app. cbn. split_and!; done.
Qed.

Lemma packet_parse_tostring p : packet_ok p → Packet.parse (Packet.tostring p) = Ok p.
Proof.
  intros (Hs & Ht & Hr & Hw & Hn & Hp). unfold Packet.tostring, Session.encrypt. cbn [nonce text].
  destruct (nonce_bits (bool_decide (Packet.direction p = TO_CLIENT)) (Packet.seq p) Hs) as (Hv & Hdir & Hseq).
  set (v := Z.lor _ _) in *. clearbody v.
  destruct (header_fields _ _ _ _ (Packet.payload p) Ht Hr Hw Hn) as (H0 & H1 & H2 & H3 & Hrest & Hlen).
  set (body := _ ++ Packet.payload p) in *. clearbody body.
  assert (Nonce.cc_str (Nonce.make v) = be_bytes 8 v) as ->
    by (unfold Nonce.cc_str, Nonce.make; by rewrite uwrap_small).
  assert (length (be_bytes 8 v) = 8%nat) as Hl8 by apply be_bytes_length.
  assert (zlen (be_bytes 8 v) = 8) as Hz8 by (unfold zlen; by rewrite Hl8).
  unfold Packet.parse. pose proof (zlen_nonneg (Packet.payload p)).
  rewrite decrypt_spec by (rewrite zlen_app; lia).
  rewrite (proj2 (Z.ltb_ge _ _)) by (rewrite zlen_app; lia).
  rewrite (take_app_length' _ _ 8), (drop_app_length' _ _ 8) by done. cbn [mbind result_bind nonce text].
  assert (Nonce.val ([0; 0; 0; 0] ++ be_bytes 8 v) = v) as -> by (by apply (be_value_bytes 8)).
  rewrite Hdir, Hseq, H0, H1, H2, H3, Hrest, !(proj2 (Z.ltb_ge (zlen body) _)) by lia.
  destruct p as [? [] ? ? ? ? ?]; done.
Qed.

Lemma header_bytes x :
  Forall octet x → 8 ≤ zlen x →
  (be_bytes 2 (Packet.field16 0 x) ++ be_bytes 2 (Packet.field16 1 x)
   ++ be_bytes 2 (Packet.field16 2 x) ++ be_bytes 2 (Packet.field16 3 x)) ++ drop 8 x = x.
Proof.
  intros Hx Hlen. do 8 (destruct x as [|? x]; [done|]). repeat apply Forall_cons in Hx as [? Hx].
  unfold Packet.field16. cbn [Nat.mul Nat.add drop take].
  assert (∀ a b, octet a → octet b → be_bytes 2 (be_value [a; b]) = [a; b]) as He
    by (intros a b Ha Hb; apply (be_bytes_value [a; b]); apply Forall_cons; split; [done|]; by apply Forall_singleton).
  rewrite !He by done. done.
Qed.

Lemma packet_tostring_parse x :
  Forall octet x → 16 ≤ zlen x ≤ Session.RECEIVE_MTU + 8 →
  ∃ p, Packet.parse x = Ok p ∧ Packet.tostring p = x.
Proof.
  intros Hx [Hlo Hhi]. unfold Packet.parse. rewrite decrypt_spec, (proj2 (Z.ltb_ge _ _)) by lia.
  cbn [mbind result_bind nonce text].
  assert (8 ≤ zlen (drop 8 x)) as Hbody by (unfold zlen in *; rewrite length_drop; lia).
  rewrite !(proj2 (Z.ltb_ge (zlen (drop 8 x)) _)) by lia. eexists. split; [reflexivity|].
  assert (Nonce.val ([0; 0; 0; 0] ++ take 8 x) = be_value (take 8 x)) as -> by done.
  assert (length (take 8 x) = 8%nat) as Hl8 by (rewrite length_take; unfold zlen in *; lia).
  assert (0 ≤ be_value (take 8 x) < 2 ^ 64) as Hv.
  { pose proof (be_value_range (take 8 x) (Forall_take _ _ _ Hx)) as Hr.
    unfold zlen in Hr. by rewrite Hl8 in Hr. }
  unfold Packet.tostring, Session.encrypt, Nonce.cc_str, Nonce.make.
  cbn [Packet.direction Packet.seq Packet.timestamp Packet.timestamp_reply Packet.throwaway_window
       Packet.time_to_next Packet.payload nonce text].
  assert (bool_decide ((if Z.land (be_value (take 8 x)) Packet.DIRECTION_MASK =? 0
            then TO_SERVER else TO_CLIENT) = TO_CLIENT)
          = negb (Z.land (be_value (take 8 x)) Packet.DIRECTION_MASK =? 0)) as ->
    by (by destruct (_ =? _)).
  rewrite nonce_join, uwrap_small, header_bytes by (done || by apply Forall_drop).
  pose proof (be_bytes_value (take 8 x) (Forall_take _ _ _ Hx)) as Hb. rewrite Hl8 in Hb. rewrite Hb.
  cbn [app drop]. apply take_drop.
Qed.

(** C28.  The packet format.  What [tostring] writes for a packet that fits
    a datagram is read back; and of the datagrams that [Connection::recv]
    hands over, the constructor accepts exactly those of sixteen octets or
    more, and reads each as the packet whose coded form it is.  Shorter ones
    are stopped by an assertion or an exception - except twelve to fifteen
    octets, which pass the length test and are read past their end. *)
Theorem packet_format :
  (∀ p, packet_ok p → Packet.parse (Packet.tostring p) = Ok p)
  ∧ ∀ x, Forall octet x → zlen x ≤ Session.RECEIVE_MTU →
      match Packet.parse x with
      | Ok p => 16 ≤ zlen x ∧ Packet.tostring p = x
      | Fault (AssertFailed _) => zlen x < 8
      | Fault (Thrown _) => 8 ≤ zlen x < 12
      | Fault OutOfRange => 12 ≤ zlen x < 16
      | Fault _ => False
      end.
Proof.
  split; [apply packet_parse_tostring|]. intros x Hx Hlen. unfold Session.RECEIVE_MTU in Hlen.
  destruct (decide (16 ≤ zlen x)) as [Hge|Hlt].
  { destruct (packet_tostring_parse x Hx) as (p & -> & Hp); [unfold Session.RECEIVE_MTU; lia|done]. }
  unfold Packet.parse. rewrite decrypt_spec by (unfold Session.RECEIVE_MTU; lia).
  destruct (Z.ltb_spec (zlen x) 8); [done|]. cbn [mbind result_bind text].
  assert (zlen (drop 8 x) = zlen x - 8) as -> by (unfold zlen in *; rewrite length_drop; lia).
  destruct (Z.ltb_spec (zlen x - 8) 4); [lia|]. destruct (Z.ltb_spec (zlen x - 8) 8); lia.
Qed.

Lemma packet_format_witness :
  Packet.parse (Packet.tostring (Packet.mk 5 TO_CLIENT 1 2 3 4 [7; 8]))
  = Ok (Packet.mk 5 TO_CLIENT 1 2 3 4 [7; 8])
  ∧ Packet.parse (replicate 14 0) = Fault OutOfRange.
Proof.
  split; [|vm_compute; reflexivity]. apply (proj1 packet_format).
  unfold packet_ok. cbn. vm_compute. repeat split; discriminate.
Defined.

(** ** Octets received or lost *)

(** A packet as the receiver sees it: sequence number, throwaway window,
    length *)
Record arrival : Set := mkArrival { a_seq : Z; a_window : Z; a_len : Z }.

(** The receiver's history: packets arrive, forecasts ask for the count. *)
Inductive queue_op : Set := Arrive (a : arrival) | Ask.

Definition do_queue_op (q : RecvQueue.t) (op : queue_op) : RecvQueue.t :=
  match op with
  | Arrive a => RecvQueue.recv (a_seq a) (a_window a) (a_len a) q
  | Ask => snd (RecvQueue.packet_count q)
  end.

Definition arrivals (ops : list queue_op) : list arrival :=
  omap (fun op => match op with Arrive a => Some a | Ask => None end) ops.

(** The largest number before which nothing is awaited any more, and the
    octets that arrived from it on *)
Definition settled (l : list arrival) : Z := foldr (fun a n => Z.max (a_seq a - a_window a) n) 0 l.
Definition octets_from (b : Z) (l : list arrival) : Z :=
  foldr (fun a n => if b <=? a_seq a then a_len a + n else n) 0 l.

Definition arrival_ok (a : arrival) : Prop :=
  0 ≤ a_window a ≤ a_seq a ∧ a_seq a < 2 ^ 64 ∧ 0 ≤ a_len a.

Definition total_len (l : list (Z * Z)) : Z := foldr (fun p n => snd p + n) 0 l.
Definition pair_of (a : arrival) : Z * Z := (a_seq a, a_len a).

Lemma settled_app l k : settled (l ++ k) = Z.max (settled l) (settled k).
Proof.
  assert (∀ m, 0 ≤ settled m) as Hm by (induction m; simpl; lia).
  pose proof (Hm k). induction l as [|a l IH]; simpl; lia.
Qed.

Lemma push_perm p l : RecvQueue.push p l ≡ₚ p :: l.
Proof.
  induction l as [|x l IH]; simpl; [done|]. destruct (_ <? _); [done|]. rewrite IH. constructor.
Qed.

Definition by_seq : list (Z * Z) → Prop := StronglySorted (fun x y => fst x ≤ fst y).

Lemma push_sorted p l : by_seq l → by_seq (RecvQueue.push p l).
Proof.
  unfold by_seq. induction 1 as [|x l Hl IH Hx]; simpl; [by repeat constructor|].
  destruct (Z.ltb_spec (fst p) (fst x)).
  - constructor; [by constructor|]. constructor; [lia|]. eapply Forall_impl; [exact Hx|]. intros y ?. simpl in *. lia.
  - constructor; [done|]. rewrite push_perm. constructor; [lia|done].
Qed.

Lemma pop_old_filter b l : by_seq l → RecvQueue.pop_old b l = filter (fun p => b ≤ fst p) l.
Proof.
  unfold by_seq. induction 1 as [|[s len] l Hl IH Hx]; simpl; [done|]. rewrite filter_cons. simpl.
  destruct (Z.ltb_spec s b).
  - rewrite decide_False by lia. done.
  - rewrite decide_True by lia. f_equal. clear -Hx H. induction Hx as [|y l Hy _ IH]; [done|].
    simpl in Hy. by rewrite filter_cons, decide_True, <- IH by lia.
Qed.

Lemma total_len_perm l k : l ≡ₚ k → total_len l = total_len k.
Proof. unfold total_len. induction 1; simpl; lia. Qed.

(** The sum never leaves the range of [int]. *)
Lemma sum_no_wrap l n :
  Forall (fun p => 0 ≤ snd p) l → 0 ≤ n → n + total_len l < 2 ^ 31 →
  fold_left (fun n '(_, len) => to_int (n + len)) l n = n + total_len l.
Proof.
  intros Hl. revert n. induction Hl as [|[s len] l Hlen Hl IH]; intros n Hn Hsum; simpl in *; [lia|].
  assert (0 ≤ total_len l) by (clear -Hl; induction Hl; simpl in *; lia).
  rewrite to_int_small by lia. rewrite IH by lia. lia.
Qed.

Definition from (b : Z) (l : list (Z * Z)) : list (Z * Z) := filter (fun p => b ≤ fst p) l.

Lemma from_from b c l : b ≤ c → from c (from b l) = from c l.
Proof.
  intros Hbc. unfold from. induction l as [|p l IH]; [done|]. rewrite !filter_cons.
  destruct (decide (b ≤ fst p)); rewrite ?filter_cons, IH; [done|]. by rewrite decide_False by lia.
Qed.

(** The queue is in order, and from what is settled on it holds what
    arrived. *)
Definition queue_inv (l : list arrival) (q : RecvQueue.t) : Prop :=
  by_seq (RecvQueue.received_sequence_numbers q)
  ∧ RecvQueue.throwaway_before q = settled l
  ∧ from (settled l) (RecvQueue.received_sequence_numbers q) ≡ₚ from (settled l) (pair_of <$> l).

Lemma arrive_inv l q a :
  queue_inv l q → arrival_ok a →
  queue_inv (l ++ [a]) (RecvQueue.recv (a_seq a) (a_window a) (a_len a) q).
Proof.
  intros (Hs & Ht & Hp) (Hw & Hseq & Hlen). unfold RecvQueue.recv. split; [by apply push_sorted|].
  rewrite settled_app. cbn [RecvQueue.throwaway_before RecvQueue.received_sequence_numbers settled foldr].
  rewrite Ht, uwrap_small by lia. split; [lia|]. set (c := Z.max (settled l) _).
  rewrite <- (from_from (settled l) c (RecvQueue.push _ _)) by lia.
  rewrite <- (from_from (settled l) c (pair_of <$> _)) by lia. unfold from at 1 3.
  assert (from (settled l) (RecvQueue.push (a_seq a, a_len a) (RecvQueue.received_sequence_numbers q))
          ≡ₚ from (settled l) (pair_of <$> (l ++ [a]))) as Hp'; [|by rewrite Hp'].
  unfold from in *. rewrite push_perm, fmap_app, (Permutation_app_comm (pair_of <$> l)).
  cbn [fmap list_fmap app]. rewrite !filter_cons. change (pair_of a) with (a_seq a, a_len a).
  destruct (decide _); by rewrite Hp.
Qed.

Lemma ask_inv l q : queue_inv l q → queue_inv l (snd (RecvQueue.packet_count q)).
Proof.
  intros (Hs & Ht & Hp). unfold RecvQueue.packet_count. cbn [snd].
  unfold queue_inv. cbn [RecvQueue.throwaway_before RecvQueue.received_sequence_numbers].
  rewrite pop_old_filter, Ht by done. fold (from (settled l) (RecvQueue.received_sequence_numbers q)).
  split; [|split; [done|by rewrite from_from by lia]].
  unfold by_seq, from in *. clear -Hs. induction Hs as [|x k Hk IH Hx]; [constructor|].
  rewrite filter_cons. destruct (decide _); [|done]. constructor; [done|].
  apply Forall_forall. intros y [_ Hy]%list_elem_of_filter. rewrite Forall_forall in Hx. by apply Hx.
Qed.

Lemma history_inv ops :
  Forall arrival_ok (arrivals ops) →
  queue_inv (arrivals ops) (fold_left do_queue_op ops RecvQueue.make).
Proof.
  induction ops as [|op ops IH] using rev_ind; intros Hok.
  { split; [constructor|done]. }
  unfold arrivals in *. rewrite omap_app in Hok |- *. rewrite fold_left_app. cbn [fold_left].
  apply Forall_app in Hok as [Hok1 Hok2]. destruct op as [a|]; cbn [omap list_omap do_queue_op] in *.
  - apply arrive_inv; [by apply IH|]. by apply Forall_inv in Hok2.
  - rewrite app_nil_r. by apply ask_inv, IH.
Qed.

Lemma total_len_from b l : total_len (from b (pair_of <$> l)) = octets_from b l.
Proof.
  unfold from. induction l as [|a l IH]; [done|]. rewrite fmap_cons, filter_cons.
  change (octets_from b (a :: l)) with
    (if b <=? a_seq a then a_len a + octets_from b l else octets_from b l).
  rewrite <- IH. change (fst (pair_of a)) with (a_seq a). destruct (Z.leb_spec b (a_seq a)).
  - by rewrite decide_True.
  - by rewrite decide_False by lia.
Qed.

(** C24.  The receiver's count.  Whatever the order in which packets arrive
    and however often forecasts ask for the count in between, the count is
    the number before which nothing is awaited any more plus the octets that
    arrived from there on; so it depends only on which packets arrived, not
    on their order. *)
Theorem received_or_lost (ops : list queue_op) :
  Forall arrival_ok (arrivals ops) →
  octets_from (settled (arrivals ops)) (arrivals ops) < 2 ^ 31 →
  fst (RecvQueue.packet_count (fold_left do_queue_op ops RecvQueue.make)) =
    u64 (settled (arrivals ops) + octets_from (settled (arrivals ops)) (arrivals ops)).
Proof.
  intros Hok Hsum. destruct (history_inv ops Hok) as (Hs & Ht & Hp).
  set (q := fold_left _ _ _) in *. clearbody q. unfold RecvQueue.packet_count. cbn [fst].
  rewrite pop_old_filter, Ht by done.
  fold (from (settled (arrivals ops)) (RecvQueue.received_sequence_numbers q)).
  assert (total_len (from (settled (arrivals ops)) (RecvQueue.received_sequence_numbers q))
          = octets_from (settled (arrivals ops)) (arrivals ops)) as Hlen
    by (by rewrite (total_len_perm _ _ Hp), total_len_from).
  rewrite sum_no_wrap, Hlen; [by rewrite Z.add_0_l| |lia|lia].
  rewrite Hp. apply Forall_forall. intros p [_ Hin]%list_elem_of_filter.
  apply list_elem_of_fmap in Hin as (a & -> & Ha). rewrite Forall_forall in Hok. by apply Hok.
Qed.

Definition sample_ops : list queue_op :=
  [Arrive (mkArrival 0 0 100); Arrive (mkArrival 300 300 100); Ask; Arrive (mkArrival 150 150 100);
   Arrive (mkArrival 450 150 50)].

Lemma received_or_lost_witness :
  fst (RecvQueue.packet_count (fold_left do_queue_op sample_ops RecvQueue.make)) = 450.
Proof.
  rewrite (received_or_lost sample_ops).
  - vm_compute. reflexivity.
  - repeat constructor; discriminate.
  - vm_compute. reflexivity.
Defined.

(** ** Out-of-order packets *)

Section targeting.
Context `{model : DeliveryModel, !DeliveryLaws}.

Definition not_fuel (f : fault) : Prop := f ≠ OutOfFuel.

Lemma returns_wp {A} (m : result A) : returns m → wp not_fuel m (fun _ => True).
Proof. unfold returns. destruct m as [a|f]; [done|]. intros Hf. cbn. unfold not_fuel. congruence. Qed.

Lemma receiver_tick_spec (r : Receiver.t) :
  wp not_fuel (Receiver.tick r) (fun r' => Receiver.time r' = u64 (Receiver.time r + Receiver.TICK_LENGTH)).
Proof.
  unfold Receiver.tick. apply wp_bind. eapply wp_weaken; [apply returns_wp, evolve_returns|]. intros p _.
  destruct (_ || _); [|done]. apply wp_bind. unfold Receiver.discrete_observe.
  destruct (Double.trunc _); [|done]. destruct (negb _); [done|]. apply wp_ok.
  apply wp_bind. by eapply wp_weaken; [apply returns_wp, observe_returns|].
Qed.

Lemma advance_spec fuel now (r : Receiver.t) :
  0 ≤ Receiver.time r → now < 2 ^ 63 → (Z.to_nat (now - Receiver.time r) ≤ fuel)%nat →
  Receiver.time r ≤ now →
  wp not_fuel (Receiver.advance fuel now r) (fun r' => 0 ≤ Receiver.time r').
Proof.
  intros Ht Hnow. revert r Ht. induction fuel as [|fuel IH]; intros r Ht Hf Hle; cbn [Receiver.advance];
    rewrite uwrap_small by (unfold Receiver.TICK_LENGTH; lia);
    (destruct (Z.ltb_spec (Receiver.time r + Receiver.TICK_LENGTH) now) as [Hlt|]; [|done]);
    unfold Receiver.TICK_LENGTH in Hlt; [lia|].
  apply wp_bind. eapply wp_weaken; [apply receiver_tick_spec|]. intros r' Hr'.
  rewrite uwrap_small in Hr' by (unfold Receiver.TICK_LENGTH; lia). unfold Receiver.TICK_LENGTH in Hr'.
  apply IH; lia.
Qed.

Lemma advance_to_spec now (r : Receiver.t) :
  0 ≤ Receiver.time r → now < 2 ^ 63 →
  wp not_fuel (Receiver.advance_to now r) (fun r' => 0 ≤ Receiver.time r').
Proof.
  intros Ht Hnow. unfold Receiver.advance_to. destruct (Z.leb_spec (Receiver.time r) now); [|done].
  cbn [assert_that mbind result_bind]. by apply advance_spec.
Qed.

Lemma parse_seq x p : Packet.parse x = Ok p → 0 ≤ Packet.seq p < 2 ^ 63.
Proof.
  unfold Packet.parse. destruct (Session.decrypt x) as [m|]; [|done]. cbn [mbind result_bind].
  destruct (_ <? 4); [done|]. destruct (_ <? 8); [done|]. intros [= <-]. cbn [Packet.seq].
  change Packet.SEQUENCE_MASK with (Z.ones 63). rewrite Z.land_ones by lia. apply Z.mod_pos_bound. lia.
Qed.

Lemma parse_fuel x : wp not_fuel (Packet.parse x) (fun _ => True).
Proof.
  unfold Packet.parse, Session.decrypt, Nonce.of_bytes.
  destruct (_ <=? _); [|done]. cbn [assert_that mbind result_bind].
  destruct (_ =? 8); [|done]. cbn [mbind result_bind text]. destruct (_ <? 4); [done|]. by destruct (_ <? 8).
Qed.

(** Only the forecaster differs. *)
Definition only_forecast (c c' : Connection.t) : Prop :=
  ∃ r, c' = Connection.set_forecastr r (Connection.set_forecastr_initialized true c).

Lemma use_packet_spec now from p (c : Connection.t) :
  0 ≤ Packet.seq p < 2 ^ 63 →
  wp not_fuel (Connection.use_packet now from p c)
    (fun c' => Connection.expected_receiver_seq c' = Packet.seq p + 1).
Proof.
  intros Hseq. unfold Connection.use_packet. rewrite (uwrap_small 64 (Packet.seq p + 1)) by lia.
  apply wp_bind. set (c1 := if negb (Packet.timestamp p =? _) then _ else _).
  assert (Connection.expected_receiver_seq c1 = Packet.seq p + 1) as Hc1
    by (unfold c1; by destruct (negb _)). clearbody c1.
  assert (∀ c2, Connection.expected_receiver_seq c2 = Packet.seq p + 1 →
    Connection.expected_receiver_seq (Connection.auto_adjust now from c2) = Packet.seq p + 1) as Hadj
    by (intros c2 Hc2; unfold Connection.auto_adjust; by destruct (_ && _)).
  destruct (negb _); [|by apply Hadj]. apply wp_bind. unfold timestamp_diff.
  destruct (0 <=? _); [|done]. destruct (_ <=? 65535); [|done]. cbn [assert_that mbind result_bind].
  apply Hadj. unfold Connection.update_RTT. destruct (negb _); [done|]. by destruct (negb _).
Qed.

Lemma use_packet_forecastr now from p (c : Connection.t) :
  wp not_fuel (Connection.use_packet now from p c) (fun c' => Connection.forecastr c' = Connection.forecastr c).
Proof.
  unfold Connection.use_packet. set (c1 := if negb (Packet.timestamp p =? _) then _ else _).
  assert (Connection.forecastr c1 = Connection.forecastr c) as Hc1 by (unfold c1; by destruct (negb _)). clearbody c1.
  assert (∀ c2, Connection.forecastr (Connection.auto_adjust now from c2) = Connection.forecastr c2) as Hadj
    by (intros c2; unfold Connection.auto_adjust; by destruct (_ && _)).
  assert (∀ R c2, Connection.forecastr (Connection.update_RTT R c2) = Connection.forecastr c2) as Hrtt
    by (intros R c2; unfold Connection.update_RTT; cbv zeta; destruct (negb _); [done|]; by destruct (negb _)).
  apply wp_bind. apply (wp_weaken _ _ (fun c2 => Connection.forecastr c2 = Connection.forecastr c)).
  - destruct (negb _); [|done]. apply wp_bind. unfold timestamp_diff.
    destruct (0 <=? _); [|done]. destruct (_ <=? 65535); [|done]. cbn [assert_that mbind result_bind]. apply wp_ok. cbn [wp]. by rewrite Hrtt.
  - intros c2 Hc2. apply wp_ok. by rewrite Hadj.
Qed.

Lemma recv_clock now x from (c : Connection.t) : 0 ≤ now < 2 ^ 63 → 0 ≤ Receiver.time (Connection.forecastr c) →
  wp not_fuel (Connection.recv now x from c) (fun '(_, c') => 0 ≤ Receiver.time (Connection.forecastr c')).
Proof.
  intros Hnow Ht. unfold Connection.recv. destruct (_ <? zlen x); [done|].
  apply wp_bind. eapply wp_weaken; [apply parse_fuel|]. intros p _. destruct (negb _); [done|].
  set (c1 := if negb (Connection.forecastr_initialized c) then _ else _).
  assert (0 ≤ Receiver.time (Connection.forecastr c1)) as Ht1 by (unfold c1; destruct (negb _); cbn; lia). clearbody c1.
  apply wp_bind. eapply wp_weaken; [apply advance_to_spec; lia|]. intros r Hr. apply wp_bind.
  apply (wp_weaken _ _ (fun c2 => 0 ≤ Receiver.time (Connection.forecastr c2))); [|by intros c2 Hc2].
  destruct (_ <=? _); [|exact Hr]. eapply wp_weaken; [apply use_packet_forecastr|]. intros c2 Hc2. cbn beta in Hc2.
  rewrite Hc2. exact Hr.
Qed.

(** C25.  Replay protection.  Receiving a datagram terminates; when it
    returns, the payload is the packet's and the expected sequence number
    has not gone back and is beyond the packet's, so the same datagram is
    out of order from then on; and an out-of-order packet changes nothing
    but the forecaster: not the saved timestamp, not the round-trip
    estimate, and not the address that replies go to. *)
Theorem out_of_order_packets (now : Z) (x : list Z) (from : Z * Z) (c : Connection.t) :
  0 ≤ now < 2 ^ 63 → 0 ≤ Receiver.time (Connection.forecastr c) →
  wp not_fuel (Connection.recv now x from c) (fun '(s, c') =>
    ∃ p, Packet.parse x = Ok p ∧ s = Packet.payload p
      ∧ Connection.expected_receiver_seq c ≤ Connection.expected_receiver_seq c'
      ∧ Packet.seq p < Connection.expected_receiver_seq c'
      ∧ (Packet.seq p < Connection.expected_receiver_seq c → only_forecast c c')).
Proof.
  intros Hnow Ht. unfold Connection.recv. destruct (_ <? zlen x); [done|].
  pose proof (parse_fuel x) as Hf. destruct (Packet.parse x) as [p|f] eqn:Hp; [|exact Hf].
  pose proof (parse_seq x p Hp) as Hseq. cbn [mbind result_bind]. destruct (negb _); [done|].
  set (c1 := if negb (Connection.forecastr_initialized c) then _ else _).
  assert (0 ≤ Receiver.time (Connection.forecastr c1)) as Ht1 by (unfold c1; destruct (negb _); cbn; lia).
  assert (only_forecast c c1) as Hc1.
  { unfold c1, only_forecast. destruct (Connection.forecastr_initialized c) eqn:Hi; cbn [negb].
    - exists (Connection.forecastr c). destruct c. cbn in *. by subst.
    - by eexists. }
  assert (Connection.expected_receiver_seq c1 = Connection.expected_receiver_seq c) as He1
    by (destruct Hc1 as [r ->]; done). clearbody c1.
  apply wp_bind. eapply wp_weaken; [apply advance_to_spec; lia|]. intros r _.
  cbn [Connection.expected_receiver_seq Connection.set_forecastr]. rewrite He1.
  destruct (Z.leb_spec (Connection.expected_receiver_seq c) (Packet.seq p)) as [Hle|Hgt].
  - apply wp_bind. eapply wp_weaken; [by apply use_packet_spec|]. intros c' Hc'. apply wp_ok.
    exists p. cbn beta in Hc'. split_and!; [done|done|lia|lia|lia].
  - cbn [mbind result_bind wp Connection.expected_receiver_seq Connection.set_forecastr].
    exists p. rewrite He1. split_and!; [done|done|lia|lia|]. intros _. destruct Hc1 as [r' ->]. by eexists.
Qed.
End targeting.

(** A model of delivery without state, for concrete runs *)
Definition still_model : DeliveryModel :=
  {| process := unit; evolve := Ok; observe := fun _ => Ok; normalize := id;
     lower_quantiles := fun _ => Ok [0; 2; 4; 6; 8; 10; 12; 14] |}.

Lemma still_laws : @DeliveryLaws still_model.
Proof. by constructor. Qed.

Definition sample_conn : @Connection.t still_model := @Connection.make_server still_model tt 1000.
Definition sample_datagram : list Z := Packet.tostring (Packet.mk 5 TO_SERVER 900 65535 0 0 [7]).

Lemma out_of_order_packets_witness :
  ∃ s c', Connection.recv 1100 sample_datagram (1, 2) sample_conn = Ok (s, c')
    ∧ s = [7] ∧ Connection.remote_addr c' = (1, 2)
    ∧ Packet.seq (Packet.mk 5 TO_SERVER 900 65535 0 0 [7]) < Connection.expected_receiver_seq c'.
Proof.
  pose proof (@out_of_order_packets still_model still_laws 1100 sample_datagram (1, 2) sample_conn) as H.
  assert (0 ≤ 1100 < 2 ^ 63) as H1 by (split; [discriminate|reflexivity]).
  assert (0 ≤ Receiver.time (Connection.forecastr sample_conn)) as H2 by (vm_compute; discriminate).
  specialize (H H1 H2). destruct (Connection.recv 1100 sample_datagram (1, 2) sample_conn) as [[s c']|f] eqn:E.
  - exists s, c'. destruct H as (p & Hp & -> & _ & Hlt & _).
    assert (Packet.parse sample_datagram = Ok (Packet.mk 5 TO_SERVER 900 65535 0 0 [7])) as Hp'
      by (vm_compute; reflexivity).
    rewrite Hp' in Hp. injection Hp as <-. split; [reflexivity|]. split; [reflexivity|]. split; [|exact Hlt].
    assert ((fun r => Connection.remote_addr (snd r)) <$> Connection.recv 1100 sample_datagram (1, 2) sample_conn
            = Ok (1, 2)) as Ha by (vm_compute; reflexivity).
    rewrite E in Ha. by injection Ha.
  - exfalso. assert ((fun _ => tt) <$> Connection.recv 1100 sample_datagram (1, 2) sample_conn = Ok tt) as Ha
      by (vm_compute; reflexivity).
    rewrite E in Ha. discriminate Ha.
Defined.

End ConnectionTheorems.
