(* ===== verification/SproutConnection.v ===== *)
(** * The Sprout connection

    [src/alfalfa/src/network/sproutconn.h] and [sproutconn.cc]: packets with
    an optional delivery forecast in front, the estimate of the octets in
    flight, and a queue from which as much is sent as the forecast allows.
    A 16-bit number in memory is little-endian. *)

From S2P Require Import Prelude Double TransportFragment NetworkConnection.

(** The serialization of a forecast, generated from
    [src/alfalfa/src/protobufs/deliveryforecast.proto] *)
Class ForecastCodec := {
  serialize_forecast : DeliveryForecast → list Z;
  parse_forecast : list Z → option DeliveryForecast }.

Class ForecastCodecLaws `{ForecastCodec} : Prop :=
  parse_serialize_forecast f : parse_forecast (serialize_forecast f) = Some f.

(** ** Class [ForecastPacket] *)

Module ForecastPacket.

Record t : Set := mk { the_forecast : list Z; data : list Z }.

Definition of_data (s_data : list Z) : t := mk [] s_data.

Definition add_forecast `{ForecastCodec} (f : DeliveryForecast) (p : t) : result t :=
  let s := serialize_forecast f in
  assert_that (zlen s <=? 65535) "_forecast.size() <= 65535";;
  Ok (mk s (data p)).

(** [string::substr( pos, len )] and [substr( pos )] *)
Definition substr (pos len : Z) (s : list Z) : result (list Z) :=
  if zlen s <? pos then Fault (Thrown "std::out_of_range")
  else Ok (take (Z.to_nat len) (drop (Z.to_nat pos) s)).

Definition parse (incoming : list Z) : result t :=
  lo ← vec_get (incoming ++ [0]) 0;
  hi ← vec_get (incoming ++ [0]) 1;
  f ← substr 2 (lo + 256 * hi) incoming;
  d ← substr (2 + zlen f) (zlen incoming) incoming;
  Ok (mk f d).

Definition tostring (p : t) : list Z :=
  let forecast_size := u16 (zlen (the_forecast p)) in
  let ret := [Z.land forecast_size 255; Z.shiftr forecast_size 8] in
  let ret := if negb (forecast_size =? 0) then ret ++ the_forecast p else ret in
  ret ++ data p.

Definition has_forecast (p : t) : bool := 0 <? zlen (the_forecast p).

Definition forecast `{ForecastCodec} (p : t) : result DeliveryForecast :=
  assert_that (has_forecast p) "has_forecast()";;
  match parse_forecast (the_forecast p) with
  | Some f => Ok f
  | None => Fault (AssertFailed "ret.ParseFromString( _forecast )")
  end.

End ForecastPacket.

(** ** Class [SproutConnection] *)

Module SproutConnection.

Definition TARGET_DELAY_TICKS : Z := 5.

Section sprout.
Context `{DeliveryModel, ForecastCodec}.

Record t : Type := mk {
  conn : Connection.t;
  local_forecast_time : Z;
  remote_forecast_time : Z;
  last_outgoing_ended_flight : bool;
  current_queue_bytes_estimate : Z;
  current_forecast_tick : Z;
  operative_forecast : DeliveryForecast;
  outgoing_queue : list (list Z * Z) }.

#[export] Instance t_eta : Eta t := fun s =>
  mk (conn s) (local_forecast_time s) (remote_forecast_time s) (last_outgoing_ended_flight s)
    (current_queue_bytes_estimate s) (current_forecast_tick s) (operative_forecast s)
    (outgoing_queue s).

Definition set_conn (v : Connection.t) (s : t) : t := ltac:(with_field s conn v).
Definition set_local_forecast_time (v : Z) (s : t) : t := ltac:(with_field s local_forecast_time v).
Definition set_remote_forecast_time (v : Z) (s : t) : t := ltac:(with_field s remote_forecast_time v).
Definition set_ended_flight (v : bool) (s : t) : t := ltac:(with_field s last_outgoing_ended_flight v).
Definition set_estimate (v : Z) (s : t) : t := ltac:(with_field s current_queue_bytes_estimate v).
Definition set_tick (v : Z) (s : t) : t := ltac:(with_field s current_forecast_tick v).
Definition set_operative_forecast (v : DeliveryForecast) (s : t) : t := ltac:(with_field s operative_forecast v).
Definition set_outgoing_queue (v : list (list Z * Z)) (s : t) : t := ltac:(with_field s outgoing_queue v).

(** The constructors, around a new connection *)
Definition make (now : Z) (c : Connection.t) : result t :=
  '(f, c) ← Connection.forecast now c;
  Ok (mk c 0 0 true 0 0 f []).

(** The loop of [update_queue_estimate], [n] ticks; the counts are unsigned
    and the estimate is an [int]. *)
Fixpoint decrement (n : nat) (s : t) : result t :=
  match n with
  | O => Ok s
  | S n' =>
      k ← vec_get (counts (operative_forecast s)) (current_forecast_tick s);
      let e := to_int (current_queue_bytes_estimate s - 1440 * k) in
      let s := set_estimate (if e <? 0 then 0 else e) s in
      decrement n' (set_tick (current_forecast_tick s + 1) s)
  end.

Definition update_queue_estimate (now : Z) (s : t) : result t :=
  let new_forecast_tick :=
    Z.min (to_int (u64 (now - remote_forecast_time s) / Receiver.TICK_LENGTH))
          (zlen (counts (operative_forecast s)) - 1) in
  decrement (Z.to_nat (new_forecast_tick - current_forecast_tick s)) s.

Definition send (now : Z) (sendto : list Z → bool) (d : list Z) (time_to_next : Z) (s : t)
    : result (option (list Z) * t) :=
  let to_send := ForecastPacket.of_data d in
  '(to_send, s) ←
    (if last_outgoing_ended_flight s then
       '(the_fc, c) ← Connection.forecast now (conn s);
       let s := set_conn c s in
       if negb (forecast_time the_fc =? local_forecast_time s) then
         to_send ← ForecastPacket.add_forecast the_fc to_send;
         Ok (to_send, set_local_forecast_time (forecast_time the_fc) s)
       else Ok (to_send, s)
     else Ok (to_send, s));
  let s := set_ended_flight (0 <? time_to_next) s in
  let outgoing := ForecastPacket.tostring to_send in
  '(datagram, c) ← Connection.send now sendto outgoing time_to_next (conn s);
  let s := set_conn c s in
  let s := set_estimate (to_int (current_queue_bytes_estimate s + zlen outgoing)) s in
  s ← update_queue_estimate now s;
  Ok (datagram, s).

Definition recv (now : Z) (x : list Z) (from : Z * Z) (s : t) : result (list Z * t) :=
  '(incoming, c) ← Connection.recv now x from (conn s);
  let s := set_conn c s in
  packet ← ForecastPacket.parse incoming;
  if ForecastPacket.has_forecast packet then
    f ← ForecastPacket.forecast packet;
    let s := set_remote_forecast_time now (set_operative_forecast f s) in
    let s := set_estimate (to_int (Connection.next_seq (conn s) - received_or_lost_count f)) s in
    assert_that (0 <=? current_queue_bytes_estimate s) "current_queue_bytes_estimate >= 0";;
    s ← update_queue_estimate now (set_tick 0 s);
    Ok (ForecastPacket.data packet, s)
  else Ok (ForecastPacket.data packet, s).

Definition window_size (now : Z) (s : t) : result (Z * t) :=
  s ← update_queue_estimate now s;
  let cs := counts (operative_forecast s) in
  let cumulative_delivery_tick :=
    if zlen cs <=? current_forecast_tick s + TARGET_DELAY_TICKS then zlen cs - 1
    else current_forecast_tick s + TARGET_DELAY_TICKS in
  a ← vec_get cs cumulative_delivery_tick;
  b ← vec_get cs (current_forecast_tick s);
  let cumulative_delivery_forecast := to_int (1440 * (a - b)) in
  let bytes_to_send := to_int (cumulative_delivery_forecast - current_queue_bytes_estimate s) in
  let bytes_to_send :=
    fold_left (fun n '(d, _) => to_int (n - zlen d)) (outgoing_queue s) bytes_to_send in
  Ok (if bytes_to_send <? 0 then 0 else bytes_to_send, s).

Definition queue_to_send (d : list Z) (time_to_next : Z) (s : t) : t :=
  set_outgoing_queue (vec_push (outgoing_queue s) (d, time_to_next)) s.

(** What [tick] hands to [send], with the window that let it go *)
Record outgoing : Set := mkOutgoing { sent_data : list Z; sent_time_to_next : Z; window : Z }.

(** The time to the next packet: zero if that one will probably be sent as
    well.  The comparison is unsigned. *)
Definition time_to_next_of (now : Z) (d : list Z) (time_to_next : Z) (s : t) : result (Z * t) :=
  match outgoing_queue s with
  | [] => Ok (time_to_next, s)
  | (next, _) :: _ =>
      '(w, s) ← window_size now s;
      Ok (if zlen next <=? u64 (w - zlen d - 20) then 0 else time_to_next, s)
  end.

Fixpoint tick_loop (fuel : nat) (now : Z) (sendto : list Z → bool) (s : t) : result (list outgoing * t) :=
  match outgoing_queue s with
  | [] => Ok ([], s)
  | (d, time_to_next) :: rest =>
      '(w, s) ← window_size now s;
      if to_int (zlen d) <=? w then
        match fuel with
        | O => Fault OutOfFuel
        | S fuel' =>
            let s := set_outgoing_queue rest s in
            '(ttn, s) ← time_to_next_of now d time_to_next s;
            '(_, s) ← send now sendto d ttn s;
            '(l, s) ← tick_loop fuel' now sendto s;
            Ok (mkOutgoing d ttn w :: l, s)
        end
      else Ok ([], s)
  end.

Definition tick (now : Z) (sendto : list Z → bool) (s : t) : result (list outgoing * t) :=
  tick_loop (length (outgoing_queue s)) now sendto s.

End sprout.
Arguments t {_}.
End SproutConnection.
