(* ===== verification/SproutProps.v ===== *)
(** * Properties of the Sprout connection

    The forecast in front of a packet round-trips; and a tick sends the
    front of the queue, in order, as far as the window goes. *)

From S2P Require Import Prelude Double TransportFragment NetworkConnection ConnectionProps SproutConnection.

Module SproutTheorems.
Import ConnectionTheorems.

(** ** The forecast in front *)

Lemma vec_get_head (x : Z) l i : vec_get (x :: l) (Z.of_nat (S i)) = vec_get l (Z.of_nat i).
Proof.
  unfold vec_get. rewrite !(proj2 (Z.ltb_ge _ 0)) by lia. by rewrite !Nat2Z.id.
Qed.

Lemma forecast_packet_roundtrip p :
  zlen (ForecastPacket.the_forecast p) ≤ 65535 → ForecastPacket.parse (ForecastPacket.tostring p) = Ok p.
Proof.
  destruct p as [f d]. cbn [ForecastPacket.the_forecast]. intros Hlen. pose proof (zlen_nonneg f) as Hf.
  pose proof (zlen_nonneg d) as Hd.
  assert (ForecastPacket.tostring (ForecastPacket.mk f d)
          = Z.land (zlen f) 255 :: Z.shiftr (zlen f) 8 :: f ++ d) as ->.
  { unfold ForecastPacket.tostring. cbn [ForecastPacket.the_forecast ForecastPacket.data].
    rewrite uwrap_small by lia. destruct (Z.eqb_spec (zlen f) 0) as [Hz|]; [|done].
    destruct f; [done|]. rewrite zlen_cons in Hz. pose proof (zlen_nonneg f). lia. }
  unfold ForecastPacket.parse. cbn [app].
  change (vec_get (?a :: ?l) 0) with (Ok a). cbn [mbind result_bind].
  change (vec_get (?a :: ?b :: ?l) 1) with (Ok b). cbn [mbind result_bind].
  assert (Z.land (zlen f) 255 + 256 * Z.shiftr (zlen f) 8 = zlen f) as ->.
  { change 255 with (Z.ones 8). rewrite Z.land_ones, Z.shiftr_div_pow2 by lia.
    pose proof (Z.div_mod (zlen f) (2 ^ 8)). lia. }
  unfold ForecastPacket.substr. rewrite !zlen_cons, zlen_app.
  rewrite (proj2 (Z.ltb_ge _ 2)) by lia. cbn [mbind result_bind].
  change (Z.to_nat 2) with 2%nat. cbn [drop]. rewrite drop_0.
  assert (Z.to_nat (zlen f) = length f) as Hn by (unfold zlen; lia).
  rewrite Hn, take_app_length, (proj2 (Z.ltb_ge _ _)) by lia. cbn [mbind result_bind].
  replace (Z.to_nat (2 + zlen f)) with (S (S (length f))) by lia. cbn [drop].
  rewrite drop_app_length, take_ge by (unfold zlen in *; lia). done.
Qed.

(** ** A tick *)

Section tick.
Context `{model : DeliveryModel, !DeliveryLaws, ForecastCodec}.
Implicit Types s : SproutConnection.t.

Definition clock_ok s : Prop := 0 ≤ Receiver.time (Connection.forecastr (SproutConnection.conn s)).

(** What the steps of a tick leave alone *)
Definition keeps_queue s s' : Prop :=
  SproutConnection.outgoing_queue s' = SproutConnection.outgoing_queue s ∧ (clock_ok s → clock_ok s').

Lemma vec_get_fuel {A} (l : list A) i : wp not_fuel (vec_get l i) (fun _ => True).
Proof. unfold vec_get. destruct (_ <? 0); [done|]. by destruct (_ !! _). Qed.

Lemma decrement_spec n s : wp not_fuel (SproutConnection.decrement n s) (keeps_queue s).
Proof.
  revert s. induction n as [|n IH]; intros s; cbn [SproutConnection.decrement]; [done|].
  apply wp_bind. eapply wp_weaken; [apply vec_get_fuel|]. intros k _. eapply wp_weaken; [apply IH|]. by intros s' [Hq Hc].
Qed.

Lemma window_size_spec now s :
  wp not_fuel (SproutConnection.window_size now s) (fun '(w, s') => keeps_queue s s').
Proof.
  unfold SproutConnection.window_size. apply wp_bind. eapply wp_weaken; [apply decrement_spec|].
  intros s1 Hs1. do 2 (apply wp_bind; eapply wp_weaken; [apply vec_get_fuel|]; intros ? _). exact Hs1.
Qed.

Lemma forecast_spec now (c : Connection.t) :
  0 ≤ now < 2 ^ 63 → 0 ≤ Receiver.time (Connection.forecastr c) →
  wp not_fuel (Connection.forecast now c) (fun '(_, c') => 0 ≤ Receiver.time (Connection.forecastr c')).
Proof.
  intros Hnow Ht. unfold Connection.forecast. apply wp_bind.
  eapply wp_weaken; [apply advance_to_spec; lia|]. intros r Hr. unfold Receiver.forecast.
  destruct (_ =? _); [done|]. destruct (RecvQueue.packet_count _) as [n q]. apply wp_bind, wp_bind.
  by eapply wp_weaken; [apply returns_wp, quantiles_return|].
Qed.

Lemma forget_spec now q : wp not_fuel (SendQueue.forget now q) (fun _ => True).
Proof.
  induction q as [|[s ts] q IH]; cbn [SendQueue.forget]; [done|]. by destruct (_ <? _).
Qed.

Lemma connection_send_spec now sendto d ttn (c : Connection.t) :
  wp not_fuel (Connection.send now sendto d ttn c)
    (fun '(_, c') => Connection.forecastr c' = Connection.forecastr c).
Proof.
  unfold Connection.send. destruct (negb _); [done|]. apply wp_bind. unfold Connection.new_packet.
  set (c1 := if u64 _ <? 1000 then Connection.set_saved_timestamp_received_at _ _ else c).
  assert (Connection.forecastr c1 = Connection.forecastr c) as Hc1 by (unfold c1; by destruct (_ <? _)).
  clearbody c1. apply wp_bind. unfold SendQueue.add. apply wp_bind.
  eapply wp_weaken; [apply forget_spec|]. intros q _. apply wp_bind.
  eapply wp_weaken; [apply vec_get_fuel|]. intros [first ?] _. apply wp_ok, wp_ok.
  apply wp_bind. unfold Connection.hop_port. destruct (Connection.server _); cbn.
  - by destruct (_ <? _).
  - by destruct (_ && _).
Qed.

Lemma send_spec now sendto d ttn s :
  0 ≤ now < 2 ^ 63 → clock_ok s →
  wp not_fuel (SproutConnection.send now sendto d ttn s) (fun '(_, s') => keeps_queue s s').
Proof.
  intros Hnow Hs. unfold SproutConnection.send. apply wp_bind.
  assert (wp not_fuel
    (if SproutConnection.last_outgoing_ended_flight s
     then '(the_fc, c) ← Connection.forecast now (SproutConnection.conn s);
          let s := SproutConnection.set_conn c s in
          if negb (forecast_time the_fc =? SproutConnection.local_forecast_time s) then
            to_send ← ForecastPacket.add_forecast the_fc (ForecastPacket.of_data d);
            Ok (to_send, SproutConnection.set_local_forecast_time (forecast_time the_fc) s)
          else Ok (ForecastPacket.of_data d, s)
     else Ok (ForecastPacket.of_data d, s)) (fun '(_, s') => keeps_queue s s')) as Hfc.
  { destruct (SproutConnection.last_outgoing_ended_flight s); [|done]. apply wp_bind.
    eapply wp_weaken; [by apply forecast_spec|]. intros [f c] Hc. cbv beta iota zeta.
    destruct (negb _); [|by split]. unfold ForecastPacket.add_forecast.
    destruct (_ <=? _); [|done]. by split. }
  eapply wp_weaken; [exact Hfc|]. clear Hfc. intros [to_send s1] [Hq Hc].
  apply wp_bind. eapply wp_weaken; [apply connection_send_spec|]. intros [dg c'] Hc'. cbn [SproutConnection.conn SproutConnection.set_ended_flight] in Hc'.
  apply wp_bind. eapply wp_weaken; [apply decrement_spec|]. intros s2 [Hq2 Hc2]. apply wp_ok.
  split; [by rewrite Hq2|]. intros Hs'. apply Hc2. unfold clock_ok in *. cbn. rewrite Hc'. auto.
Qed.

Lemma substr_fuel pos len (d : list Z) : wp not_fuel (ForecastPacket.substr pos len d) (fun _ => True).
Proof. unfold ForecastPacket.substr. by destruct (_ <? _). Qed.

Lemma update_spec now s : wp not_fuel (SproutConnection.update_queue_estimate now s) (keeps_queue s).
Proof. apply decrement_spec. Qed.

Lemma recv_spec now x from s : 0 ≤ now < 2 ^ 63 → clock_ok s →
  wp not_fuel (SproutConnection.recv now x from s) (fun '(_, s') => clock_ok s').
Proof.
  intros Hnow Hs. unfold SproutConnection.recv. apply wp_bind. eapply wp_weaken; [by apply recv_clock|]. intros [d c] Hc.
  apply wp_bind. unfold ForecastPacket.parse. do 2 (apply wp_bind; eapply wp_weaken; [apply vec_get_fuel|]; intros ? _).
  do 2 (apply wp_bind; eapply wp_weaken; [apply substr_fuel|]; intros ? _). apply wp_ok.
  destruct (ForecastPacket.has_forecast _) eqn:Hf; [|exact Hc].
  unfold ForecastPacket.forecast. rewrite Hf. cbn [assert_that mbind result_bind].
  destruct (parse_forecast _); [|done]. cbn [mbind result_bind]. cbv zeta.
  destruct (0 <=? _); [|done]. cbn [assert_that mbind result_bind].
  apply wp_bind. eapply wp_weaken; [apply update_spec|]. intros s' [_ Hk]. apply wp_ok. by apply Hk.
Qed.

Lemma time_to_next_spec now d ttn s :
  wp not_fuel (SproutConnection.time_to_next_of now d ttn s) (fun '(_, s') => keeps_queue s s').
Proof.
  unfold SproutConnection.time_to_next_of. destruct (SproutConnection.outgoing_queue s) as [|[next ?] rest] eqn:Hq;
    [done|]. apply wp_bind. eapply wp_weaken; [apply window_size_spec|]. by intros [w s1] Hs1.
Qed.

Lemma tick_loop_spec fuel now sendto s :
  0 ≤ now < 2 ^ 63 → clock_ok s → (length (SproutConnection.outgoing_queue s) ≤ fuel)%nat →
  wp not_fuel (SproutConnection.tick_loop fuel now sendto s) (fun '(l, s') =>
    (SproutConnection.outgoing_queue s).*1
      = (SproutConnection.sent_data <$> l) ++ (SproutConnection.outgoing_queue s').*1
    ∧ Forall (fun o => to_int (zlen (SproutConnection.sent_data o)) ≤ SproutConnection.window o) l
    ∧ match SproutConnection.outgoing_queue s' with
      | [] => True
      | (d, _) :: _ => ∃ w s0, SproutConnection.window_size now s0 = Ok (w, s')
                               ∧ w < to_int (zlen d)
      end).
Proof.
  intros Hnow. revert s. induction fuel as [|fuel IH]; intros s Hs Hlen; cbn [SproutConnection.tick_loop].
  { destruct (SproutConnection.outgoing_queue s) as [|x q] eqn:Hq; [|cbn in Hlen; lia].
    cbn. rewrite Hq. done. }
  destruct (SproutConnection.outgoing_queue s) as [|[d ttn] rest] eqn:Hq.
  { cbn. rewrite Hq. done. }
  apply wp_bind. destruct (SproutConnection.window_size now s) as [[w s1]|f] eqn:Hw.
  2:{ pose proof (window_size_spec now s) as Hspec. by rewrite Hw in Hspec. }
  pose proof (wp_inv _ _ _ _ (window_size_spec now s) Hw) as [Hq1 Hc1]. cbn [wp].
  destruct (Z.leb_spec (to_int (zlen d)) w) as [Hfit|Hno].
  2:{ cbn. rewrite Hq1, Hq. split_and!; [done|done|]. by exists w, s. }
  apply wp_bind. eapply wp_weaken; [apply time_to_next_spec|]. intros [ttn' s2] [Hq2 Hc2]. cbn in Hq2.
  apply wp_bind. eapply wp_weaken; [apply send_spec; [done|by apply Hc2, Hc1]|].
  intros [dg s3] [Hq3 Hc3]. apply wp_bind. rewrite Hq2 in Hq3. cbn in Hlen.
  eapply wp_weaken; [apply IH; [by apply Hc3, Hc2, Hc1|rewrite Hq3; lia]|].
  intros [l s4] (Hl & Hall & Hend). apply wp_ok. rewrite Hq3 in Hl. cbn. rewrite Hl.
  split_and!; [done|by constructor|done].
Qed.

End tick.

(** ** Concrete runs *)

Definition forecast_codec : ForecastCodec :=
  {| serialize_forecast := fun f => received_or_lost_count f :: forecast_time f :: counts f;
     parse_forecast := fun l => match l with a :: b :: c => Some (mkForecast a b c) | _ => None end |}.

Lemma forecast_codec_laws : @ForecastCodecLaws forecast_codec.
Proof. intros [a b c]. reflexivity. Qed.

#[local] Existing Instance still_model.
#[local] Existing Instance still_laws.
#[local] Existing Instance forecast_codec.

(** A client with a fresh forecast and two packets queued, of which the
    second does not fit *)
Definition sample_sprout : SproutConnection.t :=
  SproutConnection.mk (Connection.make_client tt 1000 (1, 2)) 0 1000 true 0 0
    (mkForecast 0 1000 [0; 0; 0; 0; 0; 1]) [([1; 2; 3], 33); (replicate 800 7, 33)].


(** The unsigned comparison: with a window of 30 octets, a packet of 25 is
    announced as followed at once by one of 50, which does not fit. *)
Definition tight_sprout : SproutConnection.t :=
  SproutConnection.mk (Connection.make_client tt 1000 (1, 2)) 0 1000 true 1360 0
    (mkForecast 0 1000 [0; 0; 0; 0; 0; 1]) [(replicate 50 7, 33)].

Lemma wrapped_comparison :
  SproutConnection.window_size 1000 tight_sprout = Ok (30, tight_sprout)
  ∧ SproutConnection.time_to_next_of 1000 (replicate 25 7) 33 tight_sprout = Ok (0, tight_sprout).
Proof. split; vm_compute; reflexivity. Qed.

End SproutTheorems.
