(* ===== verification/CellSim.v ===== *)
(** * The cellular link emulators

    [src/alfalfa/src/examples/cellsim.cc] and [cellproxy.cc]: a packet waits
    out a fixed delay, then takes its place in a queue that is served at the
    times of a recorded schedule - 1500 octets per service in the first
    program, a packet per service in the second.  [timestamp()] is the
    argument [now]; the numbers of the schedule file are an argument of the
    constructor. *)

From S2P Require Import Prelude.

Record DelayedPacket : Set := mkDelayed {
  entry_time : Z;
  release_time : Z;
  contents : list Z }.

(** The constructor's loop over the schedule file *)
Fixpoint load_schedule (base_timestamp : Z) (file schedule : list Z) : result (list Z) :=
  match file with
  | [] => Ok schedule
  | ms :: file' =>
      let ms := u64 (ms + base_timestamp) in
      match last schedule with
      | Some back => assert_that (back <=? ms) "ms >= _schedule.back()"
      | None => Ok tt
      end;;
      load_schedule base_timestamp file' (schedule ++ [ms])
  end.

(** "move packets from end of delay to PDP" *)
Fixpoint end_of_delay (now : Z) (delay pdp : list DelayedPacket)
    : list DelayedPacket * list DelayedPacket :=
  match delay with
  | p :: delay' =>
      if release_time p <=? now then end_of_delay now delay' (pdp ++ [p]) else (delay, pdp)
  | [] => (delay, pdp)
  end.

Definition INT_MAX : Z := 2 ^ 31 - 1.

(** ** Class [DelayQueue] of [cellsim.cc] *)

Module DelayQueue.

Record PartialPacket : Set := mkPartial {
  bytes_earned : Z;
  packet : DelayedPacket }.

Record t : Set := mk {
  delay : list DelayedPacket;
  pdp : list DelayedPacket;
  limbo : list PartialPacket;
  schedule : list Z;
  delivered : list (list Z);
  ms_delay : Z;
  total_bytes : Z;
  used_bytes : Z;
  bin_sec : Z }.

#[export] Instance t_eta : Eta t := fun q =>
  mk (delay q) (pdp q) (limbo q) (schedule q) (delivered q) (ms_delay q) (total_bytes q)
    (used_bytes q) (bin_sec q).

Definition set_delay (v : list DelayedPacket) (q : t) : t := ltac:(with_field q delay v).
Definition set_pdp (v : list DelayedPacket) (q : t) : t := ltac:(with_field q pdp v).
Definition set_limbo (v : list PartialPacket) (q : t) : t := ltac:(with_field q limbo v).
Definition set_schedule (v : list Z) (q : t) : t := ltac:(with_field q schedule v).
Definition set_delivered (v : list (list Z)) (q : t) : t := ltac:(with_field q delivered v).
Definition set_total_bytes (v : Z) (q : t) : t := ltac:(with_field q total_bytes v).
Definition set_used_bytes (v : Z) (q : t) : t := ltac:(with_field q used_bytes v).
Definition set_bin_sec (v : Z) (q : t) : t := ltac:(with_field q bin_sec v).

Definition SERVICE_PACKET_SIZE : Z := 1500.

Definition make (ms_delay : Z) (file : list Z) (base_timestamp now : Z) : result t :=
  schedule ← load_schedule base_timestamp file [];
  Ok (mk [] [] [] schedule [] ms_delay 0 0 (now / 1000)).

(** The delivery of a packet: the counters and the output *)
Definition deliver (c : list Z) (q : t) : t :=
  set_delivered (vec_push (delivered q) c)
    (set_used_bytes (u64 (used_bytes q + zlen c)) (set_total_bytes (u64 (total_bytes q + zlen c)) q)).

(** "execute limbo queue first": what is left of the service *)
Definition serve_limbo (bytes : Z) (q : t) : result (Z * t) :=
  match limbo q with
  | [] => Ok (bytes, q)
  | p :: rest =>
      let size := to_int (zlen (contents (packet p))) in
      if size <=? to_int (bytes_earned p + bytes) then
        let q := deliver (contents (packet p)) q in
        let bytes := to_int (bytes - (zlen (contents (packet p)) - bytes_earned p)) in
        assert_that (0 <=? bytes) "bytes_to_play_with >= 0";;
        assert_that (match rest with [] => true | _ => false end) "_limbo.empty()";;
        Ok (bytes, set_limbo rest q)
      else
        let earned := to_int (bytes_earned p + bytes) in
        assert_that (earned <? size) "bytes_earned < contents.size()";;
        Ok (0, set_limbo (mkPartial earned (packet p) :: rest) q)
  end.

(** "execute regular queue": every round takes a packet or ends the
    service.  [pdp] is the rest of the queue. *)
Fixpoint serve_queue (bytes : Z) (queue : list DelayedPacket) (q : t) : result t :=
  if 0 <? bytes then
    assert_that (match limbo q with [] => true | _ => false end) "_limbo.empty()";;
    match queue with
    | [] => Ok (set_pdp [] (set_total_bytes (u64 (total_bytes q + bytes)) q))
    | p :: queue' =>
        let size := to_int (zlen (contents p)) in
        if size <=? bytes
        then serve_queue (to_int (bytes - zlen (contents p))) queue' (deliver (contents p) q)
        else
          let q := set_limbo [mkPartial bytes p] q in
          assert_that (bytes - bytes =? 0) "bytes_to_play_with == 0";;
          Ok (set_pdp queue' q)
    end
  else Ok (set_pdp queue q).

(** One packet delivery opportunity *)
Definition service (q : t) : result t :=
  '(bytes, q) ← serve_limbo SERVICE_PACKET_SIZE q;
  serve_queue bytes (pdp q) q.

(** "execute packet delivery schedule" *)
Fixpoint serve_schedule (now : Z) (schedule : list Z) (q : t) : result t :=
  match schedule with
  | s :: schedule' =>
      if s <=? now then
        q ← service q;
        serve_schedule now schedule' q
      else Ok (set_schedule schedule q)
  | [] => Ok (set_schedule [] q)
  end.

(** The loop that closes the bins of past seconds *)
Definition close_bins (now : Z) (q : t) : t :=
  if bin_sec q <? now / 1000
  then set_bin_sec (now / 1000) (set_used_bytes 0 (set_total_bytes 0 q)) else q.

Definition tick (now : Z) (q : t) : result t :=
  let '(delay, pdp) := end_of_delay now (delay q) (pdp q) in
  let q := set_pdp pdp (set_delay delay q) in
  q ← serve_schedule now (schedule q) q;
  Ok (close_bins now q).

Definition wait_time (now : Z) (q : t) : result (Z * t) :=
  q ← tick now q;
  let delay_wait :=
    match delay q with
    | p :: _ => Z.max 0 (to_int (u64 (release_time p - now)))
    | [] => INT_MAX
    end in
  schedule_wait ← match schedule q with
                  | s :: _ =>
                      let w := to_int (u64 (s - now)) in
                      assert_that (0 <=? w) "schedule_wait >= 0";; Ok w
                  | [] => Ok INT_MAX
                  end;
  Ok (Z.min delay_wait schedule_wait, q).

Definition read (now : Z) (q : t) : result (list (list Z) * t) :=
  q ← tick now q;
  Ok (delivered q, set_delivered [] q).

Definition write (now : Z) (packet : list Z) (q : t) : t :=
  set_delay (delay q ++ [mkDelayed now (u64 (now + ms_delay q)) packet]) q.

End DelayQueue.

(** ** Class [DelayQueue] of [cellproxy.cc] *)

Module ProxyQueue.

Record t : Set := mk {
  delay : list DelayedPacket;
  pdp : list DelayedPacket;
  schedule : list Z;
  delivered : list (list Z);
  ms_delay : Z;
  total_occurrences : Z;
  used_occurrences : Z;
  bin_sec : Z }.

Definition make (ms_delay : Z) (file : list Z) (base_timestamp now : Z) : result t :=
  schedule ← load_schedule base_timestamp file [];
  Ok (mk [] [] schedule [] ms_delay 0 0 (now / 1000)).

(** Services that passed: what is left and how many they were *)
Fixpoint prune (now : Z) (schedule : list Z) (total : Z) : list Z * Z :=
  match schedule with
  | s :: schedule' => if s <? now then prune now schedule' (u64 (total + 1)) else (schedule, total)
  | [] => (schedule, total)
  end.

Definition prune_schedule (now : Z) (q : t) : t :=
  let '(schedule, total) := prune now (schedule q) (total_occurrences q) in
  mk (delay q) (pdp q) schedule (delivered q) (ms_delay q) total (used_occurrences q) (bin_sec q).

(** The deliveries: a packet per service *)
Fixpoint serve (now : Z) (pdp : list DelayedPacket) (schedule : list Z) (delivered : list (list Z))
    (total used : Z) : list DelayedPacket * list Z * list (list Z) * Z * Z :=
  match pdp, schedule with
  | p :: pdp', s :: schedule' =>
      if s <=? now
      then serve now pdp' schedule' (vec_push delivered (contents p)) (u64 (total + 1)) (u64 (used + 1))
      else (pdp, schedule, delivered, total, used)
  | _, _ => (pdp, schedule, delivered, total, used)
  end.

Definition tick (now : Z) (q : t) : t :=
  let q := prune_schedule now q in
  let '(delay, pdp) := end_of_delay now (delay q) (pdp q) in
  let '(pdp, schedule, delivered, total, used) :=
    serve now pdp (schedule q) (delivered q) (total_occurrences q) (used_occurrences q) in
  if bin_sec q <? now / 1000
  then mk delay pdp schedule delivered (ms_delay q) 0 0 (now / 1000)
  else mk delay pdp schedule delivered (ms_delay q) total used (bin_sec q).

(** [_schedule.front()] of an empty queue is undefined. *)
Definition wait_time (now : Z) (q : t) : result (Z * t) :=
  let delay_wait :=
    match delay q with
    | p :: _ => Z.max 0 (to_int (u64 (release_time p - now)))
    | [] => 100
    end in
  let q := prune_schedule now q in
  pdp_wait ← match pdp q with
             | [] => Ok 100
             | _ =>
                 match schedule q with
                 | [] => Fault OutOfRange
                 | s :: _ =>
                     let w := to_int (u64 (s - now)) in
                     assert_that (0 <=? w) "pdp_wait >= 0";; Ok w
                 end
             end;
  Ok (Z.min delay_wait pdp_wait, q).

Definition read (now : Z) (q : t) : list (list Z) * t :=
  let q := tick now q in
  (delivered q, mk (delay q) (pdp q) (schedule q) [] (ms_delay q) (total_occurrences q)
                  (used_occurrences q) (bin_sec q)).

Definition write (now : Z) (packet : list Z) (q : t) : t :=
  mk (delay q ++ [mkDelayed now (u64 (now + ms_delay q)) packet]) (pdp q) (schedule q) (delivered q)
    (ms_delay q) (total_occurrences q) (used_occurrences q) (bin_sec q).

End ProxyQueue.
