(* ===== verification/CellSimProps.v ===== *)
(** * Properties of the link emulators

    The link is a queue: packets come out in the order in which they went
    in, none is lost, none comes out before its delay is over, and the
    schedule bounds what comes out. *)

From S2P Require Import Prelude CellSim.

Module CellSimTheorems.
Import DelayQueue.
Implicit Types (q : t) (p : DelayedPacket).

(** ** The state *)

Definition MAX_PACKET : Z := 2 ^ 31 - 1500.

Definition packet_ok p : Prop := zlen (contents p) < MAX_PACKET.

(** The packet in limbo earned some, but not all, of its octets. *)
Definition limbo_ok q : Prop :=
  match limbo q with
  | [] => True
  | [l] => 0 ≤ bytes_earned l < zlen (contents (packet l))
  | _ => False
  end.

Definition limbo_packets q : list DelayedPacket := packet <$> limbo q.

(** The packets past their delay, and all packets, in order *)
Definition waiting q : list DelayedPacket := limbo_packets q ++ pdp q.
Definition packets q : list DelayedPacket := waiting q ++ delay q.

Definition queue_wf q : Prop := limbo_ok q ∧ Forall packet_ok (packets q).

Definition earned q : Z := match limbo q with l :: _ => bytes_earned l | [] => 0 end.

Definition octets (ps : list DelayedPacket) : Z := foldr (fun p n => zlen (contents p) + n) 0 ps.

Lemma octets_app a b : octets (a ++ b) = octets a + octets b.
Proof. unfold octets. induction a as [|x a IH]; cbn; lia. Qed.

Lemma octets_nonneg ps : 0 ≤ octets ps.
Proof. unfold octets. induction ps as [|x ps IH]; cbn; [lia|]. pose proof (zlen_nonneg (contents x)). lia. Qed.

Lemma earned_nonneg q : limbo_ok q → 0 ≤ earned q.
Proof. unfold limbo_ok, earned. destruct (limbo q) as [|l [|? ?]]; [lia|lia|done]. Qed.

(** What a service does not touch *)
Definition frame q := (delay q, schedule q, ms_delay q, bin_sec q).

(** ** One service *)

(** [bytes] of service turn [before] into [out] and what then waits; the
    rest of the service is idle, and only if nothing waits. *)
Definition serves (bytes : Z) (before : list DelayedPacket) q (q' : t) (out : list DelayedPacket) (idle : Z)
    : Prop :=
  delivered q' = delivered q ++ (contents <$> out)
  ∧ before = out ++ waiting q' ∧ limbo_ok q' ∧ frame q' = frame q
  ∧ bytes = octets out + earned q' + idle ∧ 0 ≤ idle ∧ (0 < idle → waiting q' = []).

Lemma deliver_frame c q : frame (deliver c q) = frame q ∧ limbo (deliver c q) = limbo q
  ∧ delivered (deliver c q) = delivered q ++ [c] ∧ pdp (deliver c q) = pdp q.
Proof. done. Qed.

Lemma serve_queue_spec bytes queue q :
  limbo q = [] → 0 ≤ bytes ≤ SERVICE_PACKET_SIZE → Forall packet_ok queue →
  ∃ q' out idle, serve_queue bytes queue q = Ok q' ∧ serves bytes queue q q' out idle.
Proof.
  unfold SERVICE_PACKET_SIZE. revert bytes q.
  induction queue as [|p queue IH]; intros bytes q Hl Hb Hok; cbn [serve_queue].
  - destruct (0 <? bytes) eqn:E; z_props.
    + rewrite Hl. cbn [assert_that mbind result_bind]. eexists _, [], bytes. split; [done|].
      unfold serves, waiting, limbo_packets, limbo_ok, earned. cbn. rewrite Hl, app_nil_r.
      split_and!; (done || lia).
    + eexists _, [], 0. split; [done|]. unfold serves, waiting, limbo_packets, limbo_ok, earned. cbn.
      rewrite Hl, app_nil_r. split_and!; (done || lia).
  - apply Forall_cons in Hok as [Hp Hok]. pose proof (zlen_nonneg (contents p)).
    unfold packet_ok, MAX_PACKET in Hp. destruct (0 <? bytes) eqn:E; z_props.
    + rewrite Hl. cbn [assert_that mbind result_bind]. rewrite (to_int_small (zlen (contents p))) by lia.
      destruct (zlen (contents p) <=? bytes) eqn:Es; z_props.
      * rewrite to_int_small by lia. destruct (IH (bytes - zlen (contents p)) (deliver (contents p) q))
          as (q' & out & idle & -> & Hd & Hq & Hlk & Hf & Hb' & Hi & Hw); [done|lia|done|].
        exists q', (p :: out), idle. split; [done|]. unfold serves.
        split_and!; try done; try lia.
        -- rewrite Hd. unfold deliver, vec_push. cbn. by rewrite <- app_assoc.
        -- by rewrite Hq.
        -- cbn. fold (octets out). lia.
      * rewrite Z.sub_diag. cbn [assert_that mbind result_bind Z.eqb]. eexists _, [], 0. split; [done|].
        unfold serves, waiting, limbo_packets, limbo_ok, earned. cbn. rewrite app_nil_r.
        split_and!; (done || lia).
    + eexists _, [], 0. split; [done|]. unfold serves, waiting, limbo_packets, limbo_ok, earned. cbn.
      rewrite Hl, app_nil_r. split_and!; (done || lia).
Qed.

Lemma serve_queue_0 queue q : serve_queue 0 queue q = Ok (set_pdp queue q).
Proof. by destruct queue. Qed.

Lemma service_spec q :
  queue_wf q → ∃ q' out idle, service q = Ok q'
    ∧ serves (SERVICE_PACKET_SIZE + earned q) (waiting q) q q' out idle.
Proof.
  intros [Hl Hok]. unfold service, serve_limbo, SERVICE_PACKET_SIZE.
  unfold packets, waiting, limbo_packets, limbo_ok, earned in *.
  apply Forall_app in Hok as [Hok _]. apply Forall_app in Hok as [Hlok Hpok].
  destruct (limbo q) as [|l [|? ?]] eqn:El; [| |done].
  - cbn [mbind result_bind]. destruct (serve_queue_spec 1500 (pdp q) q) as (q' & out & idle & -> & Hs);
      [done|unfold SERVICE_PACKET_SIZE; lia|done|]. exists q', out, idle. by split.
  - apply Forall_cons in Hlok as [Hlok _]. unfold packet_ok, MAX_PACKET in Hlok.
    rewrite (to_int_small (zlen _)), (to_int_small (bytes_earned l + 1500)) by lia.
    destruct (zlen (contents (packet l)) <=? bytes_earned l + 1500) eqn:E; z_props.
    + rewrite to_int_small by lia. z_bools. cbn [assert_that mbind result_bind].
      destruct (serve_queue_spec (1500 - (zlen (contents (packet l)) - bytes_earned l)) (pdp q)
        (set_limbo [] (deliver (contents (packet l)) q)))
        as (q' & out & idle & Heq & Hd & Hq & Hlk & Hf & Hb & Hi & Hw);
        [done|unfold SERVICE_PACKET_SIZE; lia|done|].
      exists q', (packet l :: out), idle. split; [exact Heq|]. unfold serves. split_and!; try done.
      * rewrite Hd. unfold deliver, vec_push. cbn. by rewrite <- app_assoc.
      * cbn. by rewrite Hq.
      * cbn. fold (octets out). lia.
    + z_bools. cbn [assert_that mbind result_bind]. unfold limbo_packets.
      set (q1 := set_limbo [mkPartial (bytes_earned l + 1500) (packet l)] q).
      assert (serve_queue 0 (pdp q1) q1 = Ok (set_pdp (pdp q) q1)) as -> by apply serve_queue_0.
      exists (set_pdp (pdp q) q1), [], 0. split; [done|].
      unfold serves, waiting, limbo_packets, limbo_ok, earned, q1. cbn. rewrite app_nil_r.
      split_and!; (done || lia).
Qed.

(** ** The schedule *)

Definition services (n : nat) : Z := Z.of_nat n * SERVICE_PACKET_SIZE.

(** [q] after [n] services, [now] being past all of them *)
Definition advanced (now : Z) (n : nat) q (q' : t) (out : list DelayedPacket) (idle : Z) : Prop :=
  delivered q' = delivered q ++ (contents <$> out)
  ∧ waiting q = out ++ waiting q' ∧ limbo_ok q' ∧ delay q' = delay q ∧ ms_delay q' = ms_delay q
  ∧ services n + earned q = octets out + earned q' + idle ∧ 0 ≤ idle.

Lemma serves_wf b q q' out idle : queue_wf q → serves b (waiting q) q q' out idle → queue_wf q'.
Proof.
  intros [_ Hok] (_ & Hq & Hl & Hf & _). split; [done|]. unfold packets in *. rewrite Hq in Hok.
  unfold frame in Hf.
  injection Hf as -> _ _ _. rewrite !Forall_app in *. naive_solver.
Qed.

Lemma advanced_refl now sched q : limbo_ok q → advanced now 0 q (set_schedule sched q) [] 0.
Proof. intros Hl. unfold advanced. rewrite app_nil_r. split_and!; try done. change (services 0 + earned q = 0 + earned q + 0). unfold services. lia. Qed.

Lemma serve_schedule_spec now sched q :
  queue_wf q → ∃ q' out idle used rest, serve_schedule now sched q = Ok q'
    ∧ advanced now (length used) q q' out idle
    ∧ sched = used ++ rest ∧ schedule q' = rest ∧ Forall (fun s => s ≤ now) used
    ∧ (∀ s, head rest = Some s → now < s).
Proof.
  revert q. induction sched as [|s sched IH]; intros q Hwf; cbn [serve_schedule].
  - exists (set_schedule [] q), [], 0, [], []. split_and!; try done. by apply advanced_refl, Hwf.
  - destruct (s <=? now) eqn:E; z_props.
    + destruct (service_spec q Hwf) as (q1 & out1 & idle1 & -> & Hs). cbn [mbind result_bind].
      pose proof (serves_wf _ _ _ _ _ Hwf Hs) as Hwf1.
      destruct Hs as (Hd1 & Hq1 & Hl1 & Hf1 & Hb1 & Hi1 & _). unfold frame in Hf1.
      injection Hf1 as Hdl1 _ Hms1 _. destruct (IH q1 Hwf1) as (q' & out & idle & used & rest & -> & Ha & Hs & Hr & Hu & Hh).
      destruct Ha as (Hd & Hq & Hl & Hdl & Hms & Hb & Hi).
      exists q', (out1 ++ out), (idle1 + idle), (s :: used), rest. split_and!; try done.
      * unfold advanced. split_and!; try done; try lia; try congruence.
        -- by rewrite Hd, Hd1, fmap_app, app_assoc.
        -- by rewrite Hq1, Hq, app_assoc.
        -- rewrite octets_app. unfold services in *. cbn [length].
           rewrite Nat2Z.inj_succ, Z.mul_succ_l. lia.
      * by rewrite Hs.
      * by constructor.
    + exists (set_schedule (s :: sched) q), [], 0, [], (s :: sched). split_and!; try done.
      * by apply advanced_refl, Hwf.
      * intros ? [= <-]. lia.
Qed.

Lemma end_of_delay_spec now dl pd :
  ∃ released rest, end_of_delay now dl pd = (rest, pd ++ released) ∧ dl = released ++ rest
    ∧ Forall (fun p => release_time p ≤ now) released.
Proof.
  revert pd. induction dl as [|p dl IH]; intros pd; cbn [end_of_delay].
  - exists [], []. by rewrite app_nil_r.
  - destruct (release_time p <=? now) eqn:E; z_props.
    + destruct (IH (pd ++ [p])) as (rel & rest & -> & -> & Hrel). exists (p :: rel), rest.
      rewrite <- app_assoc. split_and!; [done|done|by constructor].
    + exists [], (p :: dl). by rewrite app_nil_r.
Qed.

(** What a tick does: packets leave in order, and only after their delay *)
Lemma link_tick_spec now q :
  queue_wf q → Forall (fun p => release_time p ≤ now) (waiting q) →
  ∃ q' out idle used, tick now q = Ok q' ∧ queue_wf q'
    ∧ Forall (fun p => release_time p ≤ now) (out ++ waiting q')
    ∧ delivered q' = delivered q ++ (contents <$> out) ∧ packets q = out ++ packets q'
    ∧ ms_delay q' = ms_delay q
    ∧ services (length used) + earned q = octets out + earned q' + idle ∧ 0 ≤ idle
    ∧ schedule q = used ++ schedule q' ∧ Forall (fun s => s ≤ now) used
    ∧ (∀ s, head (schedule q') = Some s → now < s).
Proof.
  intros [Hl Hok] Hw. unfold tick.
  destruct (end_of_delay_spec now (delay q) (pdp q)) as (rel & rest & -> & Hdl & Hrel).
  set (q1 := set_pdp (pdp q ++ rel) (set_delay rest q)).
  assert (waiting q1 = waiting q ++ rel) as Hw1 by (unfold waiting, limbo_packets; cbn; by rewrite app_assoc).
  assert (packets q1 = packets q) as Hp1.
  { unfold packets. rewrite Hw1, Hdl. cbn. by rewrite <- app_assoc. }
  assert (queue_wf q1) as Hwf1 by (split; [done|by rewrite Hp1]).
  destruct (serve_schedule_spec now (schedule q1) q1 Hwf1)
    as (q2 & out & idle & used & rest2 & -> & (Hd & Hq & Hl2 & Hdl2 & Hms & Hb & Hi) & Hs & Hr & Hu & Hh).
  cbn [mbind result_bind]. subst rest2.
  assert (packets q = out ++ packets q2) as Hpk.
  { rewrite <- Hp1. unfold packets. rewrite Hq, Hdl2, app_assoc. done. }
  assert (∀ A (g : t → A), (∀ a b c x, g (set_bin_sec a (set_used_bytes b (set_total_bytes c x))) = g x) →
    g (close_bins now q2) = g q2) as Hclose.
  { intros A g Hg. unfold close_bins. destruct (_ <? _); [apply Hg|done]. }
  assert (queue_wf (close_bins now q2)) as Hwf2.
  { split; [by unfold close_bins; destruct (_ <? _)|]. rewrite (Hclose _ packets) by done.
    rewrite Hpk in Hok. by apply Forall_app in Hok as [_ ?]. }
  exists (close_bins now q2), out, idle, used.
  rewrite (Hclose _ waiting), (Hclose _ delivered), (Hclose _ packets), (Hclose _ ms_delay),
    (Hclose _ earned), (Hclose _ schedule) by done.
  assert (Forall (fun p => release_time p ≤ now) (out ++ waiting q2)) as Hall.
  { rewrite <- Hq, Hw1. by apply Forall_app. }
  do 10 (split; [done|]). exact Hh.
Qed.

(** ** Runs *)

Inductive op : Set :=
| Write (now : Z) (packet : list Z)
| Read (now : Z)
| Wait (now : Z).

Definition op_time (o : op) : Z := match o with Write now _ | Read now | Wait now => now end.

(** The packets read, with the time at which they were *)
Definition run_op (o : op) q : result (list (Z * list Z) * t) :=
  match o with
  | Write now c => Ok ([], write now c q)
  | Read now => '(out, q) ← read now q; Ok (map (pair now) out, q)
  | Wait now => '(w, q) ← wait_time now q; Ok ([], q)
  end.

Fixpoint run (ops : list op) q : result (list (Z * list Z) * t) :=
  match ops with
  | [] => Ok ([], q)
  | o :: ops' => '(out, q) ← run_op o q; '(rest, q) ← run ops' q; Ok (out ++ rest, q)
  end.

Definition written (ops : list op) : list (Z * list Z) :=
  ops ≫= fun o => match o with Write now c => [(now, c)] | _ => [] end.

(** The clock does not run backwards and stays in its range, and packets
    are of a size that an [int] can hold. *)
Fixpoint ordered (md now : Z) (ops : list op) : Prop :=
  match ops with
  | [] => True
  | o :: ops' =>
      now ≤ op_time o ∧ op_time o + md < 2 ^ 64
      ∧ (match o with Write _ c => zlen c < MAX_PACKET | _ => True end)
      ∧ ordered md (op_time o) ops'
  end.

Fixpoint end_time (now : Z) (ops : list op) : Z :=
  match ops with [] => now | o :: ops' => end_time (op_time o) ops' end.

Definition stamp p : Z * list Z := (entry_time p, contents p).

(** A packet and its delivery at a time *)
Definition delivers p (d : Z * list Z) : Prop := snd d = contents p ∧ release_time p ≤ fst d.

(** [W] was written and [O] was read so far. *)
Definition linked (sched : list Z) (md now : Z) (W O : list (Z * list Z)) q : Prop :=
  ∃ pout pdel used,
    queue_wf q ∧ ms_delay q = md
    ∧ W = stamp <$> (pout ++ pdel ++ packets q)
    ∧ Forall (fun p => release_time p = entry_time p + md) (pout ++ pdel ++ packets q)
    ∧ Forall2 delivers pout O
    ∧ delivered q = contents <$> pdel
    ∧ Forall (fun p => release_time p ≤ now) (pdel ++ waiting q)
    ∧ sched = used ++ schedule q ∧ Forall (fun s => s ≤ now) used
    ∧ octets pout + octets pdel + earned q ≤ services (length used).

Lemma Forall_le_mono {A} (f : A → Z) a b l :
  a ≤ b → Forall (fun x => f x ≤ a) l → Forall (fun x => f x ≤ b) l.
Proof. intros Hab Hl. eapply Forall_impl; [exact Hl|]. intros x Hx. cbn in *. lia. Qed.

Lemma linked_tick sched md now now' W O q :
  linked sched md now W O q → now ≤ now' →
  ∃ q', tick now' q = Ok q' ∧ linked sched md now' W O q'
    ∧ ∀ s, head (schedule q') = Some s → now' < s.
Proof.
  intros (pout & pdel & used & Hwf & Hmd & HW & Hrel & HO & Hdel & Hpast & Hsch & Hused & Hcap) Hle.
  pose proof Hpast as Hpast'. apply Forall_app in Hpast' as [Hpd Hwait].
  destruct (link_tick_spec now' q Hwf) as (q' & out & idle & used' & Htick & Hwf' & Hout & Hd & Hp & Hms & Hs & Hi & Hsc & Hu & Hh).
  { by eapply Forall_le_mono. }
  exists q'. split_and!; try done. exists pout, (pdel ++ out), (used ++ used').
  rewrite Hp in HW, Hrel. rewrite <- (app_assoc pdel out).
  conjs; try done; try congruence.
  - rewrite Hd, Hdel. by rewrite fmap_app.
  - rewrite <- app_assoc. apply Forall_app. split; [by eapply Forall_le_mono|done].
  - rewrite Hsch, Hsc. by rewrite app_assoc.
  - apply Forall_app. split; [by eapply (Forall_le_mono id)|done].
  - rewrite octets_app. unfold services in *. rewrite length_app, Nat2Z.inj_add. lia.
Qed.

Lemma linked_op sched md now W O q o ops :
  linked sched md now W O q → ordered md now (o :: ops) → 0 ≤ now → 0 ≤ md →
  Forall (fun s => s < now + 2 ^ 31) sched →
  ∃ out q', run_op o q = Ok (out, q')
    ∧ linked sched md (op_time o) (W ++ written [o]) (O ++ out) q'.
Proof.
  intros Hlk (Hle & Hmax & Hsz & _) Hnow Hmd0 Hsched. destruct o as [now' c|now'|now']; cbn in *.
  - eexists _, _. split; [done|]. rewrite app_nil_r.
    destruct Hlk as (pout & pdel & used & [Hl Hok] & Hmd & HW & Hrel & HO & Hdel & Hpast & Hsch & Hused & Hcap).
    set (p := mkDelayed now' (u64 (now' + ms_delay q)) c).
    assert (packets (write now' c q) = packets q ++ [p]) as Hp by (unfold packets; cbn; by rewrite app_assoc).
    exists pout, pdel, used. rewrite Hp, !app_assoc.
    conjs; try done.
    + split; [done|]. rewrite Hp. apply Forall_app. split; [done|]. by apply Forall_singleton.
    + rewrite fmap_app, HW, !app_assoc. done.
    + rewrite app_assoc in Hrel. apply Forall_app. split; [done|]. apply Forall_singleton. cbn.
      rewrite Hmd. rewrite uwrap_small; lia.
    + by eapply Forall_le_mono.
    + by eapply (Forall_le_mono id).
  - unfold read. destruct (linked_tick _ _ _ now' _ _ _ Hlk Hle) as (q' & -> & Hlk' & _).
    cbn [mbind result_bind]. eexists _, _. split; [done|]. rewrite app_nil_r.
    destruct Hlk' as (pout & pdel & used & [Hl Hok] & Hmd & HW & Hrel & HO & Hdel & Hpast & Hsch & Hused & Hcap).
    exists (pout ++ pdel), [], used. apply Forall_app in Hpast as [Hpd Hwt]. rewrite <- app_assoc.
    conjs; try done.
    + apply Forall2_app; [done|]. rewrite Hdel, <- list_fmap_compose. clear -Hpd.
      induction Hpd; cbn; constructor; try done.
    + rewrite octets_app. cbn. fold (earned q'). change (earned (set_delivered [] q')) with (earned q'). lia.
  - unfold wait_time. destruct (linked_tick _ _ _ now' _ _ _ Hlk Hle) as (q' & -> & Hlk' & Hh).
    cbn [mbind result_bind]. assert (∃ w, match schedule q' with
      | s :: _ => assert_that (0 <=? to_int (u64 (s - now'))) "schedule_wait >= 0" ≫= (fun _ => Ok (to_int (u64 (s - now'))))
      | [] => Ok INT_MAX end = Ok w) as [w ->].
    { destruct (schedule q') as [|s sc] eqn:Es; [eauto|]. specialize (Hh s eq_refl).
      destruct Hlk' as (? & ? & used & _ & _ & _ & _ & _ & _ & _ & Hsch & _). rewrite Hsch, Es in Hsched.
      apply Forall_app in Hsched as [_ Hs]. apply Forall_cons in Hs as [Hs _].
      rewrite (uwrap_small 64), to_int_small by lia. z_bools. cbn. eauto. }
    cbn [mbind result_bind]. eexists _, _. split; [done|]. by rewrite !app_nil_r.
Qed.

Lemma linked_run sched md ops now W O q :
  linked sched md now W O q → ordered md now ops → 0 ≤ now → 0 ≤ md →
  Forall (fun s => s < now + 2 ^ 31) sched →
  ∃ out q', run ops q = Ok (out, q')
    ∧ linked sched md (end_time now ops) (W ++ written ops) (O ++ out) q'.
Proof.
  revert now W O q. induction ops as [|o ops IH]; intros now W O q Hlk Hord Hnow Hmd Hs; cbn [run end_time].
  - exists [], q. by rewrite !app_nil_r.
  - pose proof Hord as (Hle & _ & _ & Hord').
    destruct (linked_op _ _ _ _ _ _ o ops Hlk Hord Hnow Hmd Hs) as (out & q1 & -> & Hlk1). cbn [mbind result_bind].
    destruct (IH (op_time o) (W ++ written [o]) (O ++ out) q1) as (rest & q' & -> & Hlk'); [done|done|lia|done| |].
    { eapply Forall_impl; [exact Hs|]. intros x ?. cbn in *. lia. }
    cbn [mbind result_bind]. exists (out ++ rest), q'. split; [done|].
    rewrite <- !app_assoc in Hlk'. unfold written in *. cbn in *. rewrite app_nil_r in Hlk'. exact Hlk'.
Qed.

(** The services up to a time *)
Definition services_until (now : Z) (sched : list Z) : Z :=
  SERVICE_PACKET_SIZE * zlen (filter (fun s => s ≤ now) sched).

Lemma used_until now used rest :
  Forall (fun s => s ≤ now) used → services (length used) ≤ services_until now (used ++ rest).
Proof.
  intros Hu. unfold services, services_until, zlen. rewrite filter_app, length_app.
  assert (filter (fun s => s ≤ now) used = used) as ->.
  { clear rest. induction Hu as [|x l Hx Hl IH]; [done|]. rewrite filter_cons_True, IH by done. done. }
  unfold SERVICE_PACKET_SIZE. lia.
Qed.

Lemma delivers_octets pout O : Forall2 delivers pout O → octets pout = foldr (fun d n => zlen (snd d) + n) 0 O.
Proof. induction 1 as [|p d ps O [Hc _] _ IH]; [done|]. cbn. fold (octets ps). rewrite Hc, IH. done. Qed.

Lemma linked_start md file base now q : DelayQueue.make md file base now = Ok q →
  linked (schedule q) md now [] [] q.
Proof.
  unfold DelayQueue.make. destruct (load_schedule base file []) as [sched|]; [|done]. cbn [mbind result_bind].
  intros [= <-]. exists [], [], []. cbn. by conjs.
Qed.

(** What the bookkeeping says about the packets *)
Lemma linked_promise sched md now W O q : linked sched md now W O q →
  ∃ before after, W = before ++ after
    ∧ Forall2 (fun w d => snd d = snd w ∧ fst w + md ≤ fst d) before O
    ∧ snd <$> after = delivered q ++ (contents <$> packets q)
    ∧ foldr (fun d n => zlen (snd d) + n) 0 O ≤ services_until now sched.
Proof.
  intros (pout & pdel & used & Hwf & _ & HW & Hrel & HO & Hdel & _ & Hsch & Hused & Hcap).
  exists (stamp <$> pout), (stamp <$> (pdel ++ packets q)). conjs.
  - by rewrite <- fmap_app.
  - apply Forall_app in Hrel as [Hrel _]. clear -HO Hrel.
    induction HO as [|p d ps O [Hc Ht] _ IH]; [constructor|]. apply Forall_cons in Hrel as [Hp Hrel].
    constructor; [|by apply IH]. cbn. split; [done|lia].
  - rewrite <- list_fmap_compose, fmap_app, Hdel. done.
  - rewrite <- (delivers_octets _ _ HO). pose proof (octets_nonneg pdel).
    pose proof (used_until now used (schedule q) Hused) as Hu. rewrite <- Hsch in Hu.
    pose proof (earned_nonneg q ltac:(apply Hwf)). lia.
Qed.

(** C29.  The emulated link.  Start from a schedule file and apply any
    sequence of writes, reads and waits at times that do not run backwards,
    with packets below 2 GiB and a schedule that ends within 24 days.  No
    assertion fails and every loop ends.  What is read is exactly a prefix
    of what was written, in order and unchanged, each packet at least the
    delay after it was written; the rest of what was written is still in the
    queue, also in order; and no more octets were read than 1500 for
    each service of the schedule that has passed. *)
Theorem cell_link md file base now q ops :
  DelayQueue.make md file base now = Ok q →
  ordered md now ops → 0 ≤ now → 0 ≤ md → Forall (fun s => s < now + 2 ^ 31) (schedule q) →
  ∃ out q' before after, run ops q = Ok (out, q')
    ∧ written ops = before ++ after
    ∧ Forall2 (fun w d => snd d = snd w ∧ fst w + md ≤ fst d) before out
    ∧ snd <$> after = delivered q' ++ (contents <$> packets q')
    ∧ foldr (fun d n => zlen (snd d) + n) 0 out ≤ services_until (end_time now ops) (schedule q).
Proof.
  intros Hmake%linked_start Hord Hnow Hmd Hs.
  destruct (linked_run (schedule q) md ops now [] [] q) as (out & q' & Hrun & Hlk); [done..|].
  destruct (linked_promise _ _ _ _ _ _ Hlk) as (before & after & Hp). by exists out, q', before, after.
Qed.

Lemma cell_link_witness :
  let ops := [Write 1000 (replicate 1000 1); Write 1003 (replicate 900 2); Wait 1010; Read 1025; Read 1100] in
  ∃ q, DelayQueue.make 20 [5; 24; 40] 1000 1000 = Ok q ∧
  ∃ out q' before after, run ops q = Ok (out, q')
    ∧ written ops = before ++ after
    ∧ Forall2 (fun w d => snd d = snd w ∧ fst w + 20 ≤ fst d) before out
    ∧ snd <$> after = delivered q' ++ (contents <$> packets q')
    ∧ foldr (fun d n => zlen (snd d) + n) 0 out ≤ services_until 1100 (schedule q).
Proof.
  intros ops. eexists. split; [vm_compute; reflexivity|].
  apply (cell_link 20 [5; 24; 40] 1000 1000 _ ops); [vm_compute; reflexivity| |lia|lia|].
  - cbn. unfold MAX_PACKET. split_and!; try lia; vm_compute; reflexivity.
  - repeat constructor.
Defined.

(** ** The proxy *)

Lemma prune_spec now sched total :
  ∃ missed, sched = missed ++ fst (ProxyQueue.prune now sched total) ∧ Forall (fun s => s < now) missed.
Proof.
  revert total. induction sched as [|s sched IH]; intros total; cbn [ProxyQueue.prune]; [by exists []|].
  destruct (s <? now) eqn:E; [|by exists []]. destruct (IH (u64 (total + 1))) as (missed & Heq & Hm).
  exists (s :: missed). split; [by rewrite Heq at 1|]. constructor; [lia|done].
Qed.

Lemma prune_all now sched total : Forall (fun s => s < now) sched → fst (ProxyQueue.prune now sched total) = [].
Proof.
  revert total. induction sched as [|s sched IH]; intros total Hs; [done|]. cbn [ProxyQueue.prune].
  apply Forall_cons in Hs as [Hs Hss]. z_bools. by apply IH.
Qed.

Lemma proxy_serve_spec now pd sched dv total used :
  ∃ out taken, let '(pd', sched', dv', _, _) := ProxyQueue.serve now pd sched dv total used in
    pd = out ++ pd' ∧ sched = taken ++ sched' ∧ dv' = dv ++ (contents <$> out)
    ∧ length taken = length out ∧ Forall (fun s => s ≤ now) taken.
Proof.
  revert pd dv total used. induction sched as [|s sched IH]; intros pd dv total used.
  { exists [], []. destruct pd; cbn; by rewrite app_nil_r. }
  destruct pd as [|p pd]; cbn [ProxyQueue.serve]; [exists [], []; cbn; by rewrite app_nil_r|].
  destruct (s <=? now) eqn:E; [|exists [], []; cbn; by rewrite app_nil_r].
  destruct (IH pd (vec_push dv (contents p)) (u64 (total + 1)) (u64 (used + 1))) as (out & taken & Hs).
  exists (p :: out), (s :: taken). destruct (ProxyQueue.serve _ _ _ _ _ _) as [[[[pd' sched'] dv'] ?] ?].
  destruct Hs as (-> & -> & -> & Hlen & Hall). cbn. rewrite Hlen. unfold vec_push. rewrite <- app_assoc.
  split_and!; try done. constructor; [lia|done].
Qed.

(** The packet-per-service queue of the proxy is in order too: a tick
    delivers a prefix of what is queued, one packet for one service that is
    due, and skips the services that have passed.  But once the schedule is
    over while packets are queued, [wait_time] reads the front of an empty
    queue. *)
Theorem proxy_queue now (q : ProxyQueue.t) :
  (∃ out missed taken, let q' := ProxyQueue.tick now q in
     ProxyQueue.delivered q' = ProxyQueue.delivered q ++ (contents <$> out)
     ∧ ProxyQueue.pdp q ++ ProxyQueue.delay q = out ++ ProxyQueue.pdp q' ++ ProxyQueue.delay q'
     ∧ ProxyQueue.schedule q = missed ++ taken ++ ProxyQueue.schedule q'
     ∧ length taken = length out ∧ Forall (fun s => s < now) missed ∧ Forall (fun s => s ≤ now) taken)
  ∧ (ProxyQueue.pdp q ≠ [] → Forall (fun s => s < now) (ProxyQueue.schedule q) →
     ProxyQueue.wait_time now q = Fault OutOfRange).
Proof.
  split.
  - unfold ProxyQueue.tick, ProxyQueue.prune_schedule.
    destruct (prune_spec now (ProxyQueue.schedule q) (ProxyQueue.total_occurrences q)) as (missed & Hm & Hall).
    destruct (ProxyQueue.prune _ _ _) as [sched total]. cbn in Hm. cbn -[end_of_delay ProxyQueue.serve].
    destruct (end_of_delay_spec now (ProxyQueue.delay q) (ProxyQueue.pdp q)) as (rel & rest & -> & Hdl & _).
    destruct (proxy_serve_spec now (ProxyQueue.pdp q ++ rel) sched (ProxyQueue.delivered q) total
      (ProxyQueue.used_occurrences q)) as (out & taken & Hs).
    destruct (ProxyQueue.serve _ _ _ _ _ _) as [[[[pd' sched'] dv'] tot'] used'].
    destruct Hs as (Hpd & Hsc & Hdv & Hlen & Htk). exists out, missed, taken. cbv zeta.
    assert (ProxyQueue.pdp q ++ ProxyQueue.delay q = out ++ pd' ++ rest) as Hpk.
    { by rewrite Hdl, app_assoc, Hpd, <- app_assoc. }
    destruct (ProxyQueue.bin_sec q <? now / 1000); cbn; rewrite <- Hsc; by split_and!.
  - intros Hpd Hs. unfold ProxyQueue.wait_time, ProxyQueue.prune_schedule.
    pose proof (prune_all now (ProxyQueue.schedule q) (ProxyQueue.total_occurrences q) Hs) as Hnil.
    destruct (ProxyQueue.prune _ _ _) as [sched total]. cbn in Hnil. subst sched.
    cbn. by destruct (ProxyQueue.pdp q).
Qed.

End CellSimTheorems.
