(* ===== verification/NatcpServer.v ===== *)
(** * The NATCP server and its client

    [src/src/server.cc], [flow.h], [flow.cc] and [client.c]: the request the
    client builds and the server parses, the data thread that streams the
    requested amount, and the control thread that replays a trace of
    bandwidth and delay into socket options.  System calls are arguments:
    the results of [send] and [setsockopt], the readings of the clock; what the
    threads ask of the system is recorded as events. *)

From S2P Require Import Prelude Double TerminalDispatcher.

(** ** The C library's string functions *)

Module CString.
Import Strtol.

(** The string in a character array; one that is not terminated is read
    past its end. *)
Definition of_array (buf : list Z) : result (list Z) :=
  let s := take_while (fun c => negb (c =? 0)) buf in
  if zlen s =? zlen buf then Fault OutOfRange else Ok s.

(** [strtok_r( s, delim, &saveptr )] with a delimiter of one character: the
    token, if there is one, and what [saveptr] points to *)
Definition strtok_r (delim : Z) (s : list Z) : option (list Z) * list Z :=
  match drop (length (take_while (Z.eqb delim) s)) s with
  | [] => (None, [])
  | s' =>
      let token := take_while (fun c => negb (c =? delim)) s' in
      (Some token, drop (length token + 1) s')
  end.

(** [atoi]: [strtol], converted to [int] *)
Definition atoi (s : list Z) : Z := to_int (fst (fst (strtol s))).

(** The same of a pointer that may be null *)
Definition atoi_ptr (s : option (list Z)) : result Z :=
  match s with Some s => Ok (atoi s) | None => Fault NullDeref end.

(** [strtoull( s, &endptr, 10 )]: saturates, and negates modulo 2^64 *)
Definition ULLONG_MAX : Z := 2 ^ 64 - 1.

Definition strtoull (s : list Z) : Z :=
  let s1 := drop (length (take_while is_space s)) s in
  let '(neg, s2) :=
    match s1 with
    | c :: r => if c =? 45 then (true, r) else if c =? 43 then (false, r) else (false, s1)
    | [] => (false, s1)
    end in
  let v := digits_value (take_while is_digit s2) in
  if ULLONG_MAX <? v then ULLONG_MAX else if (neg : bool) then u64 (- v) else v.

Definition strtoull_ptr (s : option (list Z)) : result Z :=
  match s with Some s => Ok (strtoull s) | None => Fault NullDeref end.

(** [strcat( dst, src )] into an array of [cap] characters *)
Definition strcat (cap : Z) (dst src : list Z) : result (list Z) :=
  if zlen dst + zlen src <? cap then Ok (dst ++ src) else Fault OutOfRange.

(** [memset( buf, 0, n )] on an array of [cap] characters: the string in it *)
Definition memset_zero (cap n : Z) : result (list Z) :=
  if n <=? cap then Ok [] else Fault OutOfRange.

End CString.

(** ** Flows ([flow.h], [flow.cc]) *)

Module Flow.

Record sFlowinfo : Set := mkInfo {
  sock : Z;
  flowid : Z;
  src_pod : Z;
  src_edg : Z;
  src_index : Z;
  dst_pod : Z;
  dst_edg : Z;
  dst_index : Z;
  size : Z;
  rem_size : Z }.

Definition Init : sFlowinfo := mkInfo 0 0 0 0 0 0 0 0 0 0.

#[export] Instance sFlowinfo_eta : Eta sFlowinfo := fun i =>
  mkInfo (sock i) (flowid i) (src_pod i) (src_edg i) (src_index i) (dst_pod i) (dst_edg i)
    (dst_index i) (size i) (rem_size i).

Definition set_sock (v : Z) (i : sFlowinfo) : sFlowinfo := ltac:(with_field i sock v).
Definition set_flowid (v : Z) (i : sFlowinfo) : sFlowinfo := ltac:(with_field i flowid v).
Definition set_size (v : Z) (i : sFlowinfo) : sFlowinfo := ltac:(with_field i size v).
Definition set_rem_size (v : Z) (i : sFlowinfo) : sFlowinfo := ltac:(with_field i rem_size v).

(** [Copy], and with it the assignment: member by member *)
Definition Copy (i : sFlowinfo) : sFlowinfo :=
  mkInfo (sock i) (flowid i) (src_pod i) (src_edg i) (src_index i) (dst_pod i) (dst_edg i)
    (dst_index i) (size i) (rem_size i).

Inductive EPrt_State : Set := eInit | eRQ | eSTOP | eGO.

Record cFlow : Set := mk {
  flowinfo : sFlowinfo;
  state : EPrt_State;
  ctr_sock : Z;
  qplus_enable : bool;
  startListening : bool;
  fin_msg_sent : bool;
  done : bool }.

(** The constructors *)
Definition make : cFlow := mk Init eInit 0 false false false false.
Definition of_info (info : sFlowinfo) : cFlow := mk (Copy info) eInit 0 false false false false.

Definition SetFlow (info : sFlowinfo) (f : cFlow) : cFlow :=
  mk (Copy info) (state f) (ctr_sock f) (qplus_enable f) (startListening f) (fin_msg_sent f) (done f).

End Flow.

(** ** The server's globals and its command line *)

Module Server.
Import CString.

Record sTrace : Set := mkTrace {
  time : Double.double;
  bw : Double.double;
  minRtt : Double.double }.

(** What [main] sets from the command line *)
Record config : Set := mkConfig {
  delay_ms : Z;
  trace_file : list Z;
  client_port : Z;
  downlink : list Z;
  uplink : list Z;
  log_file : list Z;
  lag_time : Double.double;
  feedback : Z;
  bw_scale : Double.double;
  cwnd_scale : Double.double;
  codel : Z;
  qsize : Z }.

(** [main]: [None] prints the usage. *)
Definition main (argv : list (list Z)) : option config :=
  match argv with
  | [_; a1; a2; a3; a4; a5; a6; a7; a8; a9; a10; a11; a12] =>
      Some (mkConfig (atoi a1) a2 (atoi a3) a4 a5 a6
        (Double.mul (Double.of_Z 1000) (Double.of_Z (atoi a7)))
        (atoi a8) (Double.of_Z (atoi a9)) (Double.of_Z (atoi a10)) (atoi a11) (atoi a12))
  | _ => None
  end.

(** The globals that the threads share *)
Record globals : Set := mkGlobals {
  start_of_client : Z;
  got_message : bool;
  done : bool }.

Definition initial : globals := mkGlobals 0 false false.

(** *** Reading the trace *)

Definition MAXLINES : Z := 2000000.

(** [sscanf( line, "%lf %lf %lf", ... )]: the values converted before the
    first failure, at most three *)
Class Sscanf := scan_doubles : list Z → list Double.double.

Section trace.
Context `{Sscanf}.

(** The loop over the lines that [fgets] returns.  A line of fewer than
    three numbers is overwritten by the next one. *)
Fixpoint read_trace (lines : list (list Z)) (trace : list sTrace) : result (list sTrace) :=
  match lines with
  | [] => Ok trace
  | line :: lines' =>
      match scan_doubles line with
      | [] => read_trace lines' trace
      | values =>
          if MAXLINES <=? zlen trace then Fault OutOfRange
          else
            match values with
            | [t; b; r] => read_trace lines' (vec_push trace (mkTrace t b r))
            | _ => read_trace lines' trace
            end
      end
  end.

End trace.

(** [fgets] with a buffer of 4096: up to a newline or 4095 characters.  A
    line takes at least one character, so the length is enough fuel. *)
Definition LINE_SIZE : Z := 4096.

Fixpoint fgets (n : nat) (file : list Z) : list Z * list Z :=
  match n, file with
  | S n', c :: file' =>
      if c =? 10 then ([c], file')
      else let '(line, rest) := fgets n' file' in (c :: line, rest)
  | _, _ => ([], file)
  end.

Fixpoint fgets_lines (fuel : nat) (file : list Z) : list (list Z) :=
  match fuel, file with
  | S fuel', _ :: _ =>
      let '(line, rest) := fgets (Z.to_nat (LINE_SIZE - 1)) file in
      line :: fgets_lines fuel' rest
  | _, _ => []
  end.

(** *** [DataThread] *)

Definition BUFSIZ : Z := 8192.

(** The request: whether it is served, the flow and the globals *)
Definition request (read_message : list Z) (flow : Flow.sFlowinfo) (g : globals)
    : result (bool * Flow.sFlowinfo * globals) :=
  let '(src_ip, savePtr) := strtok_r 32 read_message in
  match src_ip with
  | None => Ok (false, flow, g)
  | Some _ =>
      let '(isstr, savePtr) := strtok_r 32 savePtr in
      match isstr with
      | None => Ok (false, flow, g)
      | Some isstr =>
          let flow := Flow.set_flowid (atoi isstr) flow in
          let '(size_, savePtr) := strtok_r 32 savePtr in
          kb ← atoi_ptr size_;
          let flow := Flow.set_size (u32 (to_int (1024 * kb))) flow in
          let '(dst_addr, savePtr) := strtok_r 32 savePtr in
          match dst_addr with
          | None => Ok (false, flow, g)
          | Some _ =>
              let '(time_s_, savePtr) := strtok_r 32 savePtr in
              start ← strtoull_ptr time_s_;
              Ok (true, Flow.set_rem_size (Flow.size flow) flow, mkGlobals start true (done g))
          end
      end
  end.

(** The loops and the rest, from [flowinfo.size], with the [unsigned] and
    [int] arithmetic of the source *)
Definition loop_count (size : Z) : Z := to_int (u32 (size * 1024) / BUFSIZ).

Definition remaining_size (size : Z) : Z :=
  to_int (u32 (u32 (size * 1024) - u32 (to_int (loop_count size * BUFSIZ)))).

(** [while( len > 0 ) len -= send( sock, write_message, n, 0 )]: the calls
    and the results of [send] that are left; [None] while [send] has not
    returned *)
Fixpoint send_buffer (n len : Z) (results : list Z) (calls : list (Z * Z))
    : option (list Z * list (Z * Z)) :=
  if 0 <? len then
    match results with
    | [] => None
    | r :: results' => send_buffer n (to_int (len - r)) results' (calls ++ [(n, r)])
    end
  else Some (results, calls).

Fixpoint send_loops (loop : nat) (results : list Z) (calls : list (Z * Z))
    : option (list Z * list (Z * Z)) :=
  match loop with
  | O => Some (results, calls)
  | S loop' =>
      match send_buffer BUFSIZ BUFSIZ results calls with
      | Some (results, calls) => send_loops loop' results calls
      | None => None
      end
  end.

(** The data: [write_message[ remaining_size ]] must be in the array. *)
Definition send_data (size : Z) (results : list Z) : result (option (list Z * list (Z * Z))) :=
  match send_loops (Z.to_nat (loop_count size)) results [] with
  | None => Ok None
  | Some (results, calls) =>
      if (0 <=? remaining_size size) && (remaining_size size <=? BUFSIZ)
      then Ok (send_buffer (remaining_size size) (remaining_size size) results calls)
      else Fault OutOfRange
  end.

(** How the data thread ends, or that it waits for [send] *)
Inductive data_end : Set :=
| Discarded
| Waiting
| Served (calls : list (Z * Z)).

Definition MESSAGE_SIZE : Z := 1024.

(** [DataThread]; [received] is what [recv] stored in the zeroed message
    array, nothing when it failed. *)
Definition DataThread (received : option (list Z)) (results : list Z) (flow : Flow.sFlowinfo) (g : globals)
    : result (data_end * Flow.sFlowinfo * globals) :=
  match received with
  | None => Ok (Discarded, flow, g)
  | Some bytes =>
      read_message ← of_array (take (Z.to_nat MESSAGE_SIZE)
                       (bytes ++ replicate (Z.to_nat (MESSAGE_SIZE - zlen bytes)) 0));
      '(served, flow, g) ← request read_message flow g;
      if (served : bool) then
        sent ← send_data (Flow.size flow) results;
        match sent with
        | None => Ok (Waiting, flow, g)
        | Some (_, calls) =>
            Ok (Served calls, Flow.set_rem_size 0 flow,
                mkGlobals (start_of_client g) (got_message g) true)
        end
      else Ok (Discarded, flow, g)
  end.

(** *** [CntThread] *)

(** What the control thread asks of the system *)
Inductive socket_option : Set :=
| TCP_NODELAY
| TCP_BBR_BWVAL
| TCP_BBR_TRGTDEL_MS
| TCP_BBR_CWNDRVGAIN
| TCP_BBR_APPLY
| TCP_CWND_CLAMP
| SO_MAX_PACING_RATE.

Inductive event : Set :=
| usleep (us : Z)
| setsockopt (name : socket_option) (value : Z).

(** The clock in a round of the loop, and the results of its calls of
    [setsockopt] *)
Record round : Set := mkRound {
  begin_us : Z;
  end_us : Z;
  ret_bw : Z;
  ret_trgtdel : Z;
  ret_gain : Z;
  ret_apply : Z;
  ret_clamp : Z }.

(** The variables that live across rounds *)
Record control : Set := mkControl {
  it : Z;
  preTime : Double.double;
  fct : Z;
  check : bool }.

Definition million : Double.double := Double.of_Z 1000000.

(** [val1] kbit/s, [val3] octets/s, [val2] us, [val6] and [val4] octets *)
Record values : Set := mkValues {
  val1 : Z;
  val2 : Z;
  val3 : Z;
  val4 : Z;
  val6 : Z }.

(** The bandwidth-delay product in octets, in [int] arithmetic *)
Definition cwnd_clamp (val1 val2 val6 : Z) : Z :=
  to_int (to_int (Z.quot (to_int (val2 * val1)) 8000) * val6).

Definition line_values (cfg : config) (tr : sTrace) : result values :=
  val1 ← Double.to_i32 (Double.mul (Double.mul (bw tr) (Double.of_Z 1000)) (bw_scale cfg));
  let val3 := to_int (val1 * 125) in
  val2 ← Double.to_i32 (Double.add (minRtt tr) (Double.of_Z (to_int (2 * 1000 * delay_ms cfg))));
  val6 ← Double.to_i32 (cwnd_scale cfg);
  Ok (mkValues val1 val2 val3 (cwnd_clamp val1 val2 val6) val6).

(** The options in the order in which they are set *)
Definition apply_values (cfg : config) (v : values) : list event :=
  [setsockopt TCP_BBR_BWVAL (val1 v); setsockopt TCP_BBR_TRGTDEL_MS (val2 v);
   setsockopt TCP_BBR_CWNDRVGAIN (val6 v)]
  ++ (if feedback cfg =? 1 then [setsockopt TCP_BBR_APPLY 0] else [])
  ++ (if feedback cfg =? 3 then [setsockopt TCP_CWND_CLAMP (val4 v)] else [])
  ++ [setsockopt SO_MAX_PACING_RATE (val3 v)].

(** [ret1] and [ret2], the latter overwritten by the third call *)
Definition apply_failed (cfg : config) (r : round) : bool :=
  let ret1 := ret_bw r in
  let ret2 := ret_gain r in
  let ret2 := if feedback cfg =? 1 then ret2 + ret_apply r else ret2 in
  let ret2 := if feedback cfg =? 3 then ret2 + ret_clamp r else ret2 in
  (ret1 <? 0) || (ret2 <? 0).

(** One round of the loop: the events, and the next state unless the thread
    returns *)
Definition control_round (cfg : config) (trace : list sTrace) (bias_time : Double.double)
    (bias_time_scaled : Z) (r : round) (c : control) : result (list event * option control) :=
  tr ← vec_get trace (it c);
  time_scaled ← Double.to_i32 (Double.mul (Double.of_Z 1000) (time tr));
  if time_scaled <=? bias_time_scaled then
    Ok ([], Some (mkControl (it c + 1) bias_time (fct c) false))
  else
    let delta := Double.sub (time tr) (preTime c) in
    offset ← Double.to_i64 (Double.sub (Double.mul delta million) (Double.of_Z (fct c)));
    if offset <? 0 then
      Ok ([], Some (mkControl (it c + 1)
                     (Double.sub (time tr) (Double.div (Double.of_Z offset) million)) 0 false))
    else
      v ← line_values cfg tr;
      let events := usleep (u32 offset) :: apply_values cfg v in
      if apply_failed cfg r then Ok (events, None)
      else
        let fct := u64 (u64 (end_us r - begin_us r) - offset) in
        Ok (events, Some (mkControl (it c + 1) (time tr) fct true)).

(** The loop: the rounds' events with the line they belong to.  Every round
    advances [it], so the number of lines left is enough fuel. *)
Fixpoint control_loop (fuel : nat) (cfg : config) (trace : list sTrace) (bias_time : Double.double)
    (bias_time_scaled : Z) (rounds : Z → round) (c : control) (log : list (Z * list event))
    : result (list (Z * list event) * option control) :=
  if it c <? zlen trace then
    match fuel with
    | O => Fault OutOfFuel
    | S fuel' =>
        '(events, next) ← control_round cfg trace bias_time bias_time_scaled (rounds (it c)) c;
        let log := log ++ [(it c, events)] in
        match next with
        | None => Ok (log, None)
        | Some c => control_loop fuel' cfg trace bias_time bias_time_scaled rounds c log
        end
    end
  else Ok (log, Some c).

(** [CntThread] once [got_message] is set: [initial_timestamp] and
    [timestamp()] in microseconds, the result of the first [setsockopt] *)
Definition CntThread (cfg : config) (trace : list sTrace) (start_of_client initial_timestamp timestamp : Z)
    (nodelay : Z) (rounds : Z → round)
    : result (list event * list (Z * list event) * option control) :=
  let fct_ := u64 (start_of_client - initial_timestamp) in
  let first := [setsockopt TCP_NODELAY 1] in
  if nodelay <? 0 then Ok (first, [], None)
  else
    let setup_time := u64 (timestamp - fct_) in
    let bias_time := Double.add (Double.div (Double.of_Z setup_time) million)
                       (Double.div (Double.of_Z 0) million) in
    bias_time_scaled ← Double.to_i32 (Double.mul bias_time (Double.of_Z 1000));
    lag ← Double.to_u32 (lag_time cfg);
    '(log, last) ← control_loop (length trace) cfg trace bias_time bias_time_scaled rounds
                     (mkControl 0 (Double.of_Z 0) 0 false) [];
    Ok (first ++ [usleep lag], log, last).

End Server.

(** ** The two threads of a connection *)

(** The accesses to the globals that the threads share, one per step. *)
Module Threads.

Inductive data_pc : Set :=
| Receiving
| Parsed (start : Z)
| Stamped (start : Z)
| Sending (start : Z)
| Ended (start : option Z).

Inductive control_pc : Set :=
| Polling
| Released
| Running (start_of_client : Z).

Record state : Set := mkState {
  data : data_pc;
  control : control_pc;
  globals : Server.globals }.

Definition init : state := mkState Receiving Polling Server.initial.

(** The data thread receives and parses the request ([Server.request]),
    then writes [start_of_client], then [got_message]; it sets [done] at the
    end.  The control thread sleeps while [got_message] is not set, then
    reads [start_of_client]. *)
Inductive step : state → state → Prop :=
| receive_served msg flow flow' g' s :
    data s = Receiving → Server.request msg flow (globals s) = Ok (true, flow', g') →
    step s (mkState (Parsed (Server.start_of_client g')) (control s) (globals s))
| receive_discarded s :
    data s = Receiving → step s (mkState (Ended None) (control s) (globals s))
| write_start start s :
    data s = Parsed start →
    step s (mkState (Stamped start) (control s)
             (Server.mkGlobals start (Server.got_message (globals s)) (Server.done (globals s))))
| write_got_message start s :
    data s = Stamped start →
    step s (mkState (Sending start) (control s)
             (Server.mkGlobals (Server.start_of_client (globals s)) true (Server.done (globals s))))
| finish start s :
    data s = Sending start →
    step s (mkState (Ended (Some start)) (control s)
             (Server.mkGlobals (Server.start_of_client (globals s))
                (Server.got_message (globals s)) true))
| poll s :
    control s = Polling → Server.got_message (globals s) = false → step s s
| release s :
    control s = Polling → Server.got_message (globals s) = true →
    step s (mkState (data s) Released (globals s))
| read_start s :
    control s = Released →
    step s (mkState (data s) (Running (Server.start_of_client (globals s))) (globals s)).

End Threads.

(** ** The client ([client.c]) *)

Module Client.
Import CString.

Definition QUERY_SIZE : Z := 50.

(** The strings that are concatenated to the query; [t] is printed into an
    array of 50 characters, of which [snprintf] uses 49. *)
Definition query_parts (arg1 arg2 arg3 arg4 : list Z) (t : Z) : list (list Z) :=
  [arg1; [32]; arg2; [32]; arg3; [32]; arg4; [32]; snprintf 49 (decimal t); [32]; arg3].

(** The calls of [strcat] on an array of [cap] characters *)
Definition build_query (cap : Z) (arg1 arg2 arg3 arg4 : list Z) (t : Z) : result (list Z) :=
  for_each (query_parts arg1 arg2 arg3 arg4 t) (fun part query => strcat cap query part) [].

(** [main], up to the connection: the query that is sent.  [basetime] is
    the number of milliseconds in the file of this name; [None] is a missing
    file or the usage. *)
Definition main (basetime : option Z) (argv : list (list Z)) : result (option (list Z)) :=
  match basetime with
  | None => Ok None
  | Some ms =>
      let start_timestamp := u64 (ms * 1000) in
      match argv with
      | [_; arg1; arg2; arg3; arg4; _] =>
          _ ← memset_zero QUERY_SIZE 150;
          query ← build_query QUERY_SIZE arg1 arg2 arg3 arg4 start_timestamp;
          Ok (Some query)
      | _ => Ok None
      end
  end.

End Client.
