(* ===== verification/NatcpProps.v ===== *)
(** * Properties of the NATCP server and its client *)

From S2P Require Import Prelude Double TerminalDispatcher DispatcherProps NatcpServer.

Module NatcpTheorems.
Import CString Strtol DispatcherLemmas.

(** ** Strings *)

Definition word (s : list Z) : bool :=
  negb (bool_decide (s = [])) && forallb (fun c => negb (c =? 32) && negb (c =? 0)) s.

Lemma word_cons s : word s = true → ∃ c s', s = c :: s' ∧ c ≠ 32 ∧ c ≠ 0
  ∧ forallb (fun c => negb (c =? 32)) s = true ∧ forallb (fun c => negb (c =? 0)) s = true.
Proof.
  unfold word. intros [Hne Hall]%andb_true_iff. destruct s as [|c s]; [done|]. exists c, s.
  assert (forallb (fun c => negb (c =? 32)) (c :: s) = true
    ∧ forallb (fun c => negb (c =? 0)) (c :: s) = true) as [H1 H2].
  { rewrite !forallb_forall in *. split; intros x Hx; specialize (Hall x Hx); cbn in Hall; lia. }
  split_and!; try done; cbn in H1, H2; apply andb_true_iff in H1 as [H1 _], H2 as [H2 _]; lia.
Qed.

Lemma strtok_word tok rest :
  word tok = true → (rest = [] ∨ ∃ r, rest = 32 :: r) →
  strtok_r 32 (tok ++ rest) = (Some tok, drop 1 rest).
Proof.
  intros Hw Hrest. destruct (word_cons tok Hw) as (c & s & -> & Hc & _ & Hsp & _).
  cbn in Hsp. apply andb_true_iff in Hsp as [Hc1 Hs1].
  unfold strtok_r. cbn [app take_while]. rewrite (proj2 (Z.eqb_neq 32 c)) by lia. cbn [length drop].
  rewrite Hc1, take_while_all by (done || by destruct Hrest as [->|[r ->]]). f_equal.
  cbn. by rewrite drop_app_add.
Qed.

Lemma strtok_token tok rest :
  word tok = true → strtok_r 32 (tok ++ 32 :: rest) = (Some tok, rest).
Proof. intros Hw. by rewrite strtok_word by eauto. Qed.

Lemma take_while_none P s : match s with [] => True | c :: _ => P c = false end → take_while P s = [].
Proof. destruct s; cbn; [done|]. by intros ->. Qed.

(** Decimal numbers are words and are read back by [strtoull]. *)
Lemma decimal_digits n :
  0 ≤ n → ∃ c s, decimal n = c :: s ∧ is_digit c = true ∧ forallb is_digit (c :: s) = true.
Proof.
  intros Hn. destruct (decimal_spec n Hn) as [Hv Hd].
  destruct (decimal n) as [|c s] eqn:E.
  - change (digits_value []) with 0 in Hv. by subst n.
  - exists c, s. split_and!; [done| |done]. cbn in Hd. by apply andb_true_iff in Hd as [? _].
Qed.

Lemma decimal_word n : 0 ≤ n → word (decimal n) = true.
Proof.
  intros Hn. destruct (decimal_digits n Hn) as (c & s & -> & _ & Hd). unfold word.
  apply andb_true_iff. split; [done|]. rewrite forallb_forall in *. intros x Hx. specialize (Hd x Hx).
  unfold is_digit in Hd. lia.
Qed.

Lemma strtoull_decimal n : 0 ≤ n < 2 ^ 64 → strtoull (decimal n) = n.
Proof.
  intros Hn. destruct (decimal_spec n) as [Hv _]; [lia|].
  destruct (decimal_digits n) as (c & s & Heq & Hc & Hd); [lia|]. rewrite Heq in *.
  unfold strtoull. cbn [take_while]. rewrite digit_not_space by done. cbn [length drop].
  assert (c ≠ 45 ∧ c ≠ 43) as [? ?] by (unfold is_digit in Hc; lia). z_bools.
  pose proof (take_while_all is_digit (c :: s) [] Hd I) as Ht. rewrite app_nil_r in Ht.
  rewrite Ht, Hv. unfold ULLONG_MAX. z_bools. done.
Qed.

(** ** The request *)

Lemma strcat_parts cap parts q :
  (∃ r, for_each parts (fun part query => strcat cap query part) q = Ok r) ↔
  (parts = [] ∨ zlen q + zlen (concat parts) < cap).
Proof.
  revert q. induction parts as [|p parts IH]; intros q; cbn [for_each concat].
  { split; [by left|]. eauto. }
  rewrite zlen_app. pose proof (zlen_nonneg (concat parts)).
  rewrite (eq_refl : strcat cap q p = if zlen q + zlen p <? cap then Ok (q ++ p) else Fault OutOfRange).
  destruct (zlen q + zlen p <? cap) eqn:E; cbn [mbind result_bind].
  - rewrite IH, zlen_app. split; [intros [->|?]|intros [?|?]]; try done.
    + right. change (zlen (concat [])) with 0. lia.
    + right. lia.
    + right. lia.
  - split; [by intros [r ?]|]. intros [?|?]; [done|]. lia.
Qed.

Lemma strcat_result cap parts q r :
  for_each parts (fun part query => strcat cap query part) q = Ok r → r = q ++ concat parts.
Proof.
  revert q. induction parts as [|p parts IH]; intros q; cbn [for_each concat].
  { rewrite app_nil_r. by intros [= ->]. }
  rewrite (eq_refl : strcat cap q p = if zlen q + zlen p <? cap then Ok (q ++ p) else Fault OutOfRange).
  destruct (_ <? _); [|done]. cbn [mbind result_bind]. intros ->%IH.
  by rewrite app_assoc.
Qed.

Lemma strcat_fault cap parts q :
  let built := for_each parts (fun part query => strcat cap query part) q in
  (∃ r, built = Ok r) ∨ built = Fault OutOfRange.
Proof.
  cbv zeta. revert q. induction parts as [|p parts IH]; intros q; cbn [for_each]; [by left; eauto|].
  rewrite (eq_refl : strcat cap q p = if zlen q + zlen p <? cap then Ok (q ++ p) else Fault OutOfRange).
  destruct (_ <? _); [apply IH|by right].
Qed.

Lemma digits_value_lt s : forallb is_digit s = true → digits_value s < 10 ^ zlen s.
Proof.
  induction s as [|c s IH]; intros Hs; [done|]. cbn in Hs. apply andb_true_iff in Hs as [Hc Hs].
  rewrite digits_value_cons, zlen_cons, Z.pow_add_r by (pose proof (zlen_nonneg s); lia).
  unfold is_digit in Hc. specialize (IH Hs). assert (c - 48 ≤ 9) by lia.
  assert ((c - 48) * 10 ^ zlen s ≤ 9 * 10 ^ zlen s) by (apply Z.mul_le_mono_nonneg_r; lia). lia.
Qed.

Lemma decimal_length_ge n k : 0 ≤ k → 10 ^ k ≤ n → k < zlen (decimal n).
Proof.
  intros Hk Hn. assert (0 ≤ n) by lia. destruct (decimal_spec n) as [Hv Hd]; [done|].
  pose proof (digits_value_lt _ Hd) as Hlt. rewrite Hv in Hlt.
  apply (Z.pow_lt_mono_r_iff 10); [lia|apply zlen_nonneg|lia].
Qed.

(** The length of a query, from the lengths of the arguments and of the
    time stamp *)
Definition query_length (arg1 arg2 arg3 arg4 : list Z) (t : Z) : Z :=
  zlen arg1 + zlen arg2 + 2 * zlen arg3 + zlen arg4 + zlen (snprintf 49 (decimal t)) + 5.

Lemma build_query_spec cap arg1 arg2 arg3 arg4 t :
  (∃ q, Client.build_query cap arg1 arg2 arg3 arg4 t = Ok q) ↔ query_length arg1 arg2 arg3 arg4 t < cap.
Proof.
  unfold Client.build_query. rewrite strcat_parts. unfold Client.query_parts, query_length.
  cbn [concat]. rewrite !zlen_app. change (zlen [32]) with 1. change (zlen []) with 0.
  split; [intros [?|?]; [done|lia]|intros; right; lia].
Qed.

Lemma build_query_result cap arg1 arg2 arg3 arg4 t q :
  0 ≤ t < 2 ^ 64 → Client.build_query cap arg1 arg2 arg3 arg4 t = Ok q →
  q = arg1 ++ 32 :: arg2 ++ 32 :: arg3 ++ 32 :: arg4 ++ 32 :: decimal t ++ 32 :: arg3.
Proof.
  intros Ht ->%strcat_result. unfold Client.query_parts. cbn [concat app].
  rewrite snprintf_short; [by rewrite app_nil_r|].
  pose proof (decimal_length t 20). change (10 ^ 20) with 100000000000000000000 in *. lia.
Qed.

Lemma of_array_string q n :
  forallb (fun c => negb (c =? 0)) q = true → zlen q < n →
  of_array (take (Z.to_nat n) (q ++ replicate (Z.to_nat (n - zlen q)) 0)) = Ok q.
Proof.
  intros Hq Hn. pose proof (zlen_nonneg q). rewrite take_ge.
  2:{ rewrite length_app, length_replicate. unfold zlen in *. lia. }
  assert (∃ k, Z.to_nat (n - zlen q) = S k) as [k ->] by (exists (Z.to_nat (n - zlen q - 1)); lia).
  unfold of_array. cbn [replicate]. rewrite take_while_all by done.
  rewrite zlen_app, zlen_cons. pose proof (zlen_nonneg (replicate k 0)). by z_bools.
Qed.

(** C33.  The server understands the client's request.  When the arguments
    of the client are words and its query fits the buffer it is built in and
    the server's, the server's tokenizer returns the client's arguments: the
    flow has the client's flow id and the requested size in units of 1024,
    the start time is the client's time stamp, exactly, and the control
    thread is released. *)
Theorem request_roundtrip cap arg1 arg2 arg3 arg4 t q flow g :
  word arg1 = true → word arg2 = true → word arg3 = true → word arg4 = true →
  0 ≤ t < 2 ^ 64 → Client.build_query cap arg1 arg2 arg3 arg4 t = Ok q →
  zlen q < Server.MESSAGE_SIZE →
  let size := u32 (to_int (1024 * atoi arg3)) in
  of_array (take (Z.to_nat Server.MESSAGE_SIZE)
    (q ++ replicate (Z.to_nat (Server.MESSAGE_SIZE - zlen q)) 0)) = Ok q
  ∧ Server.request q flow g =
    Ok (true,
        Flow.set_rem_size size (Flow.set_size size (Flow.set_flowid (atoi arg2) flow)),
        Server.mkGlobals t true (Server.done g)).
Proof.
  intros H1 H2 H3 H4 Ht Hq Hlen size. apply build_query_result in Hq as ->; [|done]. split.
  - apply of_array_string; [|done].
    pose proof (decimal_word t ltac:(lia)) as Hd.
    apply word_cons in H1 as (? & ? & _ & _ & _ & _ & H1), H2 as (? & ? & _ & _ & _ & _ & H2),
      H3 as (? & ? & _ & _ & _ & _ & H3), H4 as (? & ? & _ & _ & _ & _ & H4),
      Hd as (? & ? & _ & _ & _ & _ & Hd).
    repeat (rewrite forallb_app; apply andb_true_iff; split; [assumption|]; cbn [forallb];
      apply andb_true_iff; split; [done|]). done.
  - unfold Server.request. do 5 rewrite strtok_token by first [done|by apply decimal_word; lia].
    cbn [atoi_ptr strtoull_ptr mbind result_bind]. rewrite strtoull_decimal by done. done.
Qed.

Lemma request_roundtrip_witness :
  let q := bytes_of_string "10.0.0.1 7 27 10.0.0.2 1570000000123000 27" in
  Server.request q Flow.Init Server.initial
  = Ok (true, Flow.set_rem_size 27648 (Flow.set_size 27648 (Flow.set_flowid 7 Flow.Init)),
        Server.mkGlobals 1570000000123000 true false).
Proof.
  apply (request_roundtrip Client.QUERY_SIZE (bytes_of_string "10.0.0.1") (bytes_of_string "7")
    (bytes_of_string "27") (bytes_of_string "10.0.0.2") 1570000000123000); vm_compute; try reflexivity.
  split; [discriminate|reflexivity].
Defined.

(** Words with a space between them *)
Fixpoint unwords (ws : list (list Z)) : list Z :=
  match ws with
  | [] => []
  | [w] => w
  | w :: ws' => w ++ 32 :: unwords ws'
  end.

Lemma strtok_unwords w ws : word w = true → strtok_r 32 (unwords (w :: ws)) = (Some w, unwords ws).
Proof.
  intros Hw. destruct ws as [|w' ws]; [|by apply strtok_token].
  rewrite <- (app_nil_r (unwords [w])). by apply strtok_word; [|left].
Qed.

(** What the server makes of a request of any number of words.  A
    request of none, one or three words is discarded, one of five or more
    is served with its second, third and fifth words; the checks are missing
    where they matter: a request of two or of four words passes a null
    pointer to [atoi] or [strtoull] and brings the server down. *)
Theorem request_by_words ws flow g :
  Forall (fun w => word w = true) ws →
  let size kb := u32 (to_int (1024 * atoi kb)) in
  Server.request (unwords ws) flow g =
  match ws with
  | [] | [_] => Ok (false, flow, g)
  | [_; _] => Fault NullDeref
  | [_; id; kb] => Ok (false, Flow.set_size (size kb) (Flow.set_flowid (atoi id) flow), g)
  | [_; _; _; _] => Fault NullDeref
  | _ :: id :: kb :: _ :: t :: _ =>
      Ok (true, Flow.set_rem_size (size kb) (Flow.set_size (size kb) (Flow.set_flowid (atoi id) flow)),
          Server.mkGlobals (strtoull t) true (Server.done g))
  end.
Proof.
  intros Hws size. unfold Server.request.
  destruct ws as [|a ws]; [done|]. apply Forall_cons in Hws as [Ha Hws]. rewrite strtok_unwords by done.
  destruct ws as [|b ws]; [done|]. apply Forall_cons in Hws as [Hb Hws]. rewrite strtok_unwords by done.
  destruct ws as [|c ws]; [done|]. apply Forall_cons in Hws as [Hc Hws]. rewrite strtok_unwords by done.
  destruct ws as [|d ws]; [done|]. apply Forall_cons in Hws as [Hd Hws]. rewrite strtok_unwords by done.
  destruct ws as [|e ws]; [done|]. apply Forall_cons in Hws as [He Hws]. rewrite strtok_unwords by done.
  done.
Qed.

Lemma request_by_words_witness :
  Server.request (unwords [bytes_of_string "10.0.0.1"; bytes_of_string "7"]) Flow.Init Server.initial
  = Fault NullDeref.
Proof.
  apply (request_by_words [bytes_of_string "10.0.0.1"; bytes_of_string "7"] Flow.Init Server.initial).
  repeat constructor.
Defined.

(** The client's query buffer.  The query is built exactly when it has
    fewer characters than the buffer; the one of 50 characters is too small
    for the call the server makes (an address of ten characters, flow 1,
    size 2700, and a time stamp of today in microseconds), and clearing it
    writes past its end in every run: with its five arguments the client
    never gets as far as sending a query without undefined behaviour. *)
Theorem client_query_overrun arg1 arg2 arg3 arg4 :
  (∀ cap t, (∃ q, Client.build_query cap arg1 arg2 arg3 arg4 t = Ok q)
            ↔ query_length arg1 arg2 arg3 arg4 t < cap)
  ∧ (∀ t, zlen arg1 = 10 → zlen arg2 = 1 → zlen arg3 = 4 → zlen arg4 = 10 → 10 ^ 15 ≤ t < 10 ^ 16 →
       Client.build_query Client.QUERY_SIZE arg1 arg2 arg3 arg4 t = Fault OutOfRange)
  ∧ (∀ ms arg0 arg5,
       Client.main (Some ms) [arg0; arg1; arg2; arg3; arg4; arg5] = Fault OutOfRange).
Proof.
  split_and!.
  - intros cap t. apply build_query_spec.
  - intros t H1 H2 H3 H4 Ht. destruct (strcat_fault Client.QUERY_SIZE
      (Client.query_parts arg1 arg2 arg3 arg4 t) []) as [[q Hq]|Hf]; [|exact Hf].
    exfalso. assert (query_length arg1 arg2 arg3 arg4 t < Client.QUERY_SIZE) as Hlt.
    { apply build_query_spec. by exists q. }
    pose proof (decimal_length t 16 ltac:(lia) ltac:(lia)) as Hup.
    pose proof (decimal_length_ge t 15 ltac:(lia) ltac:(lia)) as Hlow.
    revert Hlt. unfold query_length, Client.QUERY_SIZE. rewrite snprintf_short by lia. lia.
  - intros ms arg0 arg5. reflexivity.
Qed.

(** ** The data *)

Definition total_size (size : Z) : Z := u32 (size * 1024).

Lemma data_split size :
  0 ≤ Server.loop_count size
  ∧ 0 ≤ Server.remaining_size size < Server.BUFSIZ
  ∧ Server.loop_count size * Server.BUFSIZ + Server.remaining_size size = total_size size.
Proof.
  unfold Server.remaining_size, Server.loop_count, total_size, Server.BUFSIZ.
  pose proof (uwrap_range 32 (size * 1024) ltac:(lia)) as Ht. set (n := u32 (size * 1024)) in *.
  pose proof (Z.div_mod n 8192 ltac:(lia)). pose proof (Z.mod_pos_bound n 8192 ltac:(lia)).
  assert (0 ≤ n / 8192 < 2 ^ 19) by (split; [apply Z.div_pos|apply Z.div_lt_upper_bound]; lia).
  rewrite (to_int_small (n / 8192)) by lia.
  assert (u32 (to_int (n / 8192 * 8192)) = n / 8192 * 8192) as ->.
  { unfold to_int, uwrap. rewrite Zminus_mod, Zmod_mod, <- Zminus_mod.
    replace (n / 8192 * 8192 + 2 ^ 31 - 2 ^ 31) with (n / 8192 * 8192) by lia. apply Z.mod_small. lia. }
  rewrite (uwrap_small 32), to_int_small by lia. lia.
Qed.

(** The octets that [send] accepted *)
Definition accepted (calls : list (Z * Z)) : Z := foldr (fun c n => snd c + n) 0 calls.

Lemma accepted_app c1 c2 : accepted (c1 ++ c2) = accepted c1 + accepted c2.
Proof. unfold accepted. induction c1 as [|c c1 IH]; cbn; lia. Qed.

(** Calls that did not take more than was offered, and that took it all *)
Definition offered (c : Z * Z) : Prop := snd c ≤ fst c.
Definition complete (c : Z * Z) : Prop := snd c = fst c.

(** One buffer of [n] octets, of which [len] are still counted as unsent *)
Lemma send_buffer_spec n len results calls :
  n ≤ Server.BUFSIZ → - Server.BUFSIZ ≤ len ≤ n →
  Forall (fun r => 1 ≤ r ≤ Server.BUFSIZ) results → len ≤ zlen results →
  ∃ new left, Server.send_buffer n len results calls = Some (left, calls ++ new)
    ∧ results = (snd <$> new) ++ left ∧ zlen new ≤ Z.max 0 len ∧ len ≤ accepted new
    ∧ (len ≤ 0 → accepted new = 0)
    ∧ (0 < len → Forall offered new → accepted new ≤ len - 1 + n)
    ∧ (0 < len → Forall complete new → accepted new = n).
Proof.
  unfold Server.BUFSIZ. intros Hn. revert len calls. induction results as [|r results IH]; intros len calls Hlen Hr Hl.
  - change (zlen []) with 0 in Hl. exists [], []. cbn. z_bools.
    rewrite app_nil_r. change (zlen []) with 0. split_and!; (done || lia).
  - inversion Hr as [|?? Hr1 Hrs]; subst. rewrite zlen_cons in Hl. cbn [Server.send_buffer].
    destruct (0 <? len) eqn:E; z_props.
    + rewrite to_int_small by lia.
      destruct (IH (len - r) (calls ++ [(n, r)])) as (new & left & Heq & Hres & Hnew & Hge & Hzero & Hoff & Hcomp);
        [lia|done|lia|].
      exists ((n, r) :: new), left. rewrite Heq, <- app_assoc.
      change (accepted ((n, r) :: new)) with (r + accepted new). rewrite zlen_cons.
      split_and!; try done; try lia.
      * by rewrite Hres.
      * intros _ [Ho Ho']%Forall_cons. cbn in Ho. destruct (decide (0 < len - r)); [specialize (Hoff ltac:(done) Ho'); lia|].
        rewrite Hzero by lia. unfold offered in Ho. cbn in Ho. lia.
      * intros _ [Ho Ho']%Forall_cons. unfold complete in Ho. cbn in Ho. rewrite Hzero by lia. lia.
    + exists [], (r :: results). rewrite app_nil_r. cbn. change (zlen []) with 0. split_and!; (done || lia).
Qed.

Lemma send_loops_spec k results calls :
  Forall (fun r => 1 ≤ r ≤ Server.BUFSIZ) results → Z.of_nat k * Server.BUFSIZ ≤ zlen results →
  ∃ new left, Server.send_loops k results calls = Some (left, calls ++ new)
    ∧ results = (snd <$> new) ++ left ∧ zlen new ≤ Z.of_nat k * Server.BUFSIZ
    ∧ Z.of_nat k * Server.BUFSIZ ≤ accepted new
    ∧ (Forall offered new → accepted new ≤ 2 * (Z.of_nat k * Server.BUFSIZ))
    ∧ (Forall complete new → accepted new = Z.of_nat k * Server.BUFSIZ).
Proof.
  revert results calls. induction k as [|k IH]; intros results calls Hr Hl.
  - exists [], results. cbn. rewrite app_nil_r. by split_and!.
  - unfold Server.BUFSIZ in *. cbn [Server.send_loops].
    destruct (send_buffer_spec 8192 8192 results calls) as (n1 & l1 & Heq1 & Hres1 & Hn1 & Hge1 & _ & Ho1 & Hc1);
      unfold Server.BUFSIZ; [lia|lia|done|lia|].
    unfold Server.BUFSIZ. rewrite Heq1.
    assert (zlen results = zlen n1 + zlen l1) as Hlen.
    { rewrite Hres1, zlen_app. unfold zlen. by rewrite length_fmap. }
    destruct (IH l1 (calls ++ n1)) as (n2 & l2 & Heq2 & Hres2 & Hn2 & Hge2 & Ho2 & Hc2).
    { rewrite Hres1 in Hr. by apply Forall_app in Hr as [_ ?]. }
    { lia. }
    exists (n1 ++ n2), l2. rewrite Heq2, app_assoc, zlen_app, accepted_app. split_and!; try done; try lia.
    + by rewrite fmap_app, <- (app_assoc _ _ l2), <- Hres2.
    + intros [Ha Hb]%Forall_app. specialize (Ho1 ltac:(lia) Ha). specialize (Ho2 Hb). lia.
    + intros [Ha Hb]%Forall_app. specialize (Hc1 ltac:(lia) Ha). specialize (Hc2 Hb). lia.
Qed.

Lemma request_total kb :
  0 ≤ kb < 2 ^ 21 → total_size (u32 (to_int (1024 * kb))) = (kb * 2 ^ 20) mod 2 ^ 32.
Proof.
  intros Hkb. rewrite to_int_small, (uwrap_small 32 (1024 * kb)) by lia. unfold total_size, uwrap.
  f_equal. lia.
Qed.

(** [fgets] splits a line off the file, and the lines of the file are the
    file: its length is enough rounds. *)
Lemma fgets_splits n file : let '(line, rest) := Server.fgets n file in
  file = line ++ rest ∧ (length line ≤ n)%nat ∧ (n ≠ O → file ≠ [] → line ≠ []).
Proof.
  revert file. induction n as [|n IH]; intros [|c file]; cbn; try (split_and!; [done|lia|done]).
  destruct (c =? 10); [by split_and!; [|cbn; lia|]|].
  specialize (IH file). destruct (Server.fgets n file) as [line rest].
  destruct IH as (-> & Hn & _). by split_and!; [|cbn; lia|].
Qed.

Lemma fgets_lines_complete fuel file : (length file ≤ fuel)%nat →
  concat (Server.fgets_lines fuel file) = file
  ∧ Forall (fun line => line ≠ [] ∧ zlen line < Server.LINE_SIZE) (Server.fgets_lines fuel file).
Proof.
  revert file. induction fuel as [|fuel IH]; intros [|c file] Hf; cbn in Hf; try done; [lia|].
  cbn [Server.fgets_lines].
  pose proof (fgets_splits (Z.to_nat (Server.LINE_SIZE - 1)) (c :: file)) as Hs.
  destruct (Server.fgets _ _) as [line rest]. destruct Hs as (Hsplit & Hn & Hne).
  pose proof (Hne ltac:(done) ltac:(done)) as Hline.
  apply (f_equal length) in Hsplit as Hlen. rewrite length_app in Hlen. cbn in Hlen.
  destruct line as [|c' line]; [done|]. cbn in Hlen.
  destruct (IH rest ltac:(lia)) as [Hc Hall]. cbn [concat]. rewrite Hc. split; [done|].
  constructor; [|done]. split; [done|]. unfold zlen, Server.LINE_SIZE in *. lia.
Qed.


(** A failing [send] keeps the data thread in its loop: each result -1
    adds to the count of octets that are still to be sent, so that however
    many calls fail (before the count overflows), the thread calls again. *)
Theorem send_failure_loops (n : Z) (k : nat) calls :
  0 < n → n + Z.of_nat k < 2 ^ 31 → Server.send_buffer n n (replicate k (-1)) calls = None.
Proof.
  intros Hn. assert (∀ len calls, 0 < len → len + Z.of_nat k < 2 ^ 31 →
    Server.send_buffer n len (replicate k (-1)) calls = None) as Hgen; [|by apply Hgen].
  clear calls. induction k as [|k IH]; intros len calls Hlen Hk; cbn [replicate Server.send_buffer]; z_bools; [done|].
  rewrite to_int_small by lia. apply IH; lia.
Qed.


Lemma send_failure_loops_witness :
  Server.send_buffer Server.BUFSIZ Server.BUFSIZ (replicate 1000 (-1)) [] = None.
Proof. apply (send_failure_loops Server.BUFSIZ 1000 []); unfold Server.BUFSIZ; lia. Defined.

(** ** The control thread *)

Section control.
Context (cfg : Server.config) (trace : list Server.sTrace) (bias_time : Double.double) (bias_scaled : Z).
Implicit Types (c : Server.control) (log : list (Z * list Server.event)).

(** What a round does for line [i]: nothing, or a sleep and the options with
    the values of the line *)
Definition round_events (i : Z) (events : list Server.event) : Prop :=
  events = [] ∨ ∃ tr v us, vec_get trace i = Ok tr ∧ Server.line_values cfg tr = Ok v
    ∧ events = Server.usleep us :: Server.apply_values cfg v.

Lemma to_range_fault lo hi x f : Double.to_range lo hi x = Fault f → f = BadConversion.
Proof.
  unfold Double.to_range. destruct (Double.trunc x); [destruct (_ && _)|]; intros Hf; by simplify_eq.
Qed.

Lemma line_values_fault tr f : Server.line_values cfg tr = Fault f → f = BadConversion.
Proof.
  unfold Server.line_values.
  destruct (Double.to_i32 (Double.mul _ _)) as [v1|f1] eqn:E1; cbn [mbind result_bind];
    [|intros Hf; simplify_eq; exact (to_range_fault _ _ _ _ E1)].
  destruct (Double.to_i32 (Double.add _ _)) as [v2|f2] eqn:E2; cbn [mbind result_bind];
    [|intros Hf; simplify_eq; exact (to_range_fault _ _ _ _ E2)].
  destruct (Double.to_i32 (Server.cwnd_scale cfg)) as [v3|f3] eqn:E3; cbn [mbind result_bind]; [done|].
  intros Hf. simplify_eq. exact (to_range_fault _ _ _ _ E3).
Qed.

Lemma control_round_spec r c :
  0 ≤ Server.it c < zlen trace →
  match Server.control_round cfg trace bias_time bias_scaled r c with
  | Ok (events, next) =>
      round_events (Server.it c) events
      ∧ match next with
        | Some c' => Server.it c' = Server.it c + 1
        | None => Server.apply_failed cfg r = true
        end
  | Fault f => f = BadConversion
  end.
Proof.
  intros Hit. destruct (lookup_lt_is_Some_2 trace (Z.to_nat (Server.it c))) as [tr Htr]; [unfold zlen in *; lia|].
  assert (vec_get trace (Server.it c) = Ok tr) as Hget by (apply vec_get_Ok; split; [lia|done]).
  unfold Server.control_round. rewrite Hget. cbn [mbind result_bind].
  destruct (Double.to_i32 _) as [ts|] eqn:E1; cbn [mbind result_bind]; [|exact (to_range_fault _ _ _ _ E1)].
  destruct (ts <=? bias_scaled); [by split; [left|]|]. cbv zeta.
  destruct (Double.to_i64 _) as [offset|] eqn:E2; cbn [mbind result_bind]; [|exact (to_range_fault _ _ _ _ E2)].
  destruct (offset <? 0); [by split; [left|]|].
  destruct (Server.line_values cfg tr) as [v|] eqn:E3; cbn [mbind result_bind]; [|exact (line_values_fault _ _ E3)].
  assert (round_events (Server.it c) (Server.usleep (u32 offset) :: Server.apply_values cfg v)) as Hev.
  { right. by exists tr, v, (u32 offset). }
  by destruct (Server.apply_failed cfg r) eqn:E4; split.
Qed.

Lemma control_loop_spec (rounds : Z → Server.round) fuel c log :
  0 ≤ Server.it c ≤ zlen trace → zlen trace - Server.it c ≤ Z.of_nat fuel →
  match Server.control_loop fuel cfg trace bias_time bias_scaled rounds c log with
  | Ok (log', last) => ∃ new, log' = log ++ new
      ∧ Forall (fun '(i, events) => round_events i events) new
      ∧ match last with
        | Some c' => Server.it c' = zlen trace
            ∧ fst <$> new = seqZ (Server.it c) (zlen trace - Server.it c)
        | None => ∃ n, 1 ≤ n ≤ zlen trace - Server.it c ∧ fst <$> new = seqZ (Server.it c) n
            ∧ Server.apply_failed cfg (rounds (Server.it c + n - 1)) = true
        end
  | Fault f => f = BadConversion
  end.
Proof.
  revert c log. induction fuel as [|fuel IH]; intros c log Hit Hfuel; cbn [Server.control_loop].
  { rewrite (proj2 (Z.ltb_ge _ _)) by lia. exists []. rewrite app_nil_r, seqZ_nil by lia.
    split_and!; (done || lia). }
  destruct (Server.it c <? zlen trace) eqn:E; z_props.
  2:{ exists []. rewrite app_nil_r, seqZ_nil by lia. split_and!; (done || lia). }
  pose proof (control_round_spec (rounds (Server.it c)) c ltac:(lia)) as Hround.
  destruct (Server.control_round _ _ _ _ _ _) as [[events next]|f]; cbn [mbind result_bind]; [|done].
  destruct Hround as [Hev Hnext]. destruct next as [c'|].
  - specialize (IH c' (log ++ [(Server.it c, events)]) ltac:(lia) ltac:(lia)).
    destruct (Server.control_loop _ _ _ _ _ _ _ _) as [[log' last]|f]; [|done].
    destruct IH as (new & -> & Hall & Hlast). exists ((Server.it c, events) :: new).
    rewrite <- app_assoc. split_and!; [done|by constructor|]. rewrite Hnext in Hlast.
    destruct last as [cl|].
    + destruct Hlast as [-> Hseq]. split; [done|]. cbn. rewrite Hseq, (seqZ_cons (Server.it c)) by lia.
      f_equal. f_equal; lia.
    + destruct Hlast as (n & Hn & Hseq & Hfail). exists (n + 1). split_and!; [lia|lia| |].
      * cbn. rewrite Hseq, (seqZ_cons (Server.it c)) by lia. f_equal. f_equal; lia.
      * by replace (Server.it c + (n + 1) - 1) with (Server.it c + 1 + n - 1) by lia.
  - exists [(Server.it c, events)]. split_and!; [done|by apply Forall_singleton|].
    exists 1. split_and!; [lia|lia|done|]. by replace (Server.it c + 1 - 1) with (Server.it c) by lia.
Qed.


End control.

(** A trace of two lines: 12 Mbit/s with 20 ms, then 6 Mbit/s with 40 ms *)
Definition sample_trace : list Server.sTrace :=
  [Server.mkTrace (Double.of_Z 1) (Double.of_Z 12) (Double.of_Z 20000);
   Server.mkTrace (Double.of_Z 2) (Double.of_Z 6) (Double.of_Z 40000)].

Definition sample_config : Server.config :=
  Server.mkConfig 5 [] 5000 [] [] [] (Double.of_Z 1000) 3 (Double.of_Z 1) (Double.of_Z 2) 2 100.

Definition sample_round (i : Z) : Server.round := Server.mkRound (i * 1000000) (i * 1000000 + 1000007) 0 0 0 0 0.


(** The options of these lines, evaluated: the pacing rate is the bandwidth
    in octets per second, the clamp twice the bandwidth-delay product. *)
Example sample_options :
  Server.CntThread sample_config sample_trace 1000 0 1000 0 sample_round
  = Ok ([Server.setsockopt Server.TCP_NODELAY 1; Server.usleep 1000],
        [(0, [Server.usleep 1000000; Server.setsockopt Server.TCP_BBR_BWVAL 12000;
              Server.setsockopt Server.TCP_BBR_TRGTDEL_MS 30000;
              Server.setsockopt Server.TCP_BBR_CWNDRVGAIN 2;
              Server.setsockopt Server.TCP_CWND_CLAMP 90000;
              Server.setsockopt Server.SO_MAX_PACING_RATE 1500000]);
         (1, [Server.usleep 999993; Server.setsockopt Server.TCP_BBR_BWVAL 6000;
              Server.setsockopt Server.TCP_BBR_TRGTDEL_MS 50000;
              Server.setsockopt Server.TCP_BBR_CWNDRVGAIN 2;
              Server.setsockopt Server.TCP_CWND_CLAMP 75000;
              Server.setsockopt Server.SO_MAX_PACING_RATE 750000])],
        Some (Server.mkControl 2 (Double.of_Z 2) 14 true)).
Proof. vm_compute. reflexivity. Qed.



(** ** The two threads *)

Definition data_start (d : Threads.data_pc) : option Z :=
  match d with
  | Threads.Receiving => None
  | Threads.Parsed s | Threads.Stamped s | Threads.Sending s => Some s
  | Threads.Ended o => o
  end.

Definition stamped (d : Threads.data_pc) : bool :=
  match d with
  | Threads.Stamped _ | Threads.Sending _ | Threads.Ended (Some _) => true
  | _ => false
  end.

Definition announced (d : Threads.data_pc) : bool :=
  match d with Threads.Sending _ | Threads.Ended (Some _) => true | _ => false end.

(** What holds between the program counters and the globals *)
Definition threads_ok (s : Threads.state) : Prop :=
  Server.got_message (Threads.globals s) = announced (Threads.data s)
  ∧ (stamped (Threads.data s) = true →
       data_start (Threads.data s) = Some (Server.start_of_client (Threads.globals s)))
  ∧ match Threads.control s with
    | Threads.Polling => True
    | Threads.Released => announced (Threads.data s) = true
    | Threads.Running start =>
        announced (Threads.data s) = true ∧ data_start (Threads.data s) = Some start
    end.

Lemma threads_step s s' : threads_ok s → Threads.step s s' → threads_ok s'.
Proof.
  intros (Hg & Hst & Hc) Hstep. unfold threads_ok.
  destruct Hstep as [msg flow flow' g' s Hd Hreq|s Hd|start s Hd|start s Hd|start s Hd|s Hp Hm|s Hp Hm|s Hp];
    cbn; try rewrite Hd in *; try rewrite Hp in *; cbn in *; try done.
  all: split_and!; try done; try (by intros; apply Hst); try congruence.
  all: try (destruct (Threads.control s); naive_solver).
  all: destruct (Threads.data s) as [| | | |[]]; naive_solver.
Qed.

(** The control thread never uses an unset start time.  In every
    interleaving of the accesses of the two threads to the globals they share
    without a lock, the control thread leaves its polling loop only after the
    data thread has stored the start time of an accepted request, and the
    value it then reads is the one of that request. *)
Theorem control_reads_start s start :
  rtc Threads.step Threads.init s → Threads.control s = Threads.Running start →
  data_start (Threads.data s) = Some start ∧ Server.got_message (Threads.globals s) = true.
Proof.
  intros Hsteps Hrun. assert (threads_ok s) as (Hg & _ & Hc).
  { assert (threads_ok Threads.init) as Hinit by done. revert Hinit. clear Hrun.
    induction Hsteps as [s|s s1 s2 Hstep _ IH]; [done|]. intros Hok. by eapply IH, threads_step. }
  rewrite Hrun in Hc. destruct Hc as [Ha Hs]. by rewrite Hg.
Qed.

Lemma control_reads_start_witness :
  let g := Server.mkGlobals 77 true false in
  let s := Threads.mkState (Threads.Sending 77) (Threads.Running 77) g in
  data_start (Threads.data s) = Some 77 ∧ Server.got_message (Threads.globals s) = true.
Proof.
  intros g s. apply (control_reads_start s 77); [|reflexivity].
  eapply rtc_l. { eapply (Threads.receive_served (bytes_of_string "a 1 2 b 77") Flow.Init);
    [reflexivity|vm_compute; reflexivity]. }
  eapply rtc_l. { apply (Threads.write_start 77). reflexivity. }
  eapply rtc_l. { apply (Threads.write_got_message 77). reflexivity. }
  eapply rtc_l. { apply Threads.release; reflexivity. }
  eapply rtc_l. { apply Threads.read_start. reflexivity. }
  apply rtc_refl.
Defined.

End NatcpTheorems.
