(* ===== verification/NatcpStart.v ===== *)
(** * How the NATCP programs start and how the client ends

    [start_server] of [src/src/server.cc]: the trace, the command that runs
    mahimahi and the client in it, and the loop that accepts connections and
    starts their threads; and the loops of [client.c] behind the connection.
    Results of system calls are arguments. *)

From S2P Require Import Prelude Double TerminalDispatcher DispatcherProps NatcpServer.

Module Startup.
Import Server.

(** ** The command *)

Definition CMD_SIZE : Z := 1000.

(** The arguments of mm-link for one direction *)
Definition queue_args (direction discipline : string) (args : list Z) : list Z :=
  bytes_of_string " --" ++ bytes_of_string direction ++ bytes_of_string "-queue=" ++ bytes_of_string discipline
  ++ bytes_of_string " --" ++ bytes_of_string direction ++ bytes_of_string "-queue-args=" ++ [34] ++ args ++ [34].

(** The options of the queues: CoDel, a FIFO, or none *)
Definition queues (cfg : config) : list Z :=
  let packets := bytes_of_string "packets=" ++ decimal (qsize cfg) in
  if codel cfg =? 1 then
    let args := bytes_of_string "interval=100, target=5, " ++ packets in
    queue_args "uplink" "codel" args ++ queue_args "downlink" "codel" args
  else if codel cfg =? 2 then queue_args "uplink" "droptail" packets ++ queue_args "downlink" "droptail" packets
  else [].

Definition traces : list Z := bytes_of_string " /usr/local/share/mahimahi/traces/".

Definition command (cfg : config) : list Z :=
  bytes_of_string "sudo -u `logname` mm-delay " ++ decimal (delay_ms cfg) ++ bytes_of_string " mm-link"
  ++ traces ++ uplink cfg ++ traces ++ downlink cfg
  ++ bytes_of_string " --once --uplink-log=up-" ++ log_file cfg ++ bytes_of_string " --downlink-log=down-" ++ log_file cfg
  ++ queues cfg
  ++ bytes_of_string " -- sh -c 'sudo ./client $MAHIMAHI_BASE 1 2700 100.64.0.4 " ++ decimal (client_port cfg)
  ++ bytes_of_string "' &".

(** [sprintf] into an array of [cap] characters *)
Definition sprintf (cap : Z) (s : list Z) : result (list Z) := if zlen s <? cap then Ok s else Fault OutOfRange.

(** ** The connections *)

(** A thread that was asked for: its function, the socket, and what
    [pthread_create] returned.  The control threads are given the same [info],
    in which the next connection overwrites the socket; [main] asks for one
    flow. *)
Inductive thread : Set :=
| CntThread (sock ret : Z)
| DataThread (flow_index sock ret : Z).

(** What [accept] returned, and [pthread_create] for either thread *)
Record attempt : Set := mkAttempt { value : Z; cnt_ret : Z; data_ret : Z }.

Inductive start_end : Set := NotStarted | Waiting | AcceptFailed | ThreadFailed | Joined.

(** The loop, with the flows and the threads so far *)
Fixpoint accept_loop (cfg : config) (flow_num flow_index : Z) (attempts : list attempt) (flows : list Flow.cFlow)
    (threads : list thread) : result (start_end * list Flow.cFlow * list thread) :=
  if flow_index <? flow_num then
    match attempts with
    | [] => Ok (Waiting, flows, threads)
    | a :: attempts =>
        if value a <? 0 then Ok (AcceptFailed, flows, threads)
        else
          let with_control := negb (feedback cfg =? 0) in
          let threads := if with_control then threads ++ [CntThread (value a) (cnt_ret a)] else threads in
          if with_control && (cnt_ret a <? 0) then Ok (ThreadFailed, flows, threads)
          else
            f ← vec_get flows flow_index;
            flows ← vec_set flows flow_index (Flow.SetFlow (Flow.set_sock (value a) (Flow.flowinfo f)) f);
            let threads := threads ++ [DataThread flow_index (value a) (data_ret a)] in
            if data_ret a <? 0 then Ok (ThreadFailed, flows, threads)
            else accept_loop cfg flow_num (flow_index + 1) attempts flows threads
    end
  else Ok (Joined, flows, threads).

(** What [start_server] leaves: how it ended, the trace, the command that ran,
    flows and threads.  [file], the contents of the trace file if it opens;
    [socket] and [bind], whether they succeed *)
Definition start_server `{Sscanf} (cfg : config) (flow_num : Z) (file : option (list Z)) (socket bind : bool)
    (attempts : list attempt) : result (start_end * list sTrace * list Z * list Flow.cFlow * list thread) :=
  match file with
  | None => Ok (NotStarted, [], [], [], [])
  | Some file =>
      trace ← read_trace (fgets_lines (length file) file) [];
      let flows := replicate (Z.to_nat flow_num) Flow.make in
      if negb socket || negb bind then Ok (NotStarted, trace, [], flows, [])
      else
        cmd ← sprintf CMD_SIZE (command cfg);
        '(e, flows, threads) ← accept_loop cfg flow_num 0 attempts flows [];
        Ok (e, trace, cmd, flows, threads)
  end.

(** ** The client, connected *)

(** The query is sent from its beginning again until the results of [send]
    add up to its length; nothing while it waits for [send] *)
Definition send_query (query : list Z) (results : list Z) : option (list Z * list (Z * Z)) :=
  send_buffer (zlen query) (zlen query) results [].

(** The octets received until [recv] returns zero or an error; nothing while
    it waits *)
Fixpoint receive (results : list Z) (received : Z) : option Z :=
  match results with
  | [] => None
  | len :: results => if len <=? 0 then Some received else receive results (received + len)
  end.
End Startup.

(** ** Properties *)

Module StartupTheorems.
Import Server Startup.

Definition names (cfg : config) : Z := zlen (uplink cfg) + zlen (downlink cfg) + 2 * zlen (log_file cfg).

(** The threads of the connections from the [i]-th flow on *)
Fixpoint asked (cfg : config) (i : Z) (attempts : list attempt) : list thread :=
  match attempts with
  | [] => []
  | a :: l =>
      (if feedback cfg =? 0 then [] else [CntThread (value a) (cnt_ret a)])
      ++ DataThread i (value a) (data_ret a) :: asked cfg (i + 1) l
  end.

(** [accept] succeeds; [pthread_create] returns zero or the number of an
    error, which is positive. *)
Definition attempt_ok (a : attempt) : Prop := 0 ≤ value a ∧ 0 ≤ cnt_ret a ∧ 0 ≤ data_ret a.

Definition with_sock (v : Z) : Flow.cFlow := Flow.SetFlow (Flow.set_sock v Flow.Init) Flow.make.

Lemma accept_loop_spec cfg attempts : ∀ done_ threads, Forall attempt_ok attempts →
  let n := zlen done_ in
  accept_loop cfg (n + zlen attempts) n attempts (done_ ++ replicate (length attempts) Flow.make) threads
    = Ok (Joined, done_ ++ map (fun a => with_sock (value a)) attempts, threads ++ asked cfg n attempts).
Proof.
  induction attempts as [|a l IH]; intros done_ threads Hok; cbv zeta; cbn [accept_loop].
  - rewrite (proj2 (Z.ltb_ge _ _)) by (rewrite zlen_nil; lia). cbn. by rewrite !app_nil_r.
  - apply Forall_cons in Hok as [(Hv & Hc & Hd) Hok]. pose proof (zlen_nonneg l).
    rewrite zlen_cons. rewrite (proj2 (Z.ltb_lt _ _)) by lia.
    rewrite !(proj2 (Z.ltb_ge _ 0)) by done. rewrite andb_false_r. cbn [length replicate].
    assert (vec_get (done_ ++ Flow.make :: replicate (length l) Flow.make) (zlen done_) = Ok Flow.make) as ->.
    { unfold vec_get. rewrite (proj2 (Z.ltb_ge _ _)) by apply zlen_nonneg. unfold zlen. rewrite Nat2Z.id.
      by rewrite list_lookup_middle. }
    cbn [mbind result_bind]. rewrite vec_set_Ok by (rewrite zlen_app, zlen_cons; pose proof (zlen_nonneg done_);
      pose proof (zlen_nonneg (replicate (length l) Flow.make)); lia). cbn [mbind result_bind].
    unfold zlen at 4. rewrite Nat2Z.id. rewrite insert_app_r_alt, Nat.sub_diag by done. cbn [insert list_insert].
    change (Flow.SetFlow _ _) with (with_sock (value a)).
    specialize (IH (done_ ++ [with_sock (value a)]) ((if negb (feedback cfg =? 0) then threads ++ [CntThread (value a) (cnt_ret a)]
      else threads) ++ [DataThread (zlen done_) (value a) (data_ret a)]) Hok).
    cbv zeta in IH. rewrite zlen_app in IH. change (zlen [with_sock (value a)]) with 1 in IH.
    rewrite <- (app_assoc done_) in IH. cbn [app] in IH.
    replace (zlen done_ + (1 + zlen l)) with (zlen done_ + 1 + zlen l) by lia. rewrite IH. cbn [map asked].
    rewrite <- app_assoc. cbn [app]. do 2 f_equal. destruct (feedback cfg =? 0); cbn [negb app]; by rewrite <- !app_assoc.
Qed.

Lemma command_length cfg : 0 ≤ delay_ms cfg < 2 ^ 31 → 0 ≤ qsize cfg < 2 ^ 31 → 0 ≤ client_port cfg < 2 ^ 31 →
  200 + names cfg ≤ zlen (command cfg) ≤ 500 + names cfg.
Proof.
  intros H1 H2 H3. pose proof (decimal_length (delay_ms cfg) 10 ltac:(lia) ltac:(lia)).
  pose proof (decimal_length (qsize cfg) 10 ltac:(lia) ltac:(lia)).
  pose proof (decimal_length (client_port cfg) 10 ltac:(lia) ltac:(lia)).
  pose proof (zlen_nonneg (decimal (delay_ms cfg))). pose proof (zlen_nonneg (decimal (client_port cfg))).
  pose proof (zlen_nonneg (decimal (qsize cfg))). unfold names, command.
  assert (0 ≤ zlen (queues cfg) ≤ 240) as Hq.
  { unfold queues, queue_args. cbv zeta. split_ifs; rewrite ?zlen_app;
      repeat match goal with |- context [zlen (bytes_of_string ?s)] =>
        let n := eval vm_compute in (zlen (bytes_of_string s)) in change (zlen (bytes_of_string s)) with n end;
      change (zlen [34]) with 1; [lia|lia|]. change (zlen []) with 0. lia. }
  unfold traces. rewrite !zlen_app.
  repeat match goal with |- context [zlen (bytes_of_string ?s)] =>
    let n := eval vm_compute in (zlen (bytes_of_string s)) in change (zlen (bytes_of_string s)) with n end. lia.
Qed.


#[local] Instance no_numbers : Sscanf := fun _ => [].


(** The client sends its query at least once, and when [send] takes all of it
    exactly once. *)
Lemma query_once query results : 0 < zlen query < 2 ^ 31 →
  send_query query (zlen query :: results) = Some (results, [(zlen query, zlen query)]).
Proof.
  intros Hq. unfold send_query. cbn [send_buffer]. rewrite (proj2 (Z.ltb_lt _ _)) by lia.
  rewrite Z.sub_diag. change (to_int 0) with 0. by destruct results.
Qed.

(** A failed call makes the loop longer: after an error the whole query is
    sent once more than it would be, and one more octet is waited for. *)
Lemma query_again query results : 0 < zlen query < 2 ^ 31 - 1 →
  send_query query (-1 :: zlen query :: 1 :: results) = Some (results, [(zlen query, -1); (zlen query, zlen query); (zlen query, 1)]).
Proof.
  intros Hq. unfold send_query. cbn [send_buffer]. rewrite (proj2 (Z.ltb_lt _ _)) by lia.
  rewrite (to_int_small (zlen query - -1)), (proj2 (Z.ltb_lt _ _)) by lia.
  replace (zlen query - -1 - zlen query) with 1 by lia. change (to_int 1) with 1. cbn. by destruct results.
Qed.
End StartupTheorems.
