(* ===== verification/CryptoOcb.v ===== *)
(** * Authenticated encryption

    [src/alfalfa/src/crypto/ocb.cc] in the configuration of its first lines:
    AES of OpenSSL, four blocks per call ([BPI]), tags of sixteen octets
    and a table of sixteen [L] values.  The block type is the portable
    one of two 64-bit words, for either byte order of the machine ([little]).

    A pointer into the plaintext is the text and a block index; a read
    outside the text is a fault.  Output is returned as a list of octets. *)

From S2P Require Import Prelude TransportFragment Octets.

(** AES as OpenSSL provides it: a key schedule is represented by the key it
    was computed from; the functions map sixteen octets to sixteen octets. *)
Class AES := {
  AES_encrypt : list Z → list Z → list Z;
  AES_decrypt : list Z → list Z → list Z }.

(** Sixteen octets are mapped to sixteen octets, and decryption inverts
    encryption. *)
Definition block_octets (b : list Z) : Prop := length b = 16%nat ∧ Forall octet b.

Class AESLaws `{AES} : Prop := {
  AES_encrypt_octets key b : block_octets key → block_octets b → block_octets (AES_encrypt key b);
  AES_decrypt_octets key b : block_octets key → block_octets b → block_octets (AES_decrypt key b);
  AES_decrypt_encrypt key b : block_octets key → block_octets b → AES_decrypt key (AES_encrypt key b) = b }.

Module Ocb.

(** ** Blocks *)

Record block : Set := mkBlock { l : Z; r : Z }.

#[export] Instance block_eq_dec : EqDecision block.
Proof. solve_decision. Defined.

Definition xor_block (x y : block) : block := mkBlock (Z.lxor (l x) (l y)) (Z.lxor (r x) (r y)).
Definition zero_block : block := mkBlock 0 0.
Definition unequal_blocks (x y : block) : bool :=
  negb (Z.lor (Z.lxor (l x) (l y)) (Z.lxor (r x) (r y)) =? 0).

(** The octets of an unsigned integer, least significant first *)
Definition le_bytes (n : nat) (x : Z) : list Z := reverse (be_bytes n x).
Definition le_value (bs : list Z) : Z := be_value (reverse bs).

(** [bswap64]: the octets in the opposite order *)
Definition bswap64 (x : Z) : Z := le_value (be_bytes 8 x).

Definition double_block (b : block) : block :=
  let t := if Z.testbit (l b) 63 then u64 (-1) else 0 in
  mkBlock (Z.lxor (u64 (l b + l b)) (Z.shiftr (r b) 63))
          (Z.lxor (u64 (r b + r b)) (Z.land t 135)).

(** [ntz], the number of trailing zeros of an [unsigned]; the builtin
    is undefined at zero *)
Fixpoint trailing_zeros (p : positive) : Z :=
  match p with xO p' => 1 + trailing_zeros p' | _ => 0 end.

Definition ntz (x : Z) : result Z :=
  match u32 x with Z.pos p => Ok (trailing_zeros p) | _ => Fault OutOfRange end.

Definition BPI : Z := 4.
Definition L_TABLE_SZ : nat := 16.
Definition OCB_TAG_LEN : Z := 16.

Definition AE_SUCCESS : Z := 0.
Definition AE_INVALID : Z := -1.
Definition AE_NOT_SUPPORTED : Z := -2.

(** [struct _ae_ctx] *)
Record ae_ctx : Set := mkCtx {
  offset : block;
  checksum : block;
  Lstar : block;
  Ldollar : block;
  L : list block;
  ad_checksum : block;
  ad_offset : block;
  cached_Top : block;
  KtopStr : Z * Z * Z;
  ad_blocks_processed : Z;
  blocks_processed : Z;
  decrypt_key : list Z;
  encrypt_key : list Z }.

#[export] Instance ae_ctx_eta : Eta ae_ctx := fun c =>
  mkCtx (offset c) (checksum c) (Lstar c) (Ldollar c) (L c) (ad_checksum c) (ad_offset c)
    (cached_Top c) (KtopStr c) (ad_blocks_processed c) (blocks_processed c) (decrypt_key c) (encrypt_key c).

Definition set_offset (v : block) (c : ae_ctx) : ae_ctx := ltac:(with_field c offset v).
Definition set_checksum (v : block) (c : ae_ctx) : ae_ctx := ltac:(with_field c checksum v).
Definition set_ad_checksum (v : block) (c : ae_ctx) : ae_ctx := ltac:(with_field c ad_checksum v).
Definition set_ad_offset (v : block) (c : ae_ctx) : ae_ctx := ltac:(with_field c ad_offset v).
Definition set_cached_Top (v : block) (c : ae_ctx) : ae_ctx := ltac:(with_field c cached_Top v).
Definition set_KtopStr (v : Z * Z * Z) (c : ae_ctx) : ae_ctx := ltac:(with_field c KtopStr v).
Definition set_ad_blocks_processed (v : Z) (c : ae_ctx) : ae_ctx := ltac:(with_field c ad_blocks_processed v).
Definition set_blocks_processed (v : Z) (c : ae_ctx) : ae_ctx := ltac:(with_field c blocks_processed v).

Section ocb.
Context (little : bool) `{aes : AES}.

(** A block in memory, and how it is loaded *)
Definition to_memory (b : block) : list Z :=
  if little then le_bytes 8 (l b) ++ le_bytes 8 (r b) else be_bytes 8 (l b) ++ be_bytes 8 (r b).

Definition of_memory (u8 : list Z) : block :=
  if little then mkBlock (le_value (take 8 u8)) (le_value (drop 8 u8))
  else mkBlock (be_value (take 8 u8)) (be_value (drop 8 u8)).

Definition swap_if_le (b : block) : block :=
  if little then mkBlock (bswap64 (l b)) (bswap64 (r b)) else b.

(** [n] octets at a pointer, and the block [p[ i ]] *)
Definition read_bytes (p : list Z) (off n : Z) : result (list Z) :=
  if (0 <=? off) && (0 <=? n) && (off + n <=? zlen p)
  then Ok (take (Z.to_nat n) (drop (Z.to_nat off) p)) else Fault OutOfRange.

Definition block_at (p : list Z) (i : Z) : result block := of_memory <$> read_bytes p (16 * i) 16.

Definition encrypt_blk (key : list Z) (b : block) : block := of_memory (AES_encrypt key (to_memory b)).
Definition decrypt_blk (key : list Z) (b : block) : block := of_memory (AES_decrypt key (to_memory b)).

(** [while (nblks) { --nblks; ... }], in place *)
Fixpoint AES_ecb_encrypt_blks (blks : list block) (nblks : nat) (key : list Z) : list block :=
  match nblks with
  | O => blks
  | S n => AES_ecb_encrypt_blks (alter (encrypt_blk key) n blks) n key
  end.

Fixpoint AES_ecb_decrypt_blks (blks : list block) (nblks : nat) (key : list Z) : list block :=
  match nblks with
  | O => blks
  | S n => AES_ecb_decrypt_blks (alter (decrypt_blk key) n blks) n key
  end.

(** [KtopStr] is register correct, the result memory correct *)
Definition gen_offset (K : Z * Z * Z) (bot : Z) : block :=
  let '(K0, K1, K2) := K in
  let rval :=
    if negb (bot =? 0)
    then mkBlock (Z.lor (u64 (Z.shiftl K0 bot)) (Z.shiftr K1 (64 - bot)))
                 (Z.lor (u64 (Z.shiftl K1 bot)) (Z.shiftr K2 (64 - bot)))
    else mkBlock K0 K1 in
  swap_if_le rval.

Definition getL (ctx : ae_ctx) (tz : Z) : result block := vec_get (L ctx) tz.

(** ** Initialization *)

Definition ae_clear : ae_ctx :=
  mkCtx zero_block zero_block zero_block zero_block (replicate L_TABLE_SZ zero_block)
    zero_block zero_block zero_block (0, 0, 0) 0 0 [] [].

(** The loop that fills [L] from the block [tmp_blk] of the entry before *)
Fixpoint l_table (n : nat) (tmp_blk : block) : list block :=
  match n with
  | O => []
  | S n' => let tmp_blk := double_block tmp_blk in swap_if_le tmp_blk :: l_table n' tmp_blk
  end.

(** [key_len] and [tag_len] are fixed by the configuration. *)
Definition ae_init (ctx : ae_ctx) (key : list Z) (key_len nonce_len tag_len : Z) : Z * ae_ctx :=
  if negb (nonce_len =? 12) then (AE_NOT_SUPPORTED, ctx)
  else
    let ekey := take 16 key in
    let lstar := encrypt_blk ekey zero_block in
    let tmp_blk := double_block (swap_if_le lstar) in
    let ldollar := swap_if_le tmp_blk in
    (AE_SUCCESS,
     mkCtx (offset ctx) (checksum ctx) lstar ldollar (l_table L_TABLE_SZ tmp_blk)
       zero_block (ad_offset ctx) zero_block (KtopStr ctx) 0 (blocks_processed ctx) ekey ekey).

(** The offset of a nonce of twelve octets, and the updated cache.  The
    octets of [tmp] are those of its 32-bit words in memory. *)
Definition gen_offset_from_nonce (ctx : ae_ctx) (nonce : list Z) : result (block * ae_ctx) :=
  n ← read_bytes nonce 0 12;
  let tmp := [0; 0; 0; 1] ++ n in
  u15 ← vec_get tmp 15;
  let idx := Z.land u15 0x3f in
  tmp ← vec_set tmp 15 (Z.land u15 0xc0);
  let bl := of_memory tmp in
  let ctx :=
    if unequal_blocks bl (cached_Top ctx) then
      let k := swap_if_le (of_memory (AES_encrypt (encrypt_key ctx) tmp)) in
      let K2 := Z.lxor (Z.lxor (l k) (u64 (Z.shiftl (l k) 8))) (Z.shiftr (r k) 56) in
      set_KtopStr (l k, r k, K2) (set_cached_Top bl ctx)
    else ctx in
  Ok (gen_offset (KtopStr ctx) idx, ctx).

(** ** Associated data *)

(** Four blocks per round: the block number, offset and checksum *)
Fixpoint ad_loop (i : nat) (ctx : ae_ctx) (ad : list Z) (adp : Z) (ad_block_num : Z)
    (ad_offset ad_checksum : block) : result (Z * Z * block * block) :=
  match i with
  | O => Ok (adp, ad_block_num, ad_offset, ad_checksum)
  | S i' =>
      let ad_block_num := u32 (ad_block_num + BPI) in
      tz ← ntz ad_block_num;
      L0 ← vec_get (L ctx) 0;
      L1 ← vec_get (L ctx) 1;
      let oa0 := xor_block ad_offset L0 in
      a0 ← block_at ad adp;
      let oa1 := xor_block oa0 L1 in
      a1 ← block_at ad (adp + 1);
      let oa2 := xor_block ad_offset L1 in
      a2 ← block_at ad (adp + 2);
      Lz ← getL ctx tz;
      let ad_offset := xor_block oa2 Lz in
      a3 ← block_at ad (adp + 3);
      let ta := AES_ecb_encrypt_blks
                  [xor_block oa0 a0; xor_block oa1 a1; xor_block oa2 a2; xor_block ad_offset a3]
                  4 (encrypt_key ctx) in
      ad_loop i' ctx ad (adp + BPI) ad_block_num ad_offset (fold_left xor_block ta ad_checksum)
  end.

(** The last block, filled up with a one bit and zeros *)
Definition pad_block (bytes : list Z) : block :=
  of_memory (<[length bytes := 0x80]> (bytes ++ drop (length bytes) (to_memory zero_block))).

(** What is left of the associated data behind the last group of four: its
    whole blocks, *)
Definition ad_remaining_blocks (ctx : ae_ctx) (ad : list Z) (adp remaining : Z) (ad_offset : block)
    : result (list block * Z * block * Z) :=
  L0 ← vec_get (L ctx) 0;
  '(ta, k, ad_offset, remaining) ←
    (if 32 <=? remaining then
       let ad_offset := xor_block ad_offset L0 in
       a0 ← block_at ad adp;
       tz ← ntz (0 + 2);
       Lz ← getL ctx tz;
       let ad_offset1 := xor_block ad_offset Lz in
       a1 ← block_at ad (adp + 1);
       Ok ([xor_block ad_offset a0; xor_block ad_offset1 a1], 2, ad_offset1, remaining - 32)
     else Ok ([], 0, ad_offset, remaining));
  if 16 <=? remaining then
    let ad_offset := xor_block ad_offset L0 in
    a ← block_at ad (adp + k);
    Ok (ta ++ [xor_block ad_offset a], k + 1, ad_offset, remaining - 16)
  else Ok (ta, k, ad_offset, remaining).

(** and the rest *)
Definition ad_remaining (ctx : ae_ctx) (ad : list Z) (adp remaining : Z) (ad_offset ad_checksum : block)
    : result block :=
  '(ta, k, ad_offset, remaining) ← ad_remaining_blocks ctx ad adp remaining ad_offset;
  '(ta, k) ←
    (if negb (remaining =? 0) then
       let ad_offset := xor_block ad_offset (Lstar ctx) in
       bytes ← read_bytes ad (16 * (adp + k)) remaining;
       Ok (ta ++ [xor_block ad_offset (pad_block bytes)], k + 1)
     else Ok (ta, k));
  let ta := AES_ecb_encrypt_blks ta (Z.to_nat k) (encrypt_key ctx) in
  Ok (fold_left xor_block (reverse ta) ad_checksum).

Definition process_ad (ctx : ae_ctx) (ad : list Z) (ad_len : Z) (final : bool) : result ae_ctx :=
  let i := u32 (Z.quot ad_len (BPI * 16)) in
  '(adp, ctx) ←
    (if negb (i =? 0) then
       '(adp, n, o, c) ← ad_loop (Z.to_nat i) ctx ad 0 (ad_blocks_processed ctx) (ad_offset ctx) (ad_checksum ctx);
       Ok (adp, set_ad_checksum c (set_ad_offset o (set_ad_blocks_processed n ctx)))
     else Ok (0, ctx));
  if final then
    let remaining := u32 ad_len mod (BPI * 16) in
    if negb (remaining =? 0) then
      c ← ad_remaining ctx ad adp remaining (ad_offset ctx) (ad_checksum ctx);
      Ok (set_ad_checksum c ctx)
    else Ok ctx
  else Ok ctx.

(** ** Encryption *)

(** A non-null nonce starts a new message. *)
Definition start_message (ctx : ae_ctx) (nonce : option (list Z)) (ad_len : Z) : result ae_ctx :=
  match nonce with
  | None => Ok ctx
  | Some nonce =>
      '(o, ctx) ← gen_offset_from_nonce ctx nonce;
      let ctx := set_checksum zero_block (set_ad_offset zero_block (set_offset o ctx)) in
      let ctx := set_blocks_processed 0 (set_ad_blocks_processed 0 ctx) in
      Ok (if 0 <=? ad_len then set_ad_checksum zero_block ctx else ctx)
  end.

(** The offsets of a group of four blocks *)
Definition group_offsets (ctx : ae_ctx) (oa3 : block) (block_num : Z) : result (list block) :=
  L0 ← vec_get (L ctx) 0;
  L1 ← vec_get (L ctx) 1;
  let oa0 := xor_block oa3 L0 in
  let oa1 := xor_block oa0 L1 in
  let oa2 := xor_block oa1 L0 in
  tz ← ntz block_num;
  Lz ← getL ctx tz;
  Ok [oa0; oa1; oa2; xor_block oa2 Lz].

Definition four_blocks (p : list Z) (i : Z) : result (list block) :=
  b0 ← block_at p i;
  b1 ← block_at p (i + 1);
  b2 ← block_at p (i + 2);
  b3 ← block_at p (i + 3);
  Ok [b0; b1; b2; b3].

Definition oa_last (oa : list block) (offset : block) : block := default offset (last oa).

Fixpoint encrypt_loop (i : nat) (ctx : ae_ctx) (pt : list Z) (ptp : Z) (block_num : Z)
    (offset checksum : block) (ct : list Z) : result (Z * Z * block * block * list Z) :=
  match i with
  | O => Ok (ptp, block_num, offset, checksum, ct)
  | S i' =>
      let block_num := u32 (block_num + BPI) in
      oa ← group_offsets ctx offset block_num;
      p ← four_blocks pt ptp;
      let checksum := fold_left xor_block p checksum in
      let ta := AES_ecb_encrypt_blks (zip_with xor_block oa p) 4 (encrypt_key ctx) in
      let out := zip_with xor_block ta oa in
      encrypt_loop i' ctx pt (ptp + BPI) block_num (oa_last oa offset) checksum
        (ct ++ concat (to_memory <$> out))
  end.

(** The whole blocks behind the last group: their offsets [oa], their
    contents, and what is left *)
Definition remaining_blocks (ctx : ae_ctx) (p : list Z) (ptp remaining : Z) (offset : block)
    : result (list block * list block * block * Z) :=
  L0 ← vec_get (L ctx) 0;
  L1 ← vec_get (L ctx) 1;
  '(oa, bs, offset, remaining) ←
    (if 32 <=? remaining then
       let oa0 := xor_block offset L0 in
       b0 ← block_at p ptp;
       let oa1 := xor_block oa0 L1 in
       b1 ← block_at p (ptp + 1);
       Ok ([oa0; oa1], [b0; b1], oa1, remaining - 32)
     else Ok ([], [], offset, remaining));
  if 16 <=? remaining then
    let o := xor_block offset L0 in
    b ← block_at p (ptp + zlen oa);
    Ok (oa ++ [o], bs ++ [b], o, remaining - 16)
  else Ok (oa, bs, offset, remaining).

(** The end of the plaintext: the octets of the last blocks, and the tag *)
Definition encrypt_final (ctx : ae_ctx) (pt : list Z) (ptp pt_len : Z) (offset checksum : block)
    : result (list Z * block) :=
  let remaining := u32 pt_len mod (BPI * 16) in
  '(oa, bs, offset, remaining) ←
    (if negb (remaining =? 0) then remaining_blocks ctx pt ptp remaining offset
     else Ok ([], [], offset, remaining));
  let ta := zip_with xor_block oa bs in
  let k := zlen oa in
  let checksum := fold_left xor_block bs checksum in
  '(tmp, ta, offset, checksum) ←
    (if negb (remaining =? 0) then
       bytes ← read_bytes pt (16 * (ptp + k)) remaining;
       let tmp := pad_block bytes in
       let offset := xor_block offset (Lstar ctx) in
       Ok (tmp, ta ++ [offset], offset, xor_block checksum tmp)
     else Ok (zero_block, ta, offset, checksum));
  let offset := xor_block offset (Ldollar ctx) in
  let n := zlen ta in
  let ta := AES_ecb_encrypt_blks (ta ++ [xor_block offset checksum]) (Z.to_nat (n + 1)) (encrypt_key ctx) in
  t ← vec_get ta n;
  let tag := xor_block t (ad_checksum ctx) in
  last ←
    (if negb (remaining =? 0) then
       t ← vec_get ta k;
       Ok (take (Z.to_nat remaining) (to_memory (xor_block tmp t)))
     else Ok []);
  Ok (concat (to_memory <$> zip_with xor_block (take (Z.to_nat k) ta) oa) ++ last, tag).

(** What the call wrote: the ciphertext, with the tag behind it unless the
    caller gave a place for the tag *)
Record output : Set := mkOutput {
  text : list Z;
  tag_out : option (list Z);
  ret : Z }.

Definition ae_encrypt (ctx : ae_ctx) (nonce : option (list Z)) (pt : list Z) (pt_len : Z)
    (ad : list Z) (ad_len : Z) (tag_given final : bool) : result (output * ae_ctx) :=
  ctx ← start_message ctx nonce ad_len;
  ctx ← (if 0 <? ad_len then process_ad ctx ad ad_len final else Ok ctx);
  let i := u32 (Z.quot pt_len (BPI * 16)) in
  '(ptp, ct, ctx) ←
    (if negb (i =? 0) then
       '(ptp, n, o, c, ct) ← encrypt_loop (Z.to_nat i) ctx pt 0 (blocks_processed ctx) (offset ctx) (checksum ctx) [];
       Ok (ptp, ct, set_checksum c (set_blocks_processed n (set_offset o ctx)))
     else Ok (0, [], ctx));
  if final then
    '(rest, tag) ← encrypt_final ctx pt ptp pt_len (offset ctx) (checksum ctx);
    Ok (if (tag_given : bool)
        then mkOutput (ct ++ rest) (Some (to_memory tag)) pt_len
        else mkOutput (ct ++ rest ++ to_memory tag) None (to_int (pt_len + OCB_TAG_LEN)), ctx)
  else Ok (mkOutput ct None pt_len, ctx).

(** ** Decryption *)

Fixpoint decrypt_loop (i : nat) (ctx : ae_ctx) (ct : list Z) (ctp : Z) (block_num : Z)
    (offset checksum : block) (pt : list Z) : result (Z * Z * block * block * list Z) :=
  match i with
  | O => Ok (ctp, block_num, offset, checksum, pt)
  | S i' =>
      let block_num := u32 (block_num + BPI) in
      oa ← group_offsets ctx offset block_num;
      c ← four_blocks ct ctp;
      let ta := AES_ecb_decrypt_blks (zip_with xor_block oa c) 4 (decrypt_key ctx) in
      let p := zip_with xor_block ta oa in
      decrypt_loop i' ctx ct (ctp + BPI) block_num (oa_last oa offset) (fold_left xor_block p checksum)
        (pt ++ concat (to_memory <$> p))
  end.

(** The end of the ciphertext: the octets of the plaintext, and the tag that
    is expected *)
Definition decrypt_final (ctx : ae_ctx) (ct : list Z) (ctp ct_len : Z) (offset checksum : block)
    : result (list Z * block) :=
  let remaining := u32 ct_len mod (BPI * 16) in
  '(oa, bs, offset, remaining) ←
    (if negb (remaining =? 0) then remaining_blocks ctx ct ctp remaining offset
     else Ok ([], [], offset, remaining));
  let k := zlen oa in
  '(last, offset, checksum) ←
    (if negb (remaining =? 0) then
       let offset := xor_block offset (Lstar ctx) in
       let pad := encrypt_blk (encrypt_key ctx) offset in
       bytes ← read_bytes ct (16 * (ctp + k)) remaining;
       let tmp := of_memory (bytes ++ drop (length bytes) (to_memory pad)) in
       let tmp := of_memory (<[Z.to_nat remaining := 0x80]> (to_memory (xor_block tmp pad))) in
       Ok (take (Z.to_nat remaining) (to_memory tmp), offset, xor_block checksum tmp)
     else Ok ([], offset, checksum));
  let ta := AES_ecb_decrypt_blks (zip_with xor_block oa bs) (Z.to_nat k) (decrypt_key ctx) in
  let p := zip_with xor_block ta oa in
  let checksum := fold_left xor_block (reverse p) checksum in
  let offset := xor_block offset (Ldollar ctx) in
  let tmp := encrypt_blk (encrypt_key ctx) (xor_block offset checksum) in
  Ok (concat (to_memory <$> p) ++ last, xor_block tmp (ad_checksum ctx)).

(** [tag]: where the caller keeps the tag; nothing when it is the end of the
    ciphertext.  The plaintext is written also when the tag is wrong. *)
Definition ae_decrypt (ctx : ae_ctx) (nonce : option (list Z)) (ct : list Z) (ct_len : Z)
    (ad : list Z) (ad_len : Z) (tag : option (list Z)) (final : bool) : result (list Z * Z * ae_ctx) :=
  let ct_len :=
    match tag with None => if final then to_int (ct_len - OCB_TAG_LEN) else ct_len | Some _ => ct_len end in
  ctx ← start_message ctx nonce ad_len;
  ctx ← (if 0 <? ad_len then process_ad ctx ad ad_len final else Ok ctx);
  let i := u32 (Z.quot ct_len (BPI * 16)) in
  '(ctp, pt, ctx) ←
    (if negb (i =? 0) then
       '(ctp, n, o, c, pt) ← decrypt_loop (Z.to_nat i) ctx ct 0 (blocks_processed ctx) (offset ctx) (checksum ctx) [];
       Ok (ctp, pt, set_checksum c (set_blocks_processed n (set_offset o ctx)))
     else Ok (0, [], ctx));
  if final then
    '(rest, tmp) ← decrypt_final ctx ct ctp ct_len (offset ctx) (checksum ctx);
    valid ←
      match tag with
      | Some tag => t ← block_at tag 0; Ok (negb (unequal_blocks tmp t))
      | None => t ← read_bytes ct ct_len OCB_TAG_LEN; Ok (bool_decide (t = to_memory tmp))
      end;
    Ok (pt ++ rest, if (valid : bool) then ct_len else AE_INVALID, ctx)
  else Ok (pt, ct_len, ctx).

End ocb.
End Ocb.
