(* ===== verification/CryptoProps.v ===== *)
(** * Properties of the cipher

    The optimised routines of [ocb.cc] compute OCB as RFC 7253 defines it,
    for either byte order and however the message is cut into calls;
    decryption inverts encryption and refuses every other tag. *)

From S2P Require Import Prelude TransportFragment Octets CryptoOcb.

(** ** OCB as RFC 7253 defines it

    Blocks are numbers below 2^128, the first octet the most significant;
    the tag has 128 bits and the nonce 96. *)

Module Rfc7253.
Section spec.
Context `{AES} (key : list Z).

Definition E (x : Z) : Z := be_value (AES_encrypt key (be_bytes 16 x)).
Definition D (x : Z) : Z := be_value (AES_decrypt key (be_bytes 16 x)).

Definition double (s : Z) : Z :=
  let shifted := (2 * s) mod 2 ^ 128 in
  if Z.testbit s 127 then Z.lxor shifted 135 else shifted.

Definition L_star : Z := E 0.
Definition L_dollar : Z := double L_star.

(** [L n] is L_n. *)
Fixpoint L (n : nat) : Z := double (match n with O => L_dollar | S n' => L n' end).

(** L_{ntz i} *)
Definition L_ntz (i : positive) : Z := L (Z.to_nat (Ocb.trailing_zeros i)).

(** The initial offset of a nonce *)
Definition offset_0 (nonce : list Z) : Z :=
  let n := 2 ^ 96 + be_value nonce in
  let bottom := n mod 64 in
  let Ktop := E (n - bottom) in
  let stretch := Ktop * 2 ^ 64 + Z.lxor (Z.shiftr Ktop 64) (Z.shiftr Ktop 56 mod 2 ^ 64) in
  Z.shiftr stretch (64 - bottom) mod 2 ^ 128.

(** Whole blocks, from block number [i] on: the results, the offset and the
    checksum behind them *)
Fixpoint encrypt_blocks (i : positive) (offset checksum : Z) (ps : list Z) : list Z * Z * Z :=
  match ps with
  | [] => ([], offset, checksum)
  | p :: ps =>
      let offset := Z.lxor offset (L_ntz i) in
      let '(cs, o, s) := encrypt_blocks (i + 1) offset (Z.lxor checksum p) ps in
      (Z.lxor offset (E (Z.lxor p offset)) :: cs, o, s)
  end.

Fixpoint decrypt_blocks (i : positive) (offset checksum : Z) (cs : list Z) : list Z * Z * Z :=
  match cs with
  | [] => ([], offset, checksum)
  | c :: cs =>
      let offset := Z.lxor offset (L_ntz i) in
      let p := Z.lxor offset (D (Z.lxor c offset)) in
      let '(ps, o, s) := decrypt_blocks (i + 1) offset (Z.lxor checksum p) cs in
      (p :: ps, o, s)
  end.

Fixpoint hash_blocks (i : positive) (offset sum : Z) (ads : list Z) : Z * Z :=
  match ads with
  | [] => (offset, sum)
  | a :: ads =>
      let offset := Z.lxor offset (L_ntz i) in
      hash_blocks (i + 1) offset (Z.lxor sum (E (Z.lxor a offset))) ads
  end.

(** The whole blocks of a string, and the rest *)
Definition whole (m : list Z) : nat := length m / 16.

Fixpoint blocks (n : nat) (m : list Z) : list Z :=
  match n with O => [] | S n' => be_value (take 16 m) :: blocks n' (drop 16 m) end.

Definition rest (m : list Z) : list Z := drop (16 * whole m) m.

(** A string of less than sixteen octets, filled up with a one bit and zeros *)
Definition pad (m : list Z) : Z := be_value (m ++ 0x80 :: replicate (15 - length m) 0).

(** HASH(K, A) *)
Definition hash_rest (offset sum : Z) (a : list Z) : Z :=
  match a with
  | [] => sum
  | _ => Z.lxor sum (E (Z.lxor (pad a) (Z.lxor offset L_star)))
  end.

Definition HASH (a : list Z) : Z :=
  let '(o, s) := hash_blocks 1 0 0 (blocks (whole a) a) in hash_rest o s (rest a).

(** The last octets, the offset and the checksum behind them *)
Definition encrypt_rest (offset checksum : Z) (p : list Z) : list Z * Z * Z :=
  match p with
  | [] => ([], offset, checksum)
  | _ =>
      let offset := Z.lxor offset L_star in
      (zip_with Z.lxor p (be_bytes 16 (E offset)), offset, Z.lxor checksum (pad p))
  end.

Definition decrypt_rest (offset checksum : Z) (c : list Z) : list Z * Z * Z :=
  match c with
  | [] => ([], offset, checksum)
  | _ =>
      let offset := Z.lxor offset L_star in
      let p := zip_with Z.lxor c (be_bytes 16 (E offset)) in
      (p, offset, Z.lxor checksum (pad p))
  end.

Definition tag (offset checksum : Z) (a : list Z) : Z :=
  Z.lxor (E (Z.lxor (Z.lxor checksum offset) L_dollar)) (HASH a).

(** OCB-ENCRYPT(K, N, A, P): the ciphertext and the tag *)
Definition encrypt (nonce a p : list Z) : list Z * list Z :=
  let '(cs, o, s) := encrypt_blocks 1 (offset_0 nonce) 0 (blocks (whole p) p) in
  let '(c, o, s) := encrypt_rest o s (rest p) in
  (concat (be_bytes 16 <$> cs) ++ c, be_bytes 16 (tag o s a)).

(** OCB-DECRYPT(K, N, A, C) without the tag: the plaintext and the tag that
    belongs to it *)
Definition decrypt (nonce a c : list Z) : list Z * list Z :=
  let '(ps, o, s) := decrypt_blocks 1 (offset_0 nonce) 0 (blocks (whole c) c) in
  let '(p, o, s) := decrypt_rest o s (rest c) in
  (concat (be_bytes 16 <$> ps) ++ p, be_bytes 16 (tag o s a)).
End spec.
End Rfc7253.

Module CryptoTheorems.
Import Ocb.
Section rep.
Context (little : bool).
Abbreviation to_memory := (to_memory little).
Abbreviation of_memory := (of_memory little).

(** ** Blocks as numbers *)

Definition word_ok (x : Z) : Prop := 0 ≤ x < 2 ^ 64.
Definition block_ok (b : block) : Prop := word_ok (l b) ∧ word_ok (r b).
Definition num (b : block) : Z := be_value (to_memory b).

Lemma le_value_bytes n x : 0 ≤ x < 2 ^ (8 * Z.of_nat n) → le_value (le_bytes n x) = x.
Proof. intros Hx. unfold le_value, le_bytes. rewrite reverse_involutive. by apply be_value_bytes. Qed.

Lemma le_bytes_value bs : Forall octet bs → le_bytes (length bs) (le_value bs) = bs.
Proof.
  intros Hbs. unfold le_value, le_bytes.
  rewrite <- (length_reverse bs), be_bytes_value by (by apply Forall_reverse). apply reverse_involutive.
Qed.

Lemma le_value_range bs : Forall octet bs → 0 ≤ le_value bs < 2 ^ (8 * zlen bs).
Proof.
  intros Hbs. unfold le_value, zlen. rewrite <- (length_reverse bs). apply be_value_range.
  by apply Forall_reverse.
Qed.

Lemma le_bytes_length n x : length (le_bytes n x) = n.
Proof. unfold le_bytes. by rewrite length_reverse, be_bytes_length. Qed.

Lemma le_bytes_octets n x : Forall octet (le_bytes n x).
Proof. apply Forall_reverse, be_bytes_octets. Qed.

Lemma to_memory_octets b : block_octets (to_memory b).
Proof.
  unfold Ocb.to_memory. split; destruct little.
  - by rewrite length_app, !le_bytes_length.
  - by rewrite length_app, !be_bytes_length.
  - apply Forall_app; split; apply le_bytes_octets.
  - apply Forall_app; split; apply be_bytes_octets.
Qed.

Lemma split_octets u : block_octets u →
  length (take 8 u) = 8%nat ∧ length (drop 8 u) = 8%nat ∧ Forall octet (take 8 u) ∧ Forall octet (drop 8 u).
Proof.
  intros [Hl Ho]. rewrite length_take, length_drop, Hl. split_and!; [done|done|by apply Forall_take|by apply Forall_drop].
Qed.

Lemma to_of_memory u : block_octets u → to_memory (of_memory u) = u.
Proof.
  intros Hu. destruct (split_octets u Hu) as (H1 & H2 & H3 & H4).
  unfold Ocb.to_memory, Ocb.of_memory. destruct little; cbn [l r].
  - pose proof (le_bytes_value _ H3) as Ha. pose proof (le_bytes_value _ H4) as Hb.
    rewrite H1 in Ha. rewrite H2 in Hb. rewrite Ha, Hb. apply take_drop.
  - pose proof (be_bytes_value _ H3) as Ha. pose proof (be_bytes_value _ H4) as Hb.
    rewrite H1 in Ha. rewrite H2 in Hb. rewrite Ha, Hb. apply take_drop.
Qed.

Lemma of_memory_ok u : block_octets u → block_ok (of_memory u).
Proof.
  intros Hu. destruct (split_octets u Hu) as (H1 & H2 & H3 & H4).
  unfold Ocb.of_memory, block_ok, word_ok. destruct little; cbn [l r].
  - pose proof (le_value_range _ H3) as Ha. pose proof (le_value_range _ H4) as Hb.
    unfold zlen in *. by rewrite H1 in Ha; rewrite H2 in Hb.
  - pose proof (be_value_range _ H3) as Ha. pose proof (be_value_range _ H4) as Hb.
    unfold zlen in *. by rewrite H1 in Ha; rewrite H2 in Hb.
Qed.

Lemma of_to_memory b : block_ok b → of_memory (to_memory b) = b.
Proof.
  intros [Hl Hr]. unfold Ocb.of_memory, Ocb.to_memory. destruct b as [bl br]. cbn [l r] in *. destruct little.
  - rewrite take_app_length', drop_app_length' by (by rewrite le_bytes_length). by rewrite !le_value_bytes.
  - rewrite take_app_length', drop_app_length' by (by rewrite be_bytes_length). by rewrite !be_value_bytes.
Qed.

Lemma num_of_memory u : block_octets u → num (of_memory u) = be_value u.
Proof. intros Hu. unfold num. by rewrite to_of_memory. Qed.

Lemma num_range b : 0 ≤ num b < 2 ^ 128.
Proof.
  destruct (to_memory_octets b) as [Hl Ho]. pose proof (be_value_range _ Ho) as Hr.
  unfold zlen in Hr. by rewrite Hl in Hr.
Qed.

Lemma memory_num b : to_memory b = be_bytes 16 (num b).
Proof. destruct (to_memory_octets b) as [Hl Ho]. unfold num. rewrite <- (be_bytes_value _ Ho) at 1. by rewrite Hl. Qed.

Lemma num_inj a b : block_ok a → block_ok b → num a = num b → a = b.
Proof. intros Ha Hb Hn. rewrite <- (of_to_memory a), <- (of_to_memory b) by done. by rewrite !memory_num, Hn. Qed.

(** ** Exclusive or *)

Lemma zip_with_reverse {A} (f : A → A → A) (xs ys : list A) : length xs = length ys →
  reverse (zip_with f xs ys) = zip_with f (reverse xs) (reverse ys).
Proof.
  revert ys. induction xs as [|x xs IH]; intros [|y ys] Hlen; try done. injection Hlen as Hlen. cbn [zip_with].
  rewrite !reverse_cons, zip_with_app by (by rewrite !length_reverse). by rewrite IH.
Qed.

Lemma xor_ok a b : block_ok a → block_ok b → block_ok (xor_block a b).
Proof. intros [] []. split; apply (lxor_range _ _ 64); done || lia. Qed.

Lemma le_bytes_lxor n x y : le_bytes n (Z.lxor x y) = zip_with Z.lxor (le_bytes n x) (le_bytes n y).
Proof.
  unfold le_bytes. rewrite be_bytes_lxor. apply zip_with_reverse. by rewrite !be_bytes_length.
Qed.

Lemma memory_xor a b : to_memory (xor_block a b) = zip_with Z.lxor (to_memory a) (to_memory b).
Proof.
  unfold Ocb.to_memory, xor_block. cbn [l r]. destruct little.
  - by rewrite !le_bytes_lxor, zip_with_app by (by rewrite !le_bytes_length).
  - by rewrite !be_bytes_lxor, zip_with_app by (by rewrite !be_bytes_length).
Qed.

Lemma num_xor a b : num (xor_block a b) = Z.lxor (num a) (num b).
Proof.
  unfold num. rewrite memory_xor. destruct (to_memory_octets a), (to_memory_octets b).
  apply be_value_lxor; [congruence|done|done].
Qed.

Lemma num_zero : num zero_block = 0.
Proof. unfold num, Ocb.to_memory. by destruct little. Qed.

Lemma unequal_spec a b : block_ok a → block_ok b → unequal_blocks a b = bool_decide (a ≠ b).
Proof.
  intros Ha Hb. unfold unequal_blocks. destruct (decide (a = b)) as [->|Hne].
  { by rewrite !Z.lxor_nilpotent, bool_decide_eq_false_2 by auto. }
  rewrite bool_decide_eq_true_2 by done. apply negb_true_iff, Z.eqb_neq. intros Hz.
  apply Z.lor_eq_0_iff in Hz as [H1%Z.lxor_eq H2%Z.lxor_eq]. apply Hne. destruct a, b; cbn in *. congruence.
Qed.

(** ** Registers *)

Abbreviation swap_if_le := (swap_if_le little).

Definition reg (b : block) : Z := l b * 2 ^ 64 + r b.

Lemma num_reg b : block_ok b → num b = reg (swap_if_le b).
Proof.
  intros [Hl Hr]. unfold num, reg, Ocb.to_memory, Ocb.swap_if_le. destruct little; cbn [l r].
  - rewrite be_value_app by apply le_bytes_octets.
    pose proof (be_value_range _ (le_bytes_octets 8 (r b))) as Hb. unfold zlen in *. rewrite le_bytes_length in *.
    by rewrite lor_shiftl_add.
  - rewrite be_value_app, be_bytes_zlen, !be_value_bytes by first [done|apply be_bytes_octets].
    by rewrite lor_shiftl_add.
Qed.

Lemma bswap_ok x : word_ok (bswap64 x).
Proof. pose proof (le_value_range _ (be_bytes_octets 8 x)) as Hb. by rewrite be_bytes_zlen in Hb. Qed.

Lemma bswap_bswap x : word_ok x → bswap64 (bswap64 x) = x.
Proof.
  intros Hx. unfold bswap64, le_value at 2. rewrite <- (be_bytes_length 8 x), <- (length_reverse (be_bytes 8 x)) at 1.
  rewrite be_bytes_value by (apply Forall_reverse, be_bytes_octets).
  unfold le_value. rewrite reverse_involutive. by apply be_value_bytes.
Qed.

Lemma swap_ok b : block_ok b → block_ok (swap_if_le b).
Proof. intros Hb. unfold Ocb.swap_if_le. destruct little; [split; apply bswap_ok|done]. Qed.

Lemma swap_swap b : block_ok b → swap_if_le (swap_if_le b) = b.
Proof.
  intros [? ?]. unfold Ocb.swap_if_le. destruct little; [|done]. cbn [l r]. rewrite !bswap_bswap by done.
  by destruct b.
Qed.

Lemma num_swap b : block_ok b → num (swap_if_le b) = reg b.
Proof. intros Hb. rewrite num_reg by (by apply swap_ok). by rewrite swap_swap. Qed.

(** ** Doubling *)

Lemma lxor_disjoint a b n : 0 ≤ n → 0 ≤ b < 2 ^ n → Z.lxor (a * 2 ^ n) b = a * 2 ^ n + b.
Proof.
  intros Hn Hb. pose proof (lxor_shiftl_lor a 0 0 b n Hn ltac:(lia) Hb) as Hx.
  rewrite Z.lor_0_r, Z.shiftl_0_l, Z.lor_0_l, Z.lxor_0_r, Z.lxor_0_l, Z.shiftl_mul_pow2 in Hx by done.
  rewrite Hx. rewrite <- (Z.shiftl_mul_pow2 a n) by done. rewrite lor_shiftl_add by done. by rewrite Z.shiftl_mul_pow2.
Qed.

Lemma lxor_low a b c n : 0 ≤ n → 0 ≤ b < 2 ^ n → 0 ≤ c < 2 ^ n →
  Z.lxor (a * 2 ^ n + b) c = a * 2 ^ n + Z.lxor b c.
Proof.
  intros Hn Hb Hc. pose proof (lxor_range b c n Hn Hb Hc).
  rewrite <- !lxor_disjoint by done. by rewrite Z.lxor_assoc.
Qed.

Lemma double_ok b : block_ok b → block_ok (double_block b).
Proof.
  intros [Hl Hr]. unfold word_ok in *. split; cbn [l r double_block]; apply (lxor_range _ _ 64); try lia;
    try apply uwrap_range; try lia.
  - rewrite Z.shiftr_div_pow2 by lia. split; [apply Z.div_pos; lia|].
    apply Z.div_lt_upper_bound; lia.
  - by destruct (Z.testbit (l b) 63).
Qed.

Lemma reg_double b : block_ok b → reg (double_block b) = Rfc7253.double (reg b).
Proof.
  intros [Hl Hr]. unfold word_ok in *. unfold reg, double_block, Rfc7253.double. destruct b as [x y]. cbn [l r] in *.
  assert (Z.testbit (x * 2 ^ 64 + y) 127 = Z.testbit x 63) as ->.
  { rewrite <- lor_shiftl_add, Z.lor_spec, Z.shiftl_spec, (testbit_high y 64) by lia. apply orb_false_r. }
  assert (Z.lxor (u64 (x + x)) (Z.shiftr y 63) = u64 (x + x) + y / 2 ^ 63) as ->.
  { rewrite Z.shiftr_div_pow2 by lia. unfold uwrap. replace (x + x) with (2 * x) by lia.
    change (2 ^ 64) with (2 * 2 ^ 63). rewrite Z.mul_mod_distr_l, (Z.mul_comm 2 (_ mod _)) by lia.
    apply (lxor_disjoint _ _ 1); [lia|]. split; [apply Z.div_pos; lia|apply Z.div_lt_upper_bound; lia]. }
  assert ((2 * (x * 2 ^ 64 + y)) mod 2 ^ 128 = (u64 (x + x) + y / 2 ^ 63) * 2 ^ 64 + u64 (y + y)) as ->.
  { unfold uwrap. pose proof (Z.div_mod (x + x) (2 ^ 64)). pose proof (Z.div_mod y (2 ^ 63)).
    pose proof (Z.mod_pos_bound (x + x) (2 ^ 64)). pose proof (Z.mod_pos_bound y (2 ^ 63)).
    assert ((y + y) mod 2 ^ 64 = 2 * (y mod 2 ^ 63)) as ->.
    { replace (y + y) with (2 * y) by lia. change (2 ^ 64) with (2 * 2 ^ 63). by rewrite Z.mul_mod_distr_l by lia. }
    assert ((x + x) mod 2 ^ 64 = 2 * (x mod 2 ^ 63)) as Hx.
    { replace (x + x) with (2 * x) by lia. change (2 ^ 64) with (2 * 2 ^ 63). by rewrite Z.mul_mod_distr_l by lia. }
    pose proof (Z.mod_pos_bound x (2 ^ 63)).
    assert (0 ≤ y / 2 ^ 63 < 2) by (split; [apply Z.div_pos; lia|apply Z.div_lt_upper_bound; lia]).
    symmetry. apply Z.mod_unique with ((x + x) / 2 ^ 64); lia. }
  destruct (Z.testbit x 63).
  - change (Z.land (u64 (-1)) 135) with 135. rewrite lxor_low; [done|lia|apply uwrap_range; lia|lia].
  - by rewrite Z.land_0_l, Z.lxor_0_r.
Qed.

(** ** The offset of a nonce *)

Lemma shift_words a b n : word_ok a → word_ok b → 0 < n < 64 →
  Z.lor (u64 (Z.shiftl a n)) (Z.shiftr b (64 - n)) = (a mod 2 ^ (64 - n)) * 2 ^ n + b / 2 ^ (64 - n).
Proof.
  intros Ha Hb Hn. unfold word_ok in *. unfold uwrap.
  rewrite Z.shiftl_mul_pow2, Z.shiftr_div_pow2 by lia.
  assert (2 ^ 64 = 2 ^ (64 - n) * 2 ^ n) as Hp by (rewrite <- Z.pow_add_r by lia; f_equal; lia).
  assert (0 < 2 ^ n ∧ 0 < 2 ^ (64 - n)) as [? ?] by (split; apply Z.pow_pos_nonneg; lia).
  rewrite Hp, Z.mul_mod_distr_r by lia. rewrite <- (lor_shiftl_add (a mod _)).
  - by rewrite Z.shiftl_mul_pow2 by lia.
  - lia.
  - split; [apply Z.div_pos; lia|apply Z.div_lt_upper_bound; lia].
Qed.

Lemma num_gen_offset K0 K1 K2 bot : word_ok K0 → word_ok K1 → word_ok K2 → 0 ≤ bot < 64 →
  let b := gen_offset little (K0, K1, K2) bot in
  block_ok b ∧ num b = Z.shiftr (K0 * 2 ^ 128 + K1 * 2 ^ 64 + K2) (64 - bot) mod 2 ^ 128.
Proof.
  intros H0 H1 H2 Hbot. unfold gen_offset.
  set (b := if negb (bot =? 0) then _ else _).
  assert (block_ok b ∧ reg b = Z.shiftr (K0 * 2 ^ 128 + K1 * 2 ^ 64 + K2) (64 - bot) mod 2 ^ 128) as [Hok Hreg];
    [|split; [by apply swap_ok|by rewrite num_swap]].
  rewrite Z.shiftr_div_pow2 by lia. subst b. unfold word_ok in *. destruct (Z.eqb_spec bot 0) as [->|Hne]; cbn [negb].
  - split; [done|]. unfold reg. cbn [l r]. change (2 ^ (64 - 0)) with (2 ^ 64).
    replace (K0 * 2 ^ 128 + K1 * 2 ^ 64 + K2) with ((K0 * 2 ^ 64 + K1) * 2 ^ 64 + K2) by lia.
    rewrite Z.div_add_l, (Z.div_small K2), Z.add_0_r by lia. symmetry. apply Z.mod_small. lia.
  - unfold block_ok, word_ok, reg. cbn [l r]. rewrite !shift_words by (done || lia).
    assert (2 ^ 64 = 2 ^ (64 - bot) * 2 ^ bot) as Hp by (rewrite <- Z.pow_add_r by lia; f_equal; lia).
    assert (0 < 2 ^ bot ∧ 0 < 2 ^ (64 - bot)) as [Hb0 Hn0] by (split; apply Z.pow_pos_nonneg; lia).
    set (n := 2 ^ (64 - bot)) in *. set (m := 2 ^ bot) in *.
    pose proof (Z.div_mod K0 n ltac:(lia)). pose proof (Z.div_mod K1 n ltac:(lia)). pose proof (Z.div_mod K2 n ltac:(lia)).
    pose proof (Z.mod_pos_bound K0 n ltac:(lia)). pose proof (Z.mod_pos_bound K1 n ltac:(lia)).
    pose proof (Z.mod_pos_bound K2 n ltac:(lia)).
    assert (0 ≤ K1 / n < m ∧ 0 ≤ K2 / n < m) as [? ?].
    { split; (split; [apply Z.div_pos; lia|apply Z.div_lt_upper_bound; lia]). }
    split; [split; split; nia|].
    assert ((K0 * 2 ^ 128 + K1 * 2 ^ 64 + K2) / n = K0 * m * 2 ^ 64 + K1 * m + K2 / n) as ->.
    { replace (K0 * 2 ^ 128 + K1 * 2 ^ 64 + K2) with ((K0 * m * 2 ^ 64 + K1 * m) * n + K2).
      - by rewrite Z.div_add_l by lia.
      - replace (2 ^ 128) with (2 ^ 64 * 2 ^ 64) by done. rewrite Hp. ring. }
    apply Z.mod_unique with (K0 / n); [left; split; nia|].
    replace (2 ^ 128) with (2 ^ 64 * 2 ^ 64) by done. rewrite !Hp. nia.
Qed.
End rep.

(** ** The cipher on blocks *)

Section cipher.
Context (little : bool) `{aes : AES, !AESLaws} (key : list Z) (Hkey : block_octets key).
Abbreviation to_memory := (to_memory little).
Abbreviation of_memory := (of_memory little).
Abbreviation num := (num little).
Abbreviation E := (Rfc7253.E key).
Abbreviation D := (Rfc7253.D key).

(** The block [b] stands for the number [x]. *)
Definition rep (b : block) (x : Z) : Prop := block_ok b ∧ num b = x.

Lemma rep_xor a b x y : rep a x → rep b y → rep (xor_block a b) (Z.lxor x y).
Proof. intros [Ha <-] [Hb <-]. split; [by apply xor_ok|apply num_xor]. Qed.

Lemma rep_zero : rep zero_block 0.
Proof. split; [done|apply num_zero]. Qed.

Lemma rep_memory b x : rep b x → to_memory b = be_bytes 16 x.
Proof. intros [_ <-]. apply memory_num. Qed.

Lemma rep_of_memory u : block_octets u → rep (of_memory u) (be_value u).
Proof. intros Hu. split; [by apply of_memory_ok|by apply num_of_memory]. Qed.

Lemma rep_range b x : rep b x → 0 ≤ x < 2 ^ 128.
Proof. intros [_ <-]. apply num_range. Qed.

Lemma rep_fun b x y : rep b x → rep b y → x = y.
Proof. by intros [_ <-] [_ <-]. Qed.

Lemma be_bytes_block x : block_octets (be_bytes 16 x).
Proof. split; [apply be_bytes_length|apply be_bytes_octets]. Qed.

Lemma rep_encrypt b x : rep b x → rep (encrypt_blk little key b) (E x).
Proof.
  intros Hb. unfold encrypt_blk, Rfc7253.E. rewrite (rep_memory b x) by done.
  apply rep_of_memory, AES_encrypt_octets; [done|apply be_bytes_block].
Qed.

Lemma rep_decrypt b x : rep b x → rep (decrypt_blk little key b) (D x).
Proof.
  intros Hb. unfold decrypt_blk, Rfc7253.D. rewrite (rep_memory b x) by done.
  apply rep_of_memory, AES_decrypt_octets; [done|apply be_bytes_block].
Qed.

Lemma be_value_block u : block_octets u → 0 ≤ be_value u < 2 ^ 128.
Proof. intros [Hl Ho]. pose proof (be_value_range _ Ho) as Hr. unfold zlen in Hr. by rewrite Hl in Hr. Qed.

Lemma E_range x : 0 ≤ E x < 2 ^ 128.
Proof. apply be_value_block, AES_encrypt_octets; [done|apply be_bytes_block]. Qed.

Lemma D_E x : 0 ≤ x < 2 ^ 128 → D (E x) = x.
Proof.
  intros Hx. unfold Rfc7253.D, Rfc7253.E. pose proof (AES_encrypt_octets key (be_bytes 16 x) Hkey (be_bytes_block x)) as [Hl Ho].
  pose proof (be_bytes_value _ Ho) as He. rewrite Hl in He. rewrite He.
  rewrite AES_decrypt_encrypt by (done || apply be_bytes_block). by apply be_value_bytes.
Qed.

(** The loops that count the blocks down are maps. *)
Lemma alter_down (f : block → block) (go : list block → nat → list block) :
  (∀ blks, go blks O = blks) → (∀ blks n, go blks (S n) = go (alter f n blks) n) →
  ∀ n blks, (n ≤ length blks)%nat → go blks n = (f <$> take n blks) ++ drop n blks.
Proof.
  intros H0 HS n. induction n as [|n IH]; intros blks Hn; [apply H0|].
  rewrite HS, IH by (rewrite length_alter; lia).
  destruct (lookup_lt_is_Some_2 blks n) as [b Hb]; [lia|].
  rewrite take_alter_ge, (take_S_r _ _ b), fmap_app, <- app_assoc by done. f_equal.
  rewrite (drop_S _ (f b) n) by (by rewrite list_lookup_alter_eq, Hb). cbn. f_equal.
  by rewrite drop_alter_lt by lia.
Qed.

Lemma ecb_encrypt blks n : n = length blks →
  AES_ecb_encrypt_blks little blks n key = encrypt_blk little key <$> blks.
Proof.
  intros ->. rewrite (alter_down (encrypt_blk little key) (fun b n => AES_ecb_encrypt_blks little b n key)) by done.
  by rewrite take_ge, drop_ge, app_nil_r by lia.
Qed.

Lemma ecb_decrypt blks n : n = length blks →
  AES_ecb_decrypt_blks little blks n key = decrypt_blk little key <$> blks.
Proof.
  intros ->. rewrite (alter_down (decrypt_blk little key) (fun b n => AES_ecb_decrypt_blks little b n key)) by done.
  by rewrite take_ge, drop_ge, app_nil_r by lia.
Qed.

(** ** The context *)

Record ctx_ok (c : ae_ctx) : Prop := mkCtxOk {
  ok_ekey : encrypt_key c = key;
  ok_dkey : decrypt_key c = key;
  ok_lstar : rep (Lstar c) (Rfc7253.L_star key);
  ok_ldollar : rep (Ldollar c) (Rfc7253.L_dollar key);
  ok_table : Forall2 rep (L c) (Rfc7253.L key <$> seq 0 L_TABLE_SZ);
  ok_top : block_ok (cached_Top c);
  ok_ktop : cached_Top c = zero_block ∨
    ∃ k, block_ok k ∧ reg k = E (num (cached_Top c))
      ∧ KtopStr c = (l k, r k, Z.lxor (Z.lxor (l k) (u64 (Z.shiftl (l k) 8))) (Z.shiftr (r k) 56)) }.

Lemma l_table_rep n b i x : block_ok b → reg b = x →
  (∀ j, Rfc7253.L key (i + j) = Nat.iter (S j) Rfc7253.double x) →
  Forall2 rep (l_table little n b) (Rfc7253.L key <$> seq i n).
Proof.
  revert b i x. induction n as [|n IH]; intros b i x Hb Hx HL; [constructor|]. cbn.
  pose proof (double_ok b Hb) as Hd. pose proof (reg_double b Hb) as Hr. rewrite Hx in Hr. constructor.
  - split; [by apply swap_ok|]. rewrite num_swap, Hr by done. pose proof (HL O) as H0.
    rewrite Nat.add_0_r in H0. by rewrite H0.
  - apply (IH _ _ (Rfc7253.double x)); [done|done|]. intros j. rewrite <- Nat.iter_succ_r.
    rewrite <- HL. f_equal. lia.
Qed.

Lemma ae_init_ok c tag_len : ∃ c',
  ae_init little c key 16 12 tag_len = (AE_SUCCESS, c') ∧ ctx_ok c'.
Proof.
  eexists. split; [reflexivity|].
  assert (take 16 key = key) as -> by (apply take_ge; destruct Hkey; lia).
  pose proof (rep_encrypt _ _ rep_zero) as [Hok Hnum].
  pose proof (swap_ok little _ Hok) as Hsw. pose proof (double_ok _ Hsw) as Hd.
  assert (reg (double_block (swap_if_le little (encrypt_blk little key zero_block))) = Rfc7253.L_dollar key) as Hreg.
  { rewrite reg_double by done. rewrite <- num_reg by done. by rewrite Hnum. }
  constructor; cbn [encrypt_key decrypt_key Lstar Ldollar L cached_Top]; try done.
  - split; [by apply swap_ok|by rewrite num_swap].
  - apply (l_table_rep _ _ _ (Rfc7253.L_dollar key)); [done|done|]. intros j. cbn [Nat.add].
    induction j as [|j IHj]; [done|]. cbn [Rfc7253.L]. by rewrite IHj.
  - by left.
Qed.

(** ** The start of a message *)

Lemma read_all n u : zlen u = n → read_bytes u 0 n = Ok u.
Proof.
  intros <-. unfold read_bytes. pose proof (zlen_nonneg u). z_bools. cbn [andb]. rewrite drop_0.
  f_equal. apply take_ge. unfold zlen. lia.
Qed.

Lemma octet_mask u : octet u → Z.land u 0x3f = u mod 64 ∧ Z.land u 0xc0 = u - u mod 64.
Proof.
  intros Hu. split; [change 0x3f with (Z.ones 6); by rewrite Z.land_ones by lia|].
  assert (forallb (fun u => Z.land u 0xc0 =? u - u mod 64) (seqZ 0 256) = true) as Hall by by vm_compute.
  rewrite forallb_forall in Hall. specialize (Hall u). apply Z.eqb_eq, Hall.
  apply list_elem_of_In, elem_of_seqZ. unfold octet in Hu. lia.
Qed.

(** The block with the nonce, without its last six bits *)
Lemma nonce_block nonce : length nonce = 12%nat → Forall octet nonce →
  let n := 2 ^ 96 + be_value nonce in
  ∃ u tmp, vec_get ([0; 0; 0; 1] ++ nonce) 15 = Ok u
    ∧ vec_set ([0; 0; 0; 1] ++ nonce) 15 (Z.land u 0xc0) = Ok tmp
    ∧ Z.land u 0x3f = n mod 64 ∧ rep (of_memory tmp) (n - n mod 64) ∧ block_octets tmp
    ∧ of_memory tmp ≠ zero_block.
Proof.
  intros Hl Ho n. destruct nonce as [|u front _] using rev_ind; [done|].
  rewrite length_app in Hl. cbn in Hl. apply Forall_app in Ho as [Hf Hu%Forall_inv].
  assert (length ([0; 0; 0; 1] ++ front) = 15%nat) as H15 by (cbn; lia).
  assert (Forall octet ([0; 0; 0; 1] ++ front)) as Hfo by (repeat constructor; done).
  destruct (octet_mask u Hu) as [Hm1 Hm2].
  assert (be_value ([0; 0; 0; 1] ++ front) = 2 ^ 88 + be_value front) as Hfv.
  { rewrite be_value_app by done. change (be_value [0; 0; 0; 1]) with 1.
    pose proof (be_value_range _ Hf) as Hr. unfold zlen in *. replace (8 * Z.of_nat (length front)) with 88 in * by lia.
    by rewrite lor_shiftl_add. }
  assert (n = (2 ^ 88 + be_value front) * 256 + u) as Hn.
  { subst n. rewrite be_value_snoc, lor_shiftl_add by (done || lia). lia. }
  assert (n mod 64 = u mod 64) as Hmod.
  { rewrite Hn. replace ((2 ^ 88 + be_value front) * 256 + u) with (u + ((2 ^ 88 + be_value front) * 4) * 64) by lia.
    by rewrite Z.mod_add by lia. }
  assert (block_octets (([0; 0; 0; 1] ++ front) ++ [Z.land u 0xc0])) as Hbo.
  { split; [rewrite length_app, H15; done|]. apply Forall_app. split; [done|]. apply Forall_singleton.
    rewrite Hm2. pose proof (Z.mod_pos_bound u 64). pose proof (Z.mod_le u 64). unfold octet in *. lia. }
  exists u, (([0; 0; 0; 1] ++ front) ++ [Z.land u 0xc0]). rewrite app_assoc. split_and!.
  - apply vec_get_Ok. split; [lia|]. change (Z.to_nat 15) with 15%nat. by rewrite lookup_app_r, H15 by lia.
  - rewrite vec_set_Ok by (unfold zlen; rewrite length_app, H15; cbn; lia). f_equal.
    change (Z.to_nat 15) with 15%nat. rewrite insert_app_r_alt by lia. by rewrite H15.
  - by rewrite Hm1, Hmod.
  - pose proof (rep_of_memory _ Hbo) as Hrep. rewrite be_value_snoc, lor_shiftl_add in Hrep; [|lia|].
    + rewrite Hfv in Hrep. replace (n - n mod 64)
        with ((2 ^ 88 + be_value front) * 2 ^ 8 + Z.land u 0xc0) by (rewrite Hmod, Hn, Hm2; lia). done.
    + destruct Hbo as [_ Hbo]. apply Forall_app in Hbo as [_ Hbo%Forall_inv]. done.
  - done.
  - intros Hz. pose proof (rep_of_memory _ Hbo) as [_ Hrep]. rewrite Hz, num_zero, be_value_snoc in Hrep.
    symmetry in Hrep. apply Z.lor_eq_0_iff in Hrep as [Hrep _]. rewrite Hfv in Hrep.
    pose proof (be_value_range _ Hf). rewrite Z.shiftl_mul_pow2 in Hrep by lia. lia.
Qed.

Lemma stretch_words k : block_ok k →
  reg k * 2 ^ 64 + Z.lxor (Z.shiftr (reg k) 64) (Z.shiftr (reg k) 56 mod 2 ^ 64)
  = l k * 2 ^ 128 + r k * 2 ^ 64 + Z.lxor (Z.lxor (l k) (u64 (Z.shiftl (l k) 8))) (Z.shiftr (r k) 56)
  ∧ word_ok (Z.lxor (Z.lxor (l k) (u64 (Z.shiftl (l k) 8))) (Z.shiftr (r k) 56)).
Proof.
  intros [Hl Hr]. unfold reg, word_ok in *. destruct k as [x y]. cbn [l r] in *.
  rewrite !Z.shiftr_div_pow2, Z.shiftl_mul_pow2 by lia.
  assert (0 ≤ y / 2 ^ 56 < 2 ^ 8) as Hy by (split; [apply Z.div_pos; lia|apply Z.div_lt_upper_bound; lia]).
  assert ((x * 2 ^ 64 + y) / 2 ^ 64 = x) as -> by (rewrite Z.div_add_l, Z.div_small by lia; lia).
  assert ((x * 2 ^ 64 + y) / 2 ^ 56 = x * 2 ^ 8 + y / 2 ^ 56) as ->.
  { replace (x * 2 ^ 64 + y) with ((x * 2 ^ 8) * 2 ^ 56 + y) by lia. by rewrite Z.div_add_l by lia. }
  assert ((x * 2 ^ 8 + y / 2 ^ 56) mod 2 ^ 64 = (x mod 2 ^ 56) * 2 ^ 8 + y / 2 ^ 56) as ->.
  { pose proof (Z.div_mod x (2 ^ 56)). pose proof (Z.mod_pos_bound x (2 ^ 56)).
    symmetry. apply Z.mod_unique with (x / 2 ^ 56); lia. }
  assert (u64 (x * 2 ^ 8) = (x mod 2 ^ 56) * 2 ^ 8) as ->.
  { unfold uwrap. change (2 ^ 64) with (2 ^ 56 * 2 ^ 8). by rewrite Z.mul_mod_distr_r by lia. }
  rewrite (Z.lxor_assoc x), lxor_disjoint by (done || lia). split; [lia|].
  apply (lxor_range _ _ 64); [lia|done|]. pose proof (Z.mod_pos_bound x (2 ^ 56)). lia.
Qed.

(** The values of a message in progress *)
Record stream (c : ae_ctx) (n : Z) (o s : Z) (ad_n ad_o ad_s : Z) : Prop := mkStream {
  st_ok : ctx_ok c;
  st_num : blocks_processed c = n;
  st_offset : rep (offset c) o;
  st_checksum : rep (checksum c) s;
  st_ad_num : ad_blocks_processed c = ad_n;
  st_ad_offset : rep (ad_offset c) ad_o;
  st_ad_checksum : rep (ad_checksum c) ad_s }.

Lemma start_message_ok c nonce ad_len : ctx_ok c → length nonce = 12%nat → Forall octet nonce → 0 ≤ ad_len →
  ∃ c', start_message little c (Some nonce) ad_len = Ok c'
    ∧ stream c' 0 (Rfc7253.offset_0 key nonce) 0 0 0 0.
Proof.
  intros Hc Hl Ho Had. destruct (nonce_block nonce Hl Ho) as (u & tmp & Hget & Hset & Hidx & Htop & Htmp & Hne).
  unfold start_message, gen_offset_from_nonce. rewrite read_all by (unfold zlen; lia). cbn [mbind result_bind].
  rewrite Hget. cbn [mbind result_bind]. rewrite Hset. cbn [mbind result_bind]. rewrite Hidx.
  set (n := 2 ^ 96 + be_value nonce) in *.
  set (c1 := if unequal_blocks _ _ then _ else c).
  assert (ctx_ok c1 ∧ ∃ k, block_ok k ∧ reg k = E (n - n mod 64)
    ∧ KtopStr c1 = (l k, r k, Z.lxor (Z.lxor (l k) (u64 (Z.shiftl (l k) 8))) (Z.shiftr (r k) 56)))
    as [Hc1 (k & Hk & Hreg & HK)].
  { destruct Htop as [Htok Htn]. subst c1. rewrite unequal_spec by (done || apply Hc).
    case_bool_decide as Heq.
    - set (k := swap_if_le little _).
      assert (block_ok k ∧ reg k = E (n - n mod 64)) as [Hk Hreg].
      { subst k. rewrite (ok_ekey _ Hc). pose proof (AES_encrypt_octets key tmp Hkey Htmp) as Henc.
        pose proof (of_memory_ok little _ Henc) as Hok. split; [by apply swap_ok|].
        rewrite <- num_reg, num_of_memory by done. unfold Rfc7253.E. do 2 f_equal.
        rewrite <- Htn. rewrite <- memory_num. symmetry. by apply to_of_memory. }
      split; [|by exists k]. destruct Hc.
      constructor; cbn [encrypt_key decrypt_key Lstar Ldollar L cached_Top KtopStr set_KtopStr set_cached_Top]; try done.
      right. exists k. by rewrite Htn.
    - split; [done|]. destruct (ok_ktop _ Hc) as [Hz|(k & Hk & Hreg & HK)].
      + by rewrite <- Heq in Hz.
      + exists k. rewrite <- Heq, Htn in Hreg. done. }
  eexists. split; [reflexivity|]. cbv zeta. rewrite (proj2 (Z.leb_le 0 ad_len)) by lia.
  destruct (stretch_words k Hk) as [Hst HK2]. pose proof (Z.mod_pos_bound n 64).
  destruct (num_gen_offset little (l k) (r k) _ (n mod 64) (proj1 Hk) (proj2 Hk) HK2) as [Hgo Hgn]; [lia|].
  constructor; cbn [blocks_processed offset checksum ad_blocks_processed ad_offset ad_checksum
    set_blocks_processed set_offset set_checksum set_ad_blocks_processed set_ad_offset set_ad_checksum];
    try done; try apply rep_zero.
  - destruct Hc1. by constructor.
  - rewrite HK. split; [done|]. rewrite Hgn, <- Hst, Hreg. done.
Qed.

(** ** Groups of four blocks *)

Lemma trailing_zeros_odd p : Z.odd (Z.pos p) = true → trailing_zeros p = 0.
Proof. by destruct p. Qed.

Lemma trailing_zeros_bound p : 0 ≤ trailing_zeros p ∧ 2 ^ trailing_zeros p ≤ Z.pos p.
Proof.
  induction p as [p IH|p IH|]; cbn [trailing_zeros]; [split; cbn; lia| |split; cbn; lia].
  split; [lia|]. rewrite Z.pow_add_r by lia. lia.
Qed.

Lemma trailing_zeros_lt p k : 0 ≤ k → Z.pos p < 2 ^ k → 0 ≤ trailing_zeros p < k.
Proof.
  intros Hk Hp. destruct (trailing_zeros_bound p) as [H0 Hb]. split; [done|].
  apply (Z.pow_lt_mono_r_iff 2); lia.
Qed.

Lemma table_get c i : ctx_ok c → 0 ≤ i < 16 →
  ∃ b, vec_get (L c) i = Ok b ∧ rep b (Rfc7253.L key (Z.to_nat i)).
Proof.
  intros Hc Hi. pose proof (ok_table _ Hc) as Ht.
  destruct (Forall2_lookup_r _ _ _ (Z.to_nat i) (Rfc7253.L key (Z.to_nat i)) Ht) as (b & Hb & Hrep).
  { rewrite list_lookup_fmap, lookup_seq_lt by (unfold L_TABLE_SZ; lia). done. }
  exists b. split; [|done]. apply vec_get_Ok. split; [lia|done].
Qed.

(** In a group that starts behind block [n], a multiple of four *)
Lemma group_L n : 0 ≤ n → n mod 4 = 0 →
  let i := Z.to_pos (n + 1) in
  Rfc7253.L_ntz key i = Rfc7253.L key 0 ∧ Rfc7253.L_ntz key (i + 1) = Rfc7253.L key 1
  ∧ Rfc7253.L_ntz key (i + 1 + 1) = Rfc7253.L key 0
  ∧ (i + 1 + 1 + 1)%positive = Z.to_pos (n + 4).
Proof.
  intros Hn Hm i. pose proof (Z.div_mod n 4 ltac:(lia)) as Hd. rewrite Hm in Hd. set (m := n / 4) in *.
  assert (Z.pos i = 4 * m + 1) as Hi by (subst i; lia). unfold Rfc7253.L_ntz. split_and!.
  - rewrite trailing_zeros_odd; [done|]. apply Z.odd_spec. exists (2 * m). lia.
  - assert ((i + 1)%positive = xO (Z.to_pos (2 * m + 1))) as -> by lia. cbn [trailing_zeros].
    rewrite trailing_zeros_odd; [done|]. apply Z.odd_spec. exists m. lia.
  - rewrite trailing_zeros_odd; [done|]. apply Z.odd_spec. exists (2 * m + 1). lia.
  - lia.
Qed.

Lemma ntz_pos x : 0 < x < 2 ^ 32 → ntz x = Ok (trailing_zeros (Z.to_pos x)).
Proof. intros Hx. unfold ntz. rewrite uwrap_small by lia. destruct x; [lia|done|lia]. Qed.

Lemma last_L c n : ctx_ok c → 0 ≤ n → n + 4 < 2 ^ 16 →
  ∃ b, (tz ← ntz (n + 4); getL c tz) = Ok b ∧ rep b (Rfc7253.L_ntz key (Z.to_pos (n + 4))).
Proof.
  intros Hc Hn Hlt. rewrite ntz_pos by lia. cbn [mbind result_bind]. apply table_get; [done|].
  apply (trailing_zeros_lt _ 16); lia.
Qed.

Definition offsets (i : positive) (o : Z) : list Z :=
  let o0 := Z.lxor o (Rfc7253.L_ntz key i) in
  let o1 := Z.lxor o0 (Rfc7253.L_ntz key (i + 1)) in
  let o2 := Z.lxor o1 (Rfc7253.L_ntz key (i + 1 + 1)) in
  [o0; o1; o2; Z.lxor o2 (Rfc7253.L_ntz key (i + 1 + 1 + 1))].

Lemma group_offsets_ok c off o n : ctx_ok c → rep off o → 0 ≤ n → n mod 4 = 0 → n + 4 < 2 ^ 16 →
  ∃ oa, group_offsets c off (n + 4) = Ok oa ∧ Forall2 rep oa (offsets (Z.to_pos (n + 1)) o).
Proof.
  intros Hc Ho Hn Hm Hlt. destruct (group_L n Hn Hm) as (HL0 & HL1 & HL2 & Hi).
  destruct (table_get c 0 Hc ltac:(lia)) as (L0 & HL0' & HR0).
  destruct (table_get c 1 Hc ltac:(lia)) as (L1 & HL1' & HR1).
  destruct (last_L c n Hc Hn Hlt) as (Lz & HLz & HRz). rewrite ntz_pos in HLz by lia. cbn [mbind result_bind] in HLz.
  unfold group_offsets. rewrite HL0', HL1'. cbn [mbind result_bind]. rewrite ntz_pos by lia. cbn [mbind result_bind].
  rewrite HLz. cbn [mbind result_bind]. eexists. split; [done|]. unfold offsets. rewrite HL0, HL1, HL2, Hi.
  repeat (apply Forall2_cons; split; [repeat apply rep_xor; done|]). constructor.
Qed.

Lemma block_at_ok p i : Forall octet p → 0 ≤ i → 16 * (i + 1) ≤ zlen p →
  ∃ b, block_at little p i = Ok b ∧ rep b (be_value (take 16 (drop (Z.to_nat (16 * i)) p))).
Proof.
  intros Hp Hi Hl. unfold block_at, read_bytes. z_bools. cbn [andb fmap result_fmap]. eexists. split; [done|].
  apply rep_of_memory. split; [|by apply Forall_take, Forall_drop].
  rewrite length_take, length_drop. unfold zlen in Hl. lia.
Qed.

Lemma blocks_drop n p i : 0 ≤ i →
  Rfc7253.blocks (S n) (drop (Z.to_nat (16 * i)) p)
  = be_value (take 16 (drop (Z.to_nat (16 * i)) p)) :: Rfc7253.blocks n (drop (Z.to_nat (16 * (i + 1))) p).
Proof.
  intros Hi. cbn [Rfc7253.blocks]. f_equal. f_equal. rewrite drop_drop. f_equal. lia.
Qed.

Lemma group_blocks p i : Forall octet p → 0 ≤ i → 16 * (i + 4) ≤ zlen p →
  ∃ b0 b1 b2 b3, block_at little p i = Ok b0 ∧ block_at little p (i + 1) = Ok b1
    ∧ block_at little p (i + 2) = Ok b2 ∧ block_at little p (i + 3) = Ok b3
    ∧ Forall2 rep [b0; b1; b2; b3] (Rfc7253.blocks 4 (drop (Z.to_nat (16 * i)) p)).
Proof.
  intros Hp Hi Hl.
  destruct (block_at_ok p i) as (b0 & -> & H0); [done|lia|lia|].
  destruct (block_at_ok p (i + 1)) as (b1 & -> & H1); [done|lia|lia|].
  destruct (block_at_ok p (i + 2)) as (b2 & -> & H2); [done|lia|lia|].
  destruct (block_at_ok p (i + 3)) as (b3 & -> & H3); [done|lia|lia|].
  exists b0, b1, b2, b3. split_and!; [done..|]. rewrite !blocks_drop by lia.
  repeat (apply Forall2_cons; split; [try done|]); [..|constructor].
  - by replace (i + 1 + 1) with (i + 2) by lia.
  - by replace (i + 1 + 1 + 1) with (i + 3) by lia.
Qed.

Lemma four_blocks_ok p i : Forall octet p → 0 ≤ i → 16 * (i + 4) ≤ zlen p →
  ∃ bs, four_blocks little p i = Ok bs ∧ Forall2 rep bs (Rfc7253.blocks 4 (drop (Z.to_nat (16 * i)) p)).
Proof.
  intros Hp Hi Hl. destruct (group_blocks p i Hp Hi Hl) as (b0 & b1 & b2 & b3 & H0 & H1 & H2 & H3 & Hbs).
  unfold four_blocks. rewrite H0, H1, H2, H3. by eexists.
Qed.

Lemma blocks_group i p ptp : 0 ≤ ptp →
  Rfc7253.blocks (4 * S i) (drop (Z.to_nat (16 * ptp)) p)
  = Rfc7253.blocks 4 (drop (Z.to_nat (16 * ptp)) p) ++ Rfc7253.blocks (4 * i) (drop (Z.to_nat (16 * (ptp + 4))) p).
Proof.
  intros Hp. replace (4 * S i)%nat with (S (S (S (S (4 * i))))) by lia. rewrite !blocks_drop by lia.
  cbn [app]. by replace (ptp + 1 + 1 + 1 + 1) with (ptp + 4) by lia.
Qed.

Lemma fold_xor_ok bs xs sum s : Forall2 rep bs xs → rep sum s →
  rep (fold_left xor_block bs sum) (fold_left Z.lxor xs s).
Proof.
  intros Hbs. revert sum s. induction Hbs as [|b x bs xs Hb _ IH]; intros sum s Hs; [done|].
  cbn. apply IH. by apply rep_xor.
Qed.

Lemma memory_concat bs xs : Forall2 rep bs xs → concat (to_memory <$> bs) = concat (be_bytes 16 <$> xs).
Proof. induction 1 as [|b x bs xs Hb _ IH]; [done|]. cbn. by rewrite IH, (rep_memory b x). Qed.

(** A cipher on blocks with offsets, in the order of the code and of the
    RFC *)
Lemma whitened (f : block → block) (F : Z → Z) oa os bs xs : (∀ b x, rep b x → rep (f b) (F x)) →
  Forall2 rep oa os → Forall2 rep bs xs →
  Forall2 rep (zip_with xor_block (f <$> zip_with xor_block oa bs) oa)
    (zip_with (fun o x => Z.lxor o (F (Z.lxor x o))) os xs).
Proof.
  intros Hf Hoa. revert bs xs. induction Hoa as [|a o oa os Ha _ IH]; intros bs xs Hbs; [constructor|].
  destruct Hbs as [|b x bs xs Hb Hbs]; [constructor|]. cbn. constructor; [|by apply IH].
  rewrite (Z.lxor_comm x o), Z.lxor_comm. apply rep_xor; [|done]. by apply Hf, rep_xor.
Qed.

Lemma encrypt_group i o s ps p4 : length p4 = 4%nat →
  Rfc7253.encrypt_blocks key i o s (p4 ++ ps) =
  let '(cs, o', s') := Rfc7253.encrypt_blocks key (i + 1 + 1 + 1 + 1) (default o (last (offsets i o)))
                         (fold_left Z.lxor p4 s) ps in
  (zip_with (fun o x => Z.lxor o (E (Z.lxor x o))) (offsets i o) p4 ++ cs, o', s').
Proof.
  destruct p4 as [|p0 [|p1 [|p2 [|p3 [|]]]]]; try done. intros _. cbn -[Rfc7253.L_ntz Rfc7253.E].
  by destruct (Rfc7253.encrypt_blocks key _ _ _ ps) as [[cs o'] s'].
Qed.

Lemma decrypt_group i o s cs c4 : length c4 = 4%nat →
  let p4 := zip_with (fun o x => Z.lxor o (D (Z.lxor x o))) (offsets i o) c4 in
  Rfc7253.decrypt_blocks key i o s (c4 ++ cs) =
  let '(ps, o', s') := Rfc7253.decrypt_blocks key (i + 1 + 1 + 1 + 1) (default o (last (offsets i o)))
                         (fold_left Z.lxor p4 s) cs in
  (p4 ++ ps, o', s').
Proof.
  destruct c4 as [|c0 [|c1 [|c2 [|c3 [|]]]]]; try done. intros _. cbn -[Rfc7253.L_ntz Rfc7253.D].
  by destruct (Rfc7253.decrypt_blocks key _ _ _ cs) as [[ps o'] s'].
Qed.

Lemma hash_group i o s as_ a4 : length a4 = 4%nat →
  Rfc7253.hash_blocks key i o s (a4 ++ as_) =
  Rfc7253.hash_blocks key (i + 1 + 1 + 1 + 1) (default o (last (offsets i o)))
    (fold_left Z.lxor (zip_with (fun o x => E (Z.lxor x o)) (offsets i o) a4) s) as_.
Proof. destruct a4 as [|a0 [|a1 [|a2 [|a3 [|]]]]]; try done. Qed.

Lemma blocks_length n p : length (Rfc7253.blocks n p) = n.
Proof. revert p. induction n as [|n IH]; intros p; [done|]. cbn. by rewrite IH. Qed.

Lemma last_offset oa i o off : Forall2 rep oa (offsets i o) → rep (oa_last oa off) (default o (last (offsets i o))).
Proof.
  intros Hoa. unfold offsets in *. cbn [last default]. repeat (apply Forall2_cons_inv_r in Hoa as (? & ? & ? & Hoa & ->)).
  apply Forall2_nil_inv_r in Hoa as ->. done.
Qed.

Lemma next_group n : 0 ≤ n → (Z.to_pos (n + 1) + 1 + 1 + 1 + 1)%positive = Z.to_pos (n + 4 + 1).
Proof. lia. Qed.

(** What the loops take for granted *)
Definition group_pre (i : nat) (p : list Z) (ptp n : Z) : Prop :=
  Forall octet p ∧ 0 ≤ ptp ∧ 16 * (ptp + 4 * Z.of_nat i) ≤ zlen p
  ∧ 0 ≤ n ∧ n mod 4 = 0 ∧ n + 4 * Z.of_nat i < 2 ^ 16.

Lemma group_pre_S i p ptp n : group_pre (S i) p ptp n →
  u32 (n + BPI) = n + 4 ∧ n + 4 < 2 ^ 16 ∧ 16 * (ptp + 4) ≤ zlen p ∧ group_pre i p (ptp + 4) (n + 4).
Proof.
  intros (Hp & Hptp & Hl & Hn & Hm & Hlt). unfold BPI, group_pre. rewrite uwrap_small by lia.
  assert ((n + 4) mod 4 = 0) by (replace (n + 4) with (n + 1 * 4) by lia; by rewrite Z.mod_add by lia).
  split_and!; try done; lia.
Qed.

Lemma encrypt_loop_ok i c p ptp n off sum o s ct : ctx_ok c → group_pre i p ptp n → rep off o → rep sum s →
  let '(cs, o', s') := Rfc7253.encrypt_blocks key (Z.to_pos (n + 1)) o s
                         (Rfc7253.blocks (4 * i) (drop (Z.to_nat (16 * ptp)) p)) in
  ∃ off' sum', encrypt_loop little i c p ptp n off sum ct
      = Ok (ptp + 4 * Z.of_nat i, n + 4 * Z.of_nat i, off', sum', ct ++ concat (be_bytes 16 <$> cs))
    ∧ rep off' o' ∧ rep sum' s'.
Proof.
  intros Hc. revert ptp n off sum o s ct. induction i as [|i IH]; intros ptp n off sum o s ct Hpre Ho Hs.
  { cbn. exists off, sum. by rewrite !Z.add_0_r, app_nil_r. }
  pose proof Hpre as (Hp & Hptp & _ & Hn & Hm & _).
  destruct (group_pre_S _ _ _ _ Hpre) as (Hu & Hlt & Hl & Hpre').
  destruct (group_offsets_ok c off o n Hc Ho Hn Hm Hlt) as (oa & Hoa & Hos).
  destruct (four_blocks_ok p ptp Hp Hptp Hl) as (bs & Hbs & Hxs).
  rewrite blocks_group, encrypt_group, next_group by (done || apply blocks_length).
  cbn [encrypt_loop]. rewrite Hu, Hoa. cbn [mbind result_bind]. rewrite Hbs. cbn [mbind result_bind].
  rewrite (ok_ekey _ Hc), ecb_encrypt.
  2: { rewrite length_zip_with, (Forall2_length _ _ _ Hos), (Forall2_length _ _ _ Hxs). done. }
  pose proof (whitened _ _ _ _ _ _ rep_encrypt Hos Hxs) as Hw.
  specialize (IH (ptp + 4) (n + 4) (oa_last oa off) (fold_left xor_block bs sum)
    (default o (last (offsets (Z.to_pos (n + 1)) o)))
    (fold_left Z.lxor (Rfc7253.blocks 4 (drop (Z.to_nat (16 * ptp)) p)) s)
    (ct ++ concat (to_memory <$> zip_with xor_block (encrypt_blk little key <$> zip_with xor_block oa bs) oa)) Hpre'
    (last_offset _ _ _ _ Hos) (fold_xor_ok _ _ _ _ Hxs Hs)).
  destruct (Rfc7253.encrypt_blocks key (Z.to_pos (n + 4 + 1)) _ _ _) as [[cs o'] s'].
  destruct IH as (off' & sum' & Heq & Ho' & Hs'). exists off', sum'. split; [|done].
  change (ptp + BPI) with (ptp + 4). rewrite Heq. rewrite (memory_concat _ _ Hw), fmap_app, concat_app, app_assoc.
  by replace (ptp + 4 + 4 * Z.of_nat i) with (ptp + 4 * Z.of_nat (S i)) by lia;
    replace (n + 4 + 4 * Z.of_nat i) with (n + 4 * Z.of_nat (S i)) by lia.
Qed.

Lemma decrypt_loop_ok i c p ptp n off sum o s pt : ctx_ok c → group_pre i p ptp n → rep off o → rep sum s →
  let '(ps, o', s') := Rfc7253.decrypt_blocks key (Z.to_pos (n + 1)) o s
                         (Rfc7253.blocks (4 * i) (drop (Z.to_nat (16 * ptp)) p)) in
  ∃ off' sum', decrypt_loop little i c p ptp n off sum pt
      = Ok (ptp + 4 * Z.of_nat i, n + 4 * Z.of_nat i, off', sum', pt ++ concat (be_bytes 16 <$> ps))
    ∧ rep off' o' ∧ rep sum' s'.
Proof.
  intros Hc. revert ptp n off sum o s pt. induction i as [|i IH]; intros ptp n off sum o s pt Hpre Ho Hs.
  { cbn. exists off, sum. by rewrite !Z.add_0_r, app_nil_r. }
  pose proof Hpre as (Hp & Hptp & _ & Hn & Hm & _).
  destruct (group_pre_S _ _ _ _ Hpre) as (Hu & Hlt & Hl & Hpre').
  destruct (group_offsets_ok c off o n Hc Ho Hn Hm Hlt) as (oa & Hoa & Hos).
  destruct (four_blocks_ok p ptp Hp Hptp Hl) as (bs & Hbs & Hxs).
  rewrite blocks_group, decrypt_group, next_group by (done || apply blocks_length).
  cbn [decrypt_loop]. rewrite Hu, Hoa. cbn [mbind result_bind]. rewrite Hbs. cbn [mbind result_bind].
  rewrite (ok_dkey _ Hc), ecb_decrypt.
  2: { rewrite length_zip_with, (Forall2_length _ _ _ Hos), (Forall2_length _ _ _ Hxs). done. }
  pose proof (whitened _ _ _ _ _ _ rep_decrypt Hos Hxs) as Hw.
  set (q := zip_with xor_block _ oa) in *.
  set (xs := zip_with (fun o x => Z.lxor o (D (Z.lxor x o))) _ _) in *.
  specialize (IH (ptp + 4) (n + 4) (oa_last oa off) (fold_left xor_block q sum)
    (default o (last (offsets (Z.to_pos (n + 1)) o))) (fold_left Z.lxor xs s)
    (pt ++ concat (to_memory <$> q)) Hpre' (last_offset _ _ _ _ Hos) (fold_xor_ok _ _ _ _ Hw Hs)).
  destruct (Rfc7253.decrypt_blocks key (Z.to_pos (n + 4 + 1)) _ _ _) as [[ps o'] s'].
  destruct IH as (off' & sum' & Heq & Ho' & Hs'). exists off', sum'. split; [|done].
  change (ptp + BPI) with (ptp + 4). rewrite Heq. rewrite (memory_concat _ _ Hw), fmap_app, concat_app, app_assoc.
  by replace (ptp + 4 + 4 * Z.of_nat i) with (ptp + 4 * Z.of_nat (S i)) by lia;
    replace (n + 4 + 4 * Z.of_nat i) with (n + 4 * Z.of_nat (S i)) by lia.
Qed.

(** ** Associated data *)

Lemma lxor_cancel o a b : Z.lxor (Z.lxor (Z.lxor o a) b) a = Z.lxor o b.
Proof. by rewrite Z.lxor_assoc, (Z.lxor_comm b a), <- Z.lxor_assoc, (Z.lxor_assoc o), Z.lxor_nilpotent, Z.lxor_0_r. Qed.

Lemma ad_loop_ok i c p ptp n off sum o s : ctx_ok c → group_pre i p ptp n → rep off o → rep sum s →
  let '(o', s') := Rfc7253.hash_blocks key (Z.to_pos (n + 1)) o s
                     (Rfc7253.blocks (4 * i) (drop (Z.to_nat (16 * ptp)) p)) in
  ∃ off' sum', ad_loop little i c p ptp n off sum
      = Ok (ptp + 4 * Z.of_nat i, n + 4 * Z.of_nat i, off', sum')
    ∧ rep off' o' ∧ rep sum' s'.
Proof.
  intros Hc. revert ptp n off sum o s. induction i as [|i IH]; intros ptp n off sum o s Hpre Ho Hs.
  { cbn. exists off, sum. by rewrite !Z.add_0_r. }
  pose proof Hpre as (Hp & Hptp & _ & Hn & Hm & _).
  destruct (group_pre_S _ _ _ _ Hpre) as (Hu & Hlt & Hl & Hpre').
  destruct (group_L n Hn Hm) as (HL0 & HL1 & HL2 & Hi).
  destruct (table_get c 0 Hc ltac:(lia)) as (L0 & HL0' & HR0).
  destruct (table_get c 1 Hc ltac:(lia)) as (L1 & HL1' & HR1).
  destruct (last_L c n Hc Hn Hlt) as (Lz & HLz & HRz). rewrite ntz_pos in HLz by lia. cbn [mbind result_bind] in HLz.
  destruct (group_blocks p ptp Hp Hptp Hl) as (b0 & b1 & b2 & b3 & H0 & H1 & H2 & H3 & Hxs).
  rewrite blocks_group, hash_group, next_group by (done || apply blocks_length).
  cbn [ad_loop]. rewrite Hu, ntz_pos by lia. cbn [mbind result_bind].
  rewrite HL0', HL1'. cbn [mbind result_bind]. rewrite H0, H1, H2. cbn [mbind result_bind].
  rewrite HLz. cbn [mbind result_bind]. rewrite H3. cbn [mbind result_bind].
  rewrite (ok_ekey _ Hc), ecb_encrypt by done.
  set (xs := Rfc7253.blocks 4 _) in *. pose proof (blocks_length 4 (drop (Z.to_nat (16 * ptp)) p)) as Hlen. fold xs in Hlen.
  clearbody xs. destruct xs as [|x0 [|x1 [|x2 [|x3 [|]]]]]; try done.
  repeat (apply Forall2_cons in Hxs as [? Hxs]).
  unfold offsets. rewrite HL0, HL1, HL2, Hi, lxor_cancel. cbn [last default].
  replace (ptp + 4 * Z.of_nat (S i)) with (ptp + 4 + 4 * Z.of_nat i) by lia.
  replace (n + 4 * Z.of_nat (S i)) with (n + 4 + 4 * Z.of_nat i) by lia.
  apply (IH (ptp + 4) (n + 4)); [done|by repeat apply rep_xor|].
  apply (fold_xor_ok [_; _; _; _] [_; _; _; _]); [|done].
  repeat (apply Forall2_cons; split; [apply rep_encrypt; rewrite Z.lxor_comm; repeat apply rep_xor; done|]). constructor.
Qed.

(** ** Behind the last group *)

(** Less than four blocks take the first offsets of a group. *)
Lemma encrypt_part i o s ps : (length ps < 4)%nat →
  Rfc7253.encrypt_blocks key i o s ps =
  (zip_with (fun o x => Z.lxor o (E (Z.lxor x o))) (take (length ps) (offsets i o)) ps,
   default o (last (take (length ps) (offsets i o))), fold_left Z.lxor ps s).
Proof. destruct ps as [|p0 [|p1 [|p2 [|]]]]; cbn [length]; intros; try done; lia. Qed.

Lemma decrypt_part i o s cs : (length cs < 4)%nat →
  let ps := zip_with (fun o x => Z.lxor o (D (Z.lxor x o))) (take (length cs) (offsets i o)) cs in
  Rfc7253.decrypt_blocks key i o s cs =
  (ps, default o (last (take (length cs) (offsets i o))), fold_left Z.lxor ps s).
Proof. destruct cs as [|p0 [|p1 [|p2 [|]]]]; cbn [length]; intros; try done; lia. Qed.

Lemma hash_part i o s as_ : (length as_ < 4)%nat →
  Rfc7253.hash_blocks key i o s as_ =
  (default o (last (take (length as_) (offsets i o))),
   fold_left Z.lxor (zip_with (fun o x => E (Z.lxor x o)) (take (length as_) (offsets i o)) as_) s).
Proof. destruct as_ as [|p0 [|p1 [|p2 [|]]]]; cbn [length]; intros; try done; lia. Qed.

(** What is left: [rem] octets at block [ptp] *)
Definition rest_pre (p : list Z) (ptp rem n : Z) : Prop :=
  Forall octet p ∧ 0 ≤ ptp ∧ 0 ≤ rem < 64 ∧ 16 * ptp + rem = zlen p ∧ 0 ≤ n ∧ n mod 4 = 0.

Definition rest_blocks (p : list Z) (ptp rem : Z) : list Z :=
  Rfc7253.blocks (Z.to_nat (rem / 16)) (drop (Z.to_nat (16 * ptp)) p).

Lemma div_16 rem : 0 ≤ rem < 64 →
  rem / 16 = 0 ∧ rem < 16 ∧ rem mod 16 = rem
  ∨ rem / 16 = 1 ∧ 16 ≤ rem < 32 ∧ rem mod 16 = rem - 16
  ∨ rem / 16 = 2 ∧ 32 ≤ rem < 48 ∧ rem mod 16 = rem - 32
  ∨ rem / 16 = 3 ∧ 48 ≤ rem ∧ rem mod 16 = rem - 48.
Proof. intros Hr. pose proof (Z.div_mod rem 16). pose proof (Z.mod_pos_bound rem 16). lia. Qed.

Ltac reps := repeat (apply Forall2_cons; split; [done || by repeat apply rep_xor|]); constructor.

Lemma remaining_blocks_ok c p ptp rem n off o : ctx_ok c → rest_pre p ptp rem n → rep off o →
  ∃ oa bs off', remaining_blocks little c p ptp rem off = Ok (oa, bs, off', rem mod 16)
    ∧ Forall2 rep oa (take (Z.to_nat (rem / 16)) (offsets (Z.to_pos (n + 1)) o))
    ∧ Forall2 rep bs (rest_blocks p ptp rem)
    ∧ rep off' (default o (last (take (Z.to_nat (rem / 16)) (offsets (Z.to_pos (n + 1)) o))))
    ∧ zlen oa = rem / 16.
Proof.
  intros Hc (Hp & Hptp & Hrem & Hl & Hn & Hm) Ho.
  destruct (group_L n Hn Hm) as (HL0 & HL1 & HL2 & _).
  destruct (table_get c 0 Hc ltac:(lia)) as (L0 & HL0' & HR0).
  destruct (table_get c 1 Hc ltac:(lia)) as (L1 & HL1' & HR1).
  unfold remaining_blocks, rest_blocks. rewrite HL0', HL1'. cbn [mbind result_bind].
  destruct (div_16 rem Hrem) as [(-> & Hr & ->)|[(-> & Hr & ->)|[(-> & Hr & ->)|(-> & Hr & ->)]]]; z_bools; cbn [mbind result_bind].
  - z_bools. by exists [], [], off.
  - z_bools. destruct (block_at_ok p (ptp + 0)) as (b0 & H0 & Hb0); [done|lia|lia|].
    change (zlen []) with 0. rewrite H0. cbn [mbind result_bind]. eexists _, _, _. split; [done|].
    rewrite Z.add_0_r in Hb0. change (Z.to_nat 1) with 1%nat. rewrite !blocks_drop by lia.
    unfold offsets. cbn [take last default app]. rewrite HL0.
    split_and!; [reps|reps|by repeat apply rep_xor|done].
  - destruct (block_at_ok p ptp) as (b0 & -> & Hb0); [done|lia|lia|].
    destruct (block_at_ok p (ptp + 1)) as (b1 & -> & Hb1); [done|lia|lia|]. cbn [mbind result_bind]. z_bools.
    eexists _, _, _. split; [done|]. change (Z.to_nat 2) with 2%nat. rewrite !blocks_drop by lia.
    unfold offsets. cbn [take last default]. rewrite HL0, HL1.
    split_and!; [reps|reps|by repeat apply rep_xor|done].
  - destruct (block_at_ok p ptp) as (b0 & -> & Hb0); [done|lia|lia|].
    destruct (block_at_ok p (ptp + 1)) as (b1 & -> & Hb1); [done|lia|lia|]. cbn [mbind result_bind]. z_bools.
    destruct (block_at_ok p (ptp + 2)) as (b2 & H2 & Hb2); [done|lia|lia|]. change (ptp + zlen _) with (ptp + 2).
    rewrite H2. cbn [mbind result_bind].
    eexists _, _, _. split; [by replace (rem - 32 - 16) with (rem - 48) by lia|]. change (Z.to_nat 3) with 3%nat.
    rewrite !blocks_drop by lia. replace (ptp + 1 + 1) with (ptp + 2) by lia.
    unfold offsets. cbn [take last default app]. rewrite HL0, HL1, HL2.
    split_and!; [reps|reps|by repeat apply rep_xor|done].
Qed.

(** The last octets *)
Definition rest_octets (p : list Z) (ptp rem : Z) : list Z := drop (Z.to_nat (16 * (ptp + rem / 16))) p.

Lemma rest_octets_read p ptp rem n : rest_pre p ptp rem n →
  read_bytes p (16 * (ptp + rem / 16)) (rem mod 16) = Ok (rest_octets p ptp rem)
  ∧ length (rest_octets p ptp rem) = Z.to_nat (rem mod 16) ∧ Forall octet (rest_octets p ptp rem)
  ∧ 0 ≤ rem mod 16 < 16.
Proof.
  intros (Hp & Hptp & Hrem & Hl & Hn & Hm). pose proof (Z.div_mod rem 16). pose proof (Z.mod_pos_bound rem 16).
  assert (0 ≤ rem / 16) by (apply Z.div_pos; lia).
  assert (length (rest_octets p ptp rem) = Z.to_nat (rem mod 16)) as Hlen.
  { unfold rest_octets. rewrite length_drop. unfold zlen in Hl. lia. }
  split_and!; [|done|by apply Forall_drop|lia|lia].
  unfold read_bytes. z_bools. cbn [andb]. f_equal. apply take_ge. fold (rest_octets p ptp rem). lia.
Qed.

Lemma pad_octets q : (length q < 16)%nat → Forall octet q →
  block_octets (q ++ 0x80 :: replicate (15 - length q) 0).
Proof.
  intros Hl Ho. split; [rewrite length_app; cbn; rewrite length_replicate; lia|].
  apply Forall_app. split; [done|]. constructor; [done|]. by apply Forall_replicate.
Qed.

Lemma insert_pad q (xs : list Z) : (length q < 16)%nat → length xs = (16 - length q)%nat →
  <[length q := 0x80]> (q ++ xs) = q ++ 0x80 :: drop 1 xs.
Proof.
  intros Hl Hx. rewrite insert_app_r_alt, Nat.sub_diag by lia. destruct xs; [cbn in Hx; lia|]. done.
Qed.

Lemma pad_block_ok q : (length q < 16)%nat → Forall octet q → rep (pad_block little q) (Rfc7253.pad q).
Proof.
  intros Hl Ho. unfold pad_block, Rfc7253.pad. rewrite (rep_memory _ _ rep_zero).
  rewrite insert_pad by (try done; by rewrite length_drop, be_bytes_length).
  assert (drop 1 (drop (length q) (be_bytes 16 0)) = replicate (15 - length q) 0) as ->.
  { change (be_bytes 16 0) with (replicate 16 0). rewrite drop_drop, drop_replicate. f_equal. lia. }
  by apply rep_of_memory, pad_octets.
Qed.

Lemma fold_lxor_reverse xs s : fold_left Z.lxor (reverse xs) s = fold_left Z.lxor xs s.
Proof.
  assert (∀ l l', l ≡ₚ l' → ∀ s, fold_left Z.lxor l s = fold_left Z.lxor l' s) as Hperm.
  { induction 1 as [|x l l' _ IH|x y l|l l' l'' _ IH1 _ IH2]; intros t; cbn; [done|apply IH| |by rewrite IH1].
    by rewrite !Z.lxor_assoc, (Z.lxor_comm y x). }
  apply Hperm, reverse_Permutation.
Qed.

Lemma maybe_remaining c p ptp rem n off o : ctx_ok c → rest_pre p ptp rem n → rep off o →
  ∃ oa bs off',
    (if negb (rem =? 0) then remaining_blocks little c p ptp rem off else Ok ([], [], off, rem))
      = Ok (oa, bs, off', rem mod 16)
    ∧ Forall2 rep oa (take (Z.to_nat (rem / 16)) (offsets (Z.to_pos (n + 1)) o))
    ∧ Forall2 rep bs (rest_blocks p ptp rem)
    ∧ rep off' (default o (last (take (Z.to_nat (rem / 16)) (offsets (Z.to_pos (n + 1)) o))))
    ∧ zlen oa = rem / 16.
Proof.
  intros Hc Hpre Ho. destruct (Z.eqb_spec rem 0) as [->|Hne]; cbn [negb]; [|by apply remaining_blocks_ok].
  by exists [], [], off.
Qed.

Lemma rest_blocks_length p ptp rem n : rest_pre p ptp rem n →
  length (rest_blocks p ptp rem) = Z.to_nat (rem / 16) ∧ (length (rest_blocks p ptp rem) < 4)%nat.
Proof.
  intros (_ & _ & Hrem & _). unfold rest_blocks. rewrite blocks_length. split; [done|].
  assert (rem / 16 < 4) by (apply Z.div_lt_upper_bound; lia). lia.
Qed.

Lemma zlen_fmap {A B} (f : A → B) (xs : list A) : zlen (f <$> xs) = zlen xs.
Proof. unfold zlen. by rewrite length_fmap. Qed.

Lemma zip_with_prefix (q xs ys : list Z) : (length q ≤ length ys)%nat →
  take (length q) (zip_with Z.lxor (q ++ xs) ys) = zip_with Z.lxor q ys.
Proof.
  revert ys. induction q as [|x q IH]; intros [|y ys] Hl; cbn in Hl |- *; try (done || lia).
  f_equal. apply IH. lia.
Qed.

Lemma pad_memory q : (length q < 16)%nat → Forall octet q →
  to_memory (pad_block little q) = q ++ 0x80 :: replicate (15 - length q) 0.
Proof.
  intros Hl Ho. pose proof (pad_octets q Hl Ho) as Hp. rewrite (rep_memory _ _ (pad_block_ok q Hl Ho)).
  unfold Rfc7253.pad. pose proof (be_bytes_value _ (proj2 Hp)) as Hb. by rewrite (proj1 Hp) in Hb.
Qed.

(** The tag, whatever the order of the offset and the checksum *)
Lemma rep_tag c off sum o s a : ctx_ok c → rep off o → rep sum s → rep (ad_checksum c) a →
  rep (xor_block (encrypt_blk little key (xor_block (xor_block off (Ldollar c)) sum)) (ad_checksum c))
    (Z.lxor (E (Z.lxor (Z.lxor s o) (Rfc7253.L_dollar key))) a).
Proof.
  intros Hc Ho Hs Ha. rewrite (Z.lxor_comm s o), Z.lxor_assoc, (Z.lxor_comm s), <- Z.lxor_assoc.
  apply rep_xor; [|done]. apply rep_encrypt. apply rep_xor; [|done]. apply rep_xor; [done|]. apply Hc.
Qed.

Lemma encrypt_rest_ne o s q : q ≠ [] → Rfc7253.encrypt_rest key o s q =
  let o' := Z.lxor o (Rfc7253.L_star key) in
  (zip_with Z.lxor q (be_bytes 16 (E o')), o', Z.lxor s (Rfc7253.pad q)).
Proof. by destruct q. Qed.

Lemma decrypt_rest_ne o s q : q ≠ [] → Rfc7253.decrypt_rest key o s q =
  let o' := Z.lxor o (Rfc7253.L_star key) in
  let p := zip_with Z.lxor q (be_bytes 16 (E o')) in (p, o', Z.lxor s (Rfc7253.pad p)).
Proof. by destruct q. Qed.

Lemma hash_rest_ne o s q : q ≠ [] →
  Rfc7253.hash_rest key o s q = Z.lxor s (E (Z.lxor (Rfc7253.pad q) (Z.lxor o (Rfc7253.L_star key)))).
Proof. by destruct q. Qed.

(** The result of the final call: the octets, and the tag for the sum of
    the associated data *)
Definition final_result (m : result (list Z * block)) (text : list Z) (o s a : Z) : Prop :=
  ∃ t, m = Ok (text, t) ∧ rep t (Z.lxor (E (Z.lxor (Z.lxor s o) (Rfc7253.L_dollar key))) a).

Lemma encrypt_final_ok c p ptp len rem n off sum o s a :
  ctx_ok c → rest_pre p ptp rem n → u32 len mod 64 = rem → rep off o → rep sum s → rep (ad_checksum c) a →
  let '(cs, o1, s1) := Rfc7253.encrypt_blocks key (Z.to_pos (n + 1)) o s (rest_blocks p ptp rem) in
  let '(q, o2, s2) := Rfc7253.encrypt_rest key o1 s1 (rest_octets p ptp rem) in
  final_result (encrypt_final little c p ptp len off sum) (concat (be_bytes 16 <$> cs) ++ q) o2 s2 a.
Proof.
  intros Hc Hpre Hlen Ho Hs Ha. destruct (rest_blocks_length _ _ _ _ Hpre) as [Hbl Hb4].
  rewrite encrypt_part, Hbl by done. unfold encrypt_final. change (BPI * 16) with 64. rewrite Hlen.
  destruct (maybe_remaining c p ptp rem n off o Hc Hpre Ho) as (oa & bs & off' & -> & Hoa & Hbs & Hoff' & Hk).
  cbn [mbind result_bind]. destruct (rest_octets_read _ _ _ _ Hpre) as (Hread & Hrl & Hro & Hrange).
  pose proof (fold_xor_ok _ _ _ _ Hbs Hs) as Hs1.
  pose proof (whitened _ _ _ _ _ _ rep_encrypt Hoa Hbs) as Hw.
  set (q := rest_octets p ptp rem) in *. set (ta := zip_with xor_block oa bs) in *.
  assert (zlen ta = zlen oa) as Hta.
  { unfold ta, zlen in *. rewrite length_zip_with, (Forall2_length _ _ _ Hbs), Hbl. lia. }
  assert (∀ es, take (Z.to_nat (zlen oa)) ((encrypt_blk little key <$> ta) ++ es) = encrypt_blk little key <$> ta) as Htake.
  { intros es. apply take_app_length'. rewrite length_fmap. unfold zlen in *. lia. }
  rewrite (ok_ekey _ Hc). destruct (Z.eqb_spec (rem mod 16) 0) as [Hz|Hnz]; cbn [negb mbind result_bind].
  - assert (q = []) as -> by (apply nil_length_inv; lia). cbn [Rfc7253.encrypt_rest].
    rewrite ecb_encrypt, fmap_app by (rewrite length_app; unfold zlen; cbn; lia). cbn [fmap list_fmap].
    rewrite vec_get_middle by (by rewrite zlen_fmap). cbn [mbind result_bind]. rewrite Htake, (memory_concat _ _ Hw).
    eexists. split; [done|]. by apply rep_tag.
  - rewrite <- Hk in Hread. rewrite Hread. cbn [mbind result_bind].
    rewrite encrypt_rest_ne by (intros ->; cbn in Hrl; lia). cbv zeta.
    pose proof (rep_xor _ _ _ _ Hoff' (ok_lstar _ Hc)) as Ho2. pose proof (pad_block_ok q ltac:(lia) Hro) as Hpad.
    rewrite ecb_encrypt, !fmap_app by (rewrite !length_app; unfold zlen; rewrite length_app; cbn; lia).
    cbn [fmap list_fmap]. rewrite (vec_get_middle _ _ (zlen (ta ++ _))) by (by rewrite !zlen_app, zlen_fmap). cbn [mbind result_bind].
    rewrite <- app_assoc. cbn [app]. rewrite vec_get_middle by (by rewrite zlen_fmap). cbn [mbind result_bind].
    rewrite Htake, (memory_concat _ _ Hw), memory_xor, (rep_memory _ _ (rep_encrypt _ _ Ho2)), pad_memory by (done || lia).
    rewrite <- Hrl, zip_with_prefix by (rewrite be_bytes_length; lia).
    eexists. split; [done|]. apply rep_tag; [done|done| |done]. by apply rep_xor.
Qed.

Lemma fold_lxor_start xs s d : fold_left Z.lxor xs (Z.lxor s d) = Z.lxor (fold_left Z.lxor xs s) d.
Proof.
  revert s. induction xs as [|x xs IH]; intros s; [done|]. cbn. rewrite <- IH. f_equal.
  by rewrite !Z.lxor_assoc, (Z.lxor_comm d x).
Qed.

(** The last octets of the plaintext, filled up, come out of the pad. *)
Lemma unpad q pad : (length q < 16)%nat → Forall octet q → block_octets pad →
  let p := zip_with Z.lxor q pad in
  block_octets (q ++ drop (length q) pad) ∧ length p = length q ∧ Forall octet p
  ∧ <[length q := 0x80]> (zip_with Z.lxor (q ++ drop (length q) pad) pad)
    = p ++ 0x80 :: replicate (15 - length p) 0.
Proof.
  intros Hl Ho [Hpl Hpo] p.
  assert (block_octets (q ++ drop (length q) pad)) as Hqp.
  { split; [rewrite length_app, length_drop; lia|]. apply Forall_app. split; [done|by apply Forall_drop]. }
  assert (length p = length q) as Hp by (unfold p; rewrite length_zip_with; lia).
  assert (∀ xs ys, length xs = length ys → Forall octet xs → Forall octet ys → Forall octet (zip_with Z.lxor xs ys)) as Hzip.
  { induction xs as [|x xs IH]; intros [|y ys] Hxy Hx Hy; try done. cbn in Hxy.
    apply Forall_cons in Hx as [? ?], Hy as [? ?]. cbn. constructor; [by apply octet_lxor|]. apply IH; [lia|done|done]. }
  assert (∀ xs, zip_with Z.lxor xs xs = replicate (length xs) 0) as Hself.
  { induction xs as [|x xs IH]; [done|]. cbn. by rewrite IH, Z.lxor_nilpotent. }
  assert (p = zip_with Z.lxor q (take (length q) pad)) as Hpt.
  { unfold p. clear. revert pad. induction q as [|x q IH]; intros [|y pad]; cbn; try done. by rewrite IH. }
  split_and!; [done|done| |].
  - rewrite Hpt. apply Hzip; [rewrite length_take; lia|done|by apply Forall_take].
  - rewrite <- (take_drop (length q) pad) at 2. rewrite zip_with_app by (rewrite length_take; lia).
    rewrite <- Hpt, Hself, <- Hp, insert_pad, length_drop by (rewrite ?length_replicate, ?length_drop; lia).
    do 2 f_equal. rewrite Hp. by replace (length pad - length q)%nat with (S (15 - length q)) by lia.
Qed.

Lemma decrypt_final_ok c p ptp len rem n off sum o s a :
  ctx_ok c → rest_pre p ptp rem n → u32 len mod 64 = rem → rep off o → rep sum s → rep (ad_checksum c) a →
  let '(ps, o1, s1) := Rfc7253.decrypt_blocks key (Z.to_pos (n + 1)) o s (rest_blocks p ptp rem) in
  let '(q, o2, s2) := Rfc7253.decrypt_rest key o1 s1 (rest_octets p ptp rem) in
  final_result (decrypt_final little c p ptp len off sum) (concat (be_bytes 16 <$> ps) ++ q) o2 s2 a.
Proof.
  intros Hc Hpre Hlen Ho Hs Ha. destruct (rest_blocks_length _ _ _ _ Hpre) as [Hbl Hb4].
  rewrite decrypt_part, Hbl by done. unfold decrypt_final. change (BPI * 16) with 64. rewrite Hlen.
  destruct (maybe_remaining c p ptp rem n off o Hc Hpre Ho) as (oa & bs & off' & -> & Hoa & Hbs & Hoff' & Hk).
  cbn [mbind result_bind]. destruct (rest_octets_read _ _ _ _ Hpre) as (Hread & Hrl & Hro & Hrange).
  pose proof (whitened _ _ _ _ _ _ rep_decrypt Hoa Hbs) as Hw.
  set (q := rest_octets p ptp rem) in *.
  rewrite (ok_ekey _ Hc), (ok_dkey _ Hc), ecb_decrypt.
  2: { unfold zlen in *. rewrite length_zip_with, (Forall2_length _ _ _ Hbs), Hbl. lia. }
  set (r := zip_with xor_block _ oa) in *. set (xs := zip_with _ (take _ _) _) in *.
  destruct (Z.eqb_spec (rem mod 16) 0) as [Hz|Hnz]; cbn [negb mbind result_bind].
  - assert (q = []) as -> by (apply nil_length_inv; lia). cbn [Rfc7253.decrypt_rest]. rewrite (memory_concat _ _ Hw).
    eexists. split; [done|]. rewrite <- fold_lxor_reverse. apply rep_tag; [done|done| |done].
    apply fold_xor_ok; [by apply Forall2_reverse|done].
  - rewrite <- Hk in Hread. rewrite Hread. cbn [mbind result_bind].
    rewrite decrypt_rest_ne by (intros ->; cbn in Hrl; lia). cbv zeta.
    pose proof (rep_xor _ _ _ _ Hoff' (ok_lstar _ Hc)) as Ho2.
    rewrite (rep_memory _ _ (rep_encrypt _ _ Ho2)). set (pad := be_bytes 16 (E _)).
    destruct (unpad q pad ltac:(lia) Hro (be_bytes_block _)) as (Hqo & Hpl & Hpo & Hins). cbv zeta in Hpl, Hpo, Hins.
    rewrite memory_xor, (to_of_memory _ (q ++ _)), (rep_memory _ _ (rep_encrypt _ _ Ho2)) by done. fold pad.
    rewrite <- Hrl, Hins, <- Hpl. pose proof (pad_octets _ ltac:(rewrite Hpl; lia) Hpo) as Hbo.
    rewrite to_of_memory, take_app_length, (memory_concat _ _ Hw) by done.
    eexists. split; [done|]. apply rep_tag; [done|done| |done]. rewrite <- fold_lxor_start, <- fold_lxor_reverse.
    apply fold_xor_ok; [by apply Forall2_reverse|]. apply rep_xor; [done|]. by apply rep_of_memory.
Qed.

Lemma ad_remaining_blocks_ok c p ptp rem n off o : ctx_ok c → rest_pre p ptp rem n → rep off o →
  ∃ ta off', ad_remaining_blocks little c p ptp rem off = Ok (ta, rem / 16, off', rem mod 16)
    ∧ Forall2 rep ta (zip_with Z.lxor (take (Z.to_nat (rem / 16)) (offsets (Z.to_pos (n + 1)) o)) (rest_blocks p ptp rem))
    ∧ rep off' (default o (last (take (Z.to_nat (rem / 16)) (offsets (Z.to_pos (n + 1)) o)))).
Proof.
  intros Hc (Hp & Hptp & Hrem & Hl & Hn & Hm) Ho.
  destruct (group_L n Hn Hm) as (HL0 & HL1 & HL2 & _).
  destruct (table_get c 0 Hc ltac:(lia)) as (L0 & HL0' & HR0).
  destruct (table_get c 1 Hc ltac:(lia)) as (L1 & HL1' & HR1).
  unfold ad_remaining_blocks, rest_blocks. rewrite HL0'. cbn [mbind result_bind].
  change (ntz (0 + 2)) with (Ok 1). unfold getL. cbn [mbind result_bind]. rewrite HL1'.
  destruct (div_16 rem Hrem) as [(-> & Hr & ->)|[(-> & Hr & ->)|[(-> & Hr & ->)|(-> & Hr & ->)]]]; z_bools; cbn [mbind result_bind].
  - z_bools. by exists [], off.
  - z_bools. destruct (block_at_ok p (ptp + 0)) as (b0 & -> & Hb0); [done|lia|lia|]. cbn [mbind result_bind].
    eexists _, _. split; [done|]. rewrite Z.add_0_r in Hb0. change (Z.to_nat 1) with 1%nat. rewrite !blocks_drop by lia.
    unfold offsets. cbn [take last default app zip_with]. rewrite HL0. split; [reps|by repeat apply rep_xor].
  - destruct (block_at_ok p ptp) as (b0 & -> & Hb0); [done|lia|lia|].
    destruct (block_at_ok p (ptp + 1)) as (b1 & -> & Hb1); [done|lia|lia|]. cbn [mbind result_bind]. z_bools.
    eexists _, _. split; [done|]. change (Z.to_nat 2) with 2%nat. rewrite !blocks_drop by lia.
    unfold offsets. cbn [take last default zip_with]. rewrite HL0, HL1. split; [reps|by repeat apply rep_xor].
  - destruct (block_at_ok p ptp) as (b0 & -> & Hb0); [done|lia|lia|].
    destruct (block_at_ok p (ptp + 1)) as (b1 & -> & Hb1); [done|lia|lia|]. cbn [mbind result_bind]. z_bools.
    destruct (block_at_ok p (ptp + 2)) as (b2 & -> & Hb2); [done|lia|lia|]. cbn [mbind result_bind].
    eexists _, _. split; [by replace (rem - 32 - 16) with (rem - 48) by lia|]. change (Z.to_nat 3) with 3%nat.
    rewrite !blocks_drop by lia. replace (ptp + 1 + 1) with (ptp + 2) by lia.
    unfold offsets. cbn [take last default app zip_with]. rewrite HL0, HL1, HL2. split; [reps|by repeat apply rep_xor].
Qed.

Lemma ad_remaining_ok c p ptp rem n off sum o s : ctx_ok c → rest_pre p ptp rem n → rep off o → rep sum s →
  let '(o1, s1) := Rfc7253.hash_blocks key (Z.to_pos (n + 1)) o s (rest_blocks p ptp rem) in
  ∃ sum', ad_remaining little c p ptp rem off sum = Ok sum'
    ∧ rep sum' (Rfc7253.hash_rest key o1 s1 (rest_octets p ptp rem)).
Proof.
  intros Hc Hpre Ho Hs. destruct (rest_blocks_length _ _ _ _ Hpre) as [Hbl Hb4].
  rewrite hash_part, Hbl by done. unfold ad_remaining.
  destruct (ad_remaining_blocks_ok c p ptp rem n off o Hc Hpre Ho) as (ta & off' & -> & Hta & Hoff').
  cbn [mbind result_bind]. destruct (rest_octets_read _ _ _ _ Hpre) as (Hread & Hrl & Hro & Hrange).
  set (q := rest_octets p ptp rem) in *. set (os := take _ _) in *.
  assert (Z.of_nat (length ta) = rem / 16) as Hk.
  { assert (0 ≤ rem / 16 < 4) by (destruct Hpre as (_ & _ & ? & _); split; [apply Z.div_pos; lia|apply Z.div_lt_upper_bound; lia]).
    rewrite (Forall2_length _ _ _ Hta), length_zip_with, Hbl. subst os. rewrite length_take. cbn [length offsets]. lia. }
  assert (Forall2 rep (encrypt_blk little key <$> ta) (zip_with (fun o x => E (Z.lxor x o)) os (rest_blocks p ptp rem))) as He.
  { clear -Hta Hkey H. revert Hta. generalize (rest_blocks p ptp rem) as xs. generalize os as ys.
    induction ta as [|b ta IH]; intros [|y ys] [|x xs] Hta; cbn in *; try (by inversion Hta); try constructor.
    - apply Forall2_cons in Hta as [Hb _]. rewrite Z.lxor_comm. by apply rep_encrypt.
    - apply Forall2_cons in Hta as [_ Hta]. by apply IH. }
  rewrite (ok_ekey _ Hc). destruct (Z.eqb_spec (rem mod 16) 0) as [Hz|Hnz]; cbn [negb mbind result_bind].
  - assert (q = []) as -> by (apply nil_length_inv; lia). cbn [Rfc7253.hash_rest]. rewrite ecb_encrypt by lia.
    eexists. split; [done|]. rewrite <- fold_lxor_reverse. apply fold_xor_ok; [by apply Forall2_reverse|done].
  - rewrite Hread. cbn [mbind result_bind]. rewrite ecb_encrypt by (rewrite length_app; cbn; lia).
    eexists. split; [done|]. rewrite hash_rest_ne by (intros Hq; rewrite Hq in Hrl; cbn in Hrl; lia).
    rewrite fmap_app, reverse_app. cbn [fmap list_fmap reverse rev_append app fold_left].
    rewrite <- fold_lxor_start, <- fold_lxor_reverse.
    apply fold_xor_ok; [by apply Forall2_reverse|]. apply rep_xor; [done|]. apply rep_encrypt. rewrite Z.lxor_comm.
    apply rep_xor; [apply rep_xor; [done|apply Hc]|]. apply pad_block_ok; [lia|done].
Qed.

(** ** Whole strings *)

Lemma encrypt_blocks_app i o s ps qs :
  Rfc7253.encrypt_blocks key i o s (ps ++ qs) =
  let '(cs, o1, s1) := Rfc7253.encrypt_blocks key i o s ps in
  let '(ds, o2, s2) := Rfc7253.encrypt_blocks key (Z.to_pos (Z.pos i + zlen ps)) o1 s1 qs in (cs ++ ds, o2, s2).
Proof.
  revert i o s. induction ps as [|p ps IH]; intros i o s.
  { cbn [app Rfc7253.encrypt_blocks]. rewrite zlen_nil, Z.add_0_r. by destruct (Rfc7253.encrypt_blocks _ _ _ _ qs) as [[? ?] ?]. }
  cbn [app Rfc7253.encrypt_blocks]. rewrite IH. replace (Z.pos (i + 1) + zlen ps) with (Z.pos i + zlen (p :: ps)) by (rewrite zlen_cons; lia).
  destruct (Rfc7253.encrypt_blocks key (i + 1) _ _ ps) as [[? ?] ?].
  by destruct (Rfc7253.encrypt_blocks key _ _ _ qs) as [[? ?] ?].
Qed.

Lemma decrypt_blocks_app i o s ps qs :
  Rfc7253.decrypt_blocks key i o s (ps ++ qs) =
  let '(cs, o1, s1) := Rfc7253.decrypt_blocks key i o s ps in
  let '(ds, o2, s2) := Rfc7253.decrypt_blocks key (Z.to_pos (Z.pos i + zlen ps)) o1 s1 qs in (cs ++ ds, o2, s2).
Proof.
  revert i o s. induction ps as [|p ps IH]; intros i o s.
  { cbn [app Rfc7253.decrypt_blocks]. rewrite zlen_nil, Z.add_0_r. by destruct (Rfc7253.decrypt_blocks _ _ _ _ qs) as [[? ?] ?]. }
  cbn [app Rfc7253.decrypt_blocks]. rewrite IH. replace (Z.pos (i + 1) + zlen ps) with (Z.pos i + zlen (p :: ps)) by (rewrite zlen_cons; lia).
  destruct (Rfc7253.decrypt_blocks key (i + 1) _ _ ps) as [[? ?] ?].
  by destruct (Rfc7253.decrypt_blocks key _ _ _ qs) as [[? ?] ?].
Qed.

Lemma hash_blocks_app i o s ps qs :
  Rfc7253.hash_blocks key i o s (ps ++ qs) =
  let '(o1, s1) := Rfc7253.hash_blocks key i o s ps in
  Rfc7253.hash_blocks key (Z.to_pos (Z.pos i + zlen ps)) o1 s1 qs.
Proof.
  revert i o s. induction ps as [|p ps IH]; intros i o s; [by rewrite zlen_nil, Z.add_0_r|].
  cbn [app Rfc7253.hash_blocks]. rewrite IH.
  by replace (Z.pos (i + 1) + zlen ps) with (Z.pos i + zlen (p :: ps)) by (rewrite zlen_cons; lia).
Qed.

Lemma blocks_split n m p : Rfc7253.blocks (n + m) p = Rfc7253.blocks n p ++ Rfc7253.blocks m (drop (16 * n) p).
Proof.
  revert p. induction n as [|n IH]; intros p; [by rewrite drop_0|].
  cbn [Nat.add Rfc7253.blocks app]. rewrite IH, drop_drop. do 4 f_equal. lia.
Qed.

(** The groups and the rest of a string of [zlen p] octets *)
Lemma string_parts p : Forall octet p → zlen p < 2 ^ 20 →
  let i := u32 (Z.quot (zlen p) (BPI * 16)) in
  let rem := u32 (zlen p) mod 64 in
  0 ≤ i ∧ 64 * i + rem = zlen p ∧ 0 ≤ rem < 64 ∧ 4 * i < 2 ^ 16
  ∧ Rfc7253.blocks (Rfc7253.whole p) p
    = Rfc7253.blocks (4 * Z.to_nat i) (drop (Z.to_nat (16 * 0)) p) ++ rest_blocks p (4 * i) rem
  ∧ rest_octets p (4 * i) rem = Rfc7253.rest p.
Proof.
  intros Hp Hlt i rem. pose proof (zlen_nonneg p) as H0. pose proof (Z.div_mod (zlen p) 64 ltac:(lia)) as Hd.
  pose proof (Z.mod_pos_bound (zlen p) 64 ltac:(lia)).
  assert (i = zlen p / 64) as Hi.
  { subst i. change (BPI * 16) with 64. rewrite Z.quot_div_nonneg by lia. apply uwrap_small.
    split; [apply Z.div_pos; lia|]. apply Z.div_lt_upper_bound; lia. }
  assert (rem = zlen p mod 64) as Hr by (subst rem; by rewrite uwrap_small by lia).
  clearbody i rem. subst i rem. assert (0 ≤ zlen p / 64) by (apply Z.div_pos; lia).
  set (i := zlen p / 64) in *. set (rem := zlen p mod 64) in *.
  assert (Z.of_nat (Rfc7253.whole p) = 4 * i + rem / 16) as Hw.
  { unfold Rfc7253.whole. rewrite Nat2Z.inj_div. fold (zlen p). rewrite Hd. change (Z.of_nat 16) with 16.
    replace (64 * i + rem) with (4 * i * 16 + rem) by lia. by rewrite Z.div_add_l by lia. }
  assert (0 ≤ rem / 16) by (apply Z.div_pos; lia). split_and!; try lia.
  - change (Z.to_nat (16 * 0)) with O. rewrite drop_0. unfold rest_blocks.
    replace (Rfc7253.whole p) with (4 * Z.to_nat i + Z.to_nat (rem / 16))%nat by lia.
    rewrite blocks_split. do 2 f_equal. f_equal. lia.
  - unfold rest_octets, Rfc7253.rest. f_equal. lia.
Qed.

Lemma whole_blocks p : zlen (Rfc7253.blocks (Rfc7253.whole p) p) = Z.of_nat (Rfc7253.whole p).
Proof. unfold zlen. by rewrite blocks_length. Qed.

Lemma string_pre p n : Forall octet p → 0 ≤ n → n mod 4 = 0 → n + zlen p / 16 < 2 ^ 16 →
  let i := u32 (Z.quot (zlen p) (BPI * 16)) in
  let rem := u32 (zlen p) mod 64 in
  group_pre (Z.to_nat i) p 0 n ∧ rest_pre p (4 * i) rem (n + 4 * i).
Proof.
  intros Hp Hn Hm Hlt i rem. pose proof (zlen_nonneg p).
  pose proof (Z.div_mod (zlen p) 16). pose proof (Z.mod_pos_bound (zlen p) 16).
  destruct (string_parts p Hp ltac:(lia)) as (Hi & Hd & Hr & _). fold i rem in Hi, Hd, Hr.
  assert (n + 4 * i < 2 ^ 16) by lia. split; unfold group_pre, rest_pre; rewrite ?Z2Nat.id by done; split_and!; try done; try lia.
  replace (4 * i) with (i * 4) by lia. by rewrite Z.mod_add by lia.
Qed.

(** ** A call *)

(** The setters of a message in progress do not touch what depends on the
    key. *)
Ltac stream_step := constructor; cbn [blocks_processed offset checksum ad_blocks_processed ad_offset ad_checksum
    set_blocks_processed set_offset set_checksum set_ad_blocks_processed set_ad_offset set_ad_checksum];
  try done; [match goal with Hs : stream _ _ _ _ _ _ _ |- _ => destruct Hs as [[] _ _ _ _ _ _]; by constructor end|..].

Lemma process_groups c ad n o s an ao sa : stream c n o s an ao sa → Forall octet ad →
  0 ≤ an → an mod 4 = 0 → an + zlen ad / 16 < 2 ^ 16 →
  let i := u32 (Z.quot (zlen ad) (BPI * 16)) in
  let '(o1, s1) := Rfc7253.hash_blocks key (Z.to_pos (an + 1)) ao sa
                     (Rfc7253.blocks (4 * Z.to_nat i) (drop (Z.to_nat (16 * 0)) ad)) in
  ∃ c', (if negb (i =? 0) then
           '(adp, n, o, c1) ← ad_loop little (Z.to_nat i) c ad 0 (ad_blocks_processed c) (ad_offset c) (ad_checksum c);
           Ok (adp, set_ad_checksum c1 (set_ad_offset o (set_ad_blocks_processed n c)))
         else Ok (0, c)) = Ok (4 * i, c')
    ∧ stream c' n o s (an + 4 * i) o1 s1.
Proof.
  intros Hst Had Han Hm Hlt i. destruct (string_pre ad an Had Han Hm Hlt) as [Hg _]. fold i in Hg.
  assert (0 ≤ i) as Hi by (apply uwrap_range; lia).
  destruct (Z.eqb_spec i 0) as [->|Hne]; cbn [negb].
  { cbn [Z.to_nat Nat.mul Rfc7253.blocks Rfc7253.hash_blocks]. exists c. by rewrite Z.mul_0_r, Z.add_0_r. }
  pose proof (ad_loop_ok (Z.to_nat i) c ad 0 an _ _ ao sa (st_ok _ _ _ _ _ _ _ Hst) Hg
    (st_ad_offset _ _ _ _ _ _ _ Hst) (st_ad_checksum _ _ _ _ _ _ _ Hst)) as Hloop.
  destruct (Rfc7253.hash_blocks key _ _ _ _) as [o1 s1]. destruct Hloop as (off' & sum' & Hloop & Ho & Hs).
  rewrite (st_ad_num _ _ _ _ _ _ _ Hst), Hloop. rewrite Z2Nat.id by done. cbn [mbind result_bind].
  eexists. split; [done|]. stream_step; destruct Hst; done.
Qed.

Lemma process_ad_ok c ad final n o s an ao sa : stream c n o s an ao sa → Forall octet ad →
  0 ≤ an → an mod 4 = 0 → an + zlen ad / 16 < 2 ^ 16 → (final = false → zlen ad mod 64 = 0) →
  let '(o1, s1) := Rfc7253.hash_blocks key (Z.to_pos (an + 1)) ao sa (Rfc7253.blocks (Rfc7253.whole ad) ad) in
  ∃ c' ao', (if 0 <? zlen ad then process_ad little c ad (zlen ad) final else Ok c) = Ok c'
    ∧ stream c' n o s (an + zlen ad / 64 * 4) ao'
        (if final then Rfc7253.hash_rest key o1 s1 (Rfc7253.rest ad) else s1)
    ∧ (final = false → ao' = o1).
Proof.
  intros Hst Had Han Hm Hlt Hfin. pose proof (zlen_nonneg ad) as H0.
  pose proof (Z.div_mod (zlen ad) 16). pose proof (Z.mod_pos_bound (zlen ad) 16).
  destruct (Z.ltb_spec 0 (zlen ad)) as [Hpos|Hle].
  2: { assert (ad = []) as -> by (apply nil_length_inv; unfold zlen in *; lia). cbn. exists c, ao.
       split_and!; [done| |done]. destruct final; by rewrite Z.add_0_r. }
  destruct (string_parts ad Had ltac:(lia)) as (Hi & Hd & Hr & _ & Hblocks & Hrest).
  destruct (string_pre ad an Had Han Hm Hlt) as [_ Hpre].
  pose proof (process_groups c ad n o s an ao sa Hst Had Han Hm Hlt) as Hgroups. cbv zeta in Hgroups.
  unfold process_ad. change (BPI * 16) with 64 in *.
  set (i := u32 (Z.quot (zlen ad) 64)) in *. set (rem := u32 (zlen ad) mod 64) in *.
  assert (zlen ad / 64 = i ∧ zlen ad mod 64 = rem) as [Hdiv Hmod].
  { split; symmetry; [apply Z.div_unique with rem|apply Z.mod_unique with i]; lia. }
  rewrite Hblocks, hash_blocks_app. set (g := Rfc7253.blocks (4 * Z.to_nat i) _) in *.
  assert (Z.to_pos (Z.pos (Z.to_pos (an + 1)) + zlen g) = Z.to_pos (an + 4 * i + 1)) as ->.
  { unfold g, zlen. rewrite blocks_length. lia. }
  destruct (Rfc7253.hash_blocks key (Z.to_pos (an + 1)) ao sa g) as [og sg].
  destruct Hgroups as (c1 & -> & Hst1). cbn [mbind result_bind]. rewrite Hdiv.
  pose proof (ad_remaining_ok c1 ad (4 * i) rem _ _ _ og sg (st_ok _ _ _ _ _ _ _ Hst1) Hpre
    (st_ad_offset _ _ _ _ _ _ _ Hst1) (st_ad_checksum _ _ _ _ _ _ _ Hst1)) as Hrem.
  destruct final.
  - destruct (Rfc7253.hash_blocks key (Z.to_pos (an + 4 * i + 1)) og sg _) as [o1 s1] eqn:Eh.
    destruct Hrem as (sum' & Hrem & Hsum). rewrite Hrest in Hsum. destruct (Z.eqb_spec rem 0) as [Hz|Hnz]; cbn [negb].
    + exists c1, og. split_and!; [done| |done]. replace (an + i * 4) with (an + 4 * i) by lia.
      rewrite Hz in Eh. cbn in Eh. injection Eh as <- <-. rewrite <- Hrest, Hz.
      assert (rest_octets ad (4 * i) 0 = []) as ->; [|done].
      unfold rest_octets. apply drop_ge. change (0 / 16) with 0. unfold zlen in *. lia.
    + rewrite Hrem. cbn [mbind result_bind]. eexists _, og. split_and!; [done| |done].
      replace (an + i * 4) with (an + 4 * i) by lia. stream_step; by destruct Hst1.
  - rewrite <- Hmod, (Hfin eq_refl) in *. cbn. exists c1, og. split_and!; [done| |done].
    by replace (an + i * 4) with (an + 4 * i) by lia.
Qed.

Lemma encrypt_groups c p n o s an ao sa : stream c n o s an ao sa → Forall octet p →
  0 ≤ n → n mod 4 = 0 → n + zlen p / 16 < 2 ^ 16 →
  let i := u32 (Z.quot (zlen p) (BPI * 16)) in
  let '(cs, o1, s1) := Rfc7253.encrypt_blocks key (Z.to_pos (n + 1)) o s
                     (Rfc7253.blocks (4 * Z.to_nat i) (drop (Z.to_nat (16 * 0)) p)) in
  ∃ c', (if negb (i =? 0) then
           '(ptp, n, o, c1, ct) ← encrypt_loop little (Z.to_nat i) c p 0 (blocks_processed c) (offset c) (checksum c) [];
           Ok (ptp, ct, set_checksum c1 (set_blocks_processed n (set_offset o c)))
         else Ok (0, [], c)) = Ok (4 * i, concat (be_bytes 16 <$> cs), c')
    ∧ stream c' (n + 4 * i) o1 s1 an ao sa.
Proof.
  intros Hst Hp Hn Hm Hlt i. destruct (string_pre p n Hp Hn Hm Hlt) as [Hg _]. fold i in Hg.
  assert (0 ≤ i) as Hi by (apply uwrap_range; lia).
  destruct (Z.eqb_spec i 0) as [->|Hne]; cbn [negb].
  { cbn [Z.to_nat Nat.mul Rfc7253.blocks Rfc7253.encrypt_blocks]. exists c. by rewrite Z.mul_0_r, Z.add_0_r. }
  pose proof (encrypt_loop_ok (Z.to_nat i) c p 0 n _ _ o s [] (st_ok _ _ _ _ _ _ _ Hst) Hg
    (st_offset _ _ _ _ _ _ _ Hst) (st_checksum _ _ _ _ _ _ _ Hst)) as Hloop.
  destruct (Rfc7253.encrypt_blocks key _ _ _ _) as [[cs o1] s1]. destruct Hloop as (off' & sum' & Hloop & Ho & Hs).
  rewrite (st_num _ _ _ _ _ _ _ Hst), Hloop. rewrite Z2Nat.id by done. cbn [mbind result_bind].
  eexists. split; [done|]. stream_step; by destruct Hst.
Qed.

Lemma decrypt_groups c p n o s an ao sa : stream c n o s an ao sa → Forall octet p →
  0 ≤ n → n mod 4 = 0 → n + zlen p / 16 < 2 ^ 16 →
  let i := u32 (Z.quot (zlen p) (BPI * 16)) in
  let '(cs, o1, s1) := Rfc7253.decrypt_blocks key (Z.to_pos (n + 1)) o s
                     (Rfc7253.blocks (4 * Z.to_nat i) (drop (Z.to_nat (16 * 0)) p)) in
  ∃ c', (if negb (i =? 0) then
           '(ptp, n, o, c1, ct) ← decrypt_loop little (Z.to_nat i) c p 0 (blocks_processed c) (offset c) (checksum c) [];
           Ok (ptp, ct, set_checksum c1 (set_blocks_processed n (set_offset o c)))
         else Ok (0, [], c)) = Ok (4 * i, concat (be_bytes 16 <$> cs), c')
    ∧ stream c' (n + 4 * i) o1 s1 an ao sa.
Proof.
  intros Hst Hp Hn Hm Hlt i. destruct (string_pre p n Hp Hn Hm Hlt) as [Hg _]. fold i in Hg.
  assert (0 ≤ i) as Hi by (apply uwrap_range; lia).
  destruct (Z.eqb_spec i 0) as [->|Hne]; cbn [negb].
  { cbn [Z.to_nat Nat.mul Rfc7253.blocks Rfc7253.decrypt_blocks]. exists c. by rewrite Z.mul_0_r, Z.add_0_r. }
  pose proof (decrypt_loop_ok (Z.to_nat i) c p 0 n _ _ o s [] (st_ok _ _ _ _ _ _ _ Hst) Hg
    (st_offset _ _ _ _ _ _ _ Hst) (st_checksum _ _ _ _ _ _ _ Hst)) as Hloop.
  destruct (Rfc7253.decrypt_blocks key _ _ _ _) as [[cs o1] s1]. destruct Hloop as (off' & sum' & Hloop & Ho & Hs).
  rewrite (st_num _ _ _ _ _ _ _ Hst), Hloop. rewrite Z2Nat.id by done. cbn [mbind result_bind].
  eexists. split; [done|]. stream_step; by destruct Hst.
Qed.

(** What a call is given: octets, and whole groups when more is to come *)
Definition call_pre (ad pt : list Z) (n an : Z) (final : bool) : Prop :=
  Forall octet ad ∧ Forall octet pt ∧ 0 ≤ n ∧ n mod 4 = 0 ∧ 0 ≤ an ∧ an mod 4 = 0
  ∧ n + zlen pt / 16 < 2 ^ 16 ∧ an + zlen ad / 16 < 2 ^ 16
  ∧ (final = false → zlen ad mod 64 = 0 ∧ zlen pt mod 64 = 0).

Lemma whole_groups p : Forall octet p → zlen p < 2 ^ 20 → zlen p mod 64 = 0 →
  let i := u32 (Z.quot (zlen p) (BPI * 16)) in
  i = zlen p / 64
  ∧ Rfc7253.blocks (Rfc7253.whole p) p = Rfc7253.blocks (4 * Z.to_nat i) (drop (Z.to_nat (16 * 0)) p).
Proof.
  intros Hp Hlt Hm. destruct (string_parts p Hp Hlt) as (Hi & Hd & Hr & _ & Hb & _). cbv zeta.
  set (i := u32 _) in *. set (rem := u32 (zlen p) mod 64) in *.
  assert (rem = 0) as Hz by (rewrite <- Hm; apply Z.mod_unique with i; lia).
  split; [apply Z.div_unique with rem; lia|]. rewrite Hb, Hz. apply app_nil_r.
Qed.

Lemma ae_encrypt_pending c0 nonce c ad pt tg n o s an ao sa :
  start_message little c0 nonce (zlen ad) = Ok c → stream c n o s an ao sa → call_pre ad pt n an false →
  let '(oh, sh) := Rfc7253.hash_blocks key (Z.to_pos (an + 1)) ao sa (Rfc7253.blocks (Rfc7253.whole ad) ad) in
  let '(cs, o1, s1) := Rfc7253.encrypt_blocks key (Z.to_pos (n + 1)) o s (Rfc7253.blocks (Rfc7253.whole pt) pt) in
  ∃ c', ae_encrypt little c0 nonce pt (zlen pt) ad (zlen ad) tg false
      = Ok (mkOutput (concat (be_bytes 16 <$> cs)) None (zlen pt), c')
    ∧ stream c' (n + zlen pt / 64 * 4) o1 s1 (an + zlen ad / 64 * 4) oh sh.
Proof.
  intros Hstart Hst (Had & Hpt & Hn & Hm & Han & Ham & Hlt & Halt & Hfin). destruct (Hfin eq_refl) as [Hma Hmp].
  pose proof (zlen_nonneg pt). pose proof (Z.div_mod (zlen pt) 16). pose proof (Z.mod_pos_bound (zlen pt) 16).
  pose proof (process_ad_ok c ad false n o s an ao sa Hst Had Han Ham Halt ltac:(done)) as Hpa.
  destruct (Rfc7253.hash_blocks key _ _ _ _) as [oh sh]. destruct Hpa as (c1 & ao' & Hpa & Hst1 & Hao).
  rewrite (Hao eq_refl) in Hst1.
  destruct (whole_groups pt Hpt ltac:(lia) Hmp) as [Hi Hb]. rewrite Hb.
  pose proof (encrypt_groups c1 pt n o s _ _ _ Hst1 Hpt Hn Hm Hlt) as Hg. cbv zeta in Hg, Hi.
  destruct (Rfc7253.encrypt_blocks key _ _ _ _) as [[cs o1] s1]. destruct Hg as (c2 & Hg & Hst2).
  unfold ae_encrypt. rewrite Hstart. cbn [mbind result_bind]. rewrite Hpa. cbn [mbind result_bind].
  rewrite Hg. cbn [mbind result_bind]. exists c2. split; [done|]. rewrite Hi in Hst2.
  by replace (n + zlen pt / 64 * 4) with (n + 4 * (zlen pt / 64)) by lia.
Qed.

Lemma ae_encrypt_final c0 nonce c ad pt (tg : bool) n o s an ao sa :
  start_message little c0 nonce (zlen ad) = Ok c → stream c n o s an ao sa → call_pre ad pt n an true →
  let '(oh, sh) := Rfc7253.hash_blocks key (Z.to_pos (an + 1)) ao sa (Rfc7253.blocks (Rfc7253.whole ad) ad) in
  let '(cs, o1, s1) := Rfc7253.encrypt_blocks key (Z.to_pos (n + 1)) o s (Rfc7253.blocks (Rfc7253.whole pt) pt) in
  let '(q, o2, s2) := Rfc7253.encrypt_rest key o1 s1 (Rfc7253.rest pt) in
  let text := concat (be_bytes 16 <$> cs) ++ q in
  let tag := be_bytes 16 (Z.lxor (E (Z.lxor (Z.lxor s2 o2) (Rfc7253.L_dollar key)))
                            (Rfc7253.hash_rest key oh sh (Rfc7253.rest ad))) in
  ∃ c', ae_encrypt little c0 nonce pt (zlen pt) ad (zlen ad) tg true
      = Ok (if tg then mkOutput text (Some tag) (zlen pt) else mkOutput (text ++ tag) None (zlen pt + 16), c')
    ∧ ctx_ok c'.
Proof.
  intros Hstart Hst (Had & Hpt & Hn & Hm & Han & Ham & Hlt & Halt & _).
  pose proof (zlen_nonneg pt). pose proof (Z.div_mod (zlen pt) 16). pose proof (Z.mod_pos_bound (zlen pt) 16).
  pose proof (process_ad_ok c ad true n o s an ao sa Hst Had Han Ham Halt ltac:(done)) as Hpa.
  destruct (Rfc7253.hash_blocks key _ _ _ _) as [oh sh]. destruct Hpa as (c1 & ao' & Hpa & Hst1 & _).
  destruct (string_parts pt Hpt ltac:(lia)) as (Hi & Hd & Hr & _ & Hblocks & Hrest).
  destruct (string_pre pt n Hpt Hn Hm Hlt) as [_ Hpre].
  pose proof (encrypt_groups c1 pt n o s _ _ _ Hst1 Hpt Hn Hm Hlt) as Hg. cbv zeta in Hg, Hi, Hd, Hr, Hblocks, Hrest, Hpre.
  unfold ae_encrypt. rewrite Hstart. cbn [mbind result_bind]. rewrite Hpa. cbn [mbind result_bind].
  set (i := u32 (Z.quot (zlen pt) (BPI * 16))) in *. set (rem := u32 (zlen pt) mod 64) in *.
  rewrite Hblocks, encrypt_blocks_app. set (g := Rfc7253.blocks (4 * Z.to_nat i) _) in *.
  assert (Z.to_pos (Z.pos (Z.to_pos (n + 1)) + zlen g) = Z.to_pos (n + 4 * i + 1)) as ->.
  { unfold g, zlen. rewrite blocks_length. lia. }
  destruct (Rfc7253.encrypt_blocks key (Z.to_pos (n + 1)) o s g) as [[cg og] sg]. destruct Hg as (c2 & -> & Hst2).
  cbn [mbind result_bind].
  pose proof (encrypt_final_ok c2 pt (4 * i) (zlen pt) rem _ _ _ _ _ _ (st_ok _ _ _ _ _ _ _ Hst2) Hpre eq_refl
    (st_offset _ _ _ _ _ _ _ Hst2) (st_checksum _ _ _ _ _ _ _ Hst2) (st_ad_checksum _ _ _ _ _ _ _ Hst2)) as Hf.
  destruct (Rfc7253.encrypt_blocks key (Z.to_pos (n + 4 * i + 1)) og sg _) as [[cs o1] s1]. rewrite Hrest in Hf.
  destruct (Rfc7253.encrypt_rest key o1 s1 _) as [[q o2] s2]. destruct Hf as (t & -> & Ht).
  cbn [mbind result_bind]. rewrite (rep_memory _ _ Ht), fmap_app, concat_app, <- !app_assoc.
  exists c2. split; [|apply Hst2]. unfold OCB_TAG_LEN. by rewrite to_int_small by lia.
Qed.

(** ** A message in several calls *)

(** The calls of a message: [pieces] with more to come, then the last one
    with a place for the tag; the nonce is given to the first. *)
Fixpoint encrypt_calls (c : ae_ctx) (nonce : option (list Z)) (pieces : list (list Z * list Z)) (ad pt : list Z)
    : result (list Z * option (list Z) * ae_ctx) :=
  match pieces with
  | [] =>
      '(out, c) ← ae_encrypt little c nonce pt (zlen pt) ad (zlen ad) true true;
      Ok (text out, tag_out out, c)
  | (a, p) :: pieces =>
      '(out, c) ← ae_encrypt little c nonce p (zlen p) a (zlen a) true false;
      '(t, tag, c) ← encrypt_calls c None pieces ad pt;
      Ok (text out ++ t, tag, c)
  end.

Definition all_ad (pieces : list (list Z * list Z)) (ad : list Z) : list Z := concat (fst <$> pieces) ++ ad.
Definition all_pt (pieces : list (list Z * list Z)) (pt : list Z) : list Z := concat (snd <$> pieces) ++ pt.

Lemma blocks_prefix n p q : length p = (n * 16)%nat → Rfc7253.blocks n (p ++ q) = Rfc7253.blocks n p.
Proof.
  revert p. induction n as [|n IH]; intros p Hl; [done|].
  cbn [Rfc7253.blocks]. rewrite take_app_le, drop_app_le by lia. f_equal. apply IH. rewrite length_drop. lia.
Qed.

Lemma whole_app p q : zlen p mod 64 = 0 →
  Rfc7253.blocks (Rfc7253.whole (p ++ q)) (p ++ q)
    = Rfc7253.blocks (Rfc7253.whole p) p ++ Rfc7253.blocks (Rfc7253.whole q) q
  ∧ Rfc7253.rest (p ++ q) = Rfc7253.rest q ∧ Z.of_nat (Rfc7253.whole p) = zlen p / 64 * 4
  ∧ zlen (p ++ q) / 16 = zlen p / 64 * 4 + zlen q / 16.
Proof.
  intros Hm. pose proof (Z.div_mod (zlen p) 64 ltac:(lia)) as Hd. rewrite Hm in Hd. set (k := zlen p / 64) in *.
  assert (length p = (Rfc7253.whole p * 16)%nat ∧ Z.of_nat (Rfc7253.whole p) = k * 4) as [Hl Hk].
  { assert (Z.of_nat (Rfc7253.whole p) = k * 4) as Hw.
    { unfold Rfc7253.whole. rewrite Nat2Z.inj_div. fold (zlen p). rewrite Hd. change (Z.of_nat 16) with 16.
      replace (64 * k + 0) with (k * 4 * 16) by lia. by rewrite Z.div_mul by lia. }
    split; [unfold zlen in Hd; lia|done]. }
  assert (Rfc7253.whole (p ++ q) = (Rfc7253.whole p + Rfc7253.whole q)%nat) as Hw.
  { unfold Rfc7253.whole at 1. rewrite length_app, Hl, Nat.div_add_l by lia. done. }
  split_and!; [| |done|].
  - rewrite Hw, blocks_split. f_equal.
    + by apply blocks_prefix.
    + f_equal. rewrite Nat.mul_comm, <- Hl. apply drop_app_length.
  - unfold Rfc7253.rest. rewrite Hw, drop_app_ge by lia. f_equal. lia.
  - rewrite zlen_app, Hd. replace (64 * k + 0 + zlen q) with (k * 4 * 16 + zlen q) by lia. by rewrite Z.div_add_l by lia.
Qed.

Definition pieces_pre (pieces : list (list Z * list Z)) (ad pt : list Z) (n an : Z) : Prop :=
  Forall (fun '(a, p) => Forall octet a ∧ Forall octet p ∧ zlen a mod 64 = 0 ∧ zlen p mod 64 = 0) pieces
  ∧ Forall octet ad ∧ Forall octet pt ∧ 0 ≤ n ∧ n mod 4 = 0 ∧ 0 ≤ an ∧ an mod 4 = 0
  ∧ n + zlen (all_pt pieces pt) / 16 < 2 ^ 16 ∧ an + zlen (all_ad pieces ad) / 16 < 2 ^ 16.

Lemma encrypt_calls_ok pieces c0 nonce c ad pt n o s an ao sa :
  (∀ len, 0 ≤ len → start_message little c0 nonce len = Ok c) →
  stream c n o s an ao sa → pieces_pre pieces ad pt n an →
  let A := all_ad pieces ad in let P := all_pt pieces pt in
  let '(oh, sh) := Rfc7253.hash_blocks key (Z.to_pos (an + 1)) ao sa (Rfc7253.blocks (Rfc7253.whole A) A) in
  let '(cs, o1, s1) := Rfc7253.encrypt_blocks key (Z.to_pos (n + 1)) o s (Rfc7253.blocks (Rfc7253.whole P) P) in
  let '(q, o2, s2) := Rfc7253.encrypt_rest key o1 s1 (Rfc7253.rest P) in
  let tag := be_bytes 16 (Z.lxor (E (Z.lxor (Z.lxor s2 o2) (Rfc7253.L_dollar key)))
                            (Rfc7253.hash_rest key oh sh (Rfc7253.rest A))) in
  ∃ c', encrypt_calls c0 nonce pieces ad pt = Ok (concat (be_bytes 16 <$> cs) ++ q, Some tag, c') ∧ ctx_ok c'.
Proof.
  revert c0 nonce c n o s an ao sa. induction pieces as [|[a p] pieces IH];
    intros c0 nonce c n o s an ao sa Hstart Hst (Hps & Had & Hpt & Hn & Hm & Han & Ham & Hlt & Halt) A P.
  - change A with ad. change P with pt. change (all_pt [] pt) with pt in *. change (all_ad [] ad) with ad in *.
    pose proof (ae_encrypt_final c0 nonce c ad pt true n o s an ao sa (Hstart _ (zlen_nonneg ad)) Hst
      ltac:(unfold call_pre; split_and!; done)) as Hfin.
    destruct (Rfc7253.hash_blocks key _ _ _ _) as [oh sh]. destruct (Rfc7253.encrypt_blocks key _ _ _ _) as [[cs o1] s1].
    destruct (Rfc7253.encrypt_rest key _ _ _) as [[q o2] s2]. destruct Hfin as (c' & Hfin & Hc').
    cbn [encrypt_calls]. rewrite Hfin. by exists c'.
  - apply Forall_cons in Hps as [(Ha & Hp & Hma & Hmp) Hps].
    assert (A = a ++ all_ad pieces ad) as HA by (unfold A, all_ad; cbn; by rewrite app_assoc).
    assert (P = p ++ all_pt pieces pt) as HP by (unfold P, all_pt; cbn; by rewrite app_assoc).
    fold P in Hlt. fold A in Halt. clearbody A P. subst A P.
    destruct (whole_app a (all_ad pieces ad) Hma) as (HbA & HrA & HwA & HdA).
    destruct (whole_app p (all_pt pieces pt) Hmp) as (HbP & HrP & HwP & HdP).
    assert (zlen (a : list Z) / 16 = zlen a / 64 * 4 ∧ zlen p / 16 = zlen p / 64 * 4) as [Hda Hdp].
    { split; [pose proof (Z.div_mod (zlen a) 64 ltac:(lia)) as Hd; rewrite Hma in Hd|
              pose proof (Z.div_mod (zlen p) 64 ltac:(lia)) as Hd; rewrite Hmp in Hd];
        rewrite Hd at 1; match goal with |- (64 * ?k + 0) / 16 = _ => replace (64 * k + 0) with (k * 4 * 16) by lia end;
        by rewrite Z.div_mul by lia. }
    assert (0 ≤ zlen (all_ad pieces ad) / 16 ∧ 0 ≤ zlen (all_pt pieces pt) / 16
      ∧ 0 ≤ zlen a / 64 ∧ 0 ≤ zlen p / 64) as (? & ? & ? & ?) by (split_and!; apply Z.div_pos; try apply zlen_nonneg; lia).
    pose proof (ae_encrypt_pending c0 nonce c a p true n o s an ao sa (Hstart _ (zlen_nonneg a)) Hst
      ltac:(unfold call_pre; split_and!; try done; lia)) as Hpend.
    rewrite HbA, HbP, HrA, HrP, hash_blocks_app, encrypt_blocks_app, !whole_blocks.
    replace (Z.pos (Z.to_pos (an + 1)) + Z.of_nat (Rfc7253.whole a)) with (an + zlen a / 64 * 4 + 1) by lia.
    replace (Z.pos (Z.to_pos (n + 1)) + Z.of_nat (Rfc7253.whole p)) with (n + zlen p / 64 * 4 + 1) by lia.
    destruct (Rfc7253.hash_blocks key (Z.to_pos (an + 1)) _ _ _) as [oh sh].
    destruct (Rfc7253.encrypt_blocks key (Z.to_pos (n + 1)) _ _ _) as [[cs o1] s1].
    destruct Hpend as (c1 & Hpend & Hst1). cbn [encrypt_calls]. rewrite Hpend. cbn [mbind result_bind].
    specialize (IH c1 None c1 _ _ _ _ _ _ ltac:(done) Hst1).
    assert (∀ x k, x mod 4 = 0 → (x + k * 4) mod 4 = 0) as Hadd by (intros x k Hx; by rewrite Z.mod_add).
    specialize (IH ltac:(unfold pieces_pre; split_and!; try done; try lia; by apply Hadd)).
    cbv zeta in IH. destruct (Rfc7253.hash_blocks key _ oh sh _) as [oh' sh'].
    destruct (Rfc7253.encrypt_blocks key _ o1 s1 _) as [[ds o1'] s1']. destruct (Rfc7253.encrypt_rest key _ _ _) as [[q o2] s2].
    destruct IH as (c' & -> & Hc'). cbn [mbind result_bind]. exists c'. split; [|done].
    by rewrite fmap_app, concat_app, <- app_assoc.
Qed.

(** ** Decryption *)

(** A tag behind the ciphertext is not read as ciphertext. *)
Lemma read_prefix p t off n : 0 ≤ off → 0 ≤ n → off + n ≤ zlen p → read_bytes (p ++ t) off n = read_bytes p off n.
Proof.
  intros Ho Hn Hl. unfold read_bytes. rewrite zlen_app. pose proof (zlen_nonneg t). z_bools. cbn [andb]. f_equal.
  unfold zlen in *. rewrite drop_app_le, take_app_le by (rewrite ?length_drop; lia). done.
Qed.

Lemma block_prefix p t i : 0 ≤ i → 16 * (i + 1) ≤ zlen p → block_at little (p ++ t) i = block_at little p i.
Proof. intros Hi Hl. unfold block_at. by rewrite read_prefix by lia. Qed.

Lemma decrypt_loop_prefix i c p t ptp n off sum pt : 0 ≤ ptp → 16 * (ptp + 4 * Z.of_nat i) ≤ zlen p →
  decrypt_loop little i c (p ++ t) ptp n off sum pt = decrypt_loop little i c p ptp n off sum pt.
Proof.
  revert ptp n off sum pt. induction i as [|i IH]; intros ptp n off sum pt Hp Hl; [done|]. cbn [decrypt_loop].
  destruct (group_offsets c off _) as [oa|]; [|done]. cbn [mbind result_bind]. unfold four_blocks.
  rewrite !block_prefix by lia. destruct (mbind _ (block_at little p ptp)) as [bs|]; [|done]. cbn [mbind result_bind].
  apply IH; unfold BPI; lia.
Qed.

Lemma decrypt_final_prefix c p t ptp len off sum : 0 ≤ ptp → 16 * ptp + u32 len mod 64 ≤ zlen p →
  decrypt_final little c (p ++ t) ptp len off sum = decrypt_final little c p ptp len off sum.
Proof.
  intros Hp Hl. unfold decrypt_final. change (BPI * 16) with 64. set (rem := u32 len mod 64) in *.
  assert (0 ≤ rem < 64) as Hr by (apply Z.mod_pos_bound; lia).
  assert (remaining_blocks little c (p ++ t) ptp rem off = remaining_blocks little c p ptp rem off
    ∧ ∀ oa bs o rem', remaining_blocks little c p ptp rem off = Ok (oa, bs, o, rem') →
        0 ≤ rem' ∧ 16 * (ptp + zlen oa) + rem' ≤ zlen p) as [-> Hrem].
  { unfold remaining_blocks. destruct (vec_get (L c) 0) as [L0|]; [|done]. destruct (vec_get (L c) 1) as [L1|]; [|done].
    cbn [mbind result_bind]. destruct (Z.leb_spec 32 rem).
    - rewrite !block_prefix by lia. destruct (block_at little p ptp) as [b0|]; [|done].
      destruct (block_at little p (ptp + 1)) as [b1|]; [|done]. cbn [mbind result_bind].
      rewrite !zlen_cons, zlen_nil. destruct (Z.leb_spec 16 (rem - 32)).
      + rewrite block_prefix by lia. destruct (block_at little p (ptp + (1 + (1 + 0)))) as [b2|]; [|done]. cbn. split; [done|].
        intros ? ? ? ? [= <- <- <- <-]. unfold zlen in *. cbn [length]. lia.
      + split; [done|]. intros ? ? ? ? [= <- <- <- <-]. unfold zlen in *. cbn [length]. lia.
    - cbn [mbind result_bind]. rewrite zlen_nil. destruct (Z.leb_spec 16 rem).
      + rewrite block_prefix by lia. destruct (block_at little p (ptp + 0)) as [b0|]; [|done]. cbn. split; [done|].
        intros ? ? ? ? [= <- <- <- <-]. unfold zlen in *. cbn [length]. lia.
      + split; [done|]. intros ? ? ? ? [= <- <- <- <-]. unfold zlen in *. cbn [length]. lia. }
  destruct (Z.eqb_spec rem 0) as [Hz|Hnz]; cbn [negb].
  - by rewrite Hz.
  - destruct (remaining_blocks little c p ptp rem off) as [[[[oa bs] o] rem']|] eqn:E; [|done]. cbn [mbind result_bind].
    destruct (Hrem _ _ _ _ eq_refl) as [H0 H1]. pose proof (zlen_nonneg oa). by rewrite read_prefix by lia.
Qed.

Definition verdict (tag t : list Z) (len : Z) : Z := if bool_decide (tag = t) then len else AE_INVALID.

Lemma ae_decrypt_ok c nonce ad ct tag : ctx_ok c → length nonce = 12%nat → Forall octet nonce →
  Forall octet ad → Forall octet ct → block_octets tag → zlen ad < 2 ^ 20 → zlen ct < 2 ^ 20 →
  let '(p, t) := Rfc7253.decrypt key nonce ad ct in
  ∃ c', ctx_ok c'
    ∧ ae_decrypt little c (Some nonce) ct (zlen ct) ad (zlen ad) (Some tag) true = Ok (p, verdict tag t (zlen ct), c')
    ∧ ae_decrypt little c (Some nonce) (ct ++ tag) (zlen ct + 16) ad (zlen ad) None true = Ok (p, verdict tag t (zlen ct), c').
Proof.
  intros Hc Hnl Hno Had Hct Htag Hal Hcl. pose proof (zlen_nonneg ad) as Ha0. pose proof (zlen_nonneg ct) as Hc0.
  assert (zlen ad / 16 < 2 ^ 16 ∧ zlen ct / 16 < 2 ^ 16) as [? ?] by (split; apply Z.div_lt_upper_bound; lia).
  destruct (start_message_ok c nonce (zlen ad) Hc Hnl Hno Ha0) as (c0 & Hstart & Hst).
  pose proof (process_ad_ok c0 ad true _ _ _ _ _ _ Hst Had ltac:(lia) eq_refl ltac:(lia) ltac:(done)) as Hpa.
  unfold Rfc7253.decrypt, Rfc7253.tag, Rfc7253.HASH. change (Z.to_pos (0 + 1)) with 1%positive in Hpa.
  destruct (Rfc7253.hash_blocks key 1 0 0 _) as [oh sh]. destruct Hpa as (c1 & ao' & Hpa & Hst1 & _).
  destruct (string_parts ct Hct Hcl) as (Hi & Hd & Hr & _ & Hblocks & Hrest).
  destruct (string_pre ct 0 Hct ltac:(lia) eq_refl ltac:(lia)) as [_ Hpre].
  pose proof (decrypt_groups c1 ct 0 _ _ _ _ _ Hst1 Hct ltac:(lia) eq_refl ltac:(lia)) as Hg.
  cbv zeta in Hg, Hi, Hd, Hr, Hblocks, Hrest, Hpre. change (Z.to_pos (0 + 1)) with 1%positive in Hg.
  unfold ae_decrypt. rewrite Hstart. cbn [mbind result_bind]. rewrite Hpa. cbn [mbind result_bind].
  assert (to_int (zlen ct + 16 - OCB_TAG_LEN) = zlen ct) as -> by (unfold OCB_TAG_LEN; rewrite to_int_small by lia; lia).
  set (i := u32 (Z.quot (zlen ct) (BPI * 16))) in *. set (rem := u32 (zlen ct) mod 64) in *.
  rewrite decrypt_loop_prefix by lia.
  rewrite Hblocks, decrypt_blocks_app. set (g := Rfc7253.blocks (4 * Z.to_nat i) _) in *.
  assert (Z.to_pos (1 + zlen g) = Z.to_pos (0 + 4 * i + 1)) as -> by (unfold g, zlen; rewrite blocks_length; lia).
  destruct (Rfc7253.decrypt_blocks key 1 _ _ g) as [[pg og] sg]. destruct Hg as (c2 & -> & Hst2).
  cbn [mbind result_bind]. rewrite decrypt_final_prefix by (fold rem; lia).
  pose proof (decrypt_final_ok c2 ct (4 * i) (zlen ct) rem _ _ _ _ _ _ (st_ok _ _ _ _ _ _ _ Hst2) Hpre eq_refl
    (st_offset _ _ _ _ _ _ _ Hst2) (st_checksum _ _ _ _ _ _ _ Hst2) (st_ad_checksum _ _ _ _ _ _ _ Hst2)) as Hf.
  destruct (Rfc7253.decrypt_blocks key (Z.to_pos (0 + 4 * i + 1)) og sg _) as [[ps o1] s1]. rewrite Hrest in Hf.
  destruct (Rfc7253.decrypt_rest key o1 s1 _) as [[q o2] s2]. destruct Hf as (t & -> & Ht). cbn [mbind result_bind].
  exists c2. split; [apply Hst2|]. rewrite fmap_app, concat_app, <- app_assoc.
  assert (block_at little tag 0 = Ok (of_memory tag)) as ->.
  { unfold block_at. change (16 * 0) with 0. by rewrite read_all by (unfold zlen; rewrite (proj1 Htag); done). }
  cbn [mbind result_bind].
  assert (read_bytes (ct ++ tag) (zlen ct) OCB_TAG_LEN = Ok tag) as ->.
  { unfold read_bytes, OCB_TAG_LEN. rewrite zlen_app. assert (zlen tag = 16) as -> by (unfold zlen; by rewrite (proj1 Htag)).
    z_bools. cbn [andb]. f_equal. unfold zlen. rewrite Nat2Z.id, drop_app_length. apply take_ge. by rewrite (proj1 Htag). }
  cbn [mbind result_bind]. rewrite unequal_spec by first [apply Ht|by apply of_memory_ok].
  assert (negb (bool_decide (t ≠ of_memory tag)) = bool_decide (tag = to_memory t)) as ->.
  { destruct (decide (tag = to_memory t)) as [->|Hne].
    - rewrite of_to_memory by apply Ht. rewrite bool_decide_eq_false_2, bool_decide_eq_true_2; naive_solver.
    - rewrite (bool_decide_eq_false_2 (tag = _)) by done. rewrite bool_decide_eq_true_2; [done|]. intros ->.
      apply Hne. symmetry. by apply to_of_memory. }
  rewrite (rep_memory _ _ Ht). unfold verdict. by case_bool_decide.
Qed.
End cipher.
End CryptoTheorems.
