(* ===== verification/CryptoRoundtrip.v ===== *)
(** * Messages of the cipher

    What a caller of [ocb.cc] relies on: the context encrypts any sequence
    of messages as RFC 7253 says, and decryption accepts exactly what
    encryption produced. *)

From S2P Require Import Prelude TransportFragment Octets CryptoOcb CryptoProps.

Module CryptoMessages.
Import Ocb CryptoTheorems.

(** ** OCB is inverted *)

Section spec.
Context `{aes : AES, !AESLaws} (key : list Z) (Hkey : block_octets key).

Abbreviation E := (Rfc7253.E key).
Abbreviation D := (Rfc7253.D key).
Definition number (x : Z) : Prop := 0 ≤ x < 2 ^ 128.

Lemma number_lxor x y : number x → number y → number (Z.lxor x y).
Proof. apply lxor_range. lia. Qed.

Lemma number_double x : number x → number (Rfc7253.double x).
Proof.
  intros Hx. unfold Rfc7253.double. assert (number ((2 * x) mod 2 ^ 128)) by (apply Z.mod_pos_bound; lia).
  destruct (Z.testbit x 127); [|done]. by apply number_lxor.
Qed.

Lemma number_L n : number (Rfc7253.L key n).
Proof.
  induction n as [|n IH]; cbn [Rfc7253.L]; apply number_double; [|done].
  apply number_double, E_range; done.
Qed.

Lemma number_offset_0 nonce : number (Rfc7253.offset_0 key nonce).
Proof. apply Z.mod_pos_bound. lia. Qed.

Lemma lxor_twice a b : Z.lxor a (Z.lxor b a) = b.
Proof. rewrite (Z.lxor_comm b), <- Z.lxor_assoc, Z.lxor_nilpotent. apply Z.lxor_0_l. Qed.

Lemma lxor_undo a b : Z.lxor (Z.lxor a b) a = b.
Proof. by rewrite (Z.lxor_comm a b), Z.lxor_assoc, Z.lxor_nilpotent, Z.lxor_0_r. Qed.

Lemma decrypt_encrypt_blocks i o s ps : number o → Forall number ps →
  let '(cs, o', s') := Rfc7253.encrypt_blocks key i o s ps in
  Rfc7253.decrypt_blocks key i o s cs = (ps, o', s') ∧ number o' ∧ length cs = length ps ∧ Forall number cs.
Proof.
  revert i o s. induction ps as [|p ps IH]; intros i o s Ho Hps; cbn [Rfc7253.encrypt_blocks]; [done|].
  apply Forall_cons in Hps as [Hp Hps].
  set (o1 := Z.lxor o (Rfc7253.L_ntz key i)). assert (number o1) as Ho1 by (apply number_lxor; [done|apply number_L]).
  specialize (IH (i + 1)%positive o1 (Z.lxor s p) Ho1 Hps).
  destruct (Rfc7253.encrypt_blocks key _ o1 _ ps) as [[cs o'] s']. destruct IH as (IH & Ho' & Hlen & Hcs).
  cbn [Rfc7253.decrypt_blocks]. fold o1. rewrite lxor_undo, D_E, lxor_twice, IH by (done || by apply number_lxor).
  split_and!; [done|done|cbn; lia|]. constructor; [|done]. apply number_lxor; [done|]. by apply E_range.
Qed.

Lemma zip_lxor_twice (q xs : list Z) : (length q ≤ length xs)%nat → zip_with Z.lxor (zip_with Z.lxor q xs) xs = q.
Proof.
  revert xs. induction q as [|x q IH]; intros [|y xs] Hl; cbn in *; try done; [lia|]. f_equal; [|apply IH; lia].
  by rewrite Z.lxor_assoc, Z.lxor_nilpotent, Z.lxor_0_r.
Qed.

Lemma zip_lxor_octets q xs : Forall octet q → Forall octet xs → Forall octet (zip_with Z.lxor q xs).
Proof.
  intros Hq. revert xs. induction Hq as [|x q Hx Hq IH]; intros xs Hxs; [constructor|].
  destruct Hxs as [|y xs Hy Hxs]; [constructor|]. constructor; [by apply octet_lxor|by apply IH].
Qed.

Lemma decrypt_encrypt_rest o s q : (length q ≤ 16)%nat →
  let '(c, o', s') := Rfc7253.encrypt_rest key o s q in
  Rfc7253.decrypt_rest key o s c = (q, o', s') ∧ length c = length q ∧ (Forall octet q → Forall octet c).
Proof.
  intros Hq. destruct (decide (q = [])) as [->|Hne]; [done|]. rewrite encrypt_rest_ne by done.
  set (x := be_bytes 16 (E (Z.lxor o (Rfc7253.L_star key)))).
  assert (length x = 16%nat) as Hx by apply be_bytes_length.
  assert (length (zip_with Z.lxor q x) = length q) as Hl by (rewrite length_zip_with; lia).
  assert (zip_with Z.lxor q x ≠ []) as Hne' by (intros Hz; rewrite Hz in Hl; by destruct q).
  cbv beta iota zeta. rewrite decrypt_rest_ne by done. cbv zeta. fold x. rewrite zip_lxor_twice by lia. split_and!; [done|done|].
  intros Ho. by apply zip_lxor_octets, be_bytes_octets.
Qed.

(** ** A string is its whole blocks and its rest *)

Lemma blocks_numbers n p : Forall octet p → (16 * n ≤ length p)%nat → Forall number (Rfc7253.blocks n p).
Proof.
  revert p. induction n as [|n IH]; intros p Hp Hl; cbn [Rfc7253.blocks]; constructor.
  - apply be_value_block. split; [rewrite length_take; lia|by apply Forall_take].
  - apply IH; [by apply Forall_drop|rewrite length_drop; lia].
Qed.

Lemma concat_blocks n p : Forall octet p → (16 * n ≤ length p)%nat →
  concat (be_bytes 16 <$> Rfc7253.blocks n p) ++ drop (16 * n) p = p.
Proof.
  revert p. induction n as [|n IH]; intros p Hp Hl; [by rewrite Nat.mul_0_r|]. cbn [Rfc7253.blocks fmap list_fmap concat].
  pose proof (be_bytes_value (take 16 p) ltac:(by apply Forall_take)) as Hb.
  rewrite length_take, Nat.min_l in Hb by lia. rewrite Hb.
  replace (16 * S n)%nat with (16 + 16 * n)%nat by lia. rewrite <- drop_drop, <- app_assoc.
  rewrite IH; [apply take_drop|by apply Forall_drop|rewrite length_drop; lia].
Qed.

Lemma concat_length cs : length (concat (be_bytes 16 <$> cs)) = (16 * length cs)%nat.
Proof.
  induction cs as [|c cs IH]; [done|]. cbn [fmap list_fmap concat length]. rewrite length_app, be_bytes_length.
  rewrite IH. lia.
Qed.

Lemma blocks_concat cs q : Forall number cs → Rfc7253.blocks (length cs) (concat (be_bytes 16 <$> cs) ++ q) = cs.
Proof.
  induction 1 as [|c cs Hc Hcs IH]; [done|]. cbn [fmap list_fmap concat length Rfc7253.blocks].
  rewrite <- app_assoc, take_app_length', drop_app_length' by (by rewrite be_bytes_length).
  rewrite be_value_bytes by done. by f_equal.
Qed.

Lemma concat_octets cs : Forall octet (concat (be_bytes 16 <$> cs)).
Proof.
  induction cs as [|c cs IH]; [done|]. cbn [fmap list_fmap concat]. apply Forall_app. split; [apply be_bytes_octets|done].
Qed.

Lemma whole_le p : (16 * Rfc7253.whole p ≤ length p)%nat.
Proof. unfold Rfc7253.whole. pose proof (Nat.Div0.mul_div_le (length p) 16). lia. Qed.

Lemma rest_length p : length (Rfc7253.rest p) = (length p mod 16)%nat.
Proof.
  unfold Rfc7253.rest, Rfc7253.whole. rewrite length_drop. pose proof (Nat.div_mod_eq (length p) 16). lia.
Qed.

Lemma decrypt_encrypt nonce a p : Forall octet p →
  let '(c, t) := Rfc7253.encrypt key nonce a p in
  Rfc7253.decrypt key nonce a c = (p, t) ∧ length c = length p ∧ Forall octet c ∧ block_octets t.
Proof.
  intros Hp. unfold Rfc7253.encrypt. pose proof (whole_le p) as Hw.
  pose proof (decrypt_encrypt_blocks 1 (Rfc7253.offset_0 key nonce) 0 _ (number_offset_0 nonce) (blocks_numbers _ _ Hp Hw)) as HB.
  destruct (Rfc7253.encrypt_blocks key 1 _ 0 _) as [[cs o] s]. destruct HB as (HB & Ho & Hlen & Hcs).
  rewrite blocks_length in Hlen. pose proof (rest_length p) as Hrl. pose proof (Nat.mod_upper_bound (length p) 16).
  pose proof (decrypt_encrypt_rest o s (Rfc7253.rest p) ltac:(lia)) as HR.
  destruct (Rfc7253.encrypt_rest key o s _) as [[q o'] s']. destruct HR as (HR & Hql & Hqo).
  set (c := concat _ ++ q). assert (length c = length p) as Hcl.
  { subst c. rewrite length_app, concat_length, Hlen, Hql. unfold Rfc7253.rest. rewrite length_drop. lia. }
  assert (Rfc7253.whole c = length cs) as Hwc by (unfold Rfc7253.whole; by rewrite Hcl, Hlen).
  assert (Rfc7253.rest c = q) as Hrc.
  { unfold Rfc7253.rest. rewrite Hwc, <- concat_length. apply drop_app_length. }
  split_and!; [|done|apply Forall_app; split; [apply concat_octets|apply Hqo, Forall_drop, Hp]|apply be_bytes_block].
  unfold Rfc7253.decrypt. rewrite Hwc, Hrc. subst c. rewrite blocks_concat by done. rewrite HB, HR. f_equal.
  by apply concat_blocks.
Qed.
End spec.

(** ** Messages *)

Record message := mkMessage {
  nonce : list Z;
  pieces : list (list Z * list Z);
  ad : list Z;
  pt : list Z }.

(** Twelve octets of nonce, calls with more to come on multiples of 64 octets,
    and less than 2^20 octets in all *)
Definition message_ok (m : message) : Prop :=
  length (nonce m) = 12%nat ∧ Forall octet (nonce m) ∧ pieces_pre (pieces m) (ad m) (pt m) 0 0.

(** One context encrypts one message after the other. *)
Fixpoint encrypt_messages `{AES} (little : bool) (c : ae_ctx) (ms : list message)
    : result (list (list Z * option (list Z)) * ae_ctx) :=
  match ms with
  | [] => Ok ([], c)
  | m :: ms =>
      '(t, tag, c) ← encrypt_calls little c (Some (nonce m)) (pieces m) (ad m) (pt m);
      '(outs, c) ← encrypt_messages little c ms;
      Ok ((t, tag) :: outs, c)
  end.

Definition expected `{AES} (key : list Z) (m : message) : list Z * option (list Z) :=
  let '(c, t) := Rfc7253.encrypt key (nonce m) (all_ad (pieces m) (ad m)) (all_pt (pieces m) (pt m)) in (c, Some t).

Section messages.
Context (little : bool) `{aes : AES, !AESLaws} (key : list Z) (Hkey : block_octets key).

Lemma encrypt_message_ok c m : ctx_ok little key c → message_ok m → ∃ c',
  encrypt_calls little c (Some (nonce m)) (pieces m) (ad m) (pt m) = Ok (expected key m, c') ∧ ctx_ok little key c'.
Proof.
  intros Hc (Hl & Ho & Hpre). destruct (start_message_ok little key Hkey c (nonce m) 0 Hc Hl Ho ltac:(lia)) as (c1 & Hs & Hst).
  assert (∀ len, 0 ≤ len → start_message little c (Some (nonce m)) len = Ok c1) as Hstart.
  { intros len Hlen. rewrite <- Hs. unfold start_message. destruct (gen_offset_from_nonce little c (nonce m)) as [[o c2]|]; [|done].
    cbn [mbind result_bind]. by rewrite (proj2 (Z.leb_le 0 len)). }
  pose proof (encrypt_calls_ok little key Hkey (pieces m) c (Some (nonce m)) c1 (ad m) (pt m) _ _ _ _ _ _ Hstart Hst Hpre) as Hcalls.
  unfold expected, Rfc7253.encrypt, Rfc7253.tag, Rfc7253.HASH. cbv zeta in Hcalls. change (Z.to_pos (0 + 1)) with 1%positive in Hcalls.
  destruct (Rfc7253.hash_blocks key 1 0 0 _) as [oh sh]. destruct (Rfc7253.encrypt_blocks key 1 _ _ _) as [[cs o1] s1].
  destruct (Rfc7253.encrypt_rest key _ _ _) as [[q o2] s2]. exact Hcalls.
Qed.

Lemma encrypt_messages_ok c ms : ctx_ok little key c → Forall message_ok ms → ∃ c',
  encrypt_messages little c ms = Ok (expected key <$> ms, c') ∧ ctx_ok little key c'.
Proof.
  intros Hc Hms. revert c Hc. induction Hms as [|m ms Hm Hms IH]; intros c Hc; [by exists c|].
  cbn [encrypt_messages]. destruct (encrypt_message_ok c m Hc Hm) as (c1 & -> & Hc1). destruct (IH c1 Hc1) as (c2 & IHc & Hc2).
  exists c2. split; [|done]. cbn [mbind result_bind]. destruct (expected key m) as [t tag] eqn:He. cbn.
  rewrite IHc. cbn. by rewrite He.
Qed.

(** What is written for a message given in one call *)
Lemma encrypt_once_ok c nonce ad pt (tg : bool) : ctx_ok little key c → length nonce = 12%nat → Forall octet nonce →
  Forall octet ad → Forall octet pt → zlen ad < 2 ^ 20 → zlen pt < 2 ^ 20 →
  let '(ct, t) := Rfc7253.encrypt key nonce ad pt in
  ∃ c', ctx_ok little key c'
    ∧ ae_encrypt little c (Some nonce) pt (zlen pt) ad (zlen ad) tg true
      = Ok (if tg then mkOutput ct (Some t) (zlen pt) else mkOutput (ct ++ t) None (zlen pt + 16), c').
Proof.
  intros Hc Hl Ho Had Hpt Hal Hpl. pose proof (zlen_nonneg ad) as Ha0.
  destruct (start_message_ok little key Hkey c nonce (zlen ad) Hc Hl Ho Ha0) as (c1 & Hs & Hst).
  assert (zlen ad / 16 < 2 ^ 16 ∧ zlen pt / 16 < 2 ^ 16) as [? ?] by (split; apply Z.div_lt_upper_bound; lia).
  pose proof (ae_encrypt_final little key Hkey c (Some nonce) c1 ad pt tg _ _ _ _ _ _ Hs Hst
    ltac:(unfold call_pre; split_and!; done || lia)) as Hf.
  unfold Rfc7253.encrypt, Rfc7253.tag, Rfc7253.HASH. cbv zeta in Hf. change (Z.to_pos (0 + 1)) with 1%positive in Hf.
  destruct (Rfc7253.hash_blocks key 1 0 0 _) as [oh sh]. destruct (Rfc7253.encrypt_blocks key 1 _ _ _) as [[cs o1] s1].
  destruct (Rfc7253.encrypt_rest key _ _ _) as [[q o2] s2]. destruct Hf as (c' & Hf & Hc'). by exists c'.
Qed.

(** What the receiver makes of it, with the right tag or another one *)
Lemma decrypt_once_ok c nonce ad pt t' : ctx_ok little key c → length nonce = 12%nat → Forall octet nonce →
  Forall octet ad → Forall octet pt → block_octets t' → zlen ad < 2 ^ 20 → zlen pt < 2 ^ 20 →
  let '(ct, t) := Rfc7253.encrypt key nonce ad pt in
  ∃ c', ctx_ok little key c'
    ∧ ae_decrypt little c (Some nonce) ct (zlen pt) ad (zlen ad) (Some t') true = Ok (pt, verdict t' t (zlen pt), c')
    ∧ ae_decrypt little c (Some nonce) (ct ++ t') (zlen pt + 16) ad (zlen ad) None true = Ok (pt, verdict t' t (zlen pt), c').
Proof.
  intros Hc Hl Ho Had Hpt Ht' Hal Hpl. pose proof (decrypt_encrypt key Hkey nonce ad pt Hpt) as Hde.
  destruct (Rfc7253.encrypt key nonce ad pt) as [ct t]. destruct Hde as (Hde & Hcl & Hco & Ht).
  assert (zlen ct = zlen pt) as Hz by (unfold zlen; lia).
  pose proof (ae_decrypt_ok little key Hkey c nonce ad ct t' Hc Hl Ho Had Hco Ht' Hal ltac:(lia)) as Hd.
  by rewrite Hde, Hz in Hd.
Qed.
End messages.

(** ** The cipher's contract *)

(** C5. A context set up by [ae_init] encrypts any sequence of messages, each
    in any number of [ae_encrypt] calls, to the ciphertext and the tag of
    RFC 7253, on machines of either byte order. *)
Theorem ocb_encrypts_rfc7253 (little : bool) `{AES, !AESLaws} (key : list Z) (c : ae_ctx) (tag_len : Z) (ms : list message) :
  block_octets key → Forall message_ok ms →
  let '(status, c') := ae_init little c key 16 12 tag_len in
  status = AE_SUCCESS ∧ ∃ c'', encrypt_messages little c' ms = Ok (expected key <$> ms, c'').
Proof.
  intros Hkey Hms. destruct (ae_init_ok little key Hkey c tag_len) as (c' & -> & Hc').
  split; [done|]. destruct (encrypt_messages_ok little key Hkey c' ms Hc' Hms) as (c'' & He & _). by exists c''.
Qed.


(** A cipher for concrete runs: every octet of the block is combined with one of the key. *)
Definition toy : AES := {|
  AES_encrypt key b := zip_with Z.lxor b key;
  AES_decrypt key b := zip_with Z.lxor b key |}.

Lemma toy_laws : @AESLaws toy.
Proof.
  assert (∀ key b : list Z, block_octets key → block_octets b → block_octets (zip_with Z.lxor b key)) as Hoct.
  { intros key b [Hk Hko] [Hb Hbo]. split; [rewrite length_zip_with; lia|by apply zip_lxor_octets]. }
  constructor; [exact Hoct|exact Hoct|]. intros key b [Hk _] [Hb _]. apply zip_lxor_twice. lia.
Qed.

Definition toy_key : list Z := seqZ 100 16.
Definition toy_nonce : list Z := seqZ 1 12.
Definition toy_messages : list message :=
  [mkMessage toy_nonce [(replicate 64 7, replicate 128 9)] (seqZ 0 20) (seqZ 0 70); mkMessage toy_nonce [] [] []].

Lemma toy_messages_ok : Forall message_ok toy_messages.
Proof.
  repeat constructor; try done; cbn; try lia.
Qed.

(** Memory before [ae_init] *)
Definition blank : ae_ctx :=
  mkCtx zero_block zero_block zero_block zero_block [] zero_block zero_block zero_block (0, 0, 0) 0 0 [] [].

Lemma toy_key_octets : block_octets toy_key.
Proof. split; [done|by repeat constructor]. Qed.

Lemma ocb_encrypts_rfc7253_witness :
  ∃ c'', @encrypt_messages toy true (snd (@ae_init true toy blank toy_key 16 12 16)) toy_messages
    = Ok (@expected toy toy_key <$> toy_messages, c'').
Proof.
  destruct (@ocb_encrypts_rfc7253 true toy toy_laws toy_key blank 16 toy_messages toy_key_octets toy_messages_ok) as [_ Hok].
  exact Hok.
Defined.

End CryptoMessages.
