(* ===== verification/CryptoKeys.v ===== *)
(** * Keys

    The keys of [src/alfalfa/src/crypto/crypto.{h,cc}] with their printable
    form ([Base64Key]), the base64 functions of [base64.cc] over the filter
    of OpenSSL, the constructor of [Session], which sets up the cipher, and
    [myatoi].  Calls that allocate objects of OpenSSL are taken to
    succeed. *)

From S2P Require Import Prelude TransportFragment Octets TerminalDispatcher DispatcherProps CryptoOcb CryptoProps CryptoRoundtrip.
Import Strtol.

(** The base64 filter in front of a memory buffer, without newlines:
    [bio_encode], the result of writing the octets and the buffer after the
    flush; [bio_decode], the octets that reading the filter yields, one read
    after the other, and whether the buffer is then used up. *)
Class Base64 := {
  bio_encode : list Z → Z * list Z;
  bio_decode : list Z → list Z * bool }.

(** The encoding of RFC 4648: four letters for three octets, the last group
    filled up with [=]; decoding inverts it. *)
Class Base64Laws `{Base64} : Prop := {
  bio_written raw : Forall octet raw → fst (bio_encode raw) = zlen raw;
  bio_length raw : Forall octet raw → zlen (snd (bio_encode raw)) = 4 * ((zlen raw + 2) / 3);
  bio_letters raw : Forall octet raw → Forall (fun c => c ≠ 0) (snd (bio_encode raw));
  bio_padding raw : Forall octet raw → zlen raw mod 3 = 1 → ∃ s, snd (bio_encode raw) = s ++ [61; 61];
  bio_octets s : Forall octet (fst (bio_decode s));
  bio_inverse raw : Forall octet raw → bio_decode (snd (bio_encode raw)) = (raw, true) }.

(** ** The functions of [base64.cc] *)

Module Base64Functions.
Section base64.
Context `{Base64}.

Definition base64_decode (b64 : list Z) (b64_len raw_len : Z) : result (option (list Z)) :=
  assert_that (b64_len =? 24) "b64_len == 24";;
  assert_that (raw_len =? 16) "*raw_len == 16";;
  let '(octets, eof) := bio_decode (take (Z.to_nat b64_len) b64) in
  let raw := take (Z.to_nat raw_len) octets in
  let bytes_read := zlen raw in
  if bytes_read <=? 0 then Ok None
  else if negb (bytes_read =? raw_len) then Ok None
  else
    let extra := take 256 (drop (Z.to_nat raw_len) octets) in
    if 0 <? zlen extra then Ok None
    else if negb eof then Ok None
    else Ok (Some raw).

Definition base64_encode (raw : list Z) (raw_len b64_len : Z) : result (list Z) :=
  assert_that (b64_len =? 24) "b64_len == 24";;
  assert_that (raw_len =? 16) "raw_len == 16";;
  let '(bytes_written, mem) := bio_encode (take (Z.to_nat raw_len) raw) in
  assert_that (0 <=? bytes_written) "bytes_written >= 0";;
  assert_that (bytes_written =? raw_len) "bytes_written == (int)raw_len";;
  assert_that (zlen mem =? b64_len) "BIO_pending( mem_bio ) == (int)b64_len";;
  Ok mem.
End base64.
End Base64Functions.

(** ** Class [Base64Key]: sixteen octets *)

Module Base64Key.
Import Base64Functions.
Definition t : Set := list Z.

Section key.
Context `{Base64}.

(** [c_string]: an array of characters read up to its first zero *)
Definition c_string (a : list Z) : list Z := take_while (fun c => negb (c =? 0)) a.

(** The last statements cut the array at its twenty-third letter and read it
    as a C string. *)
Definition printable_key (key : t) : result (list Z) :=
  base64 ← base64_encode key 16 24;
  c23 ← vec_get base64 23;
  c22 ← vec_get base64 22;
  if negb (c23 =? 61) || negb (c22 =? 61) then Fault (Thrown "Unexpected output from base64_encode")
  else
    base64 ← vec_set base64 22 0;
    Ok (c_string base64).

Definition make (printable : list Z) : result t :=
  if negb (zlen printable =? 22) then Fault (Thrown "Key must be 22 letters long.")
  else
    let base64 := printable ++ [61; 61] in
    let len := 16 in
    d ← base64_decode base64 24 len;
    match d with
    | None => Fault (Thrown "Key must be well-formed base64.")
    | Some key =>
        p ← (if negb (len =? 16) then Fault (Thrown "Key must represent 16 octets.") else printable_key key);
        if bool_decide (printable = p) then Ok key
        else Fault (Thrown "Base64 key was not encoded 128-bit key.")
    end.

(** The random key: whether the device opens, what is read from it, and
    whether it closes *)
Definition random (opened : bool) (octets : option (list Z)) (closed : bool) : result t :=
  if negb opened then Fault (Thrown "/dev/urandom")
  else
    match octets with
    | None => Fault (Thrown "Could not read from /dev/urandom")
    | Some key => if closed then Ok key else Fault (Thrown "/dev/urandom")
    end.
End key.
End Base64Key.

(** ** The constructor and the destructor of [Session] *)

Module KeySession.
Import Ocb.

Record t : Set := mk { key : Base64Key.t; ctx : ae_ctx }.

(** [buffer]: what the memory of the context holds before *)
Definition make (little : bool) `{AES} (buffer : ae_ctx) (s_key : Base64Key.t) : result t :=
  let '(status, ctx) := ae_init little buffer s_key 16 12 16 in
  if negb (status =? AE_SUCCESS) then Fault (Thrown "Could not initialize AES-OCB context.")
  else Ok (mk s_key ctx).

Definition destroy (s : t) : ae_ctx := ae_clear.
End KeySession.

(** ** [myatoi] *)

(** [str] without its terminator; [errno] is set when the number does not
    fit. *)
Definition myatoi (str : list Z) : result Z :=
  let '(ret, consumed, erange) := strtol str in
  if erange || negb (consumed =? zlen str) then Fault (Thrown "Bad integer.") else Ok ret.

(** ** Properties *)

Module KeyTheorems.
Import Base64Functions CryptoMessages.

Section keys.
Context `{Base64, !Base64Laws}.

(** The printable form: the encoding without its padding *)
Definition letters (key : list Z) : list Z := take 22 (snd (bio_encode key)).

Lemma encoding key : block_octets key →
  snd (bio_encode key) = letters key ++ [61; 61] ∧ zlen (letters key) = 22 ∧ Forall (fun c => c ≠ 0) (letters key).
Proof.
  intros [Hlen Hoct]. assert (zlen key = 16) as Hz by (unfold zlen; lia).
  pose proof (bio_length key Hoct) as Hl. rewrite Hz in Hl. change (4 * ((16 + 2) / 3)) with 24 in Hl.
  destruct (bio_padding key Hoct) as [s Hs]; [by rewrite Hz|]. pose proof (bio_letters key Hoct) as Hne.
  unfold letters. rewrite Hs in *. rewrite zlen_app in Hl. change (zlen [61; 61]) with 2 in Hl.
  assert (length s = 22%nat) as Hlen22 by (unfold zlen in Hl; lia).
  rewrite take_app_length' by done. split_and!; [done|lia|by apply Forall_app in Hne as [? _]].
Qed.

Lemma encode_key key : block_octets key → base64_encode key 16 24 = Ok (letters key ++ [61; 61]).
Proof.
  intros Hk. destruct (encoding key Hk) as (He & Hl & _). destruct Hk as [Hlen Hoct]. unfold base64_encode.
  cbn [assert_that mbind result_bind Z.eqb]. rewrite take_ge by (change (Z.to_nat 16) with 16%nat; lia).
  pose proof (bio_written key Hoct) as Hw. destruct (bio_encode key) as [n mem]. cbn [fst snd] in *. subst n mem.
  assert (zlen key = 16) as -> by (unfold zlen; lia). rewrite zlen_app, Hl. done.
Qed.

Lemma printable_letters key : block_octets key → Base64Key.printable_key key = Ok (letters key).
Proof.
  intros Hk. destruct (encoding key Hk) as (_ & Hl & Hne). unfold Base64Key.printable_key. rewrite encode_key by done.
  cbn [mbind result_bind]. assert (length (letters key) = 22%nat) as Hn by (unfold zlen in Hl; lia).
  set (s := letters key) in *. clearbody s.
  assert (vec_get (s ++ [61; 61]) 23 = Ok 61) as ->.
  { change 23 with (Z.of_nat 23). unfold vec_get. cbn [Z.ltb Z.compare Z.of_nat]. rewrite lookup_app_r by (rewrite Hn; lia). by rewrite Hn. }
  assert (vec_get (s ++ [61; 61]) 22 = Ok 61) as ->.
  { unfold vec_get. cbn [Z.ltb Z.compare]. rewrite lookup_app_r by (rewrite Hn; lia). by rewrite Hn. }
  cbn [mbind result_bind]. change (61 =? 61) with true. cbn [negb orb]. unfold vec_set, in_range. rewrite zlen_app, Hl.
  change (zlen [61; 61]) with 2. change ((0 <=? 22) && (22 <? 22 + 2)) with true. cbn [mbind result_bind].
  rewrite insert_app_r_alt by (rewrite Hn; lia). rewrite Hn.
  change (<[(Z.to_nat 22 - 22)%nat := 0]> [61; 61]) with [0; 61].
  unfold Base64Key.c_string. f_equal. apply DispatcherLemmas.take_while_all; [|done].
  apply forallb_forall. intros c Hc%list_elem_of_In. rewrite Forall_forall in Hne. specialize (Hne c Hc). lia.
Qed.

Lemma make_letters key : block_octets key → Base64Key.make (letters key) = Ok key.
Proof.
  intros Hk. destruct (encoding key Hk) as (He & Hl & _). pose proof (bio_inverse key (proj2 Hk)) as Hi.
  unfold Base64Key.make. rewrite Hl. change (22 =? 22) with true. cbn [negb]. cbv zeta. unfold base64_decode.
  change (24 =? 24) with true. change (16 =? 16) with true. cbn [assert_that mbind result_bind].
  rewrite take_ge by (rewrite length_app; unfold zlen in Hl; cbn; lia). rewrite <- He, Hi.
  pose proof (proj1 Hk) as Hlen. rewrite take_ge by (change (Z.to_nat 16) with 16%nat; lia).
  rewrite drop_ge by (change (Z.to_nat 16) with 16%nat; lia). assert (zlen key = 16) as -> by (unfold zlen; lia).
  change (16 <=? 0) with false. change (16 =? 16) with true. change (0 <? zlen (take 256 [])) with false.
  cbn [negb mbind result_bind]. rewrite printable_letters by done. cbn [mbind result_bind]. by rewrite bool_decide_eq_true_2.
Qed.

(** What the constructor accepts, and how it refuses *)
Lemma make_cases s : match Base64Key.make s with
  | Ok key => block_octets key ∧ s = letters key
  | Fault f => ∃ w, f = Thrown w
  end.
Proof.
  unfold Base64Key.make. destruct (zlen s =? 22) eqn:Hl; cbn [negb]; [|by eexists]. cbv zeta.
  unfold base64_decode. change (24 =? 24) with true. change (16 =? 16) with true. cbn [assert_that mbind result_bind].
  pose proof (bio_octets (take (Z.to_nat 24) (s ++ [61; 61]))) as Hoct. destruct (bio_decode _) as [o eof]. cbn [fst] in Hoct.
  destruct (_ <=? 0); [by eexists|]. destruct (zlen (take (Z.to_nat 16) o) =? 16) eqn:Hz; cbn [negb]; [|by eexists].
  destruct (0 <? _); [by eexists|]. destruct eof; cbn [negb]; [|by eexists]. cbn [mbind result_bind].
  assert (block_octets (take (Z.to_nat 16) o)) as Hk.
  { split; [unfold zlen in Hz; lia|by apply Forall_take]. }
  rewrite printable_letters by done. cbn [mbind result_bind]. case_bool_decide; [done|by eexists].
Qed.

End keys.

(** ** The code of RFC 4648, for concrete runs *)

Module Rfc4648.

Definition letter (i : Z) : Z :=
  if i <? 26 then 65 + i else if i <? 52 then 71 + i else if i <? 62 then i - 4 else if i =? 62 then 43 else 47.

(** A padding or unknown letter counts as zero. *)
Definition value (c : Z) : Z :=
  if (65 <=? c) && (c <=? 90) then c - 65 else if (97 <=? c) && (c <=? 122) then c - 71
  else if (48 <=? c) && (c <=? 57) then c + 4 else if c =? 43 then 62 else if c =? 47 then 63 else 0.

Fixpoint encode (raw : list Z) : list Z :=
  match raw with
  | a :: b :: c :: r =>
      letter (a / 4) :: letter (a mod 4 * 16 + b / 16) :: letter (b mod 16 * 4 + c / 64) :: letter (c mod 64) :: encode r
  | [a; b] => [letter (a / 4); letter (a mod 4 * 16 + b / 16); letter (b mod 16 * 4); 61]
  | [a] => [letter (a / 4); letter (a mod 4 * 16); 61; 61]
  | [] => []
  end.

(** The bits behind the last octet are not looked at. *)
Fixpoint decode (s : list Z) : list Z * bool :=
  match s with
  | [] => ([], true)
  | a :: b :: c :: d :: r =>
      let x := value a * 4 + value b / 16 in
      let y := value b mod 16 * 16 + value c / 4 in
      let z := value c mod 4 * 64 + value d in
      if c =? 61 then ([x], bool_decide (r = []))
      else if d =? 61 then ([x; y], bool_decide (r = []))
      else let '(l, e) := decode r in (x :: y :: z :: l, e)
  | _ => ([], false)
  end.

#[export] Instance base64 : Base64 := {|
  bio_encode raw := (zlen raw, encode raw);
  bio_decode := decode |}.

Lemma three_ind (P : list Z → Prop) :
  P [] → (∀ a, P [a]) → (∀ a b, P [a; b]) → (∀ a b c r, P r → P (a :: b :: c :: r)) → ∀ l, P l.
Proof. intros H0 H1 H2 H3. fix IH 1. intros [|a [|b [|c r]]]; [done..|]. apply H3, IH. Qed.

Lemma letter_value i : 0 ≤ i < 64 → value (letter i) = i.
Proof. intros Hi. unfold letter. repeat case_match; unfold value; repeat case_match; lia. Qed.

Lemma letter_ok i : 0 ≤ i < 64 → letter i ≠ 0.
Proof. intros Hi. unfold letter. repeat case_match; lia. Qed.

Lemma letter_pad i : 0 ≤ i < 64 → (letter i =? 61) = false.
Proof. intros Hi. unfold letter. repeat case_match; lia. Qed.

Lemma value_range c : 0 ≤ value c < 64.
Proof. unfold value. repeat case_match; lia. Qed.

Lemma four_ind (P : list Z → Prop) :
  P [] → (∀ a, P [a]) → (∀ a b, P [a; b]) → (∀ a b c, P [a; b; c]) → (∀ a b c d r, P r → P (a :: b :: c :: d :: r)) → ∀ l, P l.
Proof. intros H0 H1 H2 H3 H4. fix IH 1. intros [|a [|b [|c [|d r]]]]; [done..|]. apply H4, IH. Qed.

Ltac octets H := repeat (apply Forall_cons in H as [? H]); unfold octet in *.

Lemma letters_inverse raw : Forall octet raw → decode (encode raw) = (raw, true).
Proof.
  induction raw as [|a|a b|a b c r IH] using three_ind; intros Hr; [done|..]; octets Hr; cbn [encode decode].
  - rewrite !letter_value by (Z.div_mod_to_equations; lia). cbn -[Z.div Z.modulo]. repeat f_equal. Z.div_mod_to_equations; lia.
  - rewrite !letter_pad by (Z.div_mod_to_equations; lia).
    rewrite !letter_value by (Z.div_mod_to_equations; lia). cbn -[Z.div Z.modulo Z.mul]. repeat f_equal; Z.div_mod_to_equations; lia.
  - rewrite !letter_pad by (Z.div_mod_to_equations; lia).
    rewrite !letter_value by (Z.div_mod_to_equations; lia). rewrite (IH Hr). repeat f_equal; Z.div_mod_to_equations; lia.
Qed.

Lemma decode_octets s : Forall octet (fst (decode s)).
Proof.
  induction s as [|a|a b|a b c|a b c d r IH] using four_ind; try done. cbn [decode].
  pose proof (value_range a). pose proof (value_range b). pose proof (value_range c). pose proof (value_range d).
  assert (octet (value a * 4 + value b / 16)) by (unfold octet; Z.div_mod_to_equations; lia).
  assert (octet (value b mod 16 * 16 + value c / 4)) by (unfold octet; Z.div_mod_to_equations; lia).
  assert (octet (value c mod 4 * 64 + value d)) by (unfold octet; Z.div_mod_to_equations; lia).
  destruct (c =? 61); [|destruct (d =? 61); [|destruct (decode r) as [l e]]]; cbn [fst];
    rewrite !Forall_cons; split_and!; done.
Qed.

#[export] Instance base64_laws : Base64Laws.
Proof.
  constructor; cbn [bio_encode bio_decode base64 fst snd]; [done| | | |apply decode_octets|apply letters_inverse].
  - intros raw _. induction raw as [|a|a b|a b c r IH] using three_ind; [done..|]. cbn [encode].
    rewrite !zlen_cons, IH. Z.div_mod_to_equations; lia.
  - intros raw Hr. induction raw as [|a|a b|a b c r IH] using three_ind; [done|..]; octets Hr; cbn [encode];
      repeat (constructor; [first [done|apply letter_ok; Z.div_mod_to_equations; lia]|]); [done..|by apply IH].
  - intros raw _. induction raw as [|a|a b|a b c r IH] using three_ind; rewrite ?zlen_cons; cbn [encode]; intros Hm; [done|..].
    + by exists [letter (a / 4); letter (a mod 4 * 16)].
    + done.
    + destruct IH as [s ->]; [Z.div_mod_to_equations; lia|]. by eexists (_ :: _ :: _ :: _ :: s).
Qed.
End Rfc4648.
Import Rfc4648.


(** ** [myatoi] *)

(** Decimal numbers are read back, and an empty string counts as zero. *)
Lemma myatoi_decimal n : 0 ≤ n ≤ LONG_MAX → myatoi (decimal n) = Ok n ∧ myatoi [] = Ok 0.
Proof.
  intros Hn. split; [|done]. unfold myatoi. rewrite DispatcherLemmas.strtol_decimal by done. by rewrite Z.eqb_refl.
Qed.

End KeyTheorems.
