(* ===== verification/VerusServer.v ===== *)
(** * The Verus sender

    [src/verus/src/verus_server.cpp] with the constants of [verus.hpp]: a
    sender that picks its window from a learned curve of delay against
    window.  Five threads share global variables: the sending thread, the
    receiver of acknowledgements, the timeout handler, the epochs of [main],
    and the delay profile that fits the curve.  A definition below is what
    one of them does to the globals under its locks; [gettimeofday] is an
    argument, and the spline of ALGLIB an interface. *)

From stdpp Require Import gmap.
From S2P Require Import Prelude Double.
Import Double.

(** The spline of ALGLIB: a fit and an evaluation, either of which may throw
    [ap_error] *)
Class Alglib := {
  spline1dinterpolant : Set;
  no_spline : spline1dinterpolant;
  spline1dcalc : spline1dinterpolant → double → option double;
  spline1dfitpenalized : list double → list double → Z → double → option spline1dinterpolant }.

Module Verus.

(** ** Constants *)

Definition MTU : Z := 1450.
Definition VERUS_M_DECREASE : double := of_ratio 7 10.
Definition EPOCH : double := of_Z 5000.
Definition DELTA1 : double := of_Z 1.
Definition DELTA2 : double := of_Z 2.
Definition VERUS_R : double := of_Z 6.
Definition SS_EXIT_THRESHOLD : double := of_Z 500.
Definition SS_INIT_TIMEOUT : Z := 1000.
Definition MAX_TIMEOUT : double := of_Z 1000.
Definition MIN_TIMEOUT : double := of_Z 150.
Definition MISSING_PKT_EXPIRY : double := of_Z 150.
Definition MAX_W_DELAY_CURVE : Z := 40000.

(** ** Packets and times *)

(** [udp_packet_t]: 36 octets *)
Record udp_packet_t : Set := mkPdu {
  ss_id : Z;
  seq : Z;
  w : Z;
  seconds : Z;
  millis : Z }.

Definition sizeof_udp_packet : Z := 36.

Record timeval : Set := mkTime { tv_sec : Z; tv_usec : Z }.

(** Milliseconds from a moment to [now] *)
Definition elapsed (now : timeval) (sec usec : Z) : double :=
  add (mul (of_Z (tv_sec now - sec)) (of_Z 1000)) (div (of_Z (tv_usec now - usec)) (of_Z 1000)).

Definition ewma (vals delay alpha : double) : double :=
  if ltb vals (of_Z 0) then delay else add (mul vals alpha) (mul (sub (of_Z 1) alpha) delay).

(** The sequence number is an [int]; [malloc] is taken to succeed. *)
Definition udp_pdu_init (seq packetSize w ssId : Z) (now : timeval) : result udp_packet_t :=
  if packetSize <=? sizeof_udp_packet then Fault (Thrown "exit")
  else Ok (mkPdu ssId (u64 seq) w (tv_sec now) (tv_usec now)).

(** ** The first and the last key of a [std::map] *)

Definition max_key {A} (m : gmap Z A) : option Z :=
  map_fold (fun k _ acc => Some (match acc with None => k | Some k' => Z.max k k' end)) None m.
Definition min_key {A} (m : gmap Z A) : option Z :=
  map_fold (fun k _ acc => Some (match acc with None => k | Some k' => Z.min k k' end)) None m.

Section verus.
Context `{Alglib}.

(** ** The global variables *)

(** [timer] is the time of the pending [async_wait] in milliseconds,
    [profile_N] the variable [N] of the delay profile thread. *)
Record globals : Set := mkGlobals {
  deltaDBar : double;
  dMax : double;
  wBar : double;
  dTBar : double;
  dMaxLast : double;
  dEst : double;
  ssId : Z;
  dMin : double;
  wList : list double;
  delay : double;
  curveStop : Z;
  maxWCurve : Z;
  pktSeq : Z;
  seqLast : Z;
  slowStart : bool;
  exitSlowStart : bool;
  haveSpline : bool;
  lossPhase : bool;
  lastAckTime : timeval;
  spline : spline1dinterpolant;
  wCrt : Z;
  tempS : Z;
  delaysEpochList : list double;
  sendingList : gmap Z Z;
  missingsequence_queue : gmap Z udp_packet_t;
  timer : Z;
  profile_N : double }.

#[export] Instance globals_eta : Eta globals := fun g =>
  mkGlobals (deltaDBar g) (dMax g) (wBar g) (dTBar g) (dMaxLast g) (dEst g) (ssId g) (dMin g) (wList g)
    (delay g) (curveStop g) (maxWCurve g) (pktSeq g) (seqLast g) (slowStart g) (exitSlowStart g)
    (haveSpline g) (lossPhase g) (lastAckTime g) (spline g) (wCrt g) (tempS g) (delaysEpochList g)
    (sendingList g) (missingsequence_queue g) (timer g) (profile_N g).

Definition set_deltaDBar (v : double) (g : globals) : globals := ltac:(with_field g deltaDBar v).
Definition set_dMax (v : double) (g : globals) : globals := ltac:(with_field g dMax v).
Definition set_wBar (v : double) (g : globals) : globals := ltac:(with_field g wBar v).
Definition set_dTBar (v : double) (g : globals) : globals := ltac:(with_field g dTBar v).
Definition set_dMaxLast (v : double) (g : globals) : globals := ltac:(with_field g dMaxLast v).
Definition set_dEst (v : double) (g : globals) : globals := ltac:(with_field g dEst v).
Definition set_ssId (v : Z) (g : globals) : globals := ltac:(with_field g ssId v).
Definition set_dMin (v : double) (g : globals) : globals := ltac:(with_field g dMin v).
Definition set_wList (v : list double) (g : globals) : globals := ltac:(with_field g wList v).
Definition set_delay (v : double) (g : globals) : globals := ltac:(with_field g delay v).
Definition set_curveStop (v : Z) (g : globals) : globals := ltac:(with_field g curveStop v).
Definition set_maxWCurve (v : Z) (g : globals) : globals := ltac:(with_field g maxWCurve v).
Definition set_pktSeq (v : Z) (g : globals) : globals := ltac:(with_field g pktSeq v).
Definition set_seqLast (v : Z) (g : globals) : globals := ltac:(with_field g seqLast v).
Definition set_slowStart (v : bool) (g : globals) : globals := ltac:(with_field g slowStart v).
Definition set_exitSlowStart (v : bool) (g : globals) : globals := ltac:(with_field g exitSlowStart v).
Definition set_haveSpline (v : bool) (g : globals) : globals := ltac:(with_field g haveSpline v).
Definition set_lossPhase (v : bool) (g : globals) : globals := ltac:(with_field g lossPhase v).
Definition set_lastAckTime (v : timeval) (g : globals) : globals := ltac:(with_field g lastAckTime v).
Definition set_spline (v : spline1dinterpolant) (g : globals) : globals := ltac:(with_field g spline v).
Definition set_wCrt (v : Z) (g : globals) : globals := ltac:(with_field g wCrt v).
Definition set_tempS (v : Z) (g : globals) : globals := ltac:(with_field g tempS v).
Definition set_delaysEpochList (v : list double) (g : globals) : globals := ltac:(with_field g delaysEpochList v).
Definition set_sendingList (v : gmap Z Z) (g : globals) : globals := ltac:(with_field g sendingList v).
Definition set_missing (v : gmap Z udp_packet_t) (g : globals) : globals :=
  ltac:(with_field g missingsequence_queue v).
Definition set_timer (v : Z) (g : globals) : globals := ltac:(with_field g timer v).
Definition set_profile_N (v : double) (g : globals) : globals := ltac:(with_field g profile_N v).

Definition fresh_wList : list double := replicate (Z.to_nat MAX_W_DELAY_CURVE) (of_Z (-1)).

(** The values of the program's start, up to the first packet of slow start
    ([main], before the loop) *)
Definition initial : globals :=
  mkGlobals (of_Z 1) (of_Z 0) (of_Z 1) (of_Z 0) (of_Z (-10)) (of_Z 0) 0 (of_Z 1000) fresh_wList (of_Z 0)
    MAX_W_DELAY_CURVE 0 0 0 true false false false (mkTime 0 0) no_spline 0 1 [] ∅ ∅ SS_INIT_TIMEOUT (of_Z 15).

(** ** The curve *)

(** The loop over [w]: the first window whose delay is above [delay] *)
Fixpoint scan_curve (n : nat) (w : Z) (delay : double) (g : globals) : result (option Z) :=
  match n with
  | O => Ok None
  | S n' =>
      above ←
        (if haveSpline g then
           Ok (match spline1dcalc (spline g) (of_Z w) with Some y => ltb delay y | None => false end)
         else y ← vec_get (wList g) w; Ok (ltb delay y));
      if (above : bool) then Ok (Some (w - 1)) else scan_curve n' (w + 1) delay g
  end.

(** Without a spline the search is repeated with a smaller delay. *)
Fixpoint calcDelayCurve (fuel : nat) (delay : double) (g : globals) : result double :=
  match fuel with
  | O => Fault OutOfFuel
  | S fuel' =>
      found ← scan_curve (Z.to_nat (MAX_W_DELAY_CURVE - 2)) 2 delay g;
      match found with
      | Some w => Ok (of_Z w)
      | None => if haveSpline g then Ok (of_Z (-1000)) else calcDelayCurve fuel' (sub delay DELTA2) g
      end
  end.

(** The variable [ret] has no value when the spline throws. *)
Definition calcDelayCurveInv (w : double) (g : globals) : result double :=
  if negb (haveSpline g) then
    if ltb w (of_Z MAX_W_DELAY_CURVE) then
      i ← to_i32 w;
      vec_get (wList g) i
    else vec_get (wList g) MAX_W_DELAY_CURVE
  else
    match spline1dcalc (spline g) w with
    | Some ret => Ok ret
    | None => Fault (Thrown "ret is used uninitialized")
    end.

Definition to_i64_checked (z : Z) : result Z :=
  if (- 2 ^ 63 <=? z) && (z <? 2 ^ 63) then Ok z else Fault BadConversion.

Definition calcSi (wBar : double) (g : globals) : result Z :=
  n ← match ceil (div (dTBar g) (div EPOCH (of_Z 1000))) with
      | Some n => if (- 2 ^ 31 <=? n) && (n <? 2 ^ 31) then Ok n else Fault BadConversion
      | None => Fault BadConversion
      end;
  if 1 <? n then
    p ← to_i64_checked (wCrt g * (2 - n));
    to_i32 (fmax (of_Z 0) (add wBar (of_Z (Z.quot p (n - 1)))))
  else to_i32 (fmax (of_Z 0) (sub wBar (of_Z (wCrt g)))).

(** ** Restart and timeout *)

Definition restartSlowStart (g : globals) : globals :=
  let g := set_seqLast 0 (set_dEst (of_Z 0) (set_maxWCurve 0 g)) in
  let g := set_wCrt 0 (set_dTBar (of_Z 0) (set_wBar (of_Z 1) g)) in
  let g := set_dMax (of_Z 0) (set_pktSeq 0 (set_dMin (of_Z 1000) g)) in
  let g := set_dMaxLast (of_Z (-10)) (set_deltaDBar (of_Z 1) g) in
  let g := set_haveSpline false (set_lossPhase false (set_slowStart true g)) in
  let g := set_ssId (ssId g + 1) (set_profile_N (of_Z 15) g) in
  let g := set_delaysEpochList [] (set_missing ∅ (set_sendingList ∅ g)) in
  set_timer SS_INIT_TIMEOUT (set_tempS 1 (set_wList fresh_wList g)).

(** "update timer and restart" *)
Definition restart_timer (g : globals) : result globals :=
  ms ← to_i64 (fmin MAX_TIMEOUT (fmax (mul (of_Z 5) (delay g)) MIN_TIMEOUT));
  Ok (set_timer ms g).

Definition TimeoutHandler (e : bool) (g : globals) : result globals :=
  if e then Ok g
  else if seqLast g =? 0 then Ok (restartSlowStart g)
  else if slowStart g then restart_timer (set_slowStart false g)
  else
    let g := set_dEst (dMin g) (set_wCrt 0 (set_lossPhase true g)) in
    let g :=
      match max_key (sendingList g) with
      | Some last => set_sendingList ∅ (set_seqLast last g)
      | None => g
      end in
    restart_timer (set_missing ∅ g).

(** ** The sending thread *)

(** Where the thread is: outside its loops; with [sPkts] read and [tempS]
    not yet reset; before the packet that starts the last [rest]; with a
    packet handed to the network and not yet on the list *)
Inductive sender_at : Set :=
  | Idle
  | Taken (sPkts : Z)
  | Loop (rest : Z)
  | Sent (rest : Z) (pdu : udp_packet_t).

(** The outcome of [sendto] *)
Inductive send_result : Set := SendOk | SendFull | SendError.

Definition next_packet (rest : Z) : sender_at := if 0 <? rest then Loop rest else Idle.

Definition send_packet (rest : Z) (ret : send_result) (now : timeval) (g : globals)
    : result (globals * sender_at * option udp_packet_t) :=
  let g := set_pktSeq (pktSeq g + 1) g in
  w_arg ← to_i32 (wBar g);
  pdu ← udp_pdu_init (to_int (pktSeq g)) MTU w_arg (ssId g) now;
  match ret with
  | SendOk => Ok (g, Sent rest pdu, Some pdu)
  | SendFull =>
      if slowStart g then
        let g := set_exitSlowStart true (set_lossPhase true g) in
        let g := set_wBar (mul (of_ratio 49 100) (of_Z (w pdu))) g in
        let g := set_dEst (mul (mul (of_ratio 3 4) (dMin g)) VERUS_R) g in
        let g := set_slowStart false g in
        Ok (set_pktSeq (pktSeq g - 1) g, Idle, None)
      else
        let g := set_wBar (fmax (of_Z 1) (mul VERUS_M_DECREASE (wBar g))) g in
        d ← calcDelayCurveInv (wBar g) g;
        let g := set_dEst d g in
        Ok (set_pktSeq (pktSeq g - 1) g, Idle, None)
  | SendError => Fault (Thrown "exit")
  end.

(** "storing sending packet info in sending list" *)
Definition store_packet (rest : Z) (pdu : udp_packet_t) (g : globals) : globals * sender_at :=
  let g := set_sendingList (<[seq pdu := w pdu]> (sendingList g)) g in
  (set_wCrt (wCrt g + 1) g, next_packet (rest - 1)).

(** ** The receiver *)

Definition updateUponReceivingPacket (delay : double) (w : Z) (g : globals) : result globals :=
  let g := if 0 <? wCrt g then set_wCrt (wCrt g - 1) g else g in
  let g := set_delaysEpochList (vec_push (delaysEpochList g) delay) g in
  let g := set_dTBar (ewma (dTBar g) delay (of_ratio 875 1000)) g in
  let g := if ltb delay (dMin g) then set_dMin delay g else g in
  if negb (lossPhase g) then
    old ← vec_get (wList g) w;
    l ← vec_set (wList g) w (ewma old delay (of_ratio 875 1000));
    let g := set_wList l g in
    Ok (if maxWCurve g <? w then set_maxWCurve w g else g)
  else
    let g := set_wBar (add (wBar g) (div (of_Z 1) (wBar g))) g in
    if haveSpline g then
      d ← calcDelayCurveInv (wBar g) g;
      Ok (set_dEst (fmin (dEst g) d) g)
    else Ok g.

(** [find] of a packet that is not on the list gives [end()], which has no
    [second].  The session of the record is not set, and never read. *)
Definition createMissingPdu (i : Z) (now : timeval) (g : globals) : result globals :=
  match sendingList g !! u64 i with
  | Some w =>
      Ok (set_missing (<[i := mkPdu 0 (u64 i) w (tv_sec now) (tv_usec now)]> (missingsequence_queue g)) g)
  | None => Fault NullDeref
  end.

(** [for (i = seqLast + 1; i < pdu->seq; i++)] with an [unsigned int] *)
Fixpoint create_missing (fuel : nat) (i seq : Z) (now : timeval) (g : globals) : result globals :=
  if i <? seq then
    match fuel with
    | O => Fault OutOfFuel
    | S fuel' =>
        g ← createMissingPdu (to_int i) now g;
        create_missing fuel' (u32 (i + 1)) seq now g
    end
  else Ok g.

(** The three cases of the sequence number *)
Definition receive_seq (pdu : udp_packet_t) (now : timeval) (g : globals) : result globals :=
  let w := to_int (w pdu) in
  if seq pdu =? u64 (seqLast g + 1) then updateUponReceivingPacket (delay g) w g
  else if seq pdu <? seqLast g then
    match missingsequence_queue g !! to_int (seq pdu) with
    | Some _ =>
        updateUponReceivingPacket (delay g) w (set_missing (delete (to_int (seq pdu)) (missingsequence_queue g)) g)
    | None => Ok g
    end
  else
    g ← create_missing (Z.to_nat (seq pdu - seqLast g)) (u32 (seqLast g + 1)) (seq pdu) now g;
    updateUponReceivingPacket (delay g) w g.

(** The body of the loop of [receiver_thread], under [restartLock] *)
Definition receive_pdu (pdu : udp_packet_t) (now : timeval) (g : globals) : result globals :=
  if ss_id pdu <? ssId g then Ok g
  else
    let g := set_delay (elapsed now (seconds pdu) (millis pdu)) g in
    let g :=
      if slowStart g && ltb SS_EXIT_THRESHOLD (delay g) then
        let g := set_wBar (mul VERUS_M_DECREASE (of_Z (w pdu))) g in
        let g := set_dEst (mul (mul (of_ratio 3 4) (dMin g)) VERUS_R) g in
        set_exitSlowStart true (set_slowStart false (set_lossPhase true g))
      else g in
    g ← restart_timer g;
    let g :=
      if lossPhase g && leb (of_Z (w pdu)) (wBar g)
      then set_exitSlowStart false (set_lossPhase false (set_delaysEpochList [] g)) else g in
    g ← receive_seq pdu now g;
    let g :=
      if (u64 (seqLast g + 1) <=? seq pdu) && (ss_id pdu =? ssId g)
      then set_lastAckTime now (set_seqLast (seq pdu) g) else g in
    let g := set_sendingList (delete (seq pdu) (sendingList g)) g in
    if slowStart g then
      let g := set_wBar (add (wBar g) (of_Z 1)) g in
      s ← to_i64 (fmax (of_Z 0) (sub (wBar g) (of_Z (wCrt g))));
      Ok (set_tempS (tempS g + s) g)
    else Ok g.

(** ** The epochs of [main] *)

(** The first packet of a round of [removeExpiredPacketsFromSeqQueue]: the
    loss phase, and the end of slow start *)
Definition first_expiry (pdu : udp_packet_t) (g : globals) : result globals :=
  g ←
    (if negb (lossPhase g) then
       let g := set_lossPhase true g in
       let g := set_wBar (fmin (wBar g) (mul VERUS_M_DECREASE (of_Z (w pdu)))) g in
       d ← (if slowStart g then i ← to_i32 (wBar g); vec_get (wList g) i else calcDelayCurveInv (wBar g) g);
       Ok (set_dEst d g)
     else Ok g);
  if slowStart g then
    i ← to_i32 (wBar g);
    if 20 <? i then
      stop ← to_i32 (fmax (of_Z 100) (of_Z (w pdu)));
      let g := set_wCrt 0 (set_slowStart false (set_curveStop stop g)) in
      match max_key (sendingList g) with
      | Some last => Ok (set_missing ∅ (set_seqLast last g))
      | None => Fault NullDeref
      end
    else Ok g
  else Ok g.

(** [begin()] of the queue, which [removeExpiredPacketsFromSeqQueue] needs *)
Definition first_missing (g : globals) : option udp_packet_t :=
  k ← min_key (missingsequence_queue g); missingsequence_queue g !! k.

(** The loop of [removeExpiredPacketsFromSeqQueue]; every round takes the
    first packet off the queue. *)
Fixpoint expire_loop (fuel : nat) (timerExpiry : bool) (pdu : udp_packet_t) (receivedtime : timeval) (g : globals)
    : result globals :=
  if leb MISSING_PKT_EXPIRY (elapsed receivedtime (seconds pdu) (millis pdu)) then
    match fuel with
    | O => Fault OutOfFuel
    | S fuel' =>
        g ← (if timerExpiry then Ok g else first_expiry pdu g);
        let g := set_missing (delete (to_int (seq pdu)) (missingsequence_queue g)) g in
        let g := set_sendingList (delete (seq pdu) (sendingList g)) g in
        let g := if 0 <? wCrt g then set_wCrt (wCrt g - 1) g else g in
        match first_missing g with
        | Some pdu => expire_loop fuel' true pdu receivedtime g
        | None => Ok g
        end
    end
  else Ok g.

(** The part of an epoch under [missingQueue] *)
Definition expire_missing (now : timeval) (g : globals) : result globals :=
  match first_missing g with
  | Some pdu => expire_loop (size (missingsequence_queue g)) false pdu now g
  | None => Ok g
  end.

(** [std::max_element] *)
Definition max_element (l : list double) (d : double) : double :=
  match l with
  | [] => d
  | x :: l => fold_left (fun m y => if ltb m y then y else m) l x
  end.

(** The estimate of the delay, and whether sending is suspended *)
Definition estimate (g : globals) : globals * bool :=
  if ltb VERUS_R (div (dMaxLast g) (dMin g)) then
    if negb (exitSlowStart g) then
      let g := set_dEst (fmax (dMin g) (sub (dEst g) DELTA2)) g in
      if eqb (dEst g) (dMin g) && (wCrt g <? 2) then (set_dMin (add (dMin g) (of_Z 10)) g, false)
      else (g, eqb (dEst g) (dMin g))
    else (g, false)
  else if ltb (of_ratio 1 10000) (deltaDBar g) then (set_dEst (fmax (dMin g) (sub (dEst g) DELTA1)) g, false)
  else (set_dEst (add (dEst g) DELTA2) g, false).

(** "Verus sender": the rest of an epoch *)
Definition epoch (fuel : nat) (now : timeval) (g : globals) : result globals :=
  if slowStart g then Ok g
  else
    let g :=
      match delaysEpochList g with
      | [] =>
          let buffering := elapsed now (tv_sec (lastAckTime g)) (tv_usec (lastAckTime g)) in
          set_dMax (fmax (dMaxLast g) buffering) g
      | l => set_delaysEpochList [] (set_dMax (max_element l (dMax g)) g)
      end in
    let g := if eqb (dMaxLast g) (of_Z (-10)) then set_dMaxLast (dMax g) g else g in
    let g := set_deltaDBar (sub (dMax g) (dMaxLast g)) g in
    let '(g, dMinStop) := estimate g in
    wBarTemp ← calcDelayCurve fuel (dEst g) g;
    if ltb wBarTemp (of_Z 0) then Ok (restartSlowStart g)
    else
      let g := set_wBar (fmax (of_Z 1) wBarTemp) g in
      S ← calcSi (wBar g) g;
      let g := set_dMaxLast (ewma (dMaxLast g) (dMax g) (of_ratio 1 5)) g in
      Ok (if dMinStop then g else set_tempS (tempS g + S) g).

(** ** The delay profile *)

(** The points of the curve below [curveStop]; the others are forgotten. *)
Fixpoint profile_points (i : Z) (stop : Z) (l : list double) : list (Z * double) * list double :=
  match l with
  | [] => ([], [])
  | y :: l =>
      let '(ps, l') := profile_points (i + 1) stop l in
      if (1 <=? i) && leb (of_Z 0) y then
        if i <? stop then ((i, y) :: ps, y :: l') else (ps, of_Z (-1) :: l')
      else (ps, y :: l')
  end.

(** [while (max_i/N < 5)]: nothing when [N] falls below one *)
Fixpoint find_N (fuel : nat) (max_i : Z) (N : double) : result (option double) :=
  if ltb (div (of_Z max_i) N) (of_Z 5) then
    match fuel with
    | O => Fault OutOfFuel
    | S fuel' =>
        let N := sub N (of_Z 1) in
        if ltb N (of_Z 1) then Ok None else find_N fuel' max_i N
    end
  else Ok (Some N).

(** A round of [delayProfile_thread] *)
Definition profile_round (g : globals) : result globals :=
  if slowStart g then Ok g
  else
    let '(points, l) := profile_points 0 (curveStop g) (wList g) in
    let max_i := default 1 (last (fst <$> points)) in
    let g := set_maxWCurve 0 (set_curveStop MAX_W_DELAY_CURVE (set_wList l g)) in
    N ← find_N 15 max_i (profile_N g);
    match N with
    | None => Ok (restartSlowStart g)
    | Some N =>
        let g := set_profile_N N g in
        if ltb (of_Z 4) (div (of_Z max_i) N) then
          M ← to_i64 (div (of_Z max_i) N);
          Ok (match spline1dfitpenalized (of_Z ∘ fst <$> points) (snd <$> points) M (of_Z 2) with
              | Some s => set_haveSpline true (set_spline s g)
              | None => restartSlowStart g
              end)
        else Ok g
    end.

(** ** The threads together *)

(** The globals, where the sending thread is, and the packets handed to the
    network so far *)
Record server : Set := mkServer {
  vars : globals;
  at_ : sender_at;
  network : list udp_packet_t }.

Inductive event : Set :=
  | Take
  | ResetTempS
  | Send (ret : send_result) (now : timeval)
  | Store
  | Receive (pdu : udp_packet_t) (now : timeval)
  | Timeout
  | Expire (now : timeval)
  | Epoch (now : timeval)
  | Profile.

(** What the event does; nothing when its thread is elsewhere *)
Definition step (fuel : nat) (e : event) (s : server) : result server :=
  let g := vars s in
  let with_vars (m : result globals) : result server := g ← m; Ok (mkServer g (at_ s) (network s)) in
  match e, at_ s with
  | Take, Idle => Ok (if 0 <? tempS g then mkServer g (Taken (to_int (tempS g))) (network s) else s)
  | ResetTempS, Taken n => Ok (mkServer (set_tempS 0 g) (next_packet n) (network s))
  | Send ret now, Loop rest =>
      '(g, a, p) ← send_packet rest ret now g;
      Ok (mkServer g a (match p with Some p => network s ++ [p] | None => network s end))
  | Store, Sent rest pdu => let '(g, a) := store_packet rest pdu g in Ok (mkServer g a (network s))
  | Receive pdu now, _ => with_vars (receive_pdu pdu now g)
  | Timeout, _ => with_vars (TimeoutHandler false g)
  | Expire now, _ => with_vars (expire_missing now g)
  | Epoch now, _ => with_vars (epoch fuel now g)
  | Profile, _ => with_vars (profile_round g)
  | _, _ => Ok s
  end.

Definition initial_server : server := mkServer initial Idle [].

Fixpoint run (fuel : nat) (es : list event) (s : server) : result server :=
  match es with
  | [] => Ok s
  | e :: es => s ← step fuel e s; run fuel es s
  end.

End verus.
End Verus.
