(* ===== verification/VerusProps.v ===== *)
(** * Properties of the Verus sender

    The list of packets in flight holds every packet above the last one
    acknowledged, so the look-ups of the receiver and of the expiry find
    what they need, as long as the last number acknowledged does not go
    back; the timeout can make it go back. *)

From stdpp Require Import gmap.
From S2P Require Import Prelude Double VerusServer.
Import Double.

Module VerusTheorems.
Import Verus.

(** ** The first and the last key of a map *)

Lemma max_key_spec {A} (m : gmap Z A) :
  match max_key m with
  | None => m = ∅
  | Some k => is_Some (m !! k) ∧ ∀ k', is_Some (m !! k') → k' ≤ k
  end.
Proof.
  unfold max_key. induction m as [|i x m Hi Hfirst IH] using map_first_key_ind; [done|].
  rewrite map_fold_insert_first_key by done. destruct (map_fold _ _ m) as [k|].
  - destruct IH as [Hk Hmax]. split.
    + destruct (Z.max_spec i k) as [[_ ->]|[_ ->]]; [|by rewrite lookup_insert_eq].
      rewrite lookup_insert_ne; [done|]. intros ->. rewrite Hi in Hk. by destruct Hk.
    + intros k' Hk'. destruct (decide (k' = i)) as [->|Hne]; [lia|].
      rewrite lookup_insert_ne in Hk' by done. specialize (Hmax k' Hk'). lia.
  - subst m. split; [by rewrite lookup_insert_eq|]. intros k' Hk'. destruct (decide (k' = i)) as [->|Hne]; [lia|].
    rewrite lookup_insert_ne, lookup_empty in Hk' by done. by destruct Hk'.
Qed.

Lemma min_key_spec {A} (m : gmap Z A) :
  match min_key m with None => m = ∅ | Some k => is_Some (m !! k) end.
Proof.
  unfold min_key. induction m as [|i x m Hi Hfirst IH] using map_first_key_ind; [done|].
  rewrite map_fold_insert_first_key by done. destruct (map_fold _ _ m) as [k|].
  - destruct (Z.min_spec i k) as [[_ ->]|[_ ->]]; [by rewrite lookup_insert_eq|].
    rewrite lookup_insert_ne; [done|]. intros ->. rewrite Hi in IH. by destruct IH.
  - by rewrite lookup_insert_eq.
Qed.

Section verus.
Context `{Alglib}.

Lemma first_missing_spec (g : globals) :
  match first_missing g with
  | Some p => ∃ k, missingsequence_queue g !! k = Some p
  | None => missingsequence_queue g = ∅
  end.
Proof.
  unfold first_missing. pose proof (min_key_spec (missingsequence_queue g)) as Hmin.
  destruct (min_key _) as [k|]; [|done]. cbn. destruct Hmin as [p Hp]. rewrite Hp. by exists k.
Qed.

(** ** What the bookkeeping of packets depends on *)

(** The variables of the numbering; most of the code does not touch them. *)
Definition core (g : globals) : Z * Z * Z * gmap Z Z * gmap Z udp_packet_t :=
  (ssId g, pktSeq g, seqLast g, sendingList g, missingsequence_queue g).

(** Any fault but the dereference of [end()] and a loop without end *)
Definition found (f : fault) : Prop := f ≠ NullDeref ∧ f ≠ OutOfFuel.
Definition loose (f : fault) : Prop := f ≠ NullDeref.

(** Closes a computation that has ended *)
Ltac ended := first [exact I|split; discriminate|discriminate|reflexivity].

Abbreviation keeps m g := (wp found m (fun g' => core g' = core g)).

Lemma keep_get {A} (l : list A) i : wp found (vec_get l i) (fun _ => True).
Proof. unfold vec_get. destruct (i <? 0); [ended|]. destruct (l !! Z.to_nat i); ended. Qed.

Lemma keep_set {A} (l : list A) i x : wp found (vec_set l i x) (fun _ => True).
Proof. unfold vec_set. destruct (in_range i l); ended. Qed.

Lemma keep_range lo hi x : wp found (to_range lo hi x) (fun _ => True).
Proof. unfold to_range. destruct (trunc x) as [z|]; [|ended]. destruct (_ && _); ended. Qed.

Lemma keep_bind {A B} E (m : result A) (k : A → result B) P :
  wp E m (fun _ => True) → (∀ a, wp E (k a) P) → wp E (m ≫= k) P.
Proof. intros Hm Hk. apply wp_bind. eapply wp_weaken; [exact Hm|]. intros a _. apply Hk. Qed.

Lemma keep_inverse x g : wp found (calcDelayCurveInv x g) (fun _ => True).
Proof.
  unfold calcDelayCurveInv. destruct (haveSpline g); cbn [negb].
  - destruct (spline1dcalc _ _); ended.
  - destruct (ltb _ _); [|apply keep_get]. apply keep_bind; [apply keep_range|]. intros i. apply keep_get.
Qed.

Lemma keep_scan n x d g : wp found (scan_curve n x d g) (fun _ => True).
Proof.
  revert x. induction n as [|n IH]; intros x; [ended|]. cbn [scan_curve]. apply keep_bind.
  - destruct (haveSpline g); [ended|]. apply keep_bind; [apply keep_get|intros; ended].
  - intros [|]; [ended|apply IH].
Qed.

Lemma found_loose {A} (m : result A) P : wp found m P → wp loose m P.
Proof. intros Hm. eapply wp_mono; [exact Hm| |done]. by intros f []. Qed.

Lemma keep_curve fuel d g : wp loose (calcDelayCurve fuel d g) (fun _ => True).
Proof.
  revert d. induction fuel as [|fuel IH]; intros d; [ended|]. cbn [calcDelayCurve]. apply keep_bind; [apply found_loose, keep_scan|].
  intros [x|]; [ended|]. destruct (haveSpline g); [ended|apply IH].
Qed.

Lemma keep_Si x g : wp found (calcSi x g) (fun _ => True).
Proof.
  unfold calcSi. apply keep_bind.
  - destruct (ceil _) as [n|]; [|ended]. destruct (_ && _); ended.
  - intros n. destruct (1 <? n); [|apply keep_range]. apply keep_bind; [|intros p; apply keep_range].
    unfold to_i64_checked. destruct (_ && _); ended.
Qed.

Lemma keep_timer g : keeps (restart_timer g) g.
Proof. unfold restart_timer. apply keep_bind; [apply keep_range|]. intros ms. ended. Qed.

Lemma keep_update d x g : keeps (updateUponReceivingPacket d x g) g.
Proof.
  unfold updateUponReceivingPacket.
  set (g1 := if 0 <? wCrt g then _ else g). assert (core g1 = core g) as <- by (subst g1; by destruct (0 <? wCrt g)).
  clearbody g1. set (g2 := set_dTBar _ _). change (core g1) with (core g2). clearbody g2.
  set (g3 := if ltb d (dMin g2) then _ else g2). assert (core g3 = core g2) as <- by (subst g3; by destruct (ltb _ _)).
  clearbody g3. destruct (lossPhase g3); cbn [negb].
  - set (g4 := set_wBar _ g3). change (core g3) with (core g4). clearbody g4.
    destruct (haveSpline g4); [|ended]. apply keep_bind; [apply keep_inverse|]. intros. ended.
  - apply keep_bind; [apply keep_get|]. intros old. apply keep_bind; [apply keep_set|]. intros l.
    cbv zeta. destruct (_ <? x); ended.
Qed.

(** ** The books *)

(** The last number that has been put on the list in this session *)
Definition stored (a : sender_at) (g : globals) : Z :=
  match a with Sent _ p => if ss_id p =? ssId g then pktSeq g - 1 else pktSeq g | _ => pktSeq g end.

Definition number_ok (k : Z) : Prop := 0 < k < 2 ^ 31.

(** Every packet from the last acknowledged one to [top] is on the list, and
    so is every missing one, which is below [bound]. *)
Record books_below (bound top : Z) (g : globals) : Prop := mkBooks {
  bk_last : 0 ≤ seqLast g < 2 ^ 31;
  bk_list k : is_Some (sendingList g !! k) → number_ok k;
  bk_flight k : seqLast g < k ≤ top → is_Some (sendingList g !! k);
  bk_missing k p : missingsequence_queue g !! k = Some p →
    seq p = k ∧ k < bound ∧ is_Some (sendingList g !! k) }.

Definition books (top : Z) (g : globals) : Prop := books_below (seqLast g) top g.

Lemma books_core bound top g g' : core g' = core g → books_below bound top g → books_below bound top g'.
Proof. intros [= Hs Hp Hq Hl Hm] [H1 H2 H3 H4]. constructor; by rewrite ?Hq, ?Hl, ?Hm. Qed.

Lemma core_seqLast g g' : core g' = core g → seqLast g' = seqLast g.
Proof. by intros [=]. Qed.

Lemma core_ssId g g' : core g' = core g → ssId g' = ssId g.
Proof. by intros [=]. Qed.

Lemma books_restart g : books 0 (restartSlowStart g).
Proof.
  constructor; cbn -[fresh_wList]; [lia| |lia|].
  - intros k [x Hx]. by rewrite lookup_empty in Hx.
  - intros k p Hp. by rewrite lookup_empty in Hp.
Qed.

Lemma number_u64 k : number_ok k → u64 (to_int k) = k ∧ to_int k = k ∧ u64 k = k.
Proof. intros Hk. unfold number_ok in Hk. rewrite (to_int_small k) by lia. by rewrite !uwrap_small by lia. Qed.

(** A packet leaves the list that is not missing and not in flight. *)
Lemma books_delete bound top g k : books_below bound top g → k ≤ seqLast g → missingsequence_queue g !! k = None →
  books_below bound top (set_sendingList (delete k (sendingList g)) g).
Proof.
  intros [H1 H2 H3 H4] Hk Hm. constructor; cbn; [done|..].
  - intros k' [x Hx]. apply lookup_delete_Some in Hx as [_ Hx]. apply H2. by exists x.
  - intros k' Hk'. rewrite lookup_delete_ne by lia. by apply H3.
  - intros k' p Hp. destruct (H4 k' p Hp) as (Hs & Hlt & Hin). split_and!; [done|done|].
    rewrite lookup_delete_ne; [done|]. intros <-. by rewrite Hm in Hp.
Qed.

Lemma books_forget bound top g k : books_below bound top g →
  books_below bound top (set_missing (delete k (missingsequence_queue g)) g).
Proof.
  intros [H1 H2 H3 H4]. constructor; cbn; try done. intros k' p Hp. apply lookup_delete_Some in Hp as [_ Hp]. by apply H4.
Qed.

Lemma books_advance bound top g s : books_below bound top g → seqLast g ≤ s < 2 ^ 31 →
  books_below bound top (set_seqLast s g).
Proof.
  intros [H1 H2 H3 H4] Hs. constructor; cbn; [lia|done| |done]. intros k Hk. apply H3. lia.
Qed.

Lemma not_missing bound top g k : books_below bound top g → bound ≤ k → missingsequence_queue g !! k = None.
Proof.
  intros Hb Hk. destruct (missingsequence_queue g !! k) as [p|] eqn:Hp; [|done].
  destruct (bk_missing _ _ _ Hb k p Hp) as (_ & Hlt & _). lia.
Qed.

(** ** The receiver *)

Lemma create_missing_ok fuel i top s now g : (Z.to_nat (s - i) ≤ fuel)%nat → s < 2 ^ 31 → s - 1 ≤ top → 0 < i →
  seqLast g < i ≤ s → books_below i top g →
  wp found (create_missing fuel i s now g) (fun g' =>
    (ssId g', pktSeq g', seqLast g') = (ssId g, pktSeq g, seqLast g) ∧ books_below s top g').
Proof.
  revert i g. induction fuel as [|fuel IH]; intros i g Hf Hs Htop Hi0 Hi Hb; cbn [create_missing];
    destruct (Z.ltb_spec i s) as [Hlt|Hge]; try (apply wp_ok; by replace s with i by lia).
  { lia. }
  assert (number_ok i) as Hn by (unfold number_ok; lia). destruct (number_u64 i Hn) as (Hu & Ht & _).
  destruct Hb as [Hl Hlist Hflight Hm]. destruct (Hflight i ltac:(lia)) as [x Hx].
  unfold createMissingPdu at 1. rewrite Hu, Hx. cbn [mbind result_bind]. rewrite Ht.
  rewrite uwrap_small by lia. eapply wp_weaken; [apply IH; cbn; try lia|intros g' Hg'; exact Hg'].
  constructor; cbn; try done.
  intros k p Hp. destruct (decide (k = i)) as [->|Hne].
  - rewrite lookup_insert_eq in Hp. injection Hp as <-. cbn. split_and!; [done|lia|by exists x].
  - rewrite lookup_insert_ne in Hp by done. destruct (Hm k p Hp) as (? & ? & ?). split_and!; [done|lia|done].
Qed.

(** The end of the body: the last number and the list *)
Definition acknowledge (s : Z) (g : globals) : globals :=
  let g := if u64 (seqLast g + 1) <=? s then set_seqLast s g else g in
  set_sendingList (delete s (sendingList g)) g.

Lemma books_acknowledge bound top g s : books_below bound top g → number_ok s →
  missingsequence_queue g !! s = None → bound ≤ Z.max s (seqLast g) → books top (acknowledge s g).
Proof.
  intros Hb Hs Hm Hbound. pose proof (bk_last _ _ _ Hb) as Hl. unfold acknowledge, number_ok in *.
  rewrite uwrap_small by lia. destruct (Z.leb_spec (seqLast g + 1) s) as [Hle|Hgt].
  - assert (books_below s top (set_seqLast s g)) as Hb'.
    { apply books_advance; [|lia]. destruct Hb as [H1 H2 H3 H4]. constructor; try done.
      intros k p Hp. destruct (H4 k p Hp) as (? & ? & ?). split_and!; [done|lia|done]. }
    by apply books_delete.
  - assert (books top g) as Hb'.
    { destruct Hb as [H1 H2 H3 H4]. constructor; try done.
      intros k p Hp. destruct (H4 k p Hp) as (? & ? & ?). split_and!; [done|lia|done]. }
    apply books_delete; [done|lia|done].
Qed.

Lemma acknowledge_core s g g' : core g' = core g → core (acknowledge s g') = core (acknowledge s g).
Proof.
  intros Hc. unfold acknowledge. rewrite (core_seqLast _ _ Hc). destruct (_ <=? s);
    injection Hc as Hs Hp Hq Hl Hm; unfold core; cbn; congruence.
Qed.

Lemma receive_seq_ok top p now g : books top g → number_ok (seq p) → seq p - 1 ≤ top →
  wp found (receive_seq p now g) (fun g' => ssId g' = ssId g ∧ pktSeq g' = pktSeq g ∧ books top (acknowledge (seq p) g')).
Proof.
  intros Hb Hn Htop. pose proof (bk_last _ _ _ Hb) as Hl. destruct (number_u64 _ Hn) as (_ & Ht & _).
  unfold receive_seq. rewrite (uwrap_small 64 (seqLast g + 1)), Ht by lia.
  assert (∀ g1 g', core g' = core g1 → ssId g1 = ssId g → pktSeq g1 = pktSeq g → books top (acknowledge (seq p) g1) →
    ssId g' = ssId g ∧ pktSeq g' = pktSeq g ∧ books top (acknowledge (seq p) g')) as Hdone.
  { intros g1 g' Hc Hs1 Hp1 Hb1. pose proof Hc as [= ? ? ? ? ?]. split_and!; [congruence|congruence|].
    apply (acknowledge_core (seq p)) in Hc. unfold books. rewrite (core_seqLast _ _ Hc).
    by apply (books_core _ _ _ _ Hc). }
  destruct (Z.eqb_spec (seq p) (seqLast g + 1)) as [He|Hne];
    [|destruct (Z.ltb_spec (seq p) (seqLast g)) as [Hlt|Hge]].
  - eapply wp_weaken; [apply keep_update|]. intros g' Hc. apply (Hdone g); try done.
    eapply books_acknowledge; [exact Hb|done| |lia]. eapply not_missing; [exact Hb|lia].
  - destruct (missingsequence_queue g !! seq p) as [q|] eqn:Hq.
    + set (g1 := set_missing _ g). eapply wp_weaken; [apply keep_update|]. intros g' Hc. apply (Hdone g1); try done.
      eapply (books_acknowledge (seqLast g)); [apply books_forget, Hb|done|cbn; apply lookup_delete_eq|cbn; lia].
    + apply wp_ok. apply (Hdone g); try done. eapply books_acknowledge; [exact Hb|done|done|lia].
  - rewrite uwrap_small by (unfold number_ok in Hn; lia). apply wp_bind.
    destruct (decide (seq p = seqLast g)) as [He|Hgt].
    + assert (create_missing (Z.to_nat (seq p - seqLast g)) (seqLast g + 1) (seq p) now g = Ok g) as ->.
      { destruct (Z.to_nat _); cbn [create_missing]; by rewrite (proj2 (Z.ltb_ge _ _)) by lia. }
      apply wp_ok. eapply wp_weaken; [apply keep_update|]. intros g' Hc. apply (Hdone g); try done.
      eapply books_acknowledge; [exact Hb|done| |lia]. eapply not_missing; [exact Hb|lia].
    + assert (books_below (seqLast g + 1) top g) as Hb1.
      { destruct Hb as [H1 H2 H3 H4]. constructor; try done.
        intros k q Hq. destruct (H4 k q Hq) as (? & ? & ?). split_and!; [done|lia|done]. }
      eapply wp_weaken; [apply create_missing_ok; [..|exact Hb1]; unfold number_ok in Hn; lia|].
      intros g1 [[= Hs1 Hp1 Hl1] Hb2]. eapply wp_weaken; [apply keep_update|]. intros g' Hc. apply (Hdone g1); try done.
      eapply books_acknowledge; [exact Hb2|done| |lia]. eapply not_missing; [exact Hb2|lia].
Qed.

Lemma receive_pdu_ok top p now g : books top g → ss_id p ≤ ssId g → number_ok (seq p) →
  (ss_id p = ssId g → seq p - 1 ≤ top) →
  wp found (receive_pdu p now g) (fun g' => ssId g' = ssId g ∧ pktSeq g' = pktSeq g ∧ books top g').
Proof.
  intros Hb Hss Hn Htop. unfold receive_pdu. destruct (Z.ltb_spec (ss_id p) (ssId g)) as [Hlt|Hge]; [done|].
  set (g0 := set_delay _ g). set (g1 := if slowStart g0 && _ then _ else g0).
  assert (core g1 = core g) as Hc1 by (subst g1; by destruct (_ && _)). clearbody g1. clear g0.
  apply wp_bind. eapply wp_weaken; [apply keep_timer|]. intros g2 Hc2. rewrite Hc1 in Hc2. clear g1 Hc1.
  set (g3 := if lossPhase g2 && _ then _ else g2).
  assert (core g3 = core g) as Hc3 by (subst g3; by destruct (_ && _)). clearbody g3. clear g2 Hc2.
  pose proof Hc3 as [= Hs3 Hp3 Hq3 _ _].
  assert (books top g3) as Hb3 by (unfold books; rewrite Hq3; by apply (books_core _ _ _ _ Hc3)).
  apply wp_bind. eapply wp_weaken; [apply (receive_seq_ok top); [done|done|lia]|]. cbv beta.
  intros g4 (Hs4 & Hp4 & Hb4). rewrite (proj2 (Z.eqb_eq (ss_id p) (ssId g4))), andb_true_r by lia.
  set (g5 := set_sendingList _ _). assert (core g5 = core (acknowledge (seq p) g4)) as Hc5.
  { subst g5. unfold acknowledge. by destruct (_ <=? seq p). }
  assert (ssId g5 = ssId g ∧ pktSeq g5 = pktSeq g ∧ books top g5) as Hok.
  { split_and!; [subst g5; destruct (_ <=? seq p); cbn; congruence..|].
    unfold books. rewrite (core_seqLast _ _ Hc5). by apply (books_core _ _ _ _ Hc5). }
  clearbody g5. cbv zeta. destruct (slowStart g5); [|done]. apply keep_bind; [apply keep_range|]. intros x.
  destruct Hok as (Hs5 & Hp5 & Hb5). apply wp_ok. split_and!; [done|done|]. by apply (books_core _ _ g5).
Qed.

(** ** The expiry *)

(** The rounds behind the first one *)
Lemma expire_later_ok fuel top p now g : books top g → missingsequence_queue g !! seq p = Some p →
  (size (missingsequence_queue g) ≤ fuel)%nat →
  wp found (expire_loop fuel true p now g) (fun g' =>
    ssId g' = ssId g ∧ pktSeq g' = pktSeq g ∧ books top g').
Proof.
  revert p g. induction fuel as [|fuel IH]; intros p g Hb Hp Hsz; cbn [expire_loop];
    (destruct (leb _ _); [|done]).
  { apply Nat.le_0_r, map_size_empty_iff in Hsz. by rewrite Hsz, lookup_empty in Hp. }
  cbn [mbind result_bind]. destruct (bk_missing _ _ _ Hb _ _ Hp) as (_ & Hlt & Hin).
  destruct (number_u64 _ (bk_list _ _ _ Hb _ Hin)) as (_ & Ht & _). rewrite Ht.
  set (g1 := set_sendingList _ _).
  assert (books top g1) as Hb1.
  { apply books_delete; [by apply books_forget|cbn; lia|cbn; apply lookup_delete_eq]. }
  assert (missingsequence_queue g1 = delete (seq p) (missingsequence_queue g)) as Hm1 by done.
  assert (ssId g1 = ssId g ∧ pktSeq g1 = pktSeq g) as [Hs1 Hp1] by done. clearbody g1.
  set (g2 := if 0 <? wCrt g1 then _ else g1). assert (core g2 = core g1) as Hc2 by (subst g2; by destruct (0 <? _)).
  clearbody g2. pose proof Hc2 as [= Hs2 Hp2 Hq2 _ Hm2].
  assert (books top g2) as Hb2 by (unfold books; rewrite Hq2; by apply (books_core _ _ _ _ Hc2)).
  pose proof (first_missing_spec g2) as Hfirst. destruct (first_missing g2) as [q|].
  - destruct Hfirst as [k Hk]. destruct (bk_missing _ _ _ Hb2 _ _ Hk) as (Hq & _ & _). subst k.
    eapply wp_weaken; [apply IH; [done|done|]|].
    + rewrite Hm2, Hm1, map_size_delete_Some; [lia|by exists p].
    + cbv beta. intros g' (? & ? & ?). split_and!; [congruence|congruence|done].
  - apply wp_ok. split_and!; [congruence|congruence|done].
Qed.

(** The first packet: the books stay as they are, or the last number is that
    of the last packet on the list and nothing is missing any more. *)
Lemma first_expiry_ok top p g : books top g → is_Some (sendingList g !! seq p) →
  wp found (first_expiry p g) (fun g' => core g' = core g ∨
    ∃ last, max_key (sendingList g) = Some last
      ∧ core g' = core (set_missing ∅ (set_seqLast last g))).
Proof.
  intros Hb Hin. unfold first_expiry. apply wp_bind.
  assert (keeps (if negb (lossPhase g) then
       let g := set_lossPhase true g in
       let g := set_wBar (fmin (wBar g) (mul VERUS_M_DECREASE (of_Z (w p)))) g in
       d ← (if slowStart g then i ← to_i32 (wBar g); vec_get (wList g) i else calcDelayCurveInv (wBar g) g);
       Ok (set_dEst d g)
     else Ok g) g) as Hk.
  { destruct (lossPhase g); cbn [negb]; [done|]. cbv zeta. set (g1 := set_wBar _ _). change (core g) with (core g1).
    clearbody g1. apply keep_bind; [|intros; ended]. destruct (slowStart g1); [|apply keep_inverse].
    apply keep_bind; [apply keep_range|]. intros i. apply keep_get. }
  eapply wp_weaken; [exact Hk|]. cbv beta. clear Hk. intros g1 Hc1. destruct (slowStart g1); [|by left].
  apply keep_bind; [apply keep_range|]. intros i. destruct (20 <? i); [|by left].
  apply keep_bind; [apply keep_range|]. intros stop. cbv zeta.
  pose proof Hc1 as [= Hs1 Hp1 Hq1 Hl1 Hm1]. cbn [sendingList set_wCrt set_slowStart set_curveStop]. rewrite Hl1.
  pose proof (max_key_spec (sendingList g)) as Hmax. destruct (max_key (sendingList g)) as [last|].
  - apply wp_ok. right. exists last. split; [done|]. unfold core. cbn. congruence.
  - rewrite Hmax, lookup_empty in Hin. by destruct Hin.
Qed.

(** Nothing is left of the queue behind the end of slow start. *)
Lemma expire_cleared fuel p now g : missingsequence_queue g = ∅ → ∃ g', expire_loop (S fuel) true p now g = Ok g'
  ∧ (core g' = core g ∨ core g' = core (set_sendingList (delete (seq p) (sendingList g)) g)).
Proof.
  intros Hm. cbn [expire_loop]. destruct (leb _ _); [|eauto]. cbn [mbind result_bind].
  rewrite Hm, delete_empty. set (g1 := set_sendingList _ _).
  assert (core g1 = core (set_sendingList (delete (seq p) (sendingList g)) g)) as <- by (unfold core; cbn; by rewrite Hm).
  assert (missingsequence_queue g1 = ∅) as Hm1 by done. clearbody g1.
  set (g2 := if 0 <? wCrt g1 then _ else g1). assert (core g2 = core g1) as Hc2 by (subst g2; by destruct (0 <? _)).
  clearbody g2. pose proof Hc2 as [= _ _ _ _ Hm2]. pose proof (first_missing_spec g2) as Hfirst.
  destruct (first_missing g2) as [q|]; [|eauto]. destruct Hfirst as [k Hk]. by rewrite Hm2, Hm1, lookup_empty in Hk.
Qed.

(** The expiry keeps the books, unless it takes the last number back. *)
Lemma expire_missing_ok top now g : books top g →
  wp found (expire_missing now g) (fun g' => ssId g' = ssId g ∧ pktSeq g' = pktSeq g
    ∧ (seqLast g ≤ seqLast g' → books top g')).
Proof.
  intros Hb. unfold expire_missing. pose proof (first_missing_spec g) as Hfirst.
  destruct (first_missing g) as [p|]; [|done]. destruct Hfirst as [k Hk].
  destruct (bk_missing _ _ _ Hb _ _ Hk) as (<- & Hlt & Hin). pose proof (bk_list _ _ _ Hb _ Hin) as Hn.
  destruct (size (missingsequence_queue g)) as [|n] eqn:Hsz.
  { apply map_size_empty_iff in Hsz. by rewrite Hsz, lookup_empty in Hk. }
  cbn [expire_loop]. destruct (leb MISSING_PKT_EXPIRY _) eqn:Hleb; [|done].
  apply wp_bind. eapply wp_weaken; [by apply (first_expiry_ok top)|]. cbv beta. intros g1 Hg1.
  match goal with |- wp _ ?m _ => assert (expire_loop (S n) true p now g1 = m) as <- end.
  { cbn [expire_loop]. by rewrite Hleb. }
  destruct Hg1 as [Hc1|(last & Hmax & Hc1)]; pose proof Hc1 as [= Hs1 Hp1 Hq1 Hl1 Hm1].
  - assert (books top g1) as Hb1 by (unfold books; rewrite Hq1; by apply (books_core _ _ _ _ Hc1)).
    eapply wp_weaken; [apply (expire_later_ok _ top); [done|by rewrite Hm1|by rewrite Hm1, Hsz]|]. cbv beta.
    intros g' (? & ? & ?). split_and!; [congruence|congruence|done].
  - pose proof (max_key_spec (sendingList g)) as Hspec. rewrite Hmax in Hspec. destruct Hspec as [Hlast _].
    pose proof (bk_list _ _ _ Hb _ Hlast) as Hnl. unfold number_ok in Hnl.
    destruct (expire_cleared n p now g1 Hm1) as (g' & -> & Hg'). apply wp_ok.
    assert (ssId g' = ssId g1 ∧ pktSeq g' = pktSeq g1 ∧ seqLast g' = seqLast g1) as (Hs' & Hp' & Hq')
      by (destruct Hg' as [[=]|[=]]; by split_and!).
    split_and!; [congruence|congruence|]. rewrite Hq', Hq1. cbn [seqLast set_missing set_seqLast]. intros Hle.
    assert (books top g1) as Hb1.
    { unfold books. rewrite Hq1. apply (books_core _ _ _ _ Hc1). constructor; cbn.
      - lia.
      - apply Hb.
      - intros k Hk'. apply (bk_flight _ _ _ Hb). lia.
      - intros k q Hq. by rewrite lookup_empty in Hq. }
    unfold books. rewrite Hq'. destruct Hg' as [Hc'|Hc']; apply (books_core _ _ _ _ Hc'); [done|].
    apply books_delete; [done|rewrite Hq1; cbn; lia|by rewrite Hm1].
Qed.

(** ** Steps of the other threads *)

(** Slow start is restarted, or the books are kept unless the last number
    goes back. *)
Definition outcome (top : Z) (g g' : globals) : Prop :=
  (∃ g0, ssId g0 = ssId g ∧ g' = restartSlowStart g0)
  ∨ ssId g' = ssId g ∧ pktSeq g' = pktSeq g ∧ (seqLast g ≤ seqLast g' → books top g').

Lemma outcome_core top g g' : books top g → core g' = core g → outcome top g g'.
Proof.
  intros Hb Hc. right. pose proof Hc as [= Hs Hp Hq _ _]. split_and!; [done|done|]. intros _.
  unfold books. rewrite Hq. by apply (books_core _ _ _ _ Hc).
Qed.

Lemma timeout_ok top g : books top g → wp found (TimeoutHandler false g) (outcome top g).
Proof.
  intros Hb. unfold TimeoutHandler. destruct (seqLast g =? 0); [apply wp_ok; left; by exists g|].
  destruct (slowStart g).
  { eapply wp_weaken; [apply keep_timer|]. intros g' Hc. by apply outcome_core. }
  cbv zeta. set (g1 := set_dEst _ _). assert (core g1 = core g) as Hc1 by done. clearbody g1.
  pose proof Hc1 as [= Hs1 Hp1 Hq1 Hl1 Hm1]. rewrite Hl1. pose proof (max_key_spec (sendingList g)) as Hmax.
  destruct (max_key (sendingList g)) as [last|].
  - destruct Hmax as [Hin Hmax]. pose proof (bk_list _ _ _ Hb _ Hin) as Hn. unfold number_ok in Hn.
    eapply wp_weaken; [apply keep_timer|]. intros g' Hc. right. pose proof Hc as [= Hs' Hp' Hq' _ _].
    split_and!; [congruence|congruence|]. rewrite Hq'. cbn [seqLast set_missing set_sendingList set_seqLast]. intros Hle.
    unfold books. rewrite Hq'. apply (books_core _ _ _ _ Hc). constructor; cbn; [lia|..].
    + intros k [x Hx]. by rewrite lookup_empty in Hx.
    + intros k Hk. assert (k ≤ last); [|lia]. apply Hmax, (bk_flight _ _ _ Hb). lia.
    + intros k q Hq. by rewrite lookup_empty in Hq.
  - eapply wp_weaken; [apply keep_timer|]. intros g' Hc. right. pose proof Hc as [= Hs' Hp' Hq' _ _].
    split_and!; [congruence|congruence|]. intros _. unfold books. rewrite Hq'. apply (books_core _ _ _ _ Hc).
    assert (books top g1) as [H1 H2 H3 H4] by (unfold books; rewrite Hq1; by apply (books_core _ _ _ _ Hc1)).
    by constructor.
Qed.

Lemma estimate_core g : core (fst (estimate g)) = core g.
Proof. unfold estimate. repeat (match goal with |- context [if ?b then _ else _] => destruct b end; try done). Qed.

Lemma epoch_ok fuel top now g : books top g → wp loose (epoch fuel now g) (outcome top g).
Proof.
  intros Hb. unfold epoch. destruct (slowStart g); [by apply outcome_core|].
  set (g1 := match delaysEpochList g with [] => _ | _ => _ end).
  assert (core g1 = core g) as Hc1 by (subst g1; by destruct (delaysEpochList g)). clearbody g1.
  set (g2 := if eqb (dMaxLast g1) _ then _ else g1).
  assert (core g2 = core g) as Hc2 by (subst g2; by destruct (eqb _ _)). clearbody g2. cbv zeta.
  set (g3 := set_deltaDBar _ g2). assert (core g3 = core g) as Hc3 by done. clearbody g3.
  pose proof (estimate_core g3) as Hc4. destruct (estimate g3) as [g4 stop]. cbn [fst] in Hc4. rewrite Hc3 in Hc4.
  apply keep_bind; [apply keep_curve|]. intros x. destruct (ltb x _).
  { apply wp_ok. left. exists g4. split; [by apply core_ssId|done]. }
  cbv zeta. apply keep_bind; [apply found_loose, keep_Si|]. intros S. apply wp_ok. apply outcome_core; [done|].
  destruct stop; exact Hc4.
Qed.

Lemma keep_find_N fuel max_i N : wp loose (find_N fuel max_i N) (fun _ => True).
Proof.
  revert N. induction fuel as [|fuel IH]; intros N; cbn [find_N]; (destruct (ltb _ _); [|ended]); [ended|].
  destruct (ltb _ _); [ended|apply IH].
Qed.

Lemma profile_ok top g : books top g → wp loose (profile_round g) (outcome top g).
Proof.
  intros Hb. unfold profile_round. destruct (slowStart g); [by apply outcome_core|].
  destruct (profile_points 0 (curveStop g) (wList g)) as [points l]. cbv zeta. set (g1 := set_maxWCurve _ _).
  assert (core g1 = core g) as Hc1 by done. clearbody g1. apply keep_bind; [apply keep_find_N|]. intros [N|].
  - destruct (ltb _ _); [|by apply outcome_core]. apply keep_bind; [apply found_loose, keep_range|]. intros M. apply wp_ok.
    destruct (spline1dfitpenalized _ _ _ _) as [sp|]; [by apply outcome_core|]. left. exists (set_profile_N N g1).
    split; [by apply (core_ssId g g1)|done].
  - apply wp_ok. left. exists g1. split; [by apply (core_ssId g g1)|done].
Qed.

(** ** Runs *)

(** An acknowledgement echoes a packet that was sent, and the numbers of the
    packets fit an [int]. *)
Definition allowed (e : event) (s : server) : Prop :=
  match e with
  | Receive p _ => p ∈ network s
  | Send _ _ => pktSeq (vars s) < 2 ^ 31 - 1
  | _ => True
  end.

(** The last number acknowledged goes back at most with a restart. *)
Definition forward (s s' : server) : Prop :=
  ssId (vars s') = ssId (vars s) → seqLast (vars s) ≤ seqLast (vars s').

(** The states of the runs; [steady] ones only go forward. *)
Inductive reach (fuel : nat) (steady : bool) : server → Prop :=
  | reach_initial : reach fuel steady initial_server
  | reach_step s e s' : reach fuel steady s → allowed e s → step fuel e s = Ok s' →
      (steady = true → forward s s') → reach fuel steady s'.

Record inv (s : server) : Prop := mkInv {
  inv_books : books (stored (at_ s) (vars s)) (vars s);
  inv_seq : 0 ≤ pktSeq (vars s) < 2 ^ 31;
  inv_net p : p ∈ network s → ss_id p ≤ ssId (vars s) ∧ number_ok (seq p)
    ∧ (ss_id p = ssId (vars s) → seq p ≤ pktSeq (vars s));
  inv_at : match at_ s with
           | Sent _ p => p ∈ network s ∧ (ss_id p = ssId (vars s) → seq p = pktSeq (vars s))
           | _ => True
           end }.

Lemma inv_initial : inv initial_server.
Proof.
  constructor; cbn -[fresh_wList]; [|lia| |done].
  - constructor; cbn -[fresh_wList]; [lia| |lia|].
    + intros k [x Hx]. by rewrite lookup_empty in Hx.
    + intros k p Hp. by rewrite lookup_empty in Hp.
  - intros p Hp. by apply elem_of_nil in Hp.
Qed.

Lemma inv_outcome s g' : inv s → outcome (stored (at_ s) (vars s)) (vars s) g' →
  forward s (mkServer g' (at_ s) (network s)) → inv (mkServer g' (at_ s) (network s)).
Proof.
  intros [Hb Hseq Hnet Hat] [(g0 & Hs & ->)|(Hs & Hp & Hb')] Hf.
  - assert (ssId (restartSlowStart g0) = ssId (vars s) + 1) as Hss by (rewrite <- Hs; done).
    assert (∀ p, p ∈ network s → ss_id p ≠ ssId (restartSlowStart g0)) as Hold.
    { intros p Hp. destruct (Hnet p Hp) as [? _]. lia. }
    constructor; cbn [vars at_ network].
    + replace (stored (at_ s) (restartSlowStart g0)) with 0; [apply books_restart|].
      unfold stored. destruct (at_ s) as [| | |n p]; try done. by rewrite (proj2 (Z.eqb_neq _ _)) by apply Hold, Hat.
    + done.
    + intros p Hp. destruct (Hnet p Hp) as (? & ? & _). split_and!; [lia|done|]. intros He. by apply Hold in He.
    + destruct (at_ s) as [| | |n p]; try done. destruct Hat as [Hp _]. split; [done|]. intros He. by apply Hold in He.
  - constructor; cbn [vars at_ network]; rewrite ?Hs, ?Hp; try done.
    replace (stored (at_ s) g') with (stored (at_ s) (vars s)); [by apply Hb', Hf|].
    unfold stored. destruct (at_ s); by rewrite ?Hs, ?Hp.
Qed.

(** ** The delay profile *)

(** The divisor of the delay profile is one of the whole numbers to fifteen. *)
Definition divisor (g : globals) : Prop := ∃ k, 1 ≤ k ≤ 15 ∧ profile_N g = of_Z k.
Abbreviation divides m := (wp (fun _ => True) m divisor).

Lemma divisor_restart g : divisor (restartSlowStart g).
Proof. by exists 15. Qed.

(** Follows the code when it leaves the divisor alone *)
Ltac follow := cbv zeta; repeat first
  [ assumption | exact I | apply divisor_restart | progress cbv zeta
  | match goal with
    | |- divides (_ ≫= _) => apply any_bind; intros ?
    | |- wp _ (match ?x with _ => _ end) _ => destruct x
    | |- divides (Ok (if ?b then _ else _)) => destruct b
    | |- divides (Ok (match ?x with _ => _ end)) => destruct x
    end ].

Lemma divides_timer g : divisor g → divides (restart_timer g).
Proof. intros Hg. unfold restart_timer. follow. Qed.

Lemma divides_timeout g : divisor g → divides (TimeoutHandler false g).
Proof.
  intros Hg. unfold TimeoutHandler. follow; [by apply divides_timer|].
  apply divides_timer. cbn [sendingList set_dEst set_wCrt set_lossPhase]. by destruct (max_key _).
Qed.

Lemma divides_update d x g : divisor g → divides (updateUponReceivingPacket d x g).
Proof.
  intros Hg. unfold updateUponReceivingPacket. set (g1 := if 0 <? wCrt g then _ else g).
  assert (divisor g1) as H1 by (subst g1; by destruct (0 <? _)). clearbody g1.
  set (g3 := if ltb _ _ then _ else _). assert (divisor g3) as H3 by (subst g3; by destruct (ltb _ _)). clearbody g3.
  follow.
Qed.

Lemma divides_create fuel i n now g : divisor g → divides (create_missing fuel i n now g).
Proof.
  revert i g. induction fuel as [|fuel IH]; intros i g Hg; cbn [create_missing]; (destruct (i <? n); [|done]); [done|].
  unfold createMissingPdu. destruct (sendingList g !! _); [|done]. cbn. by apply IH.
Qed.

Lemma divides_receive p now g : divisor g → divides (receive_pdu p now g).
Proof.
  intros Hg. unfold receive_pdu. destruct (_ <? _); [done|]. cbv zeta. set (g1 := if slowStart _ && _ then _ else _).
  assert (divisor g1) as H1 by (subst g1; by destruct (_ && _)). clearbody g1.
  apply wp_bind. eapply wp_weaken; [by apply divides_timer|]. intros g2 H2.
  set (g3 := if lossPhase g2 && _ then _ else g2). assert (divisor g3) as H3 by (subst g3; by destruct (_ && _)). clearbody g3.
  apply wp_bind, (wp_weaken _ _ divisor).
  - unfold receive_seq. cbv zeta. destruct (_ =? _); [by apply divides_update|]. destruct (_ <? _).
    + destruct (missingsequence_queue g3 !! _); [by apply divides_update|done].
    + apply wp_bind. eapply wp_weaken; [by apply divides_create|]. intros g4 H4. by apply divides_update.
  - intros g4 H4. set (g5 := if _ && _ then _ else g4). assert (divisor g5) as H5 by (subst g5; by destruct (_ && _)).
    clearbody g5. follow.
Qed.

Lemma divides_first p g : divisor g → divides (first_expiry p g).
Proof.
  intros Hg. unfold first_expiry. apply wp_bind, (wp_weaken _ _ divisor); [follow|]. intros g1 H1. follow.
Qed.

Lemma divides_expire fuel b p now g : divisor g → divides (expire_loop fuel b p now g).
Proof.
  revert b p g. induction fuel as [|fuel IH]; intros b p g Hg; cbn [expire_loop]; (destruct (leb _ _); [|done]); [done|].
  apply wp_bind, (wp_weaken _ _ divisor); [destruct b; [done|by apply divides_first]|]. intros g1 H1. cbv zeta.
  set (g2 := if 0 <? wCrt _ then _ else _). assert (divisor g2) as H2 by (subst g2; by destruct (0 <? _)). clearbody g2.
  destruct (first_missing g2); [by apply IH|done].
Qed.

Lemma divides_epoch fuel now g : divisor g → divides (epoch fuel now g).
Proof.
  intros Hg. unfold epoch. destruct (slowStart g); [done|]. set (g1 := match delaysEpochList g with [] => _ | _ => _ end).
  assert (divisor g1) as H1 by (subst g1; by destruct (delaysEpochList g)). clearbody g1.
  set (g2 := if eqb (dMaxLast g1) _ then _ else g1). assert (divisor g2) as H2 by (subst g2; by destruct (eqb _ _)).
  clearbody g2. cbv zeta. set (g3 := set_deltaDBar _ g2). assert (divisor g3) as H3 by done. clearbody g3.
  assert (divisor (fst (estimate g3))) as H4.
  { unfold estimate. repeat (match goal with |- context [if ?b then _ else _] => destruct b end; try done). }
  destruct (estimate g3) as [g4 stop]. follow.
Qed.

(** The divisor falls by one per round, so fifteen rounds are enough. *)
Lemma find_N_ends max_i k : 1 ≤ k ≤ 15 →
  wp (fun _ => False) (find_N 15 max_i (of_Z k)) (fun N => ∀ d, N = Some d → ∃ k, 1 ≤ k ≤ 15 ∧ d = of_Z k).
Proof.
  assert (∀ n k, 1 ≤ k ≤ 15 → k ≤ Z.of_nat n →
    wp (fun _ => False) (find_N n max_i (of_Z k)) (fun N => ∀ d, N = Some d → ∃ k, 1 ≤ k ≤ 15 ∧ d = of_Z k)) as Hall.
  { intros n. induction n as [|n IH]; intros j Hj Hn; [lia|]. cbn [find_N].
    destruct (ltb (div _ _) _); [|intros d [= <-]; by exists j].
    assert (sub (of_Z j) (of_Z 1) = of_Z (j - 1)) as ->.
    { assert (j ∈ seqZ 1 15) as Hin by (apply elem_of_seqZ; lia). clear -Hin. revert j Hin.
      apply Forall_forall. change (seqZ 1 15) with [1; 2; 3; 4; 5; 6; 7; 8; 9; 10; 11; 12; 13; 14; 15].
      repeat (apply Forall_cons; split; [vm_compute; reflexivity|]). by apply Forall_nil. }
    destruct (ltb (of_Z (j - 1)) (of_Z 1)) eqn:Hlt; [by intros d|].
    assert (j ≠ 1) by (intros ->; vm_compute in Hlt; discriminate). apply IH; lia. }
  intros Hk. apply (Hall 15%nat); [done|lia].
Qed.

Lemma divides_profile g : divisor g → wp (fun f => f ≠ OutOfFuel) (profile_round g) divisor.
Proof.
  intros Hg. unfold profile_round. destruct (slowStart g); [done|].
  destruct (profile_points 0 (curveStop g) (wList g)) as [points l]. cbv zeta. set (g1 := set_maxWCurve _ _).
  assert (divisor g1) as (k & Hk & HN) by done. clearbody g1. rewrite HN. apply wp_bind.
  eapply wp_mono; [by apply find_N_ends|done|]. intros [N|] Hd; [|apply divisor_restart].
  assert (divisor (set_profile_N N g1)) as H1 by exact (Hd _ eq_refl). destruct (ltb _ _); [|done].
  apply wp_bind. eapply wp_mono; [apply keep_range|by intros f []|]. intros M _.
  destruct (spline1dfitpenalized _ _ _ _); [exact H1|apply divisor_restart].
Qed.

Lemma divides_send rest ret now g :
  divisor g → wp (fun _ => True) (send_packet rest ret now g) (fun '(g', _, _) => divisor g').
Proof.
  intros Hg. unfold send_packet. apply any_bind. intros x. apply any_bind. intros p.
  destruct ret; [exact Hg| |done]. destruct (slowStart _); [exact Hg|]. apply any_bind. intros d. exact Hg.
Qed.

Lemma divides_step fuel e s :
  divisor (vars s) → wp (fun _ => True) (step fuel e s) (fun s' => divisor (vars s')).
Proof.
  intros Hs. assert (∀ m : result globals, divides m →
    wp (fun _ => True) (g ← m; Ok (mkServer g (at_ s) (network s))) (fun s' => divisor (vars s'))) as Hm.
  { intros m Hm. apply wp_bind. eapply wp_weaken; [exact Hm|]. intros g Hg. exact Hg. }
  unfold step. cbv zeta. destruct e as [| |ret now| |p now| |now|now|].
  - destruct (at_ s); try done. by destruct (0 <? _).
  - by destruct (at_ s).
  - destruct (at_ s) as [| |rest|]; try done. apply wp_bind. eapply wp_weaken; [by apply divides_send|].
    intros [[g a] p] Hg. exact Hg.
  - by destruct (at_ s).
  - by apply Hm, divides_receive.
  - by apply Hm, divides_timeout.
  - apply Hm. unfold expire_missing. destruct (first_missing _); [by apply divides_expire|done].
  - by apply Hm, divides_epoch.
  - apply Hm. eapply wp_mono; [by apply divides_profile|done|done].
Qed.

Lemma reach_divisor fuel b s : reach fuel b s → divisor (vars s).
Proof.
  induction 1 as [|s e s' Hr IH Ha Hs Hf]; [by exists 15|].
  pose proof (divides_step fuel e s IH) as Hok. by rewrite Hs in Hok.
Qed.

(** ** Every step *)

(** The faults that are left for an event *)
Definition slow (e : event) : bool := match e with Epoch _ | Profile => true | _ => false end.
Definition benign (e : event) (f : fault) : Prop := f ≠ NullDeref ∧ (f = OutOfFuel → slow e = true).

Lemma found_benign {A} e (m : result A) P : wp found m P → wp (benign e) m P.
Proof. intros Hm. eapply wp_mono; [exact Hm| |done]. intros f [Hn Ho]. by split. Qed.

Lemma loose_benign {A} e (m : result A) P : slow e = true → wp loose m P → wp (benign e) m P.
Proof. intros He Hm. eapply wp_mono; [exact Hm| |done]. intros f Hn. by split. Qed.

Lemma inv_vars e s (m : result globals) : inv s → wp (benign e) m (outcome (stored (at_ s) (vars s)) (vars s)) →
  wp (benign e) (g ← m; Ok (mkServer g (at_ s) (network s))) (fun s' => forward s s' → inv s').
Proof.
  intros Hi Hm. apply wp_bind. eapply wp_weaken; [exact Hm|]. intros g' Ho. apply wp_ok. by apply inv_outcome.
Qed.

Lemma inv_send s rest ret now : inv s → at_ s = Loop rest → pktSeq (vars s) < 2 ^ 31 - 1 →
  wp found (send_packet rest ret now (vars s)) (fun '(g, a, p) =>
    inv (mkServer g a (match p with Some p => network s ++ [p] | None => network s end))).
Proof.
  intros [Hb Hseq Hnet _] Hat Hlt. rewrite Hat in Hb. unfold send_packet. cbv zeta.
  apply keep_bind; [apply keep_range|]. intros x. unfold udp_pdu_init. cbn [pktSeq set_pktSeq].
  change (MTU <=? sizeof_udp_packet) with false. cbn [mbind result_bind].
  assert (number_ok (pktSeq (vars s) + 1)) as Hn by (unfold number_ok; lia).
  destruct (number_u64 _ Hn) as (Hu & _). rewrite Hu.
  assert (∀ g', core g' = core (vars s) → inv (mkServer g' Idle (network s))) as Hidle.
  { intros g' Hc. pose proof Hc as [= Hs Hp Hq _ _]. constructor; cbn [vars at_ network]; rewrite ?Hs, ?Hp; try done.
    unfold books. rewrite Hq. apply (books_core _ _ _ _ Hc). cbn [stored]. by rewrite Hp. }
  assert (∀ g', core g' = core (set_pktSeq (pktSeq (vars s) + 1) (vars s)) →
    core (set_pktSeq (pktSeq g' - 1) g') = core (vars s)) as Hback.
  { intros g' [= Hs Hp Hq Hl Hm]. unfold core. cbn. rewrite Hs, Hp, Hq, Hl, Hm. do 4 f_equal. cbn. lia. }
  destruct ret.
  - apply wp_ok. constructor; cbn [vars at_ network stored ss_id ssId set_pktSeq pktSeq seq].
    + rewrite Z.eqb_refl. replace (pktSeq (vars s) + 1 - 1) with (pktSeq (vars s)) by lia.
      destruct Hb as [H1 H2 H3 H4]. by constructor.
    + lia.
    + intros p Hp. apply elem_of_app in Hp as [Hp|Hp%list_elem_of_singleton].
      * destruct (Hnet p Hp) as (? & ? & Hle). split_and!; [done|done|]. intros He. specialize (Hle He). lia.
      * subst p. cbn. split_and!; [lia|done|lia].
    + split; [|done]. apply elem_of_app. right. by apply list_elem_of_singleton.
  - destruct (slowStart _).
    + apply wp_ok. apply Hidle, Hback. done.
    + apply keep_bind; [apply keep_inverse|]. intros d. apply wp_ok. apply Hidle, Hback. done.
  - split; discriminate.
Qed.

Lemma inv_store s rest p : inv s → at_ s = Sent rest p →
  let '(g, a) := store_packet rest p (vars s) in inv (mkServer g a (network s)).
Proof.
  intros [Hb Hseq Hnet Hat] Ha. rewrite Ha in Hb, Hat. destruct Hat as [Hin Hcur].
  destruct (Hnet p Hin) as (Hss & Hn & _). unfold store_packet. cbv zeta.
  constructor; cbn [vars at_ network pktSeq ssId set_wCrt set_sendingList]; try done; [|unfold next_packet; by destruct (0 <? _)].
  assert (stored (next_packet (rest - 1)) (set_wCrt (wCrt (set_sendingList (<[seq p:=w p]> (sendingList (vars s))) (vars s)) + 1)
    (set_sendingList (<[seq p:=w p]> (sendingList (vars s))) (vars s))) = pktSeq (vars s)) as ->
    by (unfold next_packet; by destruct (0 <? _)).
  destruct Hb as [H1 H2 H3 H4]. constructor; cbn; [done|..].
  - intros k [x Hx]. destruct (decide (k = seq p)) as [->|Hne]; [done|].
    rewrite lookup_insert_ne in Hx by done. apply H2. by exists x.
  - intros k Hk. destruct (decide (k = seq p)) as [->|Hne]; [rewrite lookup_insert_eq; by eexists|].
    rewrite lookup_insert_ne by done. apply H3. unfold stored. destruct (Z.eqb_spec (ss_id p) (ssId (vars s))) as [He|]; [|done].
    specialize (Hcur He). lia.
  - intros k q Hq. destruct (H4 k q Hq) as (? & ? & Hk). split_and!; [done|done|].
    destruct (decide (k = seq p)) as [->|Hne]; [rewrite lookup_insert_eq; by eexists|]. by rewrite lookup_insert_ne.
Qed.

(** A move of the sending thread without a packet in hand *)
Lemma inv_move s g a : inv s → core g = core (vars s) → stored (at_ s) (vars s) = pktSeq (vars s) →
  (match a with Sent _ _ => False | _ => True end) → inv (mkServer g a (network s)).
Proof.
  intros [Hb Hseq Hnet _] Hc Hst Ha. pose proof Hc as [= Hs Hp Hq _ _]. rewrite Hst in Hb.
  constructor; cbn [vars at_ network]; rewrite ?Hs, ?Hp; try done; [|by destruct a].
  unfold books. rewrite Hq. apply (books_core _ _ _ _ Hc). destruct a; try done; cbn [stored]; by rewrite Hp.
Qed.

Lemma step_ok fuel e s : inv s → allowed e s → wp (benign e) (step fuel e s) (fun s' => forward s s' → inv s').
Proof.
  intros Hi Ha. pose proof (inv_books _ Hi) as Hb. unfold step. cbv zeta.
  destruct e as [| |ret now| |p now| |now|now|]; try (apply inv_vars; [done|]).
  - destruct (at_ s) eqn:Hat; try by intros _. apply wp_ok. intros _. destruct (0 <? tempS (vars s)); [|done].
    apply inv_move; rewrite ?Hat; done.
  - destruct (at_ s) eqn:Hat; try by intros _. apply wp_ok. intros _. apply inv_move; rewrite ?Hat; try done.
    unfold next_packet. by destruct (0 <? _).
  - destruct (at_ s) as [| |rest|] eqn:Hat; try by intros _. apply wp_bind, found_benign.
    eapply wp_weaken; [by apply inv_send|]. intros [[g a] p] Hp. apply wp_ok. by intros _.
  - destruct (at_ s) as [| | |rest p] eqn:Hat; try by intros _. pose proof (inv_store s rest p Hi Hat) as Hs.
    destruct (store_packet rest p (vars s)) as [g a]. apply wp_ok. by intros _.
  - destruct (inv_net _ Hi p Ha) as (Hss & Hn & Hle). apply found_benign.
    eapply wp_weaken; [apply receive_pdu_ok; [exact Hb|done|done|]|].
    + intros He. specialize (Hle He). unfold stored. destruct (at_ s); try lia. destruct (_ =? _); lia.
    + cbv beta. intros g' (? & ? & ?). right. done.
  - apply found_benign. by apply timeout_ok.
  - apply found_benign. eapply wp_weaken; [by apply expire_missing_ok|]. cbv beta. intros g' (? & ? & ?). by right.
  - apply loose_benign; [done|]. by apply epoch_ok.
  - apply loose_benign; [done|]. by apply profile_ok.
Qed.

Lemma reach_inv fuel s : reach fuel true s → inv s.
Proof.
  induction 1 as [|s e s' Hr IH Ha Hs Hf]; [apply inv_initial|].
  pose proof (step_ok fuel e s IH Ha) as Hok. rewrite Hs in Hok. by apply Hok, Hf.
Qed.

(** Of the steps with a loop on doubles only that of the epoch can go on. *)
Lemma profile_ends fuel e s : divisor (vars s) → step fuel e s = Fault OutOfFuel → slow e = true → ∃ now, e = Epoch now.
Proof.
  intros Hd Hs He. destruct e; try done; [by eexists|]. exfalso. unfold step in Hs.
  pose proof (divides_profile _ Hd) as Hp. by destruct (profile_round (vars s)) as [g|f]; [|injection Hs as ->].
Qed.


(** ** The timeout takes the last number back *)

Definition t0 : timeval := mkTime 0 0.
Definition t1 : timeval := mkTime 0 20000.
Definition t2 : timeval := mkTime 0 700000.
Definition t3 : timeval := mkTime 2 0.
Definition p1 : udp_packet_t := mkPdu 0 1 1 0 0.
Definition p2 : udp_packet_t := mkPdu 0 2 2 0 20000.
Definition p3 : udp_packet_t := mkPdu 0 3 2 0 20000.
Definition p4 : udp_packet_t := mkPdu 0 4 1 2 0.

(** The acknowledgement of the first packet overtakes its entry on the list,
    which stays there; the other packets are acknowledged after 680
    milliseconds, which ends slow start.  The timeout then makes one the last
    number, and the acknowledgement of the fourth packet looks for the second. *)
Definition regress : list event :=
  [Take; ResetTempS; Send SendOk t0; Receive p1 t1; Store; Take; ResetTempS; Send SendOk t1; Store; Send SendOk t1; Store;
   Receive p2 t2; Receive p3 t2; Timeout; Epoch t3; Take; ResetTempS; Send SendOk t3; Store].

#[export] Instance udp_packet_eq_dec : EqDecision udp_packet_t.
Proof. solve_decision. Defined.

Definition allowed_dec e s : bool :=
  match e with
  | Receive p _ => bool_decide (p ∈ network s)
  | Send _ _ => pktSeq (vars s) <? 2 ^ 31 - 1
  | _ => true
  end.

Lemma allowed_dec_spec e s : allowed_dec e s = true → allowed e s.
Proof. destruct e; cbn; try done; [apply Z.ltb_lt|apply bool_decide_eq_true_1]. Qed.

Definition forward_dec (s s' : server) : bool :=
  negb (ssId (vars s') =? ssId (vars s)) || (seqLast (vars s) <=? seqLast (vars s')).

Lemma forward_dec_spec s s' : forward_dec s s' = true → forward s s'.
Proof. intros Hf Hs. unfold forward_dec in Hf. rewrite Hs, Z.eqb_refl in Hf. by apply Z.leb_le. Qed.

(** The events are allowed, and go forward where that is asked for. *)
Fixpoint honest (fuel : nat) (steady : bool) (es : list event) (s : server) : bool :=
  match es with
  | [] => true
  | e :: es =>
      allowed_dec e s
      && match step fuel e s with
         | Ok s' => (negb steady || forward_dec s s') && honest fuel steady es s'
         | Fault _ => false
         end
  end.

Lemma reach_run fuel steady es s : reach fuel steady s → honest fuel steady es s = true →
  ∃ s', run fuel es s = Ok s' ∧ reach fuel steady s'.
Proof.
  revert s. induction es as [|e es IH]; intros s Hr Hh; [by exists s|]. cbn in Hh.
  apply andb_true_iff in Hh as [Ha Hh]. apply allowed_dec_spec in Ha. cbn [run].
  destruct (step fuel e s) as [s1|] eqn:Hs; [|done]. apply andb_true_iff in Hh as [Hf Hh].
  cbn [mbind result_bind]. apply IH; [|done]. eapply reach_step; [done|done|done|]. intros ->. by apply forward_dec_spec.
Qed.

(** The timeout can take the last acknowledged number back without a
    restart, after which the acknowledgement of the next packet dereferences
    [end()]: an entry that is put on the list after its acknowledgement stays
    there, and the timeout takes it for the last packet sent. *)
Theorem verus_timeout_regress : ∃ s, reach 1 false s ∧ ssId (vars s) = 0 ∧ p3 ∈ network s ∧ p4 ∈ network s
  ∧ seqLast (vars s) = 1 ∧ step 1 (Receive p4 t3) s = Fault NullDeref.
Proof.
  destruct (reach_run 1 false regress initial_server (reach_initial _ _) ltac:(vm_compute; reflexivity)) as (s & Hs & Hr).
  exists s. split; [done|].
  assert (∀ A (f : server → A), f s = match run 1 regress initial_server with Ok s => f s | Fault _ => f s end) as Hf
    by (intros; by rewrite Hs).
  split_and!.
  - rewrite (Hf _ (fun s => ssId (vars s))). by vm_compute.
  - apply (bool_decide_eq_true_1 (p3 ∈ network s)). rewrite (Hf _ (fun s => bool_decide (p3 ∈ network s))). by vm_compute.
  - apply (bool_decide_eq_true_1 (p4 ∈ network s)). rewrite (Hf _ (fun s => bool_decide (p4 ∈ network s))). by vm_compute.
  - rewrite (Hf _ (fun s => seqLast (vars s))). by vm_compute.
  - rewrite (Hf _ (fun s => step 1 (Receive p4 t3) s)). by vm_compute.
Qed.
End verus.

(** A curve that cannot be fitted *)
Definition toy : Alglib := {|
  spline1dinterpolant := unit;
  no_spline := tt;
  spline1dcalc _ _ := None;
  spline1dfitpenalized _ _ _ _ := None |}.

(** A run in which the second packet is lost *)
Definition lossy : list event :=
  [Take; ResetTempS; Send SendOk t0; Store; Receive p1 t1; Take; ResetTempS; Send SendOk t1; Store; Send SendOk t1; Store].

End VerusTheorems.
