(* ===== verification/VerusClient.v ===== *)
(** * The Verus receiver

    [src/verus/src/verus_client.cpp]: it says hello until the first packet
    arrives, and answers every packet with its header, after a fixed delay.
    Two threads share the queue of answers. *)

From S2P Require Import Prelude Double VerusServer.
Import Double.

Module VerusClient.
Import Verus.

(** [sendPkt]: a packet and the time it came *)
Record sendPkt : Set := mkSendPkt { pdu : udp_packet_t; arrival : timeval }.

(** An answer: the packet, the time of [sendto] and whether the kernel took it *)
Record answer : Set := mkAnswer { pkt : sendPkt; sent_at : timeval; taken : bool }.

(** [hellos] and [answers] are what was sent, [clientLog] the packets of the
    log file. *)
Record client : Set := mkClient {
  delay : Z;
  receivedPkt : bool;
  terminate : bool;
  sendingList : list sendPkt;
  hellos : nat;
  answers : list answer;
  clientLog : list (timeval * Z) }.

#[export] Instance client_eta : Eta client := fun c =>
  mkClient (delay c) (receivedPkt c) (terminate c) (sendingList c) (hellos c) (answers c) (clientLog c).

Definition set_receivedPkt (v : bool) (c : client) : client := ltac:(with_field c receivedPkt v).
Definition set_terminate (v : bool) (c : client) : client := ltac:(with_field c terminate v).
Definition set_sendingList (v : list sendPkt) (c : client) : client := ltac:(with_field c sendingList v).
Definition set_hellos (v : nat) (c : client) : client := ltac:(with_field c hellos v).
Definition set_answers (v : list answer) (c : client) : client := ltac:(with_field c answers v).
Definition set_clientLog (v : list (timeval * Z)) (c : client) : client := ltac:(with_field c clientLog v).

(** [main] up to its loop sends the first hello. *)
Definition start (delay : Z) (ret : send_result) : result client :=
  match ret with
  | SendOk => Ok (mkClient delay false false [] 1 [] [])
  | _ => Fault (Thrown "exit")
  end.

(** The handler runs until [io.stop()] at the first packet. *)
Definition TimeoutHandler (e : bool) (ret : send_result) (c : client) : result client :=
  if e || receivedPkt c then Ok c
  else match ret with SendOk => Ok (set_hellos (S (hellos c)) c) | _ => Fault (Thrown "exit") end.

(** A round of [sending_thread] *)
Definition send_round (now : timeval) (ret : send_result) (c : client) : result client :=
  if terminate c then Ok c
  else
    match sendingList c with
    | [] => Ok c
    | p :: rest =>
        if ltb (of_Z (delay c)) (elapsed now (tv_sec (arrival p)) (tv_usec (arrival p))) then
          match ret with
          | SendOk => Ok (set_sendingList rest (set_answers (answers c ++ [mkAnswer p now true]) c))
          | SendFull => Ok (set_sendingList rest (set_answers (answers c ++ [mkAnswer p now false]) c))
          | SendError => Fault (Thrown "exit")
          end
        else Ok c
    end.

(** A round of the loop of [main].  The log is closed when the last packet
    comes, so that packet is not written. *)
Definition receive_round (p : udp_packet_t) (now : timeval) (c : client) : client :=
  if terminate c then c
  else
    let c := if ss_id p <? 0 then set_terminate true c else c in
    let reopened := negb (receivedPkt c) in
    let c := set_receivedPkt true c in
    let c := if negb (terminate c) || reopened then set_clientLog (clientLog c ++ [(now, seq p)]) c else c in
    set_sendingList (sendingList c ++ [mkSendPkt p now]) c.

Inductive client_event : Set :=
  | Arrive (p : udp_packet_t) (now : timeval)
  | Round (now : timeval) (ret : send_result)
  | Hello (e : bool) (ret : send_result).

Definition client_step (e : client_event) (c : client) : result client :=
  match e with
  | Arrive p now => Ok (receive_round p now c)
  | Round now ret => send_round now ret c
  | Hello e ret => TimeoutHandler e ret c
  end.

Fixpoint client_run (es : list client_event) (c : client) : result client :=
  match es with
  | [] => Ok c
  | e :: es => c ← client_step e c; client_run es c
  end.

End VerusClient.

(** ** Properties *)

Module VerusClientTheorems.
Import Verus VerusClient.

(** The packets the program reads: up to the one that ends the session *)
Fixpoint arrivals (es : list client_event) : list sendPkt :=
  match es with
  | [] => []
  | Arrive p now :: es => mkSendPkt p now :: (if ss_id p <? 0 then [] else arrivals es)
  | _ :: es => arrivals es
  end.

Definition waited (d : Z) (a : answer) : Prop :=
  ltb (of_Z d) (elapsed (sent_at a) (tv_sec (arrival (pkt a))) (tv_usec (arrival (pkt a)))) = true.

Lemma client_run_ok es c c' : Forall (waited (delay c)) (answers c) → client_run es c = Ok c' →
  delay c' = delay c ∧ Forall (waited (delay c)) (answers c')
  ∧ (pkt <$> answers c') ++ sendingList c'
    = ((pkt <$> answers c) ++ sendingList c) ++ (if terminate c then [] else arrivals es).
Proof.
  revert c. induction es as [|e es IH]; intros c Hw Hrun; cbn [client_run] in Hrun.
  { injection Hrun as <-. split_and!; [done|done|]. by destruct (terminate c); rewrite app_nil_r. }
  destruct e as [p now|now ret|e ret]; cbn [client_step arrivals] in *.
  - cbn [mbind result_bind] in Hrun. unfold receive_round in Hrun. destruct (terminate c) eqn:Ht.
    { destruct (IH c Hw Hrun) as (? & ? & Heq). by rewrite Ht in Heq. }
    destruct (ss_id p <? 0); cbn in Hrun; rewrite ?Ht in Hrun; cbn in Hrun.
    + destruct (receivedPkt c); cbn in Hrun; apply IH in Hrun; cbn in Hrun; try done;
        destruct Hrun as (? & ? & Heq); split_and!; try done; rewrite Heq; by rewrite app_nil_r, app_assoc.
    + apply IH in Hrun; cbn in Hrun; [|done]. destruct Hrun as (? & ? & Heq). split_and!; try done.
      rewrite Heq, Ht. by rewrite <- !app_assoc.
  - unfold send_round in Hrun. destruct (terminate c) eqn:Ht.
    { cbn in Hrun. destruct (IH c Hw Hrun) as (? & ? & Heq). by rewrite Ht in Heq. }
    destruct (sendingList c) as [|p rest] eqn:Hl.
    { cbn in Hrun. destruct (IH c Hw Hrun) as (? & ? & Heq). by rewrite Ht, Hl in Heq. }
    destruct (ltb _ _) eqn:Hlt; cbn in Hrun.
    2: { destruct (IH c Hw Hrun) as (? & ? & Heq). by rewrite Ht, Hl in Heq. }
    destruct ret; cbn in Hrun; [| |done];
      (apply IH in Hrun; [|cbn; apply Forall_app; split; [done|by constructor]]); cbn in Hrun;
      destruct Hrun as (? & ? & Heq); split_and!; try done; rewrite Heq, Ht, fmap_app; by rewrite <- !app_assoc.
  - unfold TimeoutHandler in Hrun. destruct (e || receivedPkt c); [by apply IH|]. destruct ret; cbn in Hrun; [|done|done].
    apply IH in Hrun; done.
Qed.

(** C36. Whatever the threads of the receiver do and the kernel refuses, the
    answers are the packets that arrived, in their order and each once, up to
    those that still wait; and no answer leaves before the delay has passed. *)
Theorem verus_client_answers d ret es c c' : start d ret = Ok c → client_run es c = Ok c' →
  (pkt <$> answers c') ++ sendingList c' = arrivals es ∧ Forall (waited d) (answers c').
Proof.
  intros Hs Hrun. destruct ret; try done. injection Hs as <-.
  apply client_run_ok in Hrun; [|constructor].
  destruct Hrun as (_ & Hw & Heq). by split.
Qed.

Definition late : timeval := mkTime 1 0.
Definition hello_again : list client_event :=
  [Hello false SendOk; Arrive (mkPdu 0 1 1 0 0) (mkTime 0 0); Arrive (mkPdu 0 2 1 0 0) (mkTime 0 10);
   Round (mkTime 0 20000) SendOk; Round late SendFull; Arrive (mkPdu (-1) 3 1 0 0) late].

Lemma verus_client_answers_witness : ∃ c c', start 50 SendOk = Ok c ∧ client_run hello_again c = Ok c'
  ∧ (pkt <$> answers c') ++ sendingList c' = arrivals hello_again ∧ length (answers c') = 1%nat.
Proof.
  eexists. eexists. split; [reflexivity|]. split; [vm_compute; reflexivity|].
  split; [|reflexivity].
  exact (proj1 (verus_client_answers 50 SendOk hello_again _ _ eq_refl ltac:(vm_compute; reflexivity))).
Defined.
End VerusClientTheorems.
