(* ===== verification/SproutProcess.v ===== *)
(** * The probability model of Sprout

    [src/alfalfa/src/sprout/sampledfunction.hh], [process.cc] and
    [processforecaster.cc]: a distribution over the rates of a link, sampled
    in bins, which drifts by Brownian motion, is weighed with what arrives,
    and from which the arrivals of the next ticks are forecast.  The
    distributions of Boost are an interface. *)

From S2P Require Import Prelude Double.
Import Double.

(** [boost::math::pdf( poisson( rate ), counts )] and
    [boost::math::cdf( normal( 0, stddev ), x )]; nothing when they throw *)
Class Boost := {
  boost_poisson_pdf : double → Z → option double;
  boost_normal_cdf : double → double → option double }.

Definition boost (x : option double) : result double :=
  match x with Some y => Ok y | None => Fault (Thrown "std::domain_error") end.

Definition not_nan (x : double) (what : string) : result unit := assert_that (negb (is_nan x)) what.

(** ** [poissonpdf] *)

Definition poissonpdf `{Boost} (rate : double) (counts : Z) : result double :=
  if eqb rate (of_Z 0) then Ok (of_Z (if counts =? 0 then 1 else 0)) else boost (boost_poisson_pdf rate counts).

(** ** Class [SampledFunction] *)

Module SampledFunction.

Definition BIG : double := of_Z 1000000.

Record t : Set := mk {
  offset : double;
  bin_width : double;
  function : list double }.

Definition make (num_samples : Z) (maximum_value minimum_value : double) : result t :=
  let w := div (sub maximum_value minimum_value) (of_Z num_samples) in
  n ← to_i32 (div (sub maximum_value minimum_value) w);
  if n + 1 <? 0 then Fault (Thrown "std::length_error")
  else Ok (mk minimum_value w (replicate (Z.to_nat (n + 1)) (of_Z 1))).

Definition size (f : t) : Z := zlen (function f).

Definition to_bin (x : double) (f : t) : result Z :=
  ret ← to_i32 (div (sub x (offset f)) (bin_width f));
  Ok (if ret <? 0 then 0 else if to_int (size f) <=? ret then u32 (size f - 1) else ret).

Definition from_bin_floor (bin : Z) (f : t) : double :=
  if bin <=? 0 then SFopp BIG else add (mul (of_Z bin) (bin_width f)) (offset f).
Definition from_bin_ceil (bin : Z) (f : t) : double :=
  if u64 (size f - 1) <=? bin then BIG else add (mul (of_Z (bin + 1)) (bin_width f)) (offset f).
Definition from_bin_mid (bin : Z) (f : t) : double :=
  if bin =? 0 then offset f else add (mul (add (of_Z bin) (of_ratio 1 2)) (bin_width f)) (offset f).

Definition index (x : double) (f : t) : result Z := to_bin x f.
Definition get (x : double) (f : t) : result double := i ← to_bin x f; vec_get (function f) i.
Definition sample_floor (x : double) (f : t) : result double := b ← to_bin x f; Ok (from_bin_floor b f).
Definition sample_ceil (x : double) (f : t) : result double := b ← to_bin x f; Ok (from_bin_ceil b f).

(** The values from bin [i] on, given their midpoints, and the variables of
    the caller *)
Fixpoint each {St} (f : t) (i : Z) (l : list double)
    (body : double → double → Z → St → result (double * St)) (s : St) : result (list double * St) :=
  match l with
  | [] => Ok ([], s)
  | v :: l =>
      '(v, s) ← body (from_bin_mid i f) v i s;
      '(l, s) ← each f (i + 1) l body s;
      Ok (v :: l, s)
  end.

Definition for_each {St} (body : double → double → Z → St → result (double * St)) (s : St) (f : t)
    : result (t * St) :=
  '(l, s) ← each f 0 (function f) body s;
  Ok (mk (offset f) (bin_width f) l, s).

(** [for_range]: the bins from the floor of [min] to the ceiling of [max] *)
Definition for_range (min max : double) (body : double → double → Z → result double) (f : t) : result t :=
  hi ← sample_ceil max f;
  limit_high ← to_bin hi f;
  lo ← sample_floor min f;
  i ← to_bin lo f;
  l ← Prelude.for_range i (limit_high + 1)
        (fun i l => v ← vec_get l i; v ← body (from_bin_mid i f) v i; vec_set l i v) (function f);
  Ok (mk (offset f) (bin_width f) l).

(** [operator=] *)
Definition assign (f other : t) : result t :=
  assert_that (eqb (offset f) (offset other)) "_offset == other._offset";;
  assert_that (eqb (bin_width f) (bin_width other)) "_bin_width == other._bin_width";;
  Ok (mk (offset f) (bin_width f) (function other)).

Fixpoint quantile (f : t) (x : double) (i : Z) (l : list double) (sum : double) : double :=
  match l with
  | [] => from_bin_floor (u32 (size f - 1)) f
  | v :: l =>
      let sum := add sum v in
      if leb x sum then if i =? 0 then of_Z 0 else from_bin_floor i f
      else quantile f x (i + 1) l sum
  end.

Definition lower_quantile (x : double) (f : t) : double := quantile f x 0 (function f) (of_Z 0).

Fixpoint sum_products (l : list double) (count_probability : list (list double)) (i count : Z) (ret : double)
    : result double :=
  match l with
  | [] => Ok ret
  | v :: l =>
      row ← vec_get count_probability i;
      c ← vec_get row count;
      sum_products l count_probability (i + 1) count (add ret (mul v c))
  end.

Definition summation (count_probability : list (list double)) (count : Z) (f : t) : result double :=
  sum_products (function f) count_probability 0 count (of_Z 0).

End SampledFunction.

(** ** Class [Process] *)

Module Process.

(** [GaussianCache] *)
Record cache : Set := mkCache { cdf_table : SampledFunction.t; stddev : double }.

Record t : Set := mk {
  pmf : SampledFunction.t;
  gaussian : cache;
  brownian_motion_rate : double;
  outage_escape_rate : double;
  normalized : bool }.

#[export] Instance t_eta : Eta t := fun p =>
  mk (pmf p) (gaussian p) (brownian_motion_rate p) (outage_escape_rate p) (normalized p).

Definition set_pmf (v : SampledFunction.t) (p : t) : t := ltac:(with_field p pmf v).
Definition set_gaussian (v : cache) (p : t) : t := ltac:(with_field p gaussian v).
Definition set_brownian (v : double) (p : t) : t := ltac:(with_field p brownian_motion_rate v).
Definition set_normalized (v : bool) (p : t) : t := ltac:(with_field p normalized v).

(** [cdf] *)
Definition cdf (x : double) (g : cache) : result double := SampledFunction.get x (cdf_table g).

(** The sum of the values, which the first loop of [normalize] leaves alone *)
Definition total (f : SampledFunction.t) : double := fold_left add (SampledFunction.function f) (of_Z 0).

Definition normalize (p : t) : t :=
  if normalized p then p
  else
    let f := pmf p in
    let sum := total f in
    set_normalized true
      (set_pmf (SampledFunction.mk (SampledFunction.offset f) (SampledFunction.bin_width f)
                 ((fun v => div v sum) <$> SampledFunction.function f)) p).

Definition make (maximum_rate brownian outage : double) (bins : Z) : result t :=
  f ← SampledFunction.make bins maximum_rate (of_Z 0);
  c ← SampledFunction.make (to_int (bins * 128)) maximum_rate (SFopp maximum_rate);
  Ok (normalize (mk f (mkCache c (of_Z (-1))) brownian outage false)).

Section process.
Context `{Boost}.

(** [GaussianCache::calculate] *)
Definition calculate (s : double) (g : cache) : result cache :=
  if eqb s (stddev g) then Ok g
  else
    '(f, _) ← SampledFunction.for_each
                (fun x _ _ (_ : unit) => y ← boost (boost_normal_cdf s x); Ok (y, tt)) tt (cdf_table g);
    Ok (mkCache f s).

Definition observe (time : double) (counts : Z) (p : t) : result t :=
  '(f, _) ← SampledFunction.for_each
              (fun midpoint value _ (_ : unit) => l ← poissonpdf (mul midpoint time) counts; Ok (mul value l, tt))
              tt (pmf p);
  Ok (set_pmf f (set_normalized false p)).

(** What the mass [old_prob] of one bin contributes to another *)
Definition contribution (g : cache) (zero_escape_probability : double) (f : SampledFunction.t)
    (old_rate old_prob : double) (old_index : Z) (new_rate new_prob : double) (new_index : Z) : result double :=
  let zfactor :=
    if old_index =? 0
    then if negb (new_index =? 0) then zero_escape_probability else sub (of_Z 1) zero_escape_probability
    else of_Z 1 in
  ceiling ← SampledFunction.sample_ceil new_rate f;
  above ← cdf (sub ceiling old_rate) g;
  floor ← SampledFunction.sample_floor new_rate f;
  below ← cdf (sub floor old_rate) g;
  let contribution := mul (mul zfactor old_prob) (sub above below) in
  not_nan zfactor "!isnan( zfactor )";;
  not_nan old_prob "!isnan( old_prob )";;
  not_nan new_rate "!isnan( new_rate )";;
  not_nan old_rate "!isnan( old_rate )";;
  not_nan above "!isnan( _gaussian.cdf( new_pmf.sample_ceil( new_rate ) - old_rate ) )";;
  not_nan below "!isnan( _gaussian.cdf( new_pmf.sample_floor( new_rate ) - old_rate ) )";;
  assert_that (leb (of_Z 0) contribution) "contribution >= 0.0";;
  assert_that (leb contribution (of_Z 1)) "contribution <= 1.0";;
  Ok (add new_prob contribution).

Definition evolve (time : double) (p : t) : result t :=
  let p := set_normalized false p in
  let s := mul (brownian_motion_rate p) (sqrt time) in
  g ← calculate s (gaussian p);
  let p := set_gaussian g p in
  let f := pmf p in
  let new_pmf :=
    SampledFunction.mk (SampledFunction.offset f) (SampledFunction.bin_width f)
      ((fun _ => of_Z 0) <$> SampledFunction.function f) in
  escape ← poissonpdf (mul time (outage_escape_rate p)) 0;
  let zero_escape_probability := sub (of_Z 1) escape in
  assert_that (leb (of_Z 0) zero_escape_probability) "zero_escape_probability >= 0";;
  assert_that (leb zero_escape_probability (of_Z 1)) "zero_escape_probability <= 1.0";;
  '(_, new_pmf) ←
    SampledFunction.for_each
      (fun old_rate old_prob old_index new_pmf =>
         new_pmf ← SampledFunction.for_range (sub old_rate (mul (of_Z 5) s)) (add old_rate (mul (of_Z 5) s))
           (fun new_rate new_prob new_index =>
              contribution g zero_escape_probability new_pmf old_rate old_prob old_index new_rate new_prob new_index)
           new_pmf;
         Ok (old_prob, new_pmf))
      new_pmf f;
  f ← SampledFunction.assign f new_pmf;
  Ok (set_pmf f p).

Definition count_probability (time : double) (counts : Z) (p : t) : result double :=
  '(_, ret) ← SampledFunction.for_each
                (fun rate v _ ret => l ← poissonpdf (mul rate time) counts; Ok (v, add ret (mul v l)))
                (of_Z 0) (pmf p);
  Ok ret.
End process.

Definition set_certain (rate : double) (p : t) : result t :=
  let p := set_normalized false p in
  index_to_hit ← SampledFunction.index rate (pmf p);
  '(f, _) ← SampledFunction.for_each
              (fun _ _ index (_ : unit) => Ok (if index =? index_to_hit then of_Z 1 else of_Z 0, tt)) tt (pmf p);
  let p := normalize (set_pmf f p) in
  v ← SampledFunction.get rate (pmf p);
  assert_that (eqb v (of_Z 1)) "_probability_mass_function[ rate ] == 1.0";;
  Ok p.

(** [operator=]: the rate of escapes from an outage is not copied. *)
Definition assign (p other : t) : result t :=
  f ← SampledFunction.assign (pmf p) (pmf other);
  c ← SampledFunction.assign (cdf_table (gaussian p)) (cdf_table (gaussian other));
  let p := set_gaussian (mkCache c (stddev (gaussian other))) (set_pmf f p) in
  Ok (set_brownian (brownian_motion_rate other) (set_normalized (normalized other) p)).

Definition lower_quantile (x : double) (p : t) : double := SampledFunction.lower_quantile x (pmf p).

End Process.

(** ** Classes [ProcessForecastTick] and [ProcessForecastInterval] *)

Module Forecast.

(** A matrix of a probability for every bin and count *)
Definition matrix : Set := list (list double).

Definition make_components (example : Process.t) : result (list Process.t) :=
  '(_, components) ←
    SampledFunction.for_each
      (fun midpoint v index components =>
         component ← Process.set_certain midpoint example;
         assert_that (zlen components =? index) "components.size() == index";;
         i ← SampledFunction.index midpoint (Process.pmf example);
         assert_that (i =? index) "example.pmf().index( midpoint ) == index";;
         Ok (v, components ++ [component]))
      [] (Process.pmf example);
  Ok components.

(** The two routines that are the same: the sum over the bins *)
Definition checked_summation (m : matrix) (ensemble : Process.t) (count : Z) : result double :=
  assert_that (Process.normalized ensemble) "ensemble.is_normalized()";;
  assert_that (SampledFunction.size (Process.pmf ensemble) =? zlen m) "ensemble.pmf().size() == _count_probability.size()";;
  assert_that (0 <? zlen m) "_count_probability.size() > 0";;
  row ← vec_get m 0;
  assert_that (count <? zlen row) "count < _count_probability[ 0 ].size()";;
  SampledFunction.summation m count (Process.pmf ensemble).

Definition tick_probability (m : matrix) (ensemble : Process.t) (count : Z) : result double :=
  ret ← checked_summation m ensemble count;
  assert_that (leb ret (add (of_Z 1) (of_ratio 1 10000000000))) "ret <= 1.0 + 1e-10";;
  Ok (if ltb (of_Z 1) ret then of_Z 1 else ret).

Definition probability (m : matrix) (ensemble : Process.t) (count : Z) : result double :=
  ret ← checked_summation m ensemble count;
  Ok (if ltb (of_Z 1) ret then of_Z 1 else ret).

(** [convolve]; two empty vectors would make a size of minus one. *)
Definition convolve (old this_tick : list double) : result (list double) :=
  let n := u64 (zlen old + zlen this_tick - 1) in
  if 2 ^ 60 <=? n then Fault (Thrown "std::length_error")
  else
    for_range 0 (zlen old)
      (fun i ret =>
         for_range 0 (zlen this_tick)
           (fun j ret =>
              r ← vec_get ret (i + j);
              o ← vec_get old i;
              c ← vec_get this_tick j;
              vec_set ret (i + j) (add r (mul o c))) ret)
      (replicate (Z.to_nat n) (of_Z 0)).

Section forecast.
Context `{Boost}.

(** The arrivals of one tick, and what is left above the limit *)
Fixpoint count_row (n : nat) (i : Z) (tick_time : double) (p : Process.t) (total : double)
    : result (list double * double) :=
  match n with
  | O => Ok ([], total)
  | S n' =>
      prob ← Process.count_probability tick_time i p;
      assert_that (leb (of_Z 0) prob) "prob >= 0";;
      assert_that (leb prob (of_Z 1)) "prob <= 1.0";;
      '(row, total) ← count_row n' (i + 1) tick_time p (add total prob);
      Ok (prob :: row, total)
  end.

Definition tick_row (tick_time : double) (upper_limit : Z) (p : Process.t) : result (list double) :=
  '(row, total) ← count_row (Z.to_nat upper_limit) 0 tick_time p (of_Z 0);
  assert_that (ltb total (add (of_Z 1) (of_ratio 1 10000000000))) "total < 1.0 + (1e-10)";;
  Ok (row ++ [sub (of_Z 1) total]).

Definition make_tick (tick_time : double) (example : Process.t) (upper_limit : Z) : result matrix :=
  components ← make_components example;
  map_result (tick_row tick_time upper_limit) components.

(** The forecast of one tick; the process is normalized in every round. *)
Fixpoint this_tick (n : nat) (i : Z) (m : matrix) (p : Process.t) : result (list double * Process.t) :=
  match n with
  | O => Ok ([], p)
  | S n' =>
      let p := Process.normalize p in
      c ← tick_probability m p i;
      '(cs, p) ← this_tick n' (i + 1) m p;
      Ok (c :: cs, p)
  end.

Fixpoint integrate (num_ticks : nat) (tick_time : double) (tick_upper_limit : Z) (m : matrix)
    (acc : list double) (p : Process.t) : result (list double) :=
  match num_ticks with
  | O => Ok acc
  | S n =>
      '(t, p) ← this_tick (Z.to_nat tick_upper_limit) 0 m p;
      acc ← convolve acc t;
      p ← Process.evolve tick_time p;
      integrate n tick_time tick_upper_limit m acc p
  end.

Definition make_interval (tick_time : double) (example : Process.t) (tick_upper_limit num_ticks : Z) : result matrix :=
  components ← make_components example;
  m ← make_tick tick_time example tick_upper_limit;
  map_result (integrate (Z.to_nat num_ticks) tick_time tick_upper_limit m [of_Z 1]) components.
End forecast.

(** [ProcessForecastInterval::lower_quantile] *)
Fixpoint quantile_loop (n : nat) (i : Z) (m : matrix) (ensemble : Process.t) (x sum : double) (size : Z) : result Z :=
  match n with
  | O => Ok (u32 (size + 1))
  | S n' =>
      c ← probability m ensemble i;
      let sum := add sum c in
      if leb x sum then Ok i else quantile_loop n' (i + 1) m ensemble x sum size
  end.

Definition lower_quantile (m : matrix) (ensemble : Process.t) (x : double) : result Z :=
  row ← vec_get m 0;
  quantile_loop (length row) 0 m ensemble x (of_Z 0) (zlen row).

End Forecast.
