(* ===== verification/SproutProcessProps.v ===== *)
(** * Properties of the probability model

    The shapes of the distributions and of the forecast matrices are kept by
    every operation, so no access leaves a vector; the convolution of two
    distributions is the sum it stands for; the quantile is the least one;
    and what an observation that is impossible at every rate leads to. *)

From S2P Require Import Prelude Double SproutProcess.
Import Double.

Module ProcessTheorems.

(** Assertions, conversions and exceptions: everything but an access out of
    range and a loop without end *)
Definition ordinary (f : fault) : Prop := f ≠ OutOfRange ∧ f ≠ OutOfFuel.

Ltac fault := split; discriminate.

Lemma ordinary_range lo hi x : wp ordinary (to_range lo hi x) (fun z => lo ≤ z < hi).
Proof.
  unfold to_range. destruct (trunc x) as [z|]; [|fault]. destruct (_ && _) eqn:Hb; [|fault].
  apply andb_true_iff in Hb as [?%Z.leb_le ?%Z.ltb_lt]. done.
Qed.

Lemma ordinary_assert b what : wp ordinary (assert_that b what) (fun _ => b = true).
Proof. unfold assert_that. destruct b; [done|fault]. Qed.

Lemma ordinary_boost x : wp ordinary (boost x) (fun _ => True).
Proof. unfold boost. destruct x; [done|fault]. Qed.

Lemma ordinary_get {A} (l : list A) i (P : A → Prop) : 0 ≤ i < zlen l → Forall P l → wp ordinary (vec_get l i) P.
Proof.
  intros Hi Hl. unfold vec_get. rewrite (proj2 (Z.ltb_ge _ _)) by lia.
  destruct (lookup_lt_is_Some_2 l (Z.to_nat i) ltac:(unfold zlen in Hi; lia)) as [x Hx]. rewrite Hx. cbn.
  by apply (Forall_lookup_1 _ _ _ _ Hl Hx).
Qed.

Lemma ordinary_get_any {A} (l : list A) i : 0 ≤ i < zlen l → wp ordinary (vec_get l i) (fun _ => True).
Proof. intros Hi. apply ordinary_get; [done|]. by apply Forall_true. Qed.

Lemma ordinary_set {A} (l : list A) i x : 0 ≤ i < zlen l → wp ordinary (vec_set l i x) (fun l' => zlen l' = zlen l).
Proof.
  intros Hi. unfold vec_set, in_range. rewrite (proj2 (Z.leb_le _ _)), (proj2 (Z.ltb_lt _ _)) by lia. cbn.
  unfold zlen. by rewrite length_insert.
Qed.

(** One step of a computation whose value is of no interest *)
Ltac step lem := apply wp_bind; eapply wp_weaken; [lem|]; cbv beta.

(** ** Sampled functions *)

Definition sized (n : Z) (f : SampledFunction.t) : Prop := SampledFunction.size f = n ∧ 1 ≤ n < 2 ^ 31.

Lemma to_bin_ok n x f : sized n f → wp ordinary (SampledFunction.to_bin x f) (fun b => 0 ≤ b < n).
Proof.
  intros [Hs Hn]. unfold SampledFunction.to_bin. step ltac:(apply ordinary_range). intros z Hz. apply wp_ok.
  rewrite Hs, to_int_small, uwrap_small by lia. split_ifs; z_props; lia.
Qed.

Lemma sample_ok n x f : sized n f →
  wp ordinary (SampledFunction.sample_floor x f) (fun _ => True) ∧ wp ordinary (SampledFunction.sample_ceil x f) (fun _ => True).
Proof. intros Hf. split; by step ltac:(by apply (to_bin_ok n)). Qed.

Lemma get_ok n x f : sized n f → wp ordinary (SampledFunction.get x f) (fun _ => True).
Proof.
  intros Hf. unfold SampledFunction.get. step ltac:(by apply (to_bin_ok n)). intros b Hb.
  apply ordinary_get_any. destruct Hf as [Hs _]. unfold SampledFunction.size in Hs. lia.
Qed.

Section each.
Context {St : Type} (E : fault → Prop) (f : SampledFunction.t) (P : Z → St → Prop).
Context (body : double → double → Z → St → result (double * St)).

Lemma each_ok i l s :
  P i s → (∀ j v s, i ≤ j < i + zlen l → P j s →
             wp E (body (SampledFunction.from_bin_mid j f) v j s) (fun r => P (j + 1) (snd r))) →
  wp E (SampledFunction.each f i l body s) (fun r => zlen (fst r) = zlen l ∧ P (i + zlen l) (snd r)).
Proof.
  revert i s. induction l as [|v l IH]; intros i s Hs Hbody; cbn [SampledFunction.each].
  { cbn. rewrite zlen_nil, Z.add_0_r. done. }
  rewrite zlen_cons in *. pose proof (zlen_nonneg l).
  step ltac:(apply Hbody; [lia|done]). intros [v' s1] Hs1. cbn [snd] in Hs1.
  step ltac:(apply IH; [done|]; intros j w s2 Hj; apply Hbody; lia). intros [l' s2] [Hl Hs2]. apply wp_ok. cbn [fst snd] in *.
  rewrite zlen_cons. split; [lia|]. by replace (i + (1 + zlen l)) with (i + 1 + zlen l) by lia.
Qed.

Lemma for_each_ok n s : sized n f → P 0 s →
  (∀ j v s, 0 ≤ j < n → P j s → wp E (body (SampledFunction.from_bin_mid j f) v j s) (fun r => P (j + 1) (snd r))) →
  wp E (SampledFunction.for_each body s f) (fun r => sized n (fst r) ∧ P n (snd r)).
Proof.
  intros [Hs Hn] H0 Hbody. unfold SampledFunction.for_each. unfold SampledFunction.size in Hs.
  step ltac:(apply each_ok; [done|]; intros j v s' Hj; apply Hbody; lia).
  intros [l s'] [Hl HP]. apply wp_ok. cbn [fst snd] in *. rewrite Hs in HP. split; [|done].
  split; [unfold SampledFunction.size; cbn; lia|done].
Qed.
End each.

Lemma for_range_ok n lo hi body f : sized n f →
  (∀ x v i, wp ordinary (body x v i) (fun _ => True)) →
  wp ordinary (SampledFunction.for_range lo hi body f) (sized n).
Proof.
  intros Hf Hbody. unfold SampledFunction.for_range.
  step ltac:(apply (sample_ok n); done). intros c _. step ltac:(by apply (to_bin_ok n)). intros hb Hhb.
  step ltac:(apply (sample_ok n); done). intros d _. step ltac:(by apply (to_bin_ok n)). intros lb Hlb.
  pose proof Hf as [Hs Hn].
  assert (wp ordinary (Prelude.for_range lb (hb + 1)
    (fun i l => v ← vec_get l i; v ← body (SampledFunction.from_bin_mid i f) v i; vec_set l i v) (SampledFunction.function f))
    (fun l => zlen l = n)) as Hloop.
  { destruct (decide (lb ≤ hb + 1)) as [Hle|Hgt].
    - apply (for_range_spec ordinary (fun _ l => zlen l = n)); [done|done|]. intros j l Hj Hl.
      step ltac:(apply ordinary_get_any; lia). intros v _. step ltac:(apply Hbody). intros v' _.
      eapply wp_weaken; [apply ordinary_set; lia|]. cbv beta. lia.
    - unfold Prelude.for_range. by replace (Z.to_nat (hb + 1 - lb)) with 0%nat by lia. }
  step ltac:(exact Hloop). intros l Hl. apply wp_ok. split; [unfold SampledFunction.size; cbn; lia|done].
Qed.

(** ** Processes *)

(** A process over [n] bins *)
Definition process_ok (n : Z) (p : Process.t) : Prop :=
  sized n (Process.pmf p)
  ∧ ∃ k, sized k (Process.cdf_table (Process.gaussian p)).

Lemma normalize_ok n p : process_ok n p → process_ok n (Process.normalize p) ∧ Process.normalized (Process.normalize p) = true.
Proof.
  intros [[Hs Hn] Hg]. unfold Process.normalize. destruct (Process.normalized p) eqn:E; [done|]. split; [|done].
  split; [|done]. split; [|done]. unfold SampledFunction.size in *. cbn. unfold zlen in *. by rewrite length_fmap.
Qed.

Section boost.
Context `{Boost}.

Lemma poissonpdf_ok rate counts : wp ordinary (poissonpdf rate counts) (fun _ => True).
Proof. unfold poissonpdf. destruct (eqb _ _); [done|apply ordinary_boost]. Qed.

Lemma observe_ok n time counts p : process_ok n p → wp ordinary (Process.observe time counts p) (process_ok n).
Proof.
  intros [Hf Hg]. unfold Process.observe.
  step ltac:(apply (for_each_ok ordinary _ (fun _ _ => True) _ n); [done|done|]; intros j v u _ _).
  - step ltac:(apply poissonpdf_ok). done.
  - intros [f u] [Hf' _]. by split.
Qed.

Lemma calculate_ok k s g : sized k (Process.cdf_table g) →
  wp ordinary (Process.calculate s g) (fun g' => sized k (Process.cdf_table g')).
Proof.
  intros Hg. unfold Process.calculate. destruct (eqb _ _); [done|].
  step ltac:(apply (for_each_ok ordinary _ (fun _ _ => True) _ k); [done|done|]; intros j v u _ _).
  - step ltac:(apply ordinary_boost). done.
  - by intros [f u] [Hf' _].
Qed.

Lemma contribution_ok n k g z f orate oprob oi nrate nprob ni : sized k (Process.cdf_table g) → sized n f →
  wp ordinary (Process.contribution g z f orate oprob oi nrate nprob ni) (fun _ => True).
Proof.
  intros Hg Hf. unfold Process.contribution, not_nan, Process.cdf. cbv zeta.
  step ltac:(apply (sample_ok n); done). intros c _. step ltac:(by apply (get_ok k)). intros above _.
  step ltac:(apply (sample_ok n); done). intros d _. step ltac:(by apply (get_ok k)). intros below _.
  do 8 (step ltac:(apply ordinary_assert); intros _ _). done.
Qed.

Lemma assign_ok n f g : sized n f → sized n g → wp ordinary (SampledFunction.assign f g) (sized n).
Proof.
  intros _ [Hg Hn]. unfold SampledFunction.assign. do 2 (step ltac:(apply ordinary_assert); intros _ _). by split.
Qed.

Lemma evolve_ok n time p : process_ok n p → wp ordinary (Process.evolve time p) (process_ok n).
Proof.
  intros [Hf [k Hg]]. unfold Process.evolve. cbv zeta.
  step ltac:(by apply (calculate_ok k)). intros g Hg'. step ltac:(apply poissonpdf_ok). intros e _.
  do 2 (step ltac:(apply ordinary_assert); intros _ _).
  step ltac:(apply (for_each_ok ordinary _ (fun _ f => sized n f) _ n); [exact Hf|..|]).
  - destruct Hf as [Hs Hn]. split; [|done]. unfold SampledFunction.size, zlen in *. cbn. by rewrite length_fmap.
  - intros j v f _ Hf'. step ltac:(apply (for_range_ok n); [done|]; intros; by apply (contribution_ok n k)).
    intros f' Hf''. done.
  - intros [f' new] [_ Hnew]. cbn [snd] in Hnew. step ltac:(by apply (assign_ok n)). intros r Hr. apply wp_ok.
    split; [done|]. by exists k.
Qed.

Lemma count_probability_ok n time counts p : process_ok n p →
  wp ordinary (Process.count_probability time counts p) (fun _ => True).
Proof.
  intros [Hf _]. unfold Process.count_probability.
  step ltac:(apply (for_each_ok ordinary _ (fun _ _ => True) _ n); [done|done|]; intros j v u _ _).
  - step ltac:(apply poissonpdf_ok). done.
  - by intros [f' r].
Qed.
End boost.

Lemma set_certain_ok n rate p : process_ok n p → wp ordinary (Process.set_certain rate p) (process_ok n).
Proof.
  intros [Hf Hg]. unfold Process.set_certain. cbv zeta.
  step ltac:(by apply (to_bin_ok n)). intros i _.
  step ltac:(apply (for_each_ok ordinary _ (fun _ _ => True) _ n); done). intros [f' u] [Hf' _]. cbn [fst] in Hf'.
  set (p' := Process.normalize _). assert (process_ok n p') as Hp' by (apply normalize_ok; by split).
  step ltac:(apply (get_ok n), Hp'). intros v _. step ltac:(apply ordinary_assert). by intros _ _.
Qed.

(** ** Forecasts *)

(** A matrix of [n] rows and [cols] columns *)
Definition shaped (n cols : Z) (m : Forecast.matrix) : Prop :=
  zlen m = n ∧ Forall (fun row : list double => zlen row = cols) m.

Lemma make_components_ok n p : process_ok n p →
  wp ordinary (Forecast.make_components p) (fun l => zlen l = n ∧ Forall (process_ok n) l).
Proof.
  intros Hp. pose proof Hp as [Hf _]. unfold Forecast.make_components.
  step ltac:(apply (for_each_ok ordinary _ (fun i l => zlen l = i ∧ Forall (process_ok n) l) _ n); [done|done|]).
  - intros j v l _ [Hl Hall]. step ltac:(by apply (set_certain_ok n)). intros c Hc.
    step ltac:(apply ordinary_assert). intros _ _. step ltac:(by apply (to_bin_ok n)). intros b _.
    step ltac:(apply ordinary_assert). intros _ _. apply wp_ok. cbn [snd]. rewrite zlen_app, Hl.
    split; [done|]. apply Forall_app. split; [done|]. by constructor.
  - by intros [f' l] [_ Hl].
Qed.

Lemma sum_products_ok cols m count l i r : Forall (fun row : list double => zlen row = cols) m → 0 ≤ count < cols →
  0 ≤ i → i + zlen l ≤ zlen m → wp ordinary (SampledFunction.sum_products l m i count r) (fun _ => True).
Proof.
  intros Hrows Hc. revert i r. induction l as [|v l IH]; intros i r Hi Hlen; cbn [SampledFunction.sum_products]; [done|].
  rewrite zlen_cons in Hlen. pose proof (zlen_nonneg l).
  step ltac:(eapply ordinary_get; [|exact Hrows]; lia). intros row Hrow.
  step ltac:(apply ordinary_get_any; lia). intros c _. apply IH; lia.
Qed.

Lemma summation_ok n cols m count f : sized n f → shaped n cols m → 0 ≤ count < cols →
  wp ordinary (SampledFunction.summation m count f) (fun _ => True).
Proof.
  intros [Hs Hn] [Hm Hrows] Hc. unfold SampledFunction.size in Hs. apply (sum_products_ok cols); [done|done|done|lia].
Qed.

Lemma checked_summation_ok n cols m p count : process_ok n p → shaped n cols m → 0 ≤ count < cols →
  wp ordinary (Forecast.checked_summation m p count) (fun _ => True).
Proof.
  intros [Hf _] Hm Hc. unfold Forecast.checked_summation. do 2 (step ltac:(apply ordinary_assert); intros _ _).
  step ltac:(apply ordinary_assert). intros _ H0%Z.ltb_lt. pose proof Hm as [Hl Hrows].
  step ltac:(eapply ordinary_get; [|exact Hrows]; lia). intros row _. step ltac:(apply ordinary_assert). intros _ _.
  by apply (summation_ok n cols).
Qed.

Lemma probability_ok n cols m p count : process_ok n p → shaped n cols m → 0 ≤ count < cols →
  wp ordinary (Forecast.probability m p count) (fun _ => True)
  ∧ wp ordinary (Forecast.tick_probability m p count) (fun _ => True).
Proof.
  intros Hp Hm Hc. split; (step ltac:(by apply (checked_summation_ok n cols))); [done|]. intros r _.
  step ltac:(apply ordinary_assert). done.
Qed.

Lemma convolve_length old new : 1 ≤ zlen old → 1 ≤ zlen new → zlen old + zlen new ≤ 2 ^ 60 →
  wp ordinary (Forecast.convolve old new) (fun l => zlen l = zlen old + zlen new - 1).
Proof.
  intros Ho Hn Hmax. unfold Forecast.convolve. rewrite uwrap_small by lia. rewrite (proj2 (Z.leb_gt _ _)) by lia.
  set (N := zlen old + zlen new - 1). apply (for_range_spec ordinary (fun _ l => zlen l = N)); [lia|..].
  - unfold zlen at 1. rewrite length_replicate. lia.
  - intros i l Hi Hl. apply (for_range_spec ordinary (fun _ l => zlen l = N)); [lia|done|].
    intros j l' Hj Hl'. step ltac:(apply ordinary_get_any; lia). intros r _.
    step ltac:(apply ordinary_get_any; lia). intros o _. step ltac:(apply ordinary_get_any; lia). intros c _.
    eapply wp_weaken; [apply ordinary_set; lia|]. cbv beta. lia.
Qed.

Section forecast.
Context `{Boost}.

Lemma count_row_ok k n i time p total : process_ok n p →
  wp ordinary (Forecast.count_row k i time p total) (fun r => zlen (fst r) = Z.of_nat k).
Proof.
  intros Hp. revert i total. induction k as [|k IH]; intros i total; cbn [Forecast.count_row]; [done|].
  step ltac:(by apply (count_probability_ok n)). intros c _. do 2 (step ltac:(apply ordinary_assert); intros _ _).
  step ltac:(apply IH). intros [row t] Hr. apply wp_ok. cbn [fst] in *. rewrite zlen_cons. lia.
Qed.

Lemma make_tick_ok n time p limit : process_ok n p → 0 ≤ limit →
  wp ordinary (Forecast.make_tick time p limit) (shaped n (limit + 1)).
Proof.
  intros Hp Hlim. unfold Forecast.make_tick. step ltac:(by apply (make_components_ok n)). intros l [Hl Hall].
  eapply wp_weaken; [eapply map_result_spec; [exact Hall|]|].
  - intros q Hq. unfold Forecast.tick_row. step ltac:(by apply (count_row_ok _ n)). intros [row t] Hr.
    step ltac:(apply ordinary_assert). intros _ _. apply wp_ok.
    instantiate (1 := fun row => zlen row = limit + 1). cbn [fst] in Hr. cbv beta. rewrite zlen_app, Hr.
    rewrite zlen_cons, zlen_nil. lia.
  - cbv beta. intros m [Hm Hrows]. split; [lia|done].
Qed.

Lemma this_tick_ok k n cols i m p : process_ok n p → shaped n cols m → 0 ≤ i → i + Z.of_nat k ≤ cols →
  wp ordinary (Forecast.this_tick k i m p) (fun r => zlen (fst r) = Z.of_nat k ∧ process_ok n (snd r)).
Proof.
  intros Hp Hm Hi. revert i p Hp Hi. induction k as [|k IH]; intros i p Hp Hi Hle; cbn [Forecast.this_tick]; [done|].
  cbv zeta. destruct (normalize_ok n p Hp) as [Hp' _].
  step ltac:(apply (probability_ok n cols); [done|done|lia]). intros c _.
  step ltac:(apply IH; [done|lia|lia]). intros [cs q] [Hcs Hq]. apply wp_ok. cbn [fst snd] in *. rewrite zlen_cons.
  split; [lia|done].
Qed.

Lemma integrate_ok k n time limit m acc p : process_ok n p → shaped n (limit + 1) m → 1 ≤ limit → 1 ≤ zlen acc →
  zlen acc + Z.of_nat k * (limit - 1) + limit ≤ 2 ^ 60 →
  wp ordinary (Forecast.integrate k time limit m acc p) (fun l => zlen l = zlen acc + Z.of_nat k * (limit - 1)).
Proof.
  intros Hp Hm Hlim. revert acc p Hp. induction k as [|k IH]; intros acc p Hp Hacc Hmax; cbn [Forecast.integrate].
  { cbn. lia. }
  step ltac:(apply (this_tick_ok _ n (limit + 1)); [done|done|lia|lia]). intros [t q] [Ht Hq]. cbn [fst snd] in *.
  rewrite Z2Nat.id in Ht by lia.
  assert (Z.of_nat (S k) * (limit - 1) = Z.of_nat k * (limit - 1) + (limit - 1)) as Hk by lia.
  assert (0 ≤ Z.of_nat k * (limit - 1)) as Hk0 by (apply Z.mul_nonneg_nonneg; lia). rewrite Hk in *.
  step ltac:(apply convolve_length; lia). intros acc' Hacc'. step ltac:(by apply (evolve_ok n)). intros q' Hq'.
  eapply wp_weaken; [apply IH; [done|lia|lia]|]. cbv beta. lia.
Qed.

Lemma make_interval_ok n time p limit ticks : process_ok n p → 1 ≤ limit → 0 ≤ ticks → 1 + ticks * (limit - 1) + limit ≤ 2 ^ 60 →
  wp ordinary (Forecast.make_interval time p limit ticks) (shaped n (1 + ticks * (limit - 1))).
Proof.
  intros Hp Hlim Ht Hmax. unfold Forecast.make_interval. step ltac:(by apply (make_components_ok n)). intros l [Hl Hall].
  step ltac:(apply (make_tick_ok n); [done|lia]). intros m Hm.
  eapply wp_weaken; [eapply map_result_spec; [exact Hall|]|].
  - intros q Hq. eapply wp_weaken; [apply (integrate_ok _ n); [done|done|done|done|change (zlen [_]) with 1; lia]|].
    instantiate (1 := fun row => zlen row = 1 + ticks * (limit - 1)). cbv beta. intros row Hr.
    change (zlen [of_Z 1]) with 1 in Hr. lia.
  - cbv beta. intros m' [Hm' Hrows]. split; [lia|done].
Qed.
End forecast.

(** ** Quantiles *)

Definition sum_of (cs : list double) : double := fold_left add cs (of_Z 0).

(** No beginning of [cs] reaches [x]. *)
Definition below (x : double) (cs : list double) : Prop :=
  ∀ k, (1 ≤ k ≤ length cs)%nat → leb x (sum_of (take k cs)) = false.

Definition probabilities (m : Forecast.matrix) (p : Process.t) (cs : list double) : Prop :=
  ∀ i c, cs !! i = Some c → Forecast.probability m p (Z.of_nat i) = Ok c.

Definition least_quantile (m : Forecast.matrix) (p : Process.t) (x : double) (cols q : Z) : Prop :=
  ∃ cs, probabilities m p cs ∧
    (0 ≤ q < cols ∧ zlen cs = q + 1 ∧ leb x (sum_of cs) = true ∧ below x (take (Z.to_nat q) cs)
     ∨ q = cols + 1 ∧ zlen cs = cols ∧ below x cs).

Lemma probabilities_snoc m p cs c : probabilities m p cs → Forecast.probability m p (zlen cs) = Ok c →
  probabilities m p (cs ++ [c]).
Proof.
  intros Hcs Hc i d [Hi|[Hi Hd]]%lookup_app_Some; [by apply Hcs|].
  apply list_lookup_singleton_Some in Hd as [Hz <-]. rewrite <- Hc. f_equal. unfold zlen. lia.
Qed.

Lemma below_snoc x cs c : below x cs → leb x (add (sum_of cs) c) = false → below x (cs ++ [c]).
Proof.
  intros Hcs Hc k Hk. rewrite length_app in Hk. cbn in Hk. destruct (decide (k ≤ length cs)%nat) as [Hle|Hgt].
  - rewrite take_app_le by done. apply Hcs. lia.
  - rewrite take_ge by (rewrite length_app; cbn; lia). unfold sum_of. by rewrite fold_left_app.
Qed.

Lemma quantile_loop_ok k n cols m p x cs : process_ok n p → shaped n cols m → cols < 2 ^ 31 →
  zlen cs + Z.of_nat k = cols → probabilities m p cs → below x cs →
  wp ordinary (Forecast.quantile_loop k (zlen cs) m p x (sum_of cs) cols) (least_quantile m p x cols).
Proof.
  intros Hp Hm Hcols. revert cs. induction k as [|k IH]; intros cs Hk Hcs Hbelow; cbn [Forecast.quantile_loop].
  { pose proof (zlen_nonneg cs). apply wp_ok. rewrite uwrap_small by lia. exists cs. split; [done|]. right. split_and!; [done|lia|done]. }
  pose proof (zlen_nonneg cs). destruct (probability_ok n cols m p (zlen cs) Hp Hm ltac:(lia)) as [Hok _].
  destruct (Forecast.probability m p (zlen cs)) as [c|f] eqn:Hc; [|exact Hok]. cbn [mbind result_bind]. cbv zeta.
  assert (add (sum_of cs) c = sum_of (cs ++ [c])) as Hsum by (unfold sum_of; by rewrite fold_left_app).
  assert (zlen (cs ++ [c]) = zlen cs + 1) as Hlen by (by rewrite zlen_app).
  destruct (leb x (add (sum_of cs) c)) eqn:Hle.
  - apply wp_ok. exists (cs ++ [c]). split; [by apply probabilities_snoc|]. left. rewrite <- Hsum.
    split_and!; [lia|lia|done|done|]. unfold zlen. by rewrite Nat2Z.id, take_app_length.
  - rewrite Hsum, <- Hlen. apply IH; [lia|by apply probabilities_snoc|by apply below_snoc].
Qed.

Lemma lower_quantile_ok n cols m p x : process_ok n p → shaped n cols m → 1 ≤ n → cols < 2 ^ 31 →
  wp ordinary (Forecast.lower_quantile m p x) (least_quantile m p x cols).
Proof.
  intros Hp Hm Hn Hcols. pose proof Hm as [Hl Hrows]. unfold Forecast.lower_quantile.
  step ltac:(eapply ordinary_get; [|exact Hrows]; lia). intros row Hrow. rewrite Hrow.
  apply (quantile_loop_ok _ n cols m p x []); [done|done|done|rewrite zlen_nil; unfold zlen in Hrow; lia|done|].
  intros k Hk. cbn in Hk. lia.
Qed.

(** ** Certainty *)

(** All the mass in bin [i] *)
Definition certain (n i : Z) : list double := (fun j => if j =? i then of_Z 1 else of_Z 0) <$> seqZ 0 n.

Lemma each_constant f i0 l (g : Z → double) :
  SampledFunction.each f i0 l (fun _ _ j (_ : unit) => Ok (g j, tt)) tt = Ok (g <$> seqZ i0 (zlen l), tt).
Proof.
  revert i0. induction l as [|v l IH]; intros i0; cbn [SampledFunction.each]; [done|].
  cbn [mbind result_bind]. rewrite IH. cbn [mbind result_bind]. rewrite zlen_cons, (seqZ_cons i0 (1 + zlen l)) by (pose proof (zlen_nonneg l); lia).
  replace (Z.pred (1 + zlen l)) with (zlen l) by lia. by replace (Z.succ i0) with (i0 + 1) by lia.
Qed.

Lemma fold_zeros (xs : list double) acc : Forall (fun x => x = of_Z 0) xs → acc = of_Z 0 ∨ acc = of_Z 1 →
  fold_left add xs acc = acc.
Proof.
  intros Hxs Hacc. induction Hxs as [|x xs -> Hxs IH]; [done|]. cbn [fold_left].
  assert (add acc (of_Z 0) = acc) as -> by (destruct Hacc as [->| ->]; reflexivity). done.
Qed.

Lemma certain_total n i : 0 ≤ i < n → fold_left add (certain n i) (of_Z 0) = of_Z 1.
Proof.
  intros Hi. unfold certain. assert (n = i + (1 + (n - i - 1))) as Hn by lia.
  rewrite Hn, seqZ_app, fmap_app, fold_left_app by lia. rewrite Z.add_0_l.
  assert (∀ a k, i < a ∨ a + k ≤ i → Forall (fun x => x = of_Z 0) ((fun j => if j =? i then of_Z 1 else of_Z 0) <$> seqZ a k)) as Hz.
  { intros a k Hk. apply Forall_fmap, Forall_forall. intros j Hj%elem_of_seqZ. cbn.
    by rewrite (proj2 (Z.eqb_neq _ _)) by lia. }
  rewrite (fold_zeros _ (of_Z 0)); [|apply Hz; lia|by left].
  rewrite seqZ_cons by lia. cbn [fmap list_fmap fold_left]. rewrite Z.eqb_refl.
  change (add (of_Z 0) (of_Z 1)) with (of_Z 1). apply fold_zeros; [apply Hz; lia|by right].
Qed.

Lemma certain_divided n i : (fun v => div v (of_Z 1)) <$> certain n i = certain n i.
Proof.
  unfold certain. rewrite <- list_fmap_compose. apply list_fmap_ext. intros k j _. cbn. by destruct (j =? i).
Qed.

Lemma set_certain_spec n rate p i : process_ok n p → SampledFunction.index rate (Process.pmf p) = Ok i →
  ∃ p', Process.set_certain rate p = Ok p' ∧ process_ok n p' ∧ Process.normalized p' = true
    ∧ SampledFunction.function (Process.pmf p') = certain n i.
Proof.
  intros Hp Hi. pose proof Hp as [[Hs Hn] Hg]. pose proof (to_bin_ok n rate (Process.pmf p) (proj1 Hp)) as Hrange.
  unfold SampledFunction.index in Hi. rewrite Hi in Hrange. cbn in Hrange.
  pose proof (set_certain_ok n rate p Hp) as Hok. unfold Process.set_certain in *. cbv zeta in *.
  unfold SampledFunction.index, SampledFunction.for_each in *. cbn [Process.pmf Process.set_normalized] in *. rewrite Hi in *.
  cbn [mbind result_bind] in *. rewrite each_constant in *. cbn [mbind result_bind] in *.
  unfold SampledFunction.size in Hs. rewrite Hs in *. fold (certain n i) in *.
  set (p' := Process.normalize _) in *.
  assert (p' = Process.mk (SampledFunction.mk (SampledFunction.offset (Process.pmf p)) (SampledFunction.bin_width (Process.pmf p)) (certain n i))
    (Process.gaussian p) (Process.brownian_motion_rate p) (Process.outage_escape_rate p) true) as Hp'.
  { subst p'. unfold Process.normalize, Process.total. cbn -[certain]. rewrite certain_total by done. by rewrite certain_divided. }
  rewrite Hp' in *. unfold SampledFunction.get in *. cbn [Process.pmf] in *.
  assert (zlen (certain n i) = n) as Hlen by (unfold certain, zlen; rewrite length_fmap, length_seqZ; lia).
  assert (SampledFunction.to_bin rate (SampledFunction.mk (SampledFunction.offset (Process.pmf p))
    (SampledFunction.bin_width (Process.pmf p)) (certain n i)) = Ok i) as Hb.
  { rewrite <- Hi. unfold SampledFunction.to_bin, SampledFunction.size. cbn [SampledFunction.offset SampledFunction.bin_width SampledFunction.function].
    by rewrite Hlen, Hs. }
  rewrite Hb in *. cbn [mbind result_bind SampledFunction.function] in *.
  assert (vec_get (certain n i) i = Ok (of_Z 1)) as Hv.
  { unfold vec_get. rewrite (proj2 (Z.ltb_ge _ _)) by lia. unfold certain. rewrite list_lookup_fmap, lookup_seqZ_lt by lia.
    cbn. by rewrite Z2Nat.id, Z.eqb_refl by lia. }
  rewrite Hv in *. cbn [mbind result_bind] in *. change (eqb (of_Z 1) (of_Z 1)) with true in *.
  cbn [assert_that mbind result_bind wp] in *. eexists. split; [reflexivity|]. by split_and!.
Qed.

(** ** The components *)

(** Every midpoint lies in its bin. *)
Definition centred (f : SampledFunction.t) : Prop :=
  ∀ j, 0 ≤ j < SampledFunction.size f → SampledFunction.index (SampledFunction.from_bin_mid j f) f = Ok j.

(** The component processes: one certain of each bin *)
Definition certain_of (n : Z) (l : list Process.t) (k : Z) : Prop :=
  zlen l = k ∧ ∀ i c, l !! i = Some c →
    process_ok n c ∧ Process.normalized c = true ∧ SampledFunction.function (Process.pmf c) = certain n (Z.of_nat i).

Lemma make_components_spec n p : process_ok n p → centred (Process.pmf p) →
  safe (Forecast.make_components p) (fun l => certain_of n l n).
Proof.
  intros Hp Hc. pose proof Hp as [Hf _]. pose proof Hf as [Hs Hn]. unfold Forecast.make_components.
  step ltac:(apply (for_each_ok _ _ (fun k l => certain_of n l k) _ n); [done|by split|]).
  - intros j v l Hj [Hl Hall]. specialize (Hc j ltac:(lia)).
    destruct (set_certain_spec n _ p j Hp Hc) as (c & -> & Hcok & Hcn & Hcf). cbn [mbind result_bind].
    rewrite Hl, Z.eqb_refl. cbn [assert_that mbind result_bind]. rewrite Hc. cbn [mbind result_bind].
    rewrite Z.eqb_refl. cbn. split; [by rewrite zlen_app, Hl|].
    intros i d [Hi|[Hi Hd]]%lookup_app_Some; [by apply Hall|]. apply list_lookup_singleton_Some in Hd as [Hz <-].
    split_and!; [done|done|]. rewrite Hcf. f_equal. unfold zlen in Hl. lia.
  - by intros [f' l] [_ Hl].
Qed.

Lemma sampled_make_spec k hi lo n : to_i32 (div (sub hi lo) (div (sub hi lo) (of_Z k))) = Ok n → 0 ≤ n →
  SampledFunction.make k hi lo
  = Ok (SampledFunction.mk lo (div (sub hi lo) (of_Z k)) (replicate (Z.to_nat (n + 1)) (of_Z 1))).
Proof.
  intros Hn H0. unfold SampledFunction.make. cbv zeta. rewrite Hn. cbn [mbind result_bind].
  by rewrite (proj2 (Z.ltb_ge _ _)) by lia.
Qed.

(** The tick and the shape of the receiver's process, whatever its contents *)
Definition tick_time : double := mul (of_ratio 1 1000) (of_Z 20).
Definition receiver_bins : double := div (sub (of_Z 1000) (of_Z 0)) (of_Z 256).
Definition receiver_shape (p : Process.t) : Prop :=
  process_ok 257 p ∧ SampledFunction.offset (Process.pmf p) = of_Z 0 ∧ SampledFunction.bin_width (Process.pmf p) = receiver_bins
  ∧ Process.brownian_motion_rate p = of_Z 200.

Definition finite (x : double) : Prop := match x with S754_zero _ | S754_finite _ _ _ => True | _ => False end.

(** The constants of [receiver.hh] *)
Definition receiver_process : result Process.t := Process.make (of_Z 1000) (of_Z 200) (of_Z 1) 256.

Definition midpoint_ok (f : SampledFunction.t) (j : Z) : bool :=
  match SampledFunction.index (SampledFunction.from_bin_mid j f) f with Ok b => b =? j | Fault _ => false end.

(** The check depends on the number of bins, not on their contents. *)
Lemma centred_check o w l n : zlen l = n →
  forallb (midpoint_ok (SampledFunction.mk o w (replicate (Z.to_nat n) (of_Z 0)))) (seqZ 0 n) = true →
  centred (SampledFunction.mk o w l).
Proof.
  intros <- Hall j Hj. unfold SampledFunction.size in Hj. cbn [SampledFunction.function] in Hj.
  assert (midpoint_ok (SampledFunction.mk o w l) j = true) as Hm.
  { rewrite <- (proj1 (forallb_forall _ _) Hall j) by (apply list_elem_of_In, elem_of_seqZ; lia).
    unfold midpoint_ok, SampledFunction.index, SampledFunction.to_bin, SampledFunction.size.
    cbn [SampledFunction.function SampledFunction.offset SampledFunction.bin_width].
    assert (zlen (replicate (Z.to_nat (zlen l)) (of_Z 0)) = zlen l) as ->; [|done].
    unfold zlen. rewrite length_replicate. lia. }
  unfold midpoint_ok in Hm. destruct (SampledFunction.index _ _) as [b|]; [|done]. by apply Z.eqb_eq in Hm as ->.
Qed.

Lemma receiver_process_ok : ∃ p, receiver_process = Ok p ∧ receiver_shape p ∧ centred (Process.pmf p)
  ∧ Forall finite (SampledFunction.function (Process.pmf p)).
Proof.
  unfold receiver_process, Process.make.
  rewrite (sampled_make_spec 256 _ _ 256) by (vm_compute; (reflexivity || discriminate)). cbn [mbind result_bind].
  change (to_int (256 * 128)) with 32768.
  rewrite (sampled_make_spec 32768 _ _ 32768) by (vm_compute; (reflexivity || discriminate)). cbn [mbind result_bind].
  set (q := Process.mk _ _ _ _ _). assert (process_ok 257 q) as Hq.
  { split; [split; [by vm_compute|lia]|]. exists 32769. split; [|lia]. unfold SampledFunction.size, zlen. cbn [q Process.gaussian Process.cdf_table SampledFunction.function].
    rewrite length_replicate. lia. }
  eexists. split; [reflexivity|]. destruct (normalize_ok 257 q Hq) as [Hp _].
  split; [split; [exact Hp|by split_and!]|]. split.
  - destruct Hp as [[Hs _] _]. apply (centred_check _ _ _ 257); [exact Hs|]. vm_compute. reflexivity.
  - apply Forall_fmap, Forall_replicate. vm_compute. exact I.
Qed.

(** ** Convolution *)

Section convolution.
Context (old new : list double).
Implicit Types i j k : nat.

(** The product of [old[i]] and [new[k - i]], if there is one among the first [n] of [new] *)
Definition product (n i k : nat) : list double :=
  if ((i <=? k) && (k <? i + n))%nat then [mul (nth i old (of_Z 0)) (nth (k - i) new (of_Z 0))] else [].

(** The products for the sum [k] of two counts, the first below [i], in
    increasing order *)
Definition products (i k : nat) : list double := concat ((fun i => product (length new) i k) <$> seq 0 i).

(** The convolution: the sum over all ways to make [k] of two counts *)
Definition convolution : list double :=
  (fun k => sum_of (products (length old) k)) <$> seq 0 (length old + length new - 1).

(** What the loops have added up at [old_count = i], [new_count = j] *)
Definition cells (i j : nat) : list double :=
  (fun k => sum_of (products i k ++ product j i k)) <$> seq 0 (length old + length new - 1).

Lemma cells_next i : cells i (length new) = cells (S i) 0.
Proof.
  apply list_fmap_ext. intros k x _. unfold products.
  assert (product 0 (S i) x = []) as ->.
  { unfold product. destruct (Nat.leb_spec (S i) x); [|done]. cbn [andb].
    by rewrite (proj2 (Nat.ltb_ge x (S i + 0))) by lia. }
  rewrite app_nil_r, seq_S, fmap_app, concat_app. cbn. by rewrite app_nil_r.
Qed.

Lemma cells_step i j : (i < length old)%nat → (j < length new)%nat →
  ∃ r, cells i j !! (i + j)%nat = Some r
    ∧ <[(i + j)%nat := add r (mul (nth i old (of_Z 0)) (nth j new (of_Z 0)))]> (cells i j) = cells i (S j).
Proof.
  intros Hi Hj. set (N := (length old + length new - 1)%nat). assert (i + j < N)%nat as HN by lia.
  assert (∀ j' k, (k < N)%nat → cells i j' !! k = Some (sum_of (products i k ++ product j' i k))) as Hcell.
  { intros j' k Hk. unfold cells. fold N. rewrite list_lookup_fmap, lookup_seq_lt by done. done. }
  eexists. split; [by apply Hcell|]. apply list_eq. intros k. destruct (decide (k < N)%nat) as [Hk|Hk].
  - rewrite Hcell by done. destruct (decide (k = i + j)%nat) as [->|Hne].
    + rewrite list_lookup_insert_eq by (unfold cells; rewrite length_fmap, length_seq; fold N; lia). f_equal.
      unfold product. rewrite (proj2 (Nat.leb_le _ _)) by lia. cbn [andb].
      rewrite (proj2 (Nat.ltb_ge (i + j) (i + j))), (proj2 (Nat.ltb_lt (i + j) (i + S j))) by lia.
      replace (i + j - i)%nat with j by lia. unfold sum_of. rewrite !fold_left_app. done.
    + rewrite list_lookup_insert_ne, Hcell by done. do 3 f_equal. unfold product.
      assert ((k <? i + j)%nat = (k <? i + S j)%nat) as ->; [|done]. apply eq_true_iff_eq. rewrite !Nat.ltb_lt. lia.
  - rewrite !lookup_ge_None_2; [done|unfold cells..]; rewrite ?length_insert, ?length_fmap, ?length_seq; fold N; lia.
Qed.

Lemma vec_get_nth (l : list double) i : (i < length l)%nat → vec_get l (Z.of_nat i) = Ok (nth i l (of_Z 0)).
Proof.
  intros Hi. unfold vec_get. rewrite (proj2 (Z.ltb_ge _ _)), Nat2Z.id by lia.
  destruct (lookup_lt_is_Some_2 l i Hi) as [x Hx]. rewrite Hx. by rewrite (nth_lookup_Some _ _ _ _ Hx).
Qed.

Lemma convolve_spec : (1 ≤ length old)%nat → (1 ≤ length new)%nat → zlen old + zlen new ≤ 2 ^ 60 →
  Forecast.convolve old new = Ok convolution.
Proof.
  intros Ho Hn Hmax. unfold Forecast.convolve, zlen in *.
  rewrite uwrap_small by lia. rewrite (proj2 (Z.leb_gt _ _)) by lia.
  replace (Z.to_nat (Z.of_nat (length old) + Z.of_nat (length new) - 1)) with (length old + length new - 1)%nat by lia.
  assert (safe (for_range 0 (Z.of_nat (length old))
    (fun (i : Z) ret => for_range 0 (Z.of_nat (length new))
       (fun (j : Z) ret => r ← vec_get ret (i + j); o ← vec_get old i; c ← vec_get new j; vec_set ret (i + j) (add r (mul o c))) ret)
    (replicate (length old + length new - 1) (of_Z 0))) (fun l => l = cells (length old) 0)) as Hsafe.
  { eapply wp_weaken; [apply (for_range_spec _ (fun (i : Z) l => l = cells (Z.to_nat i) 0)); [lia|..]|];
      cbv beta; [..|intros l ->; by rewrite Nat2Z.id].
    - unfold cells. symmetry. change (Z.to_nat 0) with 0%nat. generalize (length old + length new - 1)%nat as N.
      intros N. apply list_eq. intros k. rewrite list_lookup_fmap. destruct (decide (k < N)%nat) as [Hk|Hk].
      + rewrite lookup_seq_lt, lookup_replicate_2 by done. done.
      + rewrite !lookup_ge_None_2; [done|rewrite length_replicate; lia|rewrite length_seq; lia].
    - intros i l Hi ->. set (i' := Z.to_nat i). replace (Z.to_nat (i + 1)) with (S i') by lia.
      rewrite <- cells_next.
      eapply wp_weaken; [apply (for_range_spec _ (fun (j : Z) l => l = cells i' (Z.to_nat j))); [lia|done|]|];
        cbv beta; [|intros l ->; by rewrite Nat2Z.id].
      intros j l Hj ->. set (j' := Z.to_nat j). replace (Z.to_nat (j + 1)) with (S j') by lia.
      destruct (cells_step i' j' ltac:(lia) ltac:(lia)) as (r & Hr & Hins).
      replace (i + j) with (Z.of_nat (i' + j')) by lia. replace i with (Z.of_nat i') by lia. replace j with (Z.of_nat j') by lia.
      rewrite !vec_get_nth by lia. unfold vec_get at 1, vec_set, in_range.
      rewrite (proj2 (Z.ltb_ge (Z.of_nat (i' + j')) 0)), Nat2Z.id, Hr by lia. cbn [mbind result_bind].
      rewrite (proj2 (Z.leb_le _ _)), (proj2 (Z.ltb_lt _ _)); [by cbn| |lia].
      apply lookup_lt_Some in Hr. unfold zlen. lia. }
  apply safe_inv in Hsafe as (l & -> & ->). f_equal. unfold cells, convolution. apply list_fmap_ext.
  intros k x Hx. f_equal. apply lookup_seq in Hx as [-> Hx]. unfold product.
  destruct (Nat.leb_spec (length old) (0 + k)); [|by rewrite app_nil_r]. cbn [andb].
  rewrite (proj2 (Nat.ltb_ge (0 + k) (length old + 0))) by lia. by rewrite app_nil_r.
Qed.
End convolution.

(** ** An impossible observation *)

Definition zero (x : double) : Prop := match x with S754_zero _ => True | _ => False end.

Lemma finite_times_zero x : finite x → zero (mul x (of_Z 0)).
Proof. by destruct x. Qed.

Lemma sum_zeros xs acc : zero acc → Forall zero xs → zero (fold_left add xs acc).
Proof.
  intros Hacc Hxs. revert acc Hacc. induction Hxs as [|x xs Hx Hxs IH]; intros acc Hacc; [done|]. cbn [fold_left]. apply IH.
  destruct acc as [b| | |]; try done. destruct x as [b'| | |]; try done. by destruct b, b'.
Qed.

Lemma zero_over_zero x y : zero x → zero y → div x y = S754_nan.
Proof. by destruct x, y. Qed.

Definition stops {A} (m : result A) : Prop := ∃ f, m = Fault f.

Lemma stops_bind {A B} (m : result A) (k : A → result B) : (∀ a, stops (k a)) → stops (m ≫= k).
Proof. intros Hk. destruct m as [a|f]; [apply Hk|by exists f]. Qed.

Lemma stops_head {A B} (m : result A) (k : A → result B) : stops m → stops (m ≫= k).
Proof. intros [f ->]. by exists f. Qed.

Lemma nan_contribution g z f orate oi nrate nprob ni :
  stops (Process.contribution g z f orate S754_nan oi nrate nprob ni).
Proof.
  unfold Process.contribution. do 4 (apply stops_bind; intros ?). cbv zeta. apply stops_bind. intros _.
  apply stops_head. by eexists.
Qed.

(** The range of bins around rate zero is not empty. *)
Lemma range_around_zero l : zlen l = 257 →
  let f := SampledFunction.mk (of_Z 0) receiver_bins l in
  let s := mul (of_Z 200) (sqrt tick_time) in
  ∃ hi lo hb lb, SampledFunction.sample_ceil (add (of_Z 0) (mul (of_Z 5) s)) f = Ok hi
    ∧ SampledFunction.to_bin hi f = Ok hb
    ∧ SampledFunction.sample_floor (sub (of_Z 0) (mul (of_Z 5) s)) f = Ok lo
    ∧ SampledFunction.to_bin lo f = Ok lb ∧ lb ≤ hb.
Proof.
  intros Hl f s. subst f s.
  unfold SampledFunction.sample_ceil, SampledFunction.sample_floor, SampledFunction.to_bin, SampledFunction.from_bin_ceil,
    SampledFunction.from_bin_floor, SampledFunction.size.
  cbn [SampledFunction.function SampledFunction.offset SampledFunction.bin_width]. rewrite Hl.
  do 4 eexists. split_and!; [vm_compute; reflexivity..|discriminate].
Qed.

Section impossible.
Context `{Boost}.

Lemma nan_evolve p l : receiver_shape p → SampledFunction.function (Process.pmf p) = S754_nan :: l →
  stops (Process.evolve tick_time p).
Proof.
  intros ([[Hs Hn] _] & Ho & Hw & Hb) Hl. unfold SampledFunction.size in Hs. rewrite Hl in Hs.
  unfold Process.evolve. cbv zeta. apply stops_bind. intros g. apply stops_bind. intros e.
  apply stops_bind. intros _. apply stops_bind. intros _. apply stops_head. unfold SampledFunction.for_each. apply stops_head.
  cbn [Process.pmf Process.set_gaussian Process.set_normalized Process.brownian_motion_rate]. rewrite Hl, Ho, Hw, Hb.
  cbn [fmap list_fmap]. set (zs := of_Z 0 :: _). assert (zlen zs = 257) as Hz.
  { subst zs. unfold zlen in *. cbn [length] in *. rewrite length_fmap. lia. }
  destruct (range_around_zero zs Hz) as (hi & lo & hb & lb & H1 & H2 & H3 & H4 & Hle). cbv zeta in H1, H2, H3, H4.
  cbn [SampledFunction.each]. apply stops_head, stops_head. unfold SampledFunction.for_range.
  assert (SampledFunction.from_bin_mid 0 (Process.pmf p) = of_Z 0) as Hmid by done. rewrite Hmid, H1. cbn [mbind result_bind].
  rewrite H2. cbn [mbind result_bind]. rewrite H3. cbn [mbind result_bind]. rewrite H4. cbn [mbind result_bind].
  apply stops_head. unfold Prelude.for_range.
  destruct (Z.to_nat (hb + 1 - lb)) as [|k] eqn:Hk; [lia|]. cbn [for_up]. apply stops_head, stops_bind. intros v.
  apply stops_head, nan_contribution.
Qed.

(** Every value is multiplied by the likelihood at its midpoint. *)
Lemma each_zero f i l time counts : Forall finite l →
  (∀ j, i ≤ j < i + zlen l → poissonpdf (mul (SampledFunction.from_bin_mid j f) time) counts = Ok (of_Z 0)) →
  ∃ l', SampledFunction.each f i l
      (fun midpoint value _ (_ : unit) => x ← poissonpdf (mul midpoint time) counts; Ok (mul value x, tt)) tt = Ok (l', tt)
    ∧ Forall zero l' ∧ length l' = length l.
Proof.
  intros Hl. revert i. induction Hl as [|v l Hv Hl IH]; intros i Hp; cbn [SampledFunction.each].
  { by exists []. }
  rewrite zlen_cons in Hp. pose proof (zlen_nonneg l). rewrite Hp by lia. cbn [mbind result_bind].
  destruct (IH (i + 1)) as (l' & -> & Hz & Hlen); [intros j Hj; apply Hp; lia|]. cbn [mbind result_bind].
  eexists. split; [reflexivity|]. split; [|cbn; lia]. constructor; [by apply finite_times_zero|done].
Qed.

Lemma impossible_count p counts : receiver_shape p → Forall finite (SampledFunction.function (Process.pmf p)) →
  (∀ j, 0 ≤ j < 257 → poissonpdf (mul (SampledFunction.from_bin_mid j (Process.pmf p)) tick_time) counts = Ok (of_Z 0)) →
  ∃ p', Process.observe tick_time counts p = Ok p'
    ∧ Forall (fun x => x = S754_nan) (SampledFunction.function (Process.pmf (Process.normalize p')))
    ∧ stops (Process.evolve tick_time (Process.normalize p')).
Proof.
  intros Hshape Hfin Hzero. pose proof Hshape as ([[Hs Hn] Hg] & Ho & Hw & Hb). unfold SampledFunction.size in Hs.
  destruct (each_zero (Process.pmf p) 0 _ tick_time counts Hfin) as (l & He & Hz & Hlen); [rewrite Hs; intros j Hj; apply Hzero; lia|].
  unfold Process.observe, SampledFunction.for_each. rewrite He. cbn [mbind result_bind].
  eexists. split; [reflexivity|]. set (p' := Process.set_pmf _ _).
  assert (SampledFunction.function (Process.pmf (Process.normalize p')) = (fun v => div v (Process.total (Process.pmf p'))) <$> l)
    as Hnorm by done.
  assert (Forall (fun x => x = S754_nan) (SampledFunction.function (Process.pmf (Process.normalize p')))) as Hnan.
  { rewrite Hnorm. apply Forall_fmap. eapply Forall_impl; [exact Hz|]. intros x Hx. cbn.
    apply zero_over_zero; [done|]. by apply sum_zeros. }
  split; [done|].
  assert (receiver_shape (Process.normalize p')) as Hshape'.
  { split; [|done]. apply normalize_ok. split; [|done]. split; [unfold SampledFunction.size, zlen in *; cbn; lia|done]. }
  destruct (SampledFunction.function (Process.pmf (Process.normalize p'))) as [|x l'] eqn:Hfun.
  { destruct Hshape' as [[[Hs' _] _] _]. unfold SampledFunction.size in Hs'. by rewrite Hfun in Hs'. }
  apply Forall_cons in Hnan as [-> _]. by eapply nan_evolve.
Qed.
End impossible.
End ProcessTheorems.
