(* ===== verification/SproutModel.v ===== *)
(** * The receiver with its probability model

    The model of [process.cc] and [processforecaster.cc] implements what the
    receiver asks of a [DeliveryModel], so what is proved of connections
    holds with it; and the properties of the model itself. *)

From S2P Require Import Prelude Double NetworkConnection ConnectionProps SproutProcess SproutProcessProps.
Import Double.

Module SproutModel.
Import ProcessTheorems.

(** ** The constructor of [Receiver] *)

Definition MAX_ARRIVALS_PER_TICK : Z := 30.
Definition NUM_TICKS : Z := 8.

(** "Starting statistical calculations..." *)
Definition make_forecastr `{Boost} (p : Process.t) : result (list Forecast.matrix) :=
  map_result (fun i => Forecast.make_interval tick_time p MAX_ARRIVALS_PER_TICK (i + 1)) (seqZ 0 NUM_TICKS).

Definition make_model `{Boost} : result (Process.t * list Forecast.matrix) :=
  p ← receiver_process;
  forecastr ← make_forecastr p;
  Ok (p, forecastr).

(** The quantiles of [Receiver::forecast] *)
Definition lower_quantiles (forecastr : list Forecast.matrix) (p : Process.t) : result (list Z) :=
  map_result (fun m => Forecast.lower_quantile m p (of_ratio 1 20)) forecastr.

(** ** The interface *)

(** A computation with the property of its value *)
Definition keep {A} {P : A → Prop} (m : result A) : wp ordinary m P → result {a | P a} :=
  match m return wp ordinary m P → result {a | P a} with
  | Ok a => fun H => Ok (exist P a H)
  | Fault f => fun _ => Fault f
  end.

Lemma keep_returns {A} {P : A → Prop} (m : result A) (H : wp ordinary m P) : returns (keep m H).
Proof. destruct m as [a|f]; [done|]. unfold returns. cbn. intros [= ->]. by destruct H as [_ Hf]. Qed.

(** A matrix of the interval [i]: a row for every bin *)
Definition interval_shape (i : Z) (m : Forecast.matrix) : Prop :=
  shaped 257 (1 + (i + 1) * (MAX_ARRIVALS_PER_TICK - 1)) m.

Definition forecastr_ok (forecastr : list Forecast.matrix) : Prop :=
  zlen forecastr = NUM_TICKS ∧ ∀ i m, forecastr !! i = Some m → interval_shape (Z.of_nat i) m.

Section model.
Context `{Boost} (forecastr : list Forecast.matrix).

#[export] Instance sprout_model : DeliveryModel := {|
  process := {p | process_ok 257 p};
  evolve p := keep (Process.evolve tick_time (proj1_sig p)) (evolve_ok 257 tick_time _ (proj2_sig p));
  observe n p := keep (Process.observe tick_time n (proj1_sig p)) (observe_ok 257 tick_time n _ (proj2_sig p));
  normalize p := exist _ (Process.normalize (proj1_sig p)) (proj1 (normalize_ok 257 _ (proj2_sig p)));
  NetworkConnection.lower_quantiles p := lower_quantiles forecastr (proj1_sig p) |}.

Lemma quantiles_ok p : process_ok 257 p → forecastr_ok forecastr →
  wp ordinary (lower_quantiles forecastr p) (fun qs => zlen qs = NUM_TICKS ∧
    ∀ i m q, forecastr !! i = Some m → qs !! i = Some q →
      least_quantile m p (of_ratio 1 20) (1 + (Z.of_nat i + 1) * (MAX_ARRIVALS_PER_TICK - 1)) q).
Proof.
  intros Hp [Hlen Hall]. rewrite <- Hlen. apply map_result_wp. intros i m Hm.
  assert (Z.of_nat i < 8) by (apply lookup_lt_Some in Hm; unfold zlen, NUM_TICKS in Hlen; lia).
  apply (lower_quantile_ok 257); [done|by apply Hall|lia|unfold MAX_ARRIVALS_PER_TICK; lia].
Qed.

Lemma sprout_laws : forecastr_ok forecastr → DeliveryLaws.
Proof.
  intros Hf. constructor; intros.
  - apply keep_returns.
  - apply keep_returns.
  - cbn in p. pose proof (quantiles_ok (proj1_sig p) (proj2_sig p) Hf) as Hq. unfold returns. cbn.
    destruct (lower_quantiles forecastr (proj1_sig p)) as [qs|f]; [done|]. intros [= ->]. by destruct Hq as [_ Hf'].
Qed.
End model.

Lemma make_forecastr_ok `{Boost} p : process_ok 257 p → wp ordinary (make_forecastr p) forecastr_ok.
Proof.
  intros Hp. unfold make_forecastr. eapply wp_weaken; [apply (map_result_wp _ (fun i _ m => interval_shape (Z.of_nat i) m))|].
  - intros i x Hx. apply lookup_seqZ in Hx as [-> Hi]. unfold NUM_TICKS in Hi. rewrite Z.add_0_l.
    apply make_interval_ok; [done|..]; unfold MAX_ARRIVALS_PER_TICK; lia.
  - cbv beta. intros l [Hl Hall]. assert (zlen l = NUM_TICKS) as Hn by (rewrite Hl; reflexivity). split; [done|].
    intros i m Hm. apply (Hall i (Z.of_nat i)); [|done]. apply lookup_lt_Some in Hm.
    apply lookup_seqZ. unfold zlen in Hn. lia.
Qed.

(** ** Claims *)

Section claims.
Context `{Boost}.

(** C22. The operations of a process keep the number of its bins and never
    read or write outside a vector: they return such a process, or stop with
    a failed assertion, a conversion out of range or an exception. *)
Theorem process_operations_typed n p : process_ok n p →
  (∀ time counts, wp ordinary (Process.observe time counts p) (process_ok n))
  ∧ (∀ time, wp ordinary (Process.evolve time p) (process_ok n))
  ∧ process_ok n (Process.normalize p)
  ∧ (∀ rate, wp ordinary (Process.set_certain rate p) (process_ok n))
  ∧ (∀ time counts, wp ordinary (Process.count_probability time counts p) (fun _ => True))
  ∧ (∀ time limit ticks, 1 ≤ limit → 0 ≤ ticks → 1 + ticks * (limit - 1) + limit ≤ 2 ^ 60 →
       wp ordinary (Forecast.make_interval time p limit ticks) (shaped n (1 + ticks * (limit - 1)))).
Proof.
  intros Hp. split_and!.
  - intros time counts. by apply observe_ok.
  - intros time. by apply evolve_ok.
  - by apply normalize_ok.
  - intros rate. by apply set_certain_ok.
  - intros time counts. by apply (count_probability_ok n).
  - intros time limit ticks. by apply make_interval_ok.
Qed.

End claims.

(** With the constants of the receiver the statistical calculation passes
    its assertions: there is a component for every bin, certain of that bin
    and no other. *)
Theorem receiver_components : ∃ p l, receiver_process = Ok p ∧ Forecast.make_components p = Ok l
  ∧ zlen l = 257 ∧ ∀ i c, l !! i = Some c →
      Process.normalized c = true ∧ SampledFunction.function (Process.pmf c) = certain 257 (Z.of_nat i).
Proof.
  destruct receiver_process_ok as (p & Hp & [Hok _] & Hc & _). pose proof (make_components_spec 257 p Hok Hc) as Hl.
  apply safe_inv in Hl as (l & Hl & Hlen & Hall). exists p, l. split_and!; [done|done|done|].
  intros i c Hic. destruct (Hall i c Hic) as (_ & Hn & Hf). split; [exact Hn|exact Hf].
Qed.

(** C23. [convolve] computes the convolution: the entry for [k] is the sum, in
    double precision and in increasing order of the first count, of the
    products for all ways to make [k] of two counts. *)
Theorem convolve_is_convolution old new :
  (1 ≤ length old)%nat → (1 ≤ length new)%nat → zlen old + zlen new ≤ 2 ^ 60 →
  Forecast.convolve old new = Ok (convolution old new).
Proof. apply convolve_spec. Qed.

Lemma convolve_is_convolution_witness :
  Forecast.convolve [of_ratio 1 2; of_ratio 1 4] [of_ratio 1 2; of_ratio 1 3; of_Z 0]
  = Ok [of_ratio 1 4; add (mul (of_ratio 1 2) (of_ratio 1 3)) (of_ratio 1 8); mul (of_ratio 1 4) (of_ratio 1 3); of_Z 0].
Proof.
  rewrite (convolve_is_convolution [of_ratio 1 2; of_ratio 1 4] [of_ratio 1 2; of_ratio 1 3; of_Z 0]);
    [vm_compute; reflexivity|cbn; lia|cbn; lia|vm_compute; discriminate].
Defined.

(** An observation that is impossible at the midpoint of every bin makes
    every probability NaN at the next forecast, and the tick after it stops
    the program: [evolve] does not return. *)
Theorem impossible_observation `{Boost} p n :
  receiver_shape p → Forall finite (SampledFunction.function (Process.pmf p)) →
  (∀ j, 0 ≤ j < 257 → poissonpdf (mul (SampledFunction.from_bin_mid j (Process.pmf p)) tick_time) n = Ok (of_Z 0)) →
  ∃ p', Process.observe tick_time n p = Ok p'
    ∧ Forall (fun x => x = S754_nan) (SampledFunction.function (Process.pmf (Process.normalize p')))
    ∧ ∃ f, Process.evolve tick_time (Process.normalize p') = Fault f.
Proof. apply impossible_count. Qed.

(** A distribution that has no mass above 300 arrivals *)
Definition toy_boost : Boost := {|
  boost_poisson_pdf _ n := Some (of_ratio (if n <=? 300 then 1 else 0) 301);
  boost_normal_cdf _ x := Some (if ltb x (of_Z 0) then of_Z 0 else of_Z 1) |}.

Lemma process_operations_typed_witness : ∃ p, receiver_process = Ok p
  ∧ wp ordinary (@Process.evolve toy_boost tick_time p) (process_ok 257)
  ∧ wp ordinary (@Forecast.make_interval toy_boost tick_time p 30 8) (shaped 257 233).
Proof.
  destruct receiver_process_ok as (p & Hp & [Hok _] & _). exists p. split; [exact Hp|].
  destruct (@process_operations_typed toy_boost 257 p Hok) as (_ & He & _ & _ & _ & Hi). split; [apply He|].
  apply (Hi tick_time 30 8); lia.
Defined.

Lemma impossible_observation_witness : ∃ p p', receiver_process = Ok p
  ∧ @Process.observe toy_boost tick_time 400 p = Ok p'
  ∧ ∃ f, @Process.evolve toy_boost tick_time (Process.normalize p') = Fault f.
Proof.
  destruct receiver_process_ok as (p & Hp & Hok & _ & Hfin).
  destruct (@impossible_observation toy_boost p 400 Hok Hfin) as (p' & Ho & _ & He).
  - intros j _. unfold poissonpdf. destruct (eqb _ _); reflexivity.
  - exists p, p'. split; [exact Hp|]. split; [exact Ho|exact He].
Defined.
End SproutModel.
