(* ===== verification/Utilities.v ===== *)
(** * Utilities and the bulk-transfer program

    [src/alfalfa/src/util/swrite.cc] and [timestamp.cc], and the loop of
    [src/alfalfa/src/examples/sproutbt2.cc], which keeps a Sprout connection
    filled.  System calls are arguments. *)

From S2P Require Import Prelude Double NetworkConnection ConnectionProps SproutConnection SproutProps.

(** ** [swrite] *)

Module Swrite.

(** The kernel: the result of the [i]-th call of [write] for [n] octets *)
Definition kernel : Type := nat → Z → Z.

(** The loop, with the octets written so far *)
Fixpoint loop (fuel : nat) (write : kernel) (i : nat) (str : list Z) (total_bytes_written bytes_to_write : Z) (out : list Z)
    : result (Z * list Z) :=
  if total_bytes_written <? bytes_to_write then
    match fuel with
    | O => Fault OutOfFuel
    | S fuel' =>
        let bytes_written := write i (bytes_to_write - total_bytes_written) in
        if bytes_written <=? 0 then Ok (-1, out)
        else
          loop fuel' write (S i) str (total_bytes_written + bytes_written) bytes_to_write
            (out ++ take (Z.to_nat bytes_written) (drop (Z.to_nat total_bytes_written) str))
    end
  else Ok (0, out).

(** A negative length stands for that of the string. *)
Definition swrite (write : kernel) (str : list Z) (len : Z) : result (Z * list Z) :=
  let bytes_to_write := if 0 <=? len then len else zlen str in
  loop (Z.to_nat bytes_to_write) write 0 str 0 bytes_to_write [].

End Swrite.

(** ** [timestamp] *)

Module Timestamp.

Record t : Set := mk { millis_cache : Z; millis_offset : Z }.

Definition initial : t := mk (u64 (-1)) (u64 (-1)).

(** [clock_gettime], nothing when it fails *)
Definition freeze_timestamp (clock : option (Z * Z)) (s : t) : t :=
  match clock with
  | Some (sec, nsec) => mk (u64 (Z.quot nsec 1000000 + u64 sec * 1000)) (millis_offset s)
  | None => s
  end.

Definition frozen_timestamp (clock : option (Z * Z)) (s : t) : Z * t :=
  let s :=
    if millis_cache s =? u64 (-1) then
      let s := freeze_timestamp clock s in mk (millis_cache s) (u64 (millis_cache s - 1000))
    else s in
  (u64 (millis_cache s - millis_offset s), s).

(** The same once the clock was frozen *)
Definition timestamp (s : t) : Z := u64 (millis_cache s - millis_offset s).

End Timestamp.

(** ** [sproutbt2] *)

Module Sproutbt2.

(** The packets of one transmission: their sizes and times to the next *)
Fixpoint burst (fuel : nat) (fallback_interval bytes_to_send : Z) : result (list (Z * Z)) :=
  match fuel with
  | O => Fault OutOfFuel
  | S fuel' =>
      let this_packet_size := Z.min 1440 bytes_to_send in
      let bytes_to_send := to_int (bytes_to_send - this_packet_size) in
      assert_that (0 <=? bytes_to_send) "bytes_to_send >= 0";;
      if this_packet_size <? 0 then Fault (Thrown "std::length_error")
      else
        let time_to_next := if bytes_to_send =? 0 then fallback_interval else 0 in
        if 0 <? bytes_to_send then
          l ← burst fuel' fallback_interval bytes_to_send;
          Ok ((this_packet_size, time_to_next) :: l)
        else Ok [(this_packet_size, time_to_next)]
  end.

Definition burst_fuel (bytes_to_send : Z) : nat := S (Z.to_nat (bytes_to_send / 1440)).

Section round.
Context `{DeliveryModel, ForecastCodec}.

Definition fallback (server : bool) : Z := if server then 20 else 50.

(** The sending part of a round: what is sent, and the time of the next
    transmission *)
Definition send_round (now : Z) (sendto : list Z → bool) (server : bool) (time_of_next_transmission : Z) (s : SproutConnection.t)
    : result (list (Z * Z) * Z * SproutConnection.t) :=
  '(w, s) ← SproutConnection.window_size now s;
  let bytes_to_send := if server then 0 else w in
  if (0 <? bytes_to_send) || (time_of_next_transmission <=? now) then
    packets ← burst (burst_fuel bytes_to_send) (fallback server) bytes_to_send;
    s ← for_each packets
          (fun '(size, ttn) s =>
             '(_, s) ← SproutConnection.send now sendto (replicate (Z.to_nat size) 120) ttn s; Ok s) s;
    Ok (packets, Z.max (u64 (now + fallback server)) time_of_next_transmission, s)
  else Ok ([], time_of_next_transmission, s).

(** The time to wait in [select] *)
Definition wait_time (now time_of_next_transmission : Z) : Z :=
  let wait := to_int (u64 (time_of_next_transmission - now)) in
  if wait <? 0 then 0 else if 10 <? wait then 10 else wait.
End round.

End Sproutbt2.

(** ** Properties *)

Module UtilitiesTheorems.
Import ConnectionTheorems SproutTheorems.

(** A kernel that writes at most what it is asked to *)
Definition honest_kernel (write : Swrite.kernel) : Prop := ∀ i n, 0 < n → write i n ≤ n.

Lemma loop_spec fuel write i str total out : honest_kernel write →
  0 ≤ total ≤ zlen str → (Z.to_nat (zlen str - total) ≤ fuel)%nat → out = take (Z.to_nat total) str →
  safe (Swrite.loop fuel write i str total (zlen str) out) (fun '(ret, out) =>
    ret = 0 ∧ out = str
    ∨ ret = -1 ∧ ∃ k j, out = take k str ∧ (k < length str)%nat ∧ write j (zlen str - Z.of_nat k) ≤ 0).
Proof.
  intros Hk. revert i total out. induction fuel as [|fuel IH]; intros i total out Ht Hf Hout; cbn [Swrite.loop];
    destruct (Z.ltb_spec total (zlen str)) as [Hlt|Hge]; try lia;
    try (apply wp_ok; left; subst out; split; [done|]; apply take_ge; unfold zlen in *; lia).
  cbv zeta. set (n := write i (zlen str - total)). pose proof (Hk i (zlen str - total) ltac:(lia)) as Hn. fold n in Hn.
  destruct (Z.leb_spec n 0) as [Hle|Hpos].
  - apply wp_ok. right. split; [done|]. exists (Z.to_nat total), i. split_and!; [done|unfold zlen in *; lia|].
    by rewrite Z2Nat.id by lia.
  - apply IH; [lia|lia|]. subst out. replace (Z.to_nat (total + n)) with (Z.to_nat total + Z.to_nat n)%nat by lia.
    apply take_take_drop.
Qed.

(** [swrite] ends; it returns zero when it has written the whole string,
    every octet once and in order, however the kernel splits it, and minus
    one with a proper prefix written when a call wrote nothing. *)
Theorem swrite_writes_all write str : honest_kernel write →
  safe (Swrite.swrite write str (-1)) (fun '(ret, out) =>
    ret = 0 ∧ out = str
    ∨ ret = -1 ∧ ∃ k j, out = take k str ∧ (k < length str)%nat ∧ write j (zlen str - Z.of_nat k) ≤ 0).
Proof.
  intros Hk. unfold Swrite.swrite. change (0 <=? -1) with false. pose proof (zlen_nonneg str). apply loop_spec; [done|lia|lia|done].
Qed.

Lemma swrite_writes_all_witness :
  Swrite.swrite (fun i n => Z.min n 2) [1; 2; 3; 4; 5] (-1) = Ok (0, [1; 2; 3; 4; 5])
  ∧ safe (Swrite.swrite (fun i n => Z.min n 2) [1; 2; 3; 4; 5] (-1)) (fun '(ret, out) =>
      ret = 0 ∧ out = [1; 2; 3; 4; 5] ∨ ret = -1 ∧ ∃ k (j : nat), out = take k [1; 2; 3; 4; 5] ∧ (k < 5)%nat
        ∧ Z.min (5 - Z.of_nat k) 2 ≤ 0).
Proof.
  split; [vm_compute; reflexivity|].
  exact (swrite_writes_all (fun i n => Z.min n 2) [1; 2; 3; 4; 5] ltac:(intros i n Hn; cbv beta; lia)).
Defined.

(** *** The bursts of [sproutbt2] *)

(** Full packets that announce the next at once, then the last one *)
Lemma first_timestamp clock : ∃ ts, Timestamp.frozen_timestamp (Some clock) Timestamp.initial = (1000, ts) ∧ Timestamp.timestamp ts = 1000.
Proof.
  destruct clock as [sec nsec]. unfold Timestamp.frozen_timestamp.
  change (Timestamp.millis_cache Timestamp.initial =? u64 (-1)) with true. unfold Timestamp.freeze_timestamp, Timestamp.timestamp.
  cbv zeta. cbn [Timestamp.millis_cache Timestamp.millis_offset]. generalize (Z.quot nsec 1000000 + u64 sec * 1000). intros x.
  assert (u64 (u64 x - u64 (u64 x - 1000)) = 1000) as Ht.
  { unfold uwrap. rewrite Zminus_mod_idemp_r. by replace (x mod 2 ^ 64 - (x mod 2 ^ 64 - 1000)) with 1000 by lia. }
  rewrite Ht. eexists. split; [done|exact Ht].
Qed.

Definition burst_shape (fallback bytes : Z) (l : list (Z * Z)) : Prop :=
  ∃ full size, l = replicate full (1440, 0) ++ [(size, fallback)]
    ∧ bytes = 1440 * Z.of_nat full + size ∧ 0 ≤ size ≤ 1440 ∧ (0 < bytes → 0 < size).

Lemma burst_spec fuel fallback bytes : 0 ≤ bytes < 2 ^ 31 → (Z.to_nat (bytes / 1440) < fuel)%nat →
  safe (Sproutbt2.burst fuel fallback bytes) (burst_shape fallback bytes).
Proof.
  revert bytes. induction fuel as [|fuel IH]; intros bytes Hb Hf; [lia|]. cbn [Sproutbt2.burst].
  rewrite to_int_small by lia. rewrite (proj2 (Z.leb_le _ _)) by lia. cbn [assert_that mbind result_bind].
  rewrite (proj2 (Z.ltb_ge _ 0)) by lia. destruct (Z.ltb_spec 0 (bytes - Z.min 1440 bytes)) as [Hmore|Hlast].
  - replace (Z.min 1440 bytes) with 1440 by lia. rewrite (proj2 (Z.eqb_neq _ _)) by lia.
    apply wp_bind. eapply wp_weaken; [apply IH; [lia|]|].
    + replace bytes with (bytes - 1440 + 1 * 1440) in Hf by lia. rewrite Z.div_add in Hf by lia.
      pose proof (Z.div_pos (bytes - 1440) 1440). lia.
    + intros l (full & size & -> & Hsum & Hsize & Hpos). apply wp_ok. exists (S full), size.
      split; [done|]. lia.
  - rewrite (proj2 (Z.eqb_eq _ _)) by lia. apply wp_ok. exists 0%nat, bytes. rewrite Z.min_r by lia.
    split; [done|]. lia.
Qed.

Section round.
Context `{model : DeliveryModel, !DeliveryLaws, ForecastCodec}.

Lemma to_int_range n : - 2 ^ 31 ≤ to_int n < 2 ^ 31.
Proof. unfold to_int. pose proof (Z.mod_pos_bound (n + 2 ^ 31) (2 ^ 32)). lia. Qed.

Lemma to_int_fold (q : list (list Z * Z)) n : - 2 ^ 31 ≤ n < 2 ^ 31 →
  - 2 ^ 31 ≤ fold_left (fun n '(d, _) => to_int (n - zlen d)) q n < 2 ^ 31.
Proof.
  revert n. induction q as [|[d t] q IH]; intros n Hn; [done|]. cbn [fold_left]. apply IH, to_int_range.
Qed.

Lemma window_nonneg now s :
  wp not_fuel (SproutConnection.window_size now s) (fun '(w, s') => 0 ≤ w < 2 ^ 31 ∧ keeps_queue s s').
Proof.
  unfold SproutConnection.window_size. apply wp_bind. eapply wp_weaken; [apply decrement_spec|].
  intros s1 Hs1. do 2 (apply wp_bind; eapply wp_weaken; [apply vec_get_fuel|]; intros ? _). split; [|exact Hs1].
  match goal with |- context [fold_left _ ?q (to_int ?n)] => pose proof (to_int_fold q (to_int n) (to_int_range n)) as Hr end.
  set (m := fold_left _ _ _) in *. destruct (Z.ltb_spec m 0); lia.
Qed.

Lemma send_all_spec now sendto (packets : list (Z * Z)) s : 0 ≤ now < 2 ^ 63 → clock_ok s →
  wp not_fuel (for_each packets
    (fun '(size, ttn) s => '(_, s) ← SproutConnection.send now sendto (replicate (Z.to_nat size) 120) ttn s; Ok s) s) clock_ok.
Proof.
  intros Hnow. revert s. induction packets as [|[size ttn] packets IH]; intros s Hs; cbn [for_each]; [done|].
  apply wp_bind. apply wp_bind. eapply wp_weaken; [by apply send_spec|]. intros [d s1] [_ Hc]. apply wp_ok. by apply IH, Hc.
Qed.

(** A round of [sproutbt2] ends: a client sends as many octets as the
    window of the connection allows, in packets of 1440 octets of which only
    the last announces a pause; a server, or a client with a closed window
    whose time has come, sends one empty packet; and the next transmission
    is at least an interval away. *)
Theorem sproutbt2_fills_window now sendto server next s : 0 ≤ now < 2 ^ 63 → clock_ok s →
  wp not_fuel (Sproutbt2.send_round now sendto server next s) (fun '(packets, next', s') => clock_ok s' ∧
    ∃ w, (fst <$> SproutConnection.window_size now s) = Ok w ∧
      let bytes := if server then 0 else w in
      if (0 <? bytes) || (next <=? now)
      then burst_shape (Sproutbt2.fallback server) bytes packets ∧ next' = Z.max (now + Sproutbt2.fallback server) next
      else packets = [] ∧ next' = next).
Proof.
  intros Hnow Hs. unfold Sproutbt2.send_round. pose proof (window_nonneg now s) as Hw.
  destruct (SproutConnection.window_size now s) as [[w s1]|f]; [|exact Hw]. destruct Hw as [Hw [_ Hc]]. specialize (Hc Hs).
  cbn [mbind result_bind]. cbv zeta. set (bytes := if server then 0 else w).
  assert (0 ≤ bytes < 2 ^ 31) as Hb by (subst bytes; destruct server; lia).
  destruct ((0 <? bytes) || (next <=? now)) eqn:Hsend.
  - apply wp_bind. eapply safe_wp; [apply (burst_spec (Sproutbt2.burst_fuel bytes)); [done|unfold Sproutbt2.burst_fuel; lia]|].
    intros packets Hp. apply wp_bind. eapply wp_weaken; [by apply send_all_spec|]. intros s2 Hs2. apply wp_ok.
    split; [done|]. exists w. split; [done|]. fold bytes. rewrite Hsend. split; [done|].
    assert (u64 (now + Sproutbt2.fallback server) = now + Sproutbt2.fallback server) as ->; [|done].
    apply uwrap_small. unfold Sproutbt2.fallback. destruct server; lia.
  - apply wp_ok. split; [done|]. exists w. split; [done|]. fold bytes. by rewrite Hsend.
Qed.
End round.

#[local] Existing Instance still_model.
#[local] Existing Instance still_laws.
#[local] Existing Instance forecast_codec.

Definition sample_bulk : SproutConnection.t :=
  SproutConnection.mk (Connection.make_client tt 1000 (1, 2)) 0 1000 true 0 0 (mkForecast 0 1000 [0; 0; 0; 0; 0; 2]) [].

Lemma sproutbt2_fills_window_witness : ∃ packets next' s',
  Sproutbt2.send_round 1000 (fun _ => true) false 1040 sample_bulk = Ok (packets, next', s')
  ∧ packets = [(1440, 0); (1440, 50)] ∧ burst_shape 50 2880 packets ∧ next' = 1050.
Proof.
  pose proof (sproutbt2_fills_window 1000 (fun _ => true) false 1040 sample_bulk) as H.
  assert (0 ≤ 1000 < 2 ^ 63) as H1 by (split; [discriminate|reflexivity]).
  assert (clock_ok sample_bulk) as H2 by (vm_compute; discriminate). specialize (H H1 H2).
  destruct (Sproutbt2.send_round 1000 (fun _ => true) false 1040 sample_bulk) as [[[packets next'] s']|f] eqn:E.
  - destruct H as (_ & w & Hw & H).
    assert ((fst <$> SproutConnection.window_size 1000 sample_bulk) = Ok 2880) as Hw' by (vm_compute; reflexivity).
    rewrite Hw' in Hw. injection Hw as <-. exists packets, next', s'. split; [reflexivity|].
    split; [|exact H].
    assert ((fun r => fst (fst r)) <$> Sproutbt2.send_round 1000 (fun _ => true) false 1040 sample_bulk
      = Ok [(1440, 0); (1440, 50)]) as Hp by (vm_compute; reflexivity).
    rewrite E in Hp. by injection Hp.
  - exfalso. assert ((fun _ => tt) <$> Sproutbt2.send_round 1000 (fun _ => true) false 1040 sample_bulk = Ok tt) as Hp
      by (vm_compute; reflexivity).
    rewrite E in Hp. discriminate Hp.
Defined.
End UtilitiesTheorems.
