(* ===== verification/SelectLoop.v ===== *)
(** * The wrapper of [pselect]

    Class [Select] of [src/alfalfa/src/util/select.{h,cc}]: the descriptors
    that are watched, those that were ready in the last call, the signals
    that came during it, and the clock it freezes.  The kernel's answer to
    [pselect], with the signals whose handlers it runs, is an argument. *)

From S2P Require Import Prelude Utilities.

Module Select.

Definition MAX_SIGNAL_NUMBER : Z := 64.

(** The size of an [fd_set]; [FD_SET] of another descriptor writes outside
    it. *)
Definition FD_SETSIZE : Z := 1024.

Record t : Set := mk {
  max_fd : Z;
  got_any_signal : Z;
  got_signal : list Z;
  all_fds : gset Z;
  read_fds : gset Z;
  error_fds : gset Z;
  clock : Timestamp.t }.

Definition no_signal : list Z := replicate (Z.to_nat (MAX_SIGNAL_NUMBER + 1)) 0.

Definition make (c : Timestamp.t) : t := mk (-1) 0 no_signal ∅ ∅ ∅ c.

Definition fd_ok (fd : Z) : bool := (0 <=? fd) && (fd <? FD_SETSIZE).

Definition add_fd (fd : Z) (s : t) : result t :=
  let m := if max_fd s <? fd then fd else max_fd s in
  if fd_ok fd
  then Ok (mk m (got_any_signal s) (got_signal s) ({[fd]} ∪ all_fds s) (read_fds s) (error_fds s) (clock s))
  else Fault OutOfRange.

Definition signal_ok (signum : Z) : result unit :=
  assert_that (0 <=? signum) "signum >= 0";;
  assert_that (signum <=? MAX_SIGNAL_NUMBER) "signum <= MAX_SIGNAL_NUMBER".

(** [blocked], [installed]: whether [sigprocmask] and [sigaction] succeed *)
Definition add_signal (signum : Z) (blocked installed : bool) : result unit :=
  signal_ok signum;;
  assert_that blocked "0 == sigprocmask( SIG_BLOCK, &to_block, NULL )";;
  assert_that installed "0 == sigaction( signum, &sa, NULL )".

Definition handle_signal (signum : Z) (s : t) : result t :=
  signal_ok signum;;
  g ← vec_set (got_signal s) signum 1;
  Ok (mk (max_fd s) 1 g (all_fds s) (read_fds s) (error_fds s) (clock s)).

(** What [pselect] does with the sets: descriptors are ready, a signal
    interrupts it, or it fails and leaves the sets alone. *)
Inductive outcome : Set :=
  | Ready (n : Z) (read error : gset Z)
  | Interrupted
  | Failed.

(** The arguments of the call, and its answer with the signals handled *)
Definition kernel : Type := Z → gset Z → gset Z → option (Z * Z) → outcome * list Z.

Definition timespec (timeout : Z) : option (Z * Z) :=
  if 0 <=? timeout then Some (Z.quot timeout 1000, 1000000 * Z.rem timeout 1000) else None.

Definition select (pselect : kernel) (now : option (Z * Z)) (timeout : Z) (s : t) : result (Z * t) :=
  let s := mk (max_fd s) 0 no_signal (all_fds s) (all_fds s) (all_fds s) (clock s) in
  let '(o, signals) := pselect (max_fd s + 1) (read_fds s) (error_fds s) (timespec timeout) in
  s ← for_each signals handle_signal s;
  let '(ret, r, e) :=
    match o with
    | Ready n r e => (n, r, e)
    | Interrupted => (0, ∅, ∅)
    | Failed => (-1, read_fds s, error_fds s)
    end in
  Ok (ret, mk (max_fd s) (got_any_signal s) (got_signal s) (all_fds s) r e (Timestamp.freeze_timestamp now (clock s))).

Definition read (fd : Z) (s : t) : result bool :=
  if fd_ok fd then Ok (bool_decide (fd ∈ read_fds s)) else Fault OutOfRange.

Definition error (fd : Z) (s : t) : result bool :=
  if fd_ok fd then Ok (bool_decide (fd ∈ error_fds s)) else Fault OutOfRange.

Definition signal (signum : Z) (s : t) : result bool :=
  signal_ok signum;;
  g ← vec_get (got_signal s) signum;
  Ok (negb (g =? 0)).

Definition any_signal (s : t) : bool := negb (got_any_signal s =? 0).

End Select.

(** ** Properties *)

Module SelectTheorems.
Import Select.

(** The descriptors watched are below [max_fd + 1], and there is a flag for
    every signal. *)
Record wf (s : t) : Prop := mkWf {
  wf_fds fd : fd ∈ all_fds s → 0 ≤ fd < FD_SETSIZE ∧ fd ≤ max_fd s;
  wf_signals : zlen (got_signal s) = MAX_SIGNAL_NUMBER + 1 }.

Lemma wf_make c : wf (make c).
Proof. constructor; [intros fd Hfd; by apply elem_of_empty in Hfd|done]. Qed.

Lemma add_fd_wf fd s : wf s → 0 ≤ fd < FD_SETSIZE → safe (add_fd fd s) (fun s' => wf s' ∧ all_fds s' = {[fd]} ∪ all_fds s).
Proof.
  intros [Hf Hs] Hfd. unfold add_fd, fd_ok. rewrite (proj2 (Z.leb_le _ _)), (proj2 (Z.ltb_lt _ _)) by lia. cbn [andb].
  split; [|done]. constructor; cbn; [|done]. intros k [->%elem_of_singleton|Hk]%elem_of_union.
  - destruct (Z.ltb_spec (max_fd s) fd); lia.
  - destruct (Hf k Hk). destruct (Z.ltb_spec (max_fd s) fd); lia.
Qed.

Lemma add_fd_inv fd s s' : wf s → add_fd fd s = Ok s' → wf s' ∧ 0 ≤ fd < FD_SETSIZE ∧ clock s' = clock s.
Proof.
  intros Hs Ha. assert (0 ≤ fd < FD_SETSIZE) as Hfd.
  { unfold add_fd, fd_ok in Ha. destruct (_ && _) eqn:Hr; [lia|done]. }
  pose proof (add_fd_wf fd s Hs Hfd) as Hw. rewrite Ha in Hw. destruct Hw as [Hw _]. conjs; try done; try lia.
  unfold add_fd in Ha. destruct (fd_ok fd); by simplify_eq.
Qed.

(** What a handler leaves alone, and what it notes *)
Definition noted (signals : list Z) (s s' : t) : Prop :=
  zlen (got_signal s') = MAX_SIGNAL_NUMBER + 1
  ∧ (max_fd s', all_fds s', read_fds s', error_fds s', clock s') = (max_fd s, all_fds s, read_fds s, error_fds s, clock s)
  ∧ any_signal s' = bool_decide (signals ≠ [])
  ∧ ∀ k, 0 ≤ k ≤ MAX_SIGNAL_NUMBER → vec_get (got_signal s') k = Ok (if decide (k ∈ signals) then 1 else 0).

Definition signum_ok (k : Z) : Prop := 0 ≤ k ≤ MAX_SIGNAL_NUMBER.

Lemma vec_get_insert {A} (l : list A) i j x : 0 ≤ i < zlen l → 0 ≤ j →
  vec_get (<[Z.to_nat i := x]> l) j = if decide (j = i) then Ok x else vec_get l j.
Proof.
  intros Hi Hj. unfold vec_get. rewrite (proj2 (Z.ltb_ge _ _)) by lia. destruct (decide (j = i)) as [->|Hne].
  - rewrite list_lookup_insert_eq by (unfold zlen in Hi; lia). done.
  - rewrite list_lookup_insert_ne by lia. done.
Qed.

Lemma handle_all signals s : Forall signum_ok signals → zlen (got_signal s) = MAX_SIGNAL_NUMBER + 1 →
  got_any_signal s = 0 → (∀ k, signum_ok k → vec_get (got_signal s) k = Ok 0) →
  safe (for_each signals handle_signal s) (noted signals s).
Proof.
  intros Hok Hl Ha H0.
  assert (∀ l pre s1, Forall signum_ok l → noted pre s s1 → safe (for_each l handle_signal s1) (noted (pre ++ l) s)) as Hall.
  { intros l. induction l as [|k l IH]; intros pre s1 Hf Hn; cbn [for_each]; [by rewrite app_nil_r|].
    apply Forall_cons in Hf as [Hk Hf]. destruct Hn as (Hl1 & Hrest & _ & Hg). unfold signum_ok in Hk.
    apply wp_bind. unfold handle_signal, signal_ok. rewrite !(proj2 (Z.leb_le _ _)) by lia. cbn [assert_that mbind result_bind].
    rewrite vec_set_Ok by lia. cbn [mbind result_bind]. apply wp_ok.
    replace (pre ++ k :: l) with ((pre ++ [k]) ++ l) by by rewrite <- app_assoc. apply IH; [done|].
    split_and!; cbn; [unfold zlen; by rewrite length_insert|done|by destruct pre|].
    intros j Hj. rewrite vec_get_insert, Hg by lia.
    destruct (decide (j = k)) as [->|Hne].
    - rewrite decide_True; [done|]. set_solver.
    - destruct (decide (j ∈ pre)); [rewrite decide_True; [done|set_solver]|rewrite decide_False; [done|set_solver]]. }
  apply (Hall signals [] s Hok). split_and!; [done|done|unfold any_signal; by rewrite Ha|].
  intros k Hk. rewrite decide_False by apply not_elem_of_nil. by apply H0.
Qed.

(** A call watches every descriptor that was added, for the given time;
    afterwards [read] and [error] answer what the kernel reported in this
    call, nothing when a signal interrupted it, [signal] and [any_signal]
    report the signals of this call and of no other, and the clock is
    frozen. *)
Theorem select_reports (pselect : kernel) now timeout s :
  wf s → let '(o, signals) := pselect (max_fd s + 1) (all_fds s) (all_fds s) (timespec timeout) in
  Forall signum_ok signals →
  (∀ fd, fd ∈ all_fds s → 0 ≤ fd < max_fd s + 1)
  ∧ (∀ sec nsec, timespec timeout = Some (sec, nsec) → 1000 * sec + nsec / 1000000 = timeout ∧ 0 ≤ nsec < 10 ^ 9)
  ∧ safe (select pselect now timeout s) (fun '(ret, s') =>
      wf s' ∧ all_fds s' = all_fds s ∧ clock s' = Timestamp.freeze_timestamp now (clock s)
      ∧ any_signal s' = bool_decide (signals ≠ [])
      ∧ (∀ k, signum_ok k → signal k s' = Ok (bool_decide (k ∈ signals)))
      ∧ ∀ fd, 0 ≤ fd < FD_SETSIZE → match o with
          | Ready n r e => ret = n ∧ read fd s' = Ok (bool_decide (fd ∈ r)) ∧ error fd s' = Ok (bool_decide (fd ∈ e))
          | Interrupted => ret = 0 ∧ read fd s' = Ok false ∧ error fd s' = Ok false
          | Failed => ret = -1
          end).
Proof.
  intros [Hf Hs]. destruct (pselect _ _ _ _) as [o signals] eqn:Hp. intros Hok. split_and!.
  - intros fd Hfd. destruct (Hf fd Hfd). lia.
  - unfold timespec. intros sec nsec. destruct (Z.leb_spec 0 timeout) as [Ht|]; [|done]. intros [= <- <-].
    rewrite Z.quot_div_nonneg, Z.rem_mod_nonneg by lia. rewrite (Z.mul_comm 1000000), Z.div_mul by lia.
    pose proof (Z.mod_pos_bound timeout 1000). Z.div_mod_to_equations; lia.
  - unfold select. cbn [max_fd read_fds error_fds]. rewrite Hp. apply wp_bind.
    eapply wp_weaken; [apply (handle_all signals); [done|done|done|]|].
    { intros k Hk. unfold vec_get. rewrite (proj2 (Z.ltb_ge _ _)) by (unfold signum_ok in Hk; lia). cbn [got_signal].
      unfold no_signal. rewrite lookup_replicate_2; [done|]. unfold signum_ok in Hk. lia. }
    intros s1 (Hl1 & Hrest & Hany & Hg). cbn in Hrest. injection Hrest as Hm Hall Hr He Hc.
    destruct (match o with Ready n r e => _ | _ => _ end) as [[ret r] e] eqn:Ho. apply wp_ok. split_and!.
    + constructor; cbn; rewrite ?Hall, ?Hm; [exact Hf|done].
    + done.
    + cbn. by rewrite Hc.
    + exact Hany.
    + intros k Hk. unfold signal, signal_ok. unfold signum_ok in Hk. rewrite !(proj2 (Z.leb_le _ _)) by lia.
      cbn [assert_that mbind result_bind got_signal]. rewrite Hg by done. cbn [mbind result_bind].
      destruct (decide (k ∈ signals)); [by rewrite bool_decide_eq_true_2|by rewrite bool_decide_eq_false_2].
    + intros fd Hfd. unfold read, error, fd_ok. rewrite (proj2 (Z.leb_le _ _)), (proj2 (Z.ltb_lt _ _)) by lia. cbn [andb].
      by destruct o; injection Ho as <- <- <-.
Qed.
End SelectTheorems.
