(* ===== verification/NetworkBind.v ===== *)
(** * How a connection comes about

    The constructors of [Connection] in [src/alfalfa/src/network/network.cc]
    with [setup] and [try_bind]: the server's choice of an address and a port
    to listen on, and the client's that is told about them.  The answers of
    the system are the members of a [system]. *)

From S2P Require Import Prelude Octets TerminalDispatcher DispatcherProps CryptoOcb CryptoProps CryptoRoundtrip CryptoKeys NetworkConnection ConnectionProps.

(** ** [inet_aton] of the C library *)

Module InetAddr.
Import Strtol.

Definition is_octal (c : Z) : bool := (48 <=? c) && (c <=? 55).

Definition hex_value (c : Z) : option Z :=
  if is_digit c then Some (c - 48)
  else if (97 <=? c) && (c <=? 102) then Some (c - 87)
  else if (65 <=? c) && (c <=? 70) then Some (c - 55)
  else None.

Definition is_hex (c : Z) : bool := match hex_value c with Some _ => true | None => false end.

Definition number (base : Z) (digits : list Z) : Z :=
  fold_left (fun acc c => base * acc + default 0 (hex_value c)) digits 0.

(** [strtoul( s, &end, 0 )] of a string that begins with a digit, before it
    is limited to 64 bits: the number and what [end] points to *)
Definition strtoul (s : list Z) : Z * list Z :=
  let read base is_in s := let d := take_while is_in s in (number base d, drop (length d) s) in
  match s with
  | 48 :: x :: c :: s' => if ((x =? 120) || (x =? 88)) && is_hex c then read 16 is_hex (c :: s') else read 8 is_octal s
  | 48 :: _ => read 8 is_octal s
  | _ => read 10 is_digit s
  end.

(** One to four numbers with dots between: [dots], how many may follow;
    [res], the octets before.  The last number fills all octets left. *)
Fixpoint parts (dots : nat) (res : Z) (s : list Z) : option Z :=
  match s with
  | [] => None
  | c :: _ =>
      if negb (is_digit c) then None
      else
        let '(val, s) := strtoul s in
        let last :=
          if 2 ^ (8 * (Z.of_nat dots + 1)) <=? val then None else Some (res + val) in
        match s with
        | [] => last
        | 46 :: s =>
            match dots with
            | O => None
            | S dots => if 255 <? val then None else parts dots (res + val * 2 ^ (8 * (Z.of_nat dots + 1))) s
            end
        | c :: _ => if is_space c then last else None
        end
  end.

(** The address, most significant octet first *)
Definition inet_aton (s : list Z) : option Z := parts 3 0 s.
End InetAddr.

(** ** The constructors *)

Module ConnectionSetup.
Import Strtol InetAddr.

Definition INADDR_ANY : Z := 0.
Definition PORT_RANGE_LOW : Z := 60001.
Definition PORT_RANGE_HIGH : Z := 60999.

(** [/dev/urandom], whether [socket] and [setsockopt] of [IP_MTU_DISCOVER]
    succeed, and whether the [i]-th call of [bind] for an address and a port
    does *)
Record system : Type := mkSystem {
  urandom : bool * option (list Z) * bool;
  socket : bool;
  mtu_discover : bool;
  bind : nat → Z * Z → bool }.

Section setup.
Context `{DeliveryModel, Base64}.

Definition setup (sys : system) (now : Z) (c : Connection.t) : result Connection.t :=
  if negb (socket sys) then Fault (Thrown "socket")
  else
    let c := Connection.setup now c in
    if negb (mtu_discover sys) then Fault (Thrown "setsockopt") else Ok c.

(** The search of [try_bind] from port [i] on, after [n] calls of [bind];
    [None], the exception *)
Fixpoint search (fuel : nat) (sys : system) (n : nat) (addr i search_high : Z) : result (nat * option Z) :=
  if i <=? search_high then
    match fuel with
    | O => Fault OutOfFuel
    | S fuel =>
        if bind sys n (addr, i) then Ok (S n, Some i)
        else if i =? search_high then Ok (S n, None)
        else search fuel sys (S n) addr (i + 1) search_high
    end
  else Fault (AssertFailed "false").

Definition search_range (port : Z) : Z * Z :=
  if negb (port =? 0) then (port, port) else (PORT_RANGE_LOW, PORT_RANGE_HIGH).

Definition try_bind (sys : system) (n : nat) (addr port : Z) : result (nat * option Z) :=
  let '(search_low, search_high) := search_range port in
  search (Z.to_nat (search_high - search_low + 1)) sys n addr search_low search_high.

Definition port_number (desired_port : option (list Z)) : result Z :=
  desired_port_no ←
    match desired_port with
    | None => Ok 0
    | Some s =>
        let '(v, consumed, erange) := strtol s in
        if erange || negb (consumed =? zlen s) then Fault (Thrown "Invalid port number") else Ok v
    end;
  if (desired_port_no <? 0) || (65535 <? desired_port_no)
  then Fault (Thrown "Port number outside valid range [0..65535]")
  else Ok desired_port_no.

Definition ip_number (desired_ip : option (list Z)) : result Z :=
  match desired_ip with
  | None => Ok INADDR_ANY
  | Some s => match inet_aton s with None => Fault (Thrown "Invalid IP address") | Some a => Ok a end
  end.

(** The address and the port that the server is bound to *)
Definition bind_server (sys : system) (desired_ip_addr desired_port_no : Z) : result (Z * Z) :=
  '(n, bound) ← (if negb (desired_ip_addr =? INADDR_ANY) then try_bind sys 0 desired_ip_addr desired_port_no
                 else Ok (O, None));
  match bound with
  | Some port => Ok (desired_ip_addr, port)
  | None =>
      '(_, bound) ← try_bind sys n INADDR_ANY desired_port_no;
      match bound with
      | Some port => Ok (INADDR_ANY, port)
      | None => Fault (Thrown "bind")
      end
  end.

(** The server: its key, what it is bound to, and the connection *)
Definition server (sys : system) (p : process) (now : Z) (desired_ip desired_port : option (list Z))
    : result (Base64Key.t * (Z * Z) * Connection.t) :=
  let '(opened, octets, closed) := urandom sys in
  key ← Base64Key.random opened octets closed;
  c ← setup sys now (Connection.make_server p now);
  desired_port_no ← port_number desired_port;
  desired_ip_addr ← ip_number desired_ip;
  bound ← bind_server sys desired_ip_addr desired_port_no;
  Ok (key, bound, c).

Definition client (sys : system) (p : process) (now : Z) (key_str ip : list Z) (port : Z)
    : result (Base64Key.t * Connection.t) :=
  key ← Base64Key.make key_str;
  match inet_aton ip with
  | None => _ ← setup sys now (Connection.make_client p now (0, u16 port)); Fault (Thrown "Bad IP address")
  | Some a => c ← setup sys now (Connection.make_client p now (a, u16 port)); Ok (key, c)
  end.
End setup.
End ConnectionSetup.

(** ** Properties *)

Module SetupTheorems.
Import ConnectionSetup InetAddr KeyTheorems CryptoMessages.

(** *** The addresses that are tried, in order *)

Definition ports (port : Z) : list Z := let '(low, high) := search_range port in seqZ low (high - low + 1).

Definition candidates (addr port : Z) : list (Z * Z) :=
  (if addr =? INADDR_ANY then [] else pair addr <$> ports port) ++ (pair INADDR_ANY <$> ports port).

(** The first of them for which [bind] succeeds, the [n]-th call being for
    the first *)
Fixpoint first_bound (bind : nat → Z * Z → bool) (n : nat) (l : list (Z * Z)) : option (Z * Z) :=
  match l with
  | [] => None
  | a :: l => if bind n a then Some a else first_bound bind (S n) l
  end.

Lemma first_bound_app bind n l1 l2 :
  first_bound bind n (l1 ++ l2) =
    match first_bound bind n l1 with Some a => Some a | None => first_bound bind (n + length l1) l2 end.
Proof.
  revert n. induction l1 as [|a l1 IH]; intros n; cbn; [by rewrite Nat.add_0_r|].
  destruct (bind n a); [done|]. rewrite IH. by replace (S n + length l1)%nat with (n + S (length l1))%nat by lia.
Qed.

Lemma first_bound_elem bind n l a : first_bound bind n l = Some a → a ∈ l.
Proof.
  revert n. induction l as [|b l IH]; intros n; cbn; [done|]. destruct (bind n b); [intros [= ->]; by left|].
  intros Hb. right. by eapply IH.
Qed.

Lemma search_first sys addr high : ∀ fuel n i, i ≤ high → Z.to_nat (high - i + 1) = fuel →
  let found := snd <$> first_bound (bind sys) n (pair addr <$> seqZ i (high - i + 1)) in
  ∃ n', search fuel sys n addr i high = Ok (n', found) ∧ (found = None → n' = (n + fuel)%nat).
Proof.
  induction fuel as [|fuel IH]; intros n i Hi Hf; [lia|]. cbv zeta. cbn [search].
  rewrite (proj2 (Z.leb_le _ _)) by done. rewrite seqZ_cons by lia. cbn [fmap list_fmap first_bound].
  destruct (bind sys n (addr, i)); [by exists (S n)|]. destruct (i =? high) eqn:Hih.
  - apply Z.eqb_eq in Hih. subst i. replace (Z.pred (high - high + 1)) with 0 by lia. exists (S n). split; [done|]. intros _. lia.
  - destruct (IH (S n) (i + 1)) as (n' & Hs & Hn'); [lia|lia|]. rewrite Hs.
    replace (Z.succ i) with (i + 1) by lia. replace (Z.pred (high - i + 1)) with (high - (i + 1) + 1) by lia.
    exists n'. split; [done|]. intros Hno. rewrite (Hn' Hno). lia.
Qed.

Lemma range_ok port : 0 ≤ port → let '(low, high) := search_range port in low ≤ high.
Proof. unfold search_range, PORT_RANGE_LOW, PORT_RANGE_HIGH. destruct (port =? 0); cbn; lia. Qed.

Lemma try_bind_first sys n addr port : 0 ≤ port →
  let found := snd <$> first_bound (bind sys) n (pair addr <$> ports port) in
  ∃ n', try_bind sys n addr port = Ok (n', found) ∧ (found = None → n' = (n + length (ports port))%nat).
Proof.
  intros Hp. unfold try_bind, ports. pose proof (range_ok port Hp) as Hr. destruct (search_range port) as [low high].
  destruct (search_first sys addr high _ n low Hr eq_refl) as (n' & Hs & Hn'). exists n'. split; [done|].
  by rewrite length_seqZ.
Qed.

Lemma first_bound_addr bind n addr l a : first_bound bind n (pair addr <$> l) = Some a → a = (addr, snd a).
Proof. intros Hb%first_bound_elem. apply list_elem_of_fmap in Hb as (x & -> & _). done. Qed.

Lemma bind_server_first sys addr port : 0 ≤ port →
  bind_server sys addr port =
    match first_bound (bind sys) 0 (candidates addr port) with Some a => Ok a | None => Fault (Thrown "bind") end.
Proof.
  intros Hp. unfold bind_server, candidates.
  assert (∀ n, ('(_, bound) ← try_bind sys n INADDR_ANY port;
     match bound with Some port => Ok (INADDR_ANY, port) | None => Fault (Thrown "bind") end)
   = match first_bound (bind sys) n (pair INADDR_ANY <$> ports port) with Some a => Ok a | None => Fault (Thrown "bind") end) as Hany.
  { intros n. destruct (try_bind_first sys n INADDR_ANY port Hp) as (n' & -> & _). cbn [mbind result_bind].
    destruct (first_bound _ n _) as [a|] eqn:Hb; [|done]. cbn. by rewrite (first_bound_addr _ _ _ _ _ Hb). }
  destruct (addr =? INADDR_ANY); cbn [negb mbind result_bind]; [exact (Hany 0%nat)|].
  destruct (try_bind_first sys 0 addr port Hp) as (n & -> & Hn). cbn [mbind result_bind]. rewrite first_bound_app.
  destruct (first_bound _ 0 (pair addr <$> _)) as [a|] eqn:Hb; cbn [fmap option_fmap option_map].
  - by rewrite (first_bound_addr _ _ _ _ _ Hb).
  - rewrite Hany, (Hn eq_refl), length_fmap. done.
Qed.

Lemma port_number_cases port :
  match port_number port with
  | Ok v => 0 ≤ v ≤ 65535
  | Fault f => f = Thrown "Invalid port number" ∨ f = Thrown "Port number outside valid range [0..65535]"
  end.
Proof.
  unfold port_number. set (m := match port with None => _ | Some _ => _ end).
  assert (match m with Ok _ => True | Fault f => f = Thrown "Invalid port number" end) as Hm.
  { unfold m. destruct port as [s|]; [|done]. destruct (Strtol.strtol s) as [[v c] e]. by destruct (_ || _). }
  destruct m as [v|]; cbn [mbind result_bind]; [|by left]. destruct (_ || _) eqn:Hr; [by right|lia].
Qed.

Lemma port_number_decimal n : 0 ≤ n → n ≤ 65535 → port_number (Some (decimal n)) = Ok n.
Proof.
  intros Hn Hle. unfold port_number. rewrite DispatcherLemmas.strtol_decimal by (unfold Strtol.LONG_MAX; lia).
  rewrite Z.eqb_refl. cbn. by replace ((n <? 0) || (65535 <? n)) with false by lia.
Qed.

(** *** What the constructors do *)

Section setup.
Context `{DeliveryModel, Base64}.

Lemma setup_eq sys now c c' : setup sys now c = Ok c' → c' = Connection.setup now c.
Proof. unfold setup. destruct (socket sys), (mtu_discover sys); try done. by intros [= <-]. Qed.

(** The connections that the constructors make *)
Lemma server_eq sys p now ip port k bound c : server sys p now ip port = Ok (k, bound, c) → c = Connection.make_server p now.
Proof.
  unfold server. destruct (urandom sys) as [[o oct] cl].
  destruct (Base64Key.random _ _ _); [|done]. cbn [mbind result_bind].
  destruct (setup _ _ _) as [c'|] eqn:Es; [|done]. cbn [mbind result_bind].
  destruct (port_number port); [|done]. cbn [mbind result_bind].
  destruct (ip_number ip); [|done]. cbn [mbind result_bind].
  destruct (bind_server _ _ _); [|done]. cbn [mbind result_bind]. intros [= <- <- <-].
  by rewrite (setup_eq _ _ _ _ Es).
Qed.

Lemma client_eq sys p now key ip port k c : client sys p now key ip port = Ok (k, c) →
  ∃ a, c = Connection.make_client p now (a, u16 port).
Proof.
  unfold client. destruct (Base64Key.make key) as [key_|]; [|done]. cbn [mbind result_bind].
  destruct (inet_aton ip) as [addr|]; destruct (setup _ _ _) as [c'|] eqn:Es; try done. cbn [mbind result_bind].
  intros [= <- <-]. exists addr. by rewrite (setup_eq _ _ _ _ Es).
Qed.

Context `{!Base64Laws}.

Lemma server_runs sys p now ip port key : urandom sys = (true, Some key, true) → socket sys = true → mtu_discover sys = true →
  server sys p now ip port =
    n ← port_number port; a ← ip_number ip; bound ← bind_server sys a n; Ok (key, bound, Connection.make_server p now).
Proof. intros Hu Hs Hm. unfold server, setup. by rewrite Hu, Hs, Hm. Qed.

Lemma candidates_elem addr port a q : 0 ≤ port → (a, q) ∈ candidates addr port →
  (a = addr ∨ a = INADDR_ANY) ∧ (if port =? 0 then PORT_RANGE_LOW ≤ q ≤ PORT_RANGE_HIGH else q = port).
Proof.
  intros Hp Hin. assert ((a = addr ∨ a = INADDR_ANY) ∧ q ∈ ports port) as [Ha Hq].
  { unfold candidates in Hin. apply elem_of_app in Hin as [Hin|Hin].
    - destruct (addr =? INADDR_ANY); [by apply not_elem_of_nil in Hin|].
      apply list_elem_of_fmap in Hin as (x & [= -> ->] & Hx). auto.
    - apply list_elem_of_fmap in Hin as (x & [= -> ->] & Hx). auto. }
  split; [done|]. unfold ports, search_range in Hq.
  destruct (port =? 0); cbn [negb] in Hq; apply elem_of_seqZ in Hq; unfold PORT_RANGE_LOW, PORT_RANGE_HIGH in *; lia.
Qed.

(** C37.  Setting up a connection.  Whatever the user asks for, and whatever
    [bind] answers, the server either is bound - to the address asked for or
    to any, at the port asked for or at one of the range, with the first
    [bind] that succeeded of all the candidates in order - or throws an
    exception; it fails no assertion.  It throws the exception of [bind] only
    when none of the candidates was free.  A client that is given the
    printable form of the server's key, an address and the port has the same
    key and sends there. *)
Theorem connection_setup sys p now ip port key :
  urandom sys = (true, Some key, true) → socket sys = true → mtu_discover sys = true → block_octets key →
  match server sys p now ip port with
  | Ok (k, (a, q), c) => k = key ∧ c = Connection.make_server p now
      ∧ ∃ n addr, port_number port = Ok n ∧ ip_number ip = Ok addr
      ∧ first_bound (bind sys) 0 (candidates addr n) = Some (a, q)
      ∧ (a = addr ∨ a = INADDR_ANY) ∧ (if n =? 0 then PORT_RANGE_LOW ≤ q ≤ PORT_RANGE_HIGH else q = n)
      ∧ ∃ letters, Base64Key.printable_key key = Ok letters
          ∧ ∀ p' now' text to, inet_aton text = Some to →
            ∃ c', client sys p' now' letters text q = Ok (key, c')
              ∧ Connection.has_remote_addr c' = true ∧ Connection.remote_addr c' = (to, q)
              ∧ Connection.server c' = false
  | Fault f => (∃ what, f = Thrown what)
      ∧ ∀ n addr, port_number port = Ok n → ip_number ip = Ok addr →
          f = Thrown "bind" ∧ first_bound (bind sys) 0 (candidates addr n) = None
  end
  ∧ (∀ n, 0 ≤ n ≤ 65535 → port_number (Some (decimal n)) = Ok n).
Proof.
  intros Hu Hs Hm Hk. split; [|intros n [Hn Hle]; by apply port_number_decimal].
  rewrite (server_runs _ _ _ _ _ key) by done. pose proof (port_number_cases port) as Hport.
  destruct (port_number port) as [n|f] eqn:Hpn; cbn [mbind result_bind]; cycle 1.
  { split; [destruct Hport; eauto|done]. }
  destruct (ip_number ip) as [addr|f] eqn:Hip; cbn [mbind result_bind]; cycle 1.
  { split; [|done]. unfold ip_number in Hip. destruct ip as [s|]; [|done]. destruct (inet_aton s); [done|].
    injection Hip as <-. eauto. }
  rewrite bind_server_first by lia. destruct (first_bound _ 0 _) as [[a q]|] eqn:Hb; cbn [mbind result_bind].
  - conjs; [done|done|]. exists n, addr. conjs; [done|done|done|..];
      [eapply (candidates_elem addr n); [lia|by eapply first_bound_elem]..|].
    exists (letters key). split; [by apply printable_letters|]. intros p' now' text to Hto.
    destruct (candidates_elem addr n a q) as [_ Hq]; [lia|by eapply first_bound_elem|].
    unfold client, setup. rewrite make_letters, Hto, Hs, Hm by done. cbn. eexists. split; [done|]. conjs; [done| |done].
    cbn. rewrite uwrap_small; [done|]. unfold PORT_RANGE_LOW, PORT_RANGE_HIGH in *. destruct (n =? 0); lia.
  - split; [eauto|]. intros n' addr' [= <-] [= <-]. done.
Qed.
End setup.

(** A host whose address 10.1.2.3 is not its own, and whose first two ports
    are taken *)
Definition busy : system :=
  mkSystem (true, Some (seqZ 200 16), true) true true (fun _ '(a, q) => (a =? INADDR_ANY) && (60003 <=? q)).

Lemma connection_setup_witness :
  match @server ConnectionTheorems.still_model busy tt 1000 (Some (bytes_of_string "10.1.2.3")) None with
  | Ok (k, bound, _) => k = seqZ 200 16 ∧ bound = (INADDR_ANY, 60003)
      ∧ ∃ c, @client ConnectionTheorems.still_model Rfc4648.base64 busy tt 7 (@letters Rfc4648.base64 k)
               (bytes_of_string "0x7f.1") 60003 = Ok (k, c)
          ∧ Connection.remote_addr c = (2130706433, 60003)
  | Fault _ => False
  end.
Proof.
  destruct (@connection_setup ConnectionTheorems.still_model Rfc4648.base64 Rfc4648.base64_laws busy tt 1000
    (Some (bytes_of_string "10.1.2.3")) None (seqZ 200 16)) as [Hserver _].
  - reflexivity.
  - reflexivity.
  - reflexivity.
  - split; [done|by repeat constructor].
  - assert (@server ConnectionTheorems.still_model busy tt 1000 (Some (bytes_of_string "10.1.2.3")) None
      = Ok (seqZ 200 16, (INADDR_ANY, 60003), @Connection.make_server ConnectionTheorems.still_model tt 1000)) as Hrun by (vm_compute; reflexivity).
    rewrite Hrun in *. split; [done|]. split; [done|].
    destruct Hserver as (_ & _ & n & addr & _ & _ & _ & _ & _ & l & Hl & Hclient).
    assert (l = @letters Rfc4648.base64 (seqZ 200 16)) as -> by (vm_compute in Hl; by injection Hl as <-).
    destruct (Hclient tt 7 (bytes_of_string "0x7f.1") 2130706433) as (c & Hc & _ & Ha & _); [vm_compute; reflexivity|].
    exists c. split; [exact Hc|exact Ha].
Defined.

End SetupTheorems.
