(* ===== verification/CellRelay.v ===== *)
(** * The programs cellsim and cellproxy

    The main programs of [src/alfalfa/src/examples/cellsim.cc] and
    [cellproxy.cc], which are the same but for the class of their queues: a
    server for the clients on one side, a client of the real server on the
    other, and an emulated link between them for each direction.  The answers
    of the system are the members of a [world]. *)

From S2P Require Import Prelude TerminalDispatcher CryptoKeys NetworkConnection NetworkBind CellSim Utilities SelectLoop.

(** What the main program uses of its class [DelayQueue]; the first argument
    of a method is [timestamp()] *)
Class LinkQueue (Q : Type) := {
  q_make : Z → list Z → Z → Z → result Q;
  q_wait_time : Z → Q → result (Z * Q);
  q_read : Z → Q → result (list (list Z) * Q);
  q_write : Z → list Z → Q → Q }.

#[export] Instance cellsim_queue : LinkQueue DelayQueue.t := {|
  q_make := DelayQueue.make;
  q_wait_time := DelayQueue.wait_time;
  q_read := DelayQueue.read;
  q_write := DelayQueue.write |}.

#[export] Instance cellproxy_queue : LinkQueue ProxyQueue.t := {|
  q_make := ProxyQueue.make;
  q_wait_time := ProxyQueue.wait_time;
  q_read now q := Ok (ProxyQueue.read now q);
  q_write := ProxyQueue.write |}.

Module CellRelay.

(** What a round meets: the answer of [pselect] and the clock that it
    freezes, and the datagrams that [recvfrom] finds at the two sockets with
    their senders, if it does not fail *)
Record world : Set := mkWorld {
  pselect : Select.outcome * list Z;
  frozen : option (Z * Z);
  at_server : option (list Z * (Z * Z));
  at_client : option (list Z * (Z * Z)) }.

Section relay.
Context `{DeliveryModel, Base64} {Q : Type} `{LinkQueue Q}.

Record t : Type := mk {
  server : Connection.t;
  client : Connection.t;
  uplink : Q;
  downlink : Q;
  sel : Select.t }.

(** [timestamp()]: the clock was frozen before the first round. *)
Definition timestamp (sl : Select.t) : Z := Timestamp.timestamp (Select.clock sl).

(** A datagram, if there is one, goes into a queue. *)
Definition receive (ready : bool) (now : Z) (datagram : option (list Z * (Z * Z))) (c : Connection.t) (link : Q)
    : result (Connection.t * Q) :=
  if ready then
    match datagram with
    | None => Fault (Thrown "recvfrom")
    | Some (x, from) => '(p, c) ← Connection.recv_raw now x from c; Ok (c, q_write now p link)
    end
  else Ok (c, link).

(** What is sent of the packets that a queue delivers *)
Definition send_all (packets : list (list Z)) (c : Connection.t) : list (list Z) :=
  omap (fun p => Connection.send_raw p c) packets.

(** A round of the loop: what [client] and what [server] sends *)
Definition round (server_fd client_fd : Z) (w : world) (r : t) : result (list (list Z) * list (list Z) * t) :=
  let now := timestamp (sel r) in
  '(up_wait, uplink) ← q_wait_time now (uplink r);
  '(down_wait, downlink) ← q_wait_time now (downlink r);
  let wait_time := Z.min up_wait down_wait in
  '(active_fds, sl) ← Select.select (fun _ _ _ _ => pselect w) (frozen w) wait_time (sel r);
  if active_fds <? 0 then Fault (Thrown "exit")
  else
    let now := timestamp sl in
    ready ← Select.read server_fd sl;
    '(server, uplink) ← receive ready now (at_server w) (server r) uplink;
    ready ← Select.read client_fd sl;
    '(client, downlink) ← receive ready now (at_client w) (client r) downlink;
    '(uplink_packets, uplink) ← q_read now uplink;
    let up := send_all uplink_packets client in
    '(downlink_packets, downlink) ← q_read now downlink;
    let down := send_all downlink_packets server in
    Ok (up, down, mk server client uplink downlink sl).

(** The loop, for the rounds of a list: what is sent, with the time *)
Fixpoint loop (server_fd client_fd : Z) (ws : list world) (r : t) : result (list (Z * list Z) * list (Z * list Z) * t) :=
  match ws with
  | [] => Ok ([], [], r)
  | w :: ws =>
      '(up, down, r) ← round server_fd client_fd w r;
      '(up', down', r') ← loop server_fd client_fd ws r;
      Ok (map (pair (timestamp (sel r))) up ++ up', map (pair (timestamp (sel r))) down ++ down', r')
  end.

(** Before the loop: the key and the port of the server, which are printed.
    [argv] are the arguments behind the name of the program, [files] the
    numbers of the two schedules. *)
Definition start (server_fd client_fd : Z) (sys_server sys_client : ConnectionSetup.system) (p : process)
    (clock : Z * Z) (argv : list (list Z)) (files : list Z * list Z) : result (Base64Key.t * Z * t) :=
  match argv with
  | [key; ip; port; _; _] =>
      let port := to_int (fst (fst (Strtol.strtol port))) in
      let '(now, ts) := Timestamp.frozen_timestamp (Some clock) Timestamp.initial in
      '(server_key, bound, server) ← ConnectionSetup.server sys_server p now None None;
      '(_, client) ← ConnectionSetup.client sys_client p now key ip port;
      uplink ← q_make 20 (fst files) now now;
      downlink ← q_make 20 (snd files) now now;
      sl ← Select.add_fd server_fd (Select.make ts);
      sl ← Select.add_fd client_fd sl;
      Ok (server_key, snd bound, mk server client uplink downlink sl)
  | _ => Fault (AssertFailed "argc == 6")
  end.
End relay.
Arguments t {_} _.
End CellRelay.
