(* ===== verification/CellRelayProps.v ===== *)
(** * What cellsim does to the packets

    The program is a pair of links between two sockets: the packets of either
    side come out at the other in order, after the delay and at the rate of
    the schedule. *)

From S2P Require Import Prelude Double TerminalDispatcher CryptoKeys NetworkConnection ConnectionProps NetworkBind CellSim CellSimProps Utilities SelectLoop CellRelay.

Module CellRelayTheorems.
Import CellSimTheorems SelectTheorems UtilitiesTheorems SetupTheorems.

(** ** The rounds *)

Abbreviation time := Timestamp.timestamp.
Abbreviation after w ts := (Timestamp.freeze_timestamp (CellRelay.frozen w) ts).

Definition ready (fd : Z) (w : CellRelay.world) : bool :=
  match fst (CellRelay.pselect w) with Select.Ready _ r _ => bool_decide (fd ∈ r) | _ => false end.

(** [pselect] does not fail, [recvfrom] finds datagrams of at most the size
    of the buffer. *)
Record round_ok (w : CellRelay.world) : Prop := mkRoundOk {
  ok_select : match fst (CellRelay.pselect w) with Select.Ready n _ _ => 0 ≤ n | Select.Interrupted => True | Select.Failed => False end;
  ok_signals : Forall signum_ok (snd (CellRelay.pselect w));
  ok_server : ∃ x from, CellRelay.at_server w = Some (x, from) ∧ zlen x ≤ Session.RECEIVE_MTU;
  ok_client : ∃ x from, CellRelay.at_client w = Some (x, from) ∧ zlen x ≤ Session.RECEIVE_MTU }.

(** The clock does not run backwards. *)
Fixpoint rounds_ok (ts : Timestamp.t) (ws : list CellRelay.world) : Prop :=
  match ws with
  | [] => True
  | w :: ws => round_ok w ∧ time ts ≤ time (after w ts) ∧ time (after w ts) + 20 < 2 ^ 64 ∧ rounds_ok (after w ts) ws
  end.

Fixpoint end_clock (ts : Timestamp.t) (ws : list CellRelay.world) : Timestamp.t :=
  match ws with [] => ts | w :: ws => end_clock (after w ts) ws end.

(** The datagrams of a socket in a round, and in all, with their times *)
Definition arrives (fd now : Z) (w : CellRelay.world) (datagram : option (list Z * (Z * Z))) : list (Z * list Z) :=
  if ready fd w then match datagram with Some (x, _) => [(now, x)] | None => [] end else [].

Fixpoint arrived (fd : Z) (at_socket : CellRelay.world → option (list Z * (Z * Z))) (ts : Timestamp.t)
    (ws : list CellRelay.world) : list (Z * list Z) :=
  match ws with
  | [] => []
  | w :: ws => arrives fd (time (after w ts)) w (at_socket w) ++ arrived fd at_socket (after w ts) ws
  end.

(** ** One link in one round *)

Definition enter (l : list (Z * list Z)) (q : DelayQueue.t) : DelayQueue.t :=
  foldl (fun q p => DelayQueue.write (fst p) (snd p) q) q l.

Lemma link_round sched now now' W O q incoming :
  linked sched 20 now W O q → 0 ≤ now → now ≤ now' → now' + 20 < 2 ^ 64 → Forall (fun s => s < now + 2 ^ 31) sched →
  Forall (fun p => fst p = now' ∧ zlen (snd p) < MAX_PACKET) incoming →
  ∃ wait q1 out q2, DelayQueue.wait_time now q = Ok (wait, q1) ∧ DelayQueue.read now' (enter incoming q1) = Ok (out, q2)
    ∧ linked sched 20 now' (W ++ incoming) (O ++ map (pair now') out) q2.
Proof.
  intros Hlk Hnow Hle Hmax Hs Hin.
  destruct (linked_op sched 20 now W O q (Wait now) [] Hlk) as (out1 & q1 & Hr1 & Hlk1); [cbn; lia|done|done|done|].
  cbn [run_op] in Hr1. destruct (DelayQueue.wait_time now q) as [[wait q1']|] eqn:Hw; [|done]. cbn in Hr1. injection Hr1 as <- <-.
  cbn [op_time] in Hlk1. cbn in Hlk1. rewrite !app_nil_r in Hlk1.
  assert (∃ t, now ≤ t ∧ t ≤ now' ∧ linked sched 20 t (W ++ incoming) O (enter incoming q1')) as (t & Ht & Ht' & Hlk2).
  { assert (∀ t W q, now ≤ t → t ≤ now' → linked sched 20 t W O q →
      ∃ t', now ≤ t' ∧ t' ≤ now' ∧ linked sched 20 t' (W ++ incoming) O (enter incoming q)) as Hgo; [|by apply (Hgo now)].
    clear -Hin Hmax Hs Hnow. induction incoming as [|[n x] l IH]; intros t W q Ht Ht' Hlk.
    - exists t. by rewrite app_nil_r.
    - apply Forall_cons in Hin as [[Hn Hx] Hl]. cbn [fst snd] in Hn, Hx. subst n.
      destruct (linked_op sched 20 t W O q (Write now' x) [] Hlk) as (out & q' & Hr & Hlk'); [cbn; lia|lia|lia| |].
      { eapply Forall_impl; [exact Hs|]. intros s ?. cbn in *. lia. }
      cbn [run_op] in Hr. injection Hr as <- <-. rewrite app_nil_r in Hlk'. cbn [op_time] in Hlk'.
      destruct (IH Hl now' (W ++ [(now', x)]) (DelayQueue.write now' x q)) as (t' & H1 & H2 & H3); [lia|lia|done|].
      exists t'. rewrite <- app_assoc in H3. done. }
  destruct (linked_op sched 20 t _ O _ (Read now') [] Hlk2) as (out2 & q2 & Hr2 & Hlk3); [cbn; lia|lia|lia| |].
  { eapply Forall_impl; [exact Hs|]. intros s ?. cbn in *. lia. }
  cbn [run_op] in Hr2. destruct (DelayQueue.read now' _) as [[out q2']|] eqn:Hrd; [|done]. cbn in Hr2. injection Hr2 as <- <-.
  exists wait, q1', out, q2'. cbn [op_time] in Hlk3. cbn in Hlk3. rewrite app_nil_r in Hlk3. done.
Qed.

Section relay.
Context `{DeliveryModel}.
Abbreviation relay := (CellRelay.t DelayQueue.t).
Implicit Types (r : relay) (c : Connection.t).

Lemma receive_ok fd now w datagram c q x from :
  datagram = Some (x, from) → zlen x ≤ Session.RECEIVE_MTU →
  CellRelay.receive (ready fd w) now datagram c q
    = Ok (if ready fd w then Connection.auto_adjust now from c else c, enter (arrives fd now w datagram) q).
Proof.
  intros -> Hx. unfold CellRelay.receive, arrives. destruct (ready fd w); [|done]. unfold Connection.recv_raw.
  by rewrite (proj2 (Z.ltb_ge _ _)) by lia.
Qed.

Lemma adjust_remote now from c : Connection.has_remote_addr (Connection.auto_adjust now from c) = true.
Proof. unfold Connection.auto_adjust. by destruct (_ && _). Qed.

Lemma send_all_remote packets c :
  CellRelay.send_all packets c = if Connection.has_remote_addr c then packets else [].
Proof.
  unfold CellRelay.send_all, Connection.send_raw. destruct (Connection.has_remote_addr c); cbn [negb];
    by induction packets as [|p l IH]; cbn; [|rewrite ?IH].
Qed.

Lemma arrives_ok fd now w datagram x from : datagram = Some (x, from) → zlen x ≤ Session.RECEIVE_MTU →
  Forall (fun p => fst p = now ∧ zlen (snd p) < MAX_PACKET) (arrives fd now w datagram).
Proof.
  intros -> Hx. unfold arrives. destruct (ready fd w); constructor; [|constructor]. cbn. split; [done|].
  unfold Session.RECEIVE_MTU, MAX_PACKET in *. lia.
Qed.

(** What holds between rounds: the two links with what went in and out, and
    the descriptors *)
Definition relays (sup sdown : list Z) (Wup Oup Wdown Odown : list (Z * list Z)) r : Prop :=
  let now := time (Select.clock (CellRelay.sel r)) in
  wf (CellRelay.sel r)
  ∧ Connection.has_remote_addr (CellRelay.client r) = true
  ∧ linked sup 20 now Wup Oup (CellRelay.uplink r) ∧ linked sdown 20 now Wdown Odown (CellRelay.downlink r).

Lemma round_relays sfd cfd w r sup sdown Wup Oup Wdown Odown :
  relays sup sdown Wup Oup Wdown Odown r →
  let ts := Select.clock (CellRelay.sel r) in
  let now := time (after w ts) in
  0 ≤ sfd < Select.FD_SETSIZE → 0 ≤ cfd < Select.FD_SETSIZE → round_ok w → time ts ≤ now → now + 20 < 2 ^ 64 →
  Forall (fun s => s < time ts + 2 ^ 31) (sup ++ sdown) →
  ∃ up down r', CellRelay.round sfd cfd w r
      = Ok (up, if Connection.has_remote_addr (CellRelay.server r') then down else [], r')
    ∧ Select.clock (CellRelay.sel r') = after w ts
    ∧ (Connection.has_remote_addr (CellRelay.server r')
       = Connection.has_remote_addr (CellRelay.server r) || ready sfd w)
    ∧ relays sup sdown (Wup ++ arrives sfd now w (CellRelay.at_server w)) (Oup ++ map (pair now) up)
        (Wdown ++ arrives cfd now w (CellRelay.at_client w)) (Odown ++ map (pair now) down) r'.
Proof.
  intros (Hwf & Hcl & Hup & Hdown) ts now Hs Hc [Hsel Hsig (xs & fs & Hats & Hxs) (xc & fc & Hatc & Hxc)] Hle Hmax [Hsu Hsd]%Forall_app.
  assert (0 ≤ time ts) as Hpos by (apply uwrap_range; lia).
  destruct (link_round sup (time ts) now Wup Oup _ (arrives sfd now w (CellRelay.at_server w)) Hup)
    as (w1 & u1 & up & u2 & Hu1 & Hu2 & Hup'); [done..|by eapply arrives_ok|].
  destruct (link_round sdown (time ts) now Wdown Odown _ (arrives cfd now w (CellRelay.at_client w)) Hdown)
    as (w2 & d1 & down & d2 & Hd1 & Hd2 & Hdown'); [done..|by eapply arrives_ok|].
  pose proof (select_reports (fun _ _ _ _ => CellRelay.pselect w) (CellRelay.frozen w) (Z.min w1 w2) (CellRelay.sel r) Hwf) as Hrep.
  destruct (CellRelay.pselect w) as [o signals] eqn:Ep. destruct (Hrep Hsig) as (_ & _ & Hsafe).
  apply safe_inv in Hsafe as ([n sl] & Hrun & Hwf' & _ & Hclock & _ & _ & Hfd).
  assert (∀ fd, 0 ≤ fd < Select.FD_SETSIZE → Select.read fd sl = Ok (ready fd w) ∧ (n <? 0) = false) as Hread.
  { intros fd Hr. specialize (Hfd fd Hr). unfold ready. rewrite Ep. cbn [fst snd] in *.
    destruct o as [k rd e| |]; [|by destruct Hfd as (-> & -> & _)|done].
    destruct Hfd as (-> & -> & _). split; [done|]. lia. }
  set (server' := if ready sfd w then Connection.auto_adjust now fs (CellRelay.server r) else CellRelay.server r).
  set (client' := if ready cfd w then Connection.auto_adjust now fc (CellRelay.client r) else CellRelay.client r).
  exists up, down, (CellRelay.mk server' client' u2 d2 sl). cbn [CellRelay.server CellRelay.sel CellRelay.client].
  assert (Connection.has_remote_addr client' = true) as Hcl'.
  { unfold client'. destruct (ready cfd w); [apply adjust_remote|done]. }
  conjs; [|done| |].
  - unfold CellRelay.round. cbn [q_wait_time q_read cellsim_queue].
    change (CellRelay.timestamp (CellRelay.sel r)) with (time ts). rewrite Hu1. cbn [mbind result_bind].
    rewrite Hd1. cbn [mbind result_bind]. cbv zeta. rewrite Ep, Hrun. cbn [mbind result_bind].
    rewrite (proj2 (Hread sfd Hs)), (proj1 (Hread sfd Hs)). cbn [mbind result_bind].
    assert (CellRelay.timestamp sl = now) as -> by (unfold CellRelay.timestamp; by rewrite Hclock).
    rewrite (receive_ok sfd now w _ _ u1 xs fs Hats Hxs). cbn [mbind result_bind]. rewrite (proj1 (Hread cfd Hc)). cbn [mbind result_bind].
    rewrite (receive_ok cfd now w _ _ d1 xc fc Hatc Hxc). cbn [mbind result_bind]. rewrite Hu2. cbn [mbind result_bind].
    rewrite Hd2. cbn [mbind result_bind]. rewrite !send_all_remote. fold client' server'. by rewrite Hcl'.
  - unfold server'. destruct (ready sfd w); [by rewrite adjust_remote, orb_true_r|by rewrite orb_false_r].
  - unfold relays. cbn [CellRelay.sel CellRelay.client CellRelay.uplink CellRelay.downlink]. rewrite Hclock. fold ts now. done.
Qed.

(** ** All rounds *)

(** A server without a client sends nothing: [lost], what the downlink
    delivered before the first datagram of a client came *)
Definition attached (remote : bool) (now : Z) (Wup lost down : list (Z * list Z)) : Prop :=
  if remote then Wup ≠ [] ∧ Forall (fun d => ∀ a, head Wup = Some a → fst d ≤ fst a) lost
  else Wup = [] ∧ down = [] ∧ Forall (fun d => fst d ≤ now) lost.

Lemma attached_round fd now now' w Wup lost down remote out datagram : is_Some datagram → now ≤ now' →
  attached remote now Wup lost down →
  ∃ lost', lost' ++ (down ++ map (pair now') (if remote || ready fd w then out else [])) = lost ++ down ++ map (pair now') out
    ∧ attached (remote || ready fd w) now' (Wup ++ arrives fd now' w datagram) lost'
        (down ++ map (pair now') (if remote || ready fd w then out else [])).
Proof.
  intros [[x from] ->] Hle. unfold attached, arrives. destruct remote; cbn [orb].
  - intros [Hne Hl]. exists lost. conjs; [done|by destruct Wup|]. eapply Forall_impl; [exact Hl|]. intros d Hd a Ha. apply Hd.
    by destruct Wup.
  - intros (-> & -> & Hl). destruct (ready fd w); cbn.
    + exists lost. conjs; [done|done|]. eapply Forall_impl; [exact Hl|]. intros d Hd a [= <-]. cbn in *. lia.
    + exists (lost ++ map (pair now') out). rewrite !app_nil_r. conjs; [done|done|done|]. apply Forall_app. split.
      * eapply Forall_impl; [exact Hl|]. intros d Hd. cbn in *. lia.
      * apply Forall_forall. intros d (y & <- & _)%list_elem_of_In%in_map_iff. cbn. lia.
Qed.

Lemma loop_relays sfd cfd sup sdown : 0 ≤ sfd < Select.FD_SETSIZE → 0 ≤ cfd < Select.FD_SETSIZE →
  ∀ ws r Wup Oup Wdown lost down,
  let ts := Select.clock (CellRelay.sel r) in
  relays sup sdown Wup Oup Wdown (lost ++ down) r →
  attached (Connection.has_remote_addr (CellRelay.server r)) (time ts) Wup lost down →
  rounds_ok ts ws → Forall (fun s => s < time ts + 2 ^ 31) (sup ++ sdown) →
  ∃ up dn lost' r', CellRelay.loop sfd cfd ws r = Ok (up, dn, r')
    ∧ Select.clock (CellRelay.sel r') = end_clock ts ws
    ∧ relays sup sdown (Wup ++ arrived sfd CellRelay.at_server ts ws) (Oup ++ up)
        (Wdown ++ arrived cfd CellRelay.at_client ts ws) (lost' ++ (down ++ dn)) r'
    ∧ attached (Connection.has_remote_addr (CellRelay.server r')) (time (end_clock ts ws))
        (Wup ++ arrived sfd CellRelay.at_server ts ws) lost' (down ++ dn).
Proof.
  intros Hs Hc ws. induction ws as [|w ws IH]; intros r Wup Oup Wdown lost down ts Hr Ha Hok Hsch.
  - exists [], [], lost, r. cbn. by rewrite !app_nil_r.
  - destruct Hok as (Hw & Hle & Hmax & Hok).
    destruct (round_relays sfd cfd w r sup sdown Wup Oup Wdown (lost ++ down)) as (up & out & r1 & Hrun & Hclk & Hrem & Hr1); [done..|].
    fold ts in Hclk, Hr1. set (now := time (after w ts)) in *.
    destruct (attached_round sfd (time ts) now w Wup lost down _ out (CellRelay.at_server w)
      ltac:(destruct Hw as [_ _ (x & f & -> & _) _]; by eexists) Hle Ha) as (lost1 & Heq & Ha1).
    rewrite <- app_assoc, <- Heq in Hr1. rewrite Hrem in Hrun. set (dn := if _ || _ then out else []) in *.
    destruct (IH r1 (Wup ++ arrives sfd now w (CellRelay.at_server w)) (Oup ++ map (pair now) up)
      (Wdown ++ arrives cfd now w (CellRelay.at_client w)) lost1 (down ++ map (pair now) dn))
      as (up' & dn' & lost' & r' & Hloop & Hclk' & Hr' & Ha').
    + exact Hr1.
    + rewrite Hclk, Hrem. exact Ha1.
    + by rewrite Hclk.
    + rewrite Hclk. eapply Forall_impl; [exact Hsch|]. intros x Hx. cbn in *. fold now. lia.
    + exists (map (pair now) up ++ up'), (map (pair now) dn ++ dn'), lost', r'. cbn [CellRelay.loop]. rewrite Hrun.
      cbn [mbind result_bind]. rewrite Hloop. cbn [mbind result_bind].
      assert (CellRelay.timestamp (CellRelay.sel r1) = now) as -> by (unfold CellRelay.timestamp; by rewrite Hclk).
      rewrite Hclk in *. cbn [arrived end_clock]. rewrite <- !app_assoc in *. by conjs.
Qed.

Lemma start_relays `{Base64} sfd cfd sys_s sys_c p clock argv files key port r :
  CellRelay.start sfd cfd sys_s sys_c p clock argv files = Ok (key, port, r) →
  0 ≤ sfd < Select.FD_SETSIZE ∧ 0 ≤ cfd < Select.FD_SETSIZE
  ∧ time (Select.clock (CellRelay.sel r)) = 1000
  ∧ relays (DelayQueue.schedule (CellRelay.uplink r)) (DelayQueue.schedule (CellRelay.downlink r)) [] [] [] [] r
  ∧ Connection.has_remote_addr (CellRelay.server r) = false.
Proof.
  unfold CellRelay.start. do 6 (destruct argv as [|? argv]; try done).
  destruct (first_timestamp clock) as (ts & -> & Hts).
  destruct (ConnectionSetup.server _ _ _ _ _) as [[[k bound] server]|] eqn:Es; [|done]. cbn [mbind result_bind].
  destruct (ConnectionSetup.client _ _ _ _ _ _) as [[k' client]|] eqn:Ec; [|done]. cbn [mbind result_bind].
  destruct (q_make 20 (fst files) 1000 1000) as [up|] eqn:Eu; [|done]. cbn [mbind result_bind].
  destruct (q_make 20 (snd files) 1000 1000) as [down|] eqn:Ed; [|done]. cbn [mbind result_bind].
  destruct (Select.add_fd sfd _) as [sl|] eqn:Ea; [|done]. cbn [mbind result_bind].
  destruct (Select.add_fd cfd sl) as [sl'|] eqn:Eb; [|done]. cbn [mbind result_bind]. intros [= <- <- <-].
  apply add_fd_inv in Ea as (Hwf & Hs & Hclk); [|apply wf_make].
  apply add_fd_inv in Eb as (Hwf' & Hc & Hclk'); [|done]. rewrite Hclk in Hclk'.
  cbn [CellRelay.sel CellRelay.uplink CellRelay.downlink CellRelay.server]. rewrite Hclk'. cbn [Select.clock Select.make].
  conjs; try lia.
  - unfold relays. cbn [CellRelay.sel CellRelay.uplink CellRelay.downlink CellRelay.client]. rewrite Hclk'.
    cbn [Select.clock Select.make]. rewrite Hts. conjs; [done| |by apply linked_start in Eu|by apply linked_start in Ed].
    by destruct (client_eq _ _ _ _ _ _ _ _ Ec) as (a & ->).
  - by rewrite (server_eq _ _ _ _ _ _ _ _ Es).
Qed.

(** The packets [W] went into a link and [O] came out: a prefix in order,
    each at least the delay later, and at no higher rate than the schedule's;
    the rest waits in the queue. *)
Definition link_promise (now : Z) (sched : list Z) (W O : list (Z * list Z)) (q : DelayQueue.t) : Prop :=
  ∃ before later, W = before ++ later
    ∧ Forall2 (fun w d => snd d = snd w ∧ fst w + 20 ≤ fst d) before O
    ∧ snd <$> later = DelayQueue.delivered q ++ (contents <$> packets q)
    ∧ foldr (fun d n => zlen (snd d) + n) 0 O ≤ services_until now sched.

(** C30.  The program cellsim.  Once it has started, any number of rounds in
    which [pselect] does not fail and the clock does not run backwards run
    without a failed assertion.  The client socket sends exactly a prefix of
    the datagrams that came to the server socket, in order and unchanged, each
    at least 20 ms after it came and at no higher rate than the uplink's
    schedule allows; the server socket does the same with those that came to
    the client socket, except that it sends nothing before the first datagram
    of its own client: what the downlink delivered until then is lost. *)
Theorem cellsim_relays `{Base64} sfd cfd sys_s sys_c p clock argv files key port r ws :
  CellRelay.start sfd cfd sys_s sys_c p clock argv files = Ok (key, port, r) →
  let ts := Select.clock (CellRelay.sel r) in
  let sup := DelayQueue.schedule (CellRelay.uplink r) in
  let sdown := DelayQueue.schedule (CellRelay.downlink r) in
  rounds_ok ts ws → Forall (fun s => s < 2 ^ 31) (sup ++ sdown) →
  ∃ up down r', CellRelay.loop sfd cfd ws r = Ok (up, down, r')
    ∧ (let now := time (end_clock ts ws) in
       let clients := arrived sfd CellRelay.at_server ts ws in
       let servers := arrived cfd CellRelay.at_client ts ws in
       link_promise now sup clients up (CellRelay.uplink r')
       ∧ ∃ lost, link_promise now sdown servers (lost ++ down) (CellRelay.downlink r')
           ∧ match clients with
             | [] => down = []
             | first :: _ => Forall (fun d => fst d ≤ fst first) lost
             end).
Proof.
  intros Hstart ts sup sdown Hok Hs. destruct (start_relays _ _ _ _ _ _ _ _ _ _ _ Hstart) as (Hsfd & Hcfd & Ht & Hr & Hrem).
  fold ts in Ht. fold sup sdown in Hr.
  destruct (loop_relays sfd cfd sup sdown Hsfd Hcfd ws r [] [] [] [] []) as (up & down & lost & r' & Hloop & Hclk & Hr' & Ha);
    [done|by rewrite Hrem|done| |].
  { fold ts. rewrite Ht. eapply Forall_impl; [exact Hs|]. intros x Hx. cbn in *. lia. }
  fold ts in Hclk, Hr', Ha. cbn [app] in Hr', Ha. destruct Hr' as (_ & _ & Hup & Hdown). rewrite Hclk in Hup, Hdown.
  exists up, down, r'. split; [done|]. cbv zeta. split; [exact (linked_promise _ _ _ _ _ _ Hup)|].
  exists lost. split; [exact (linked_promise _ _ _ _ _ _ Hdown)|]. unfold attached in Ha.
  destruct (Connection.has_remote_addr (CellRelay.server r')); [|by destruct Ha as (-> & -> & _)].
  destruct Ha as [Hne Ha]. destruct (arrived sfd _ ts ws) as [|first rest]; [done|].
  eapply Forall_impl; [exact Ha|]. intros d Hd. exact (Hd first eq_refl).
Qed.
End relay.

(** ** A run for the witness *)

(** The command line, and schedules that serve every other millisecond *)
Definition relay_argv : list (list Z) :=
  [@KeyTheorems.letters KeyTheorems.Rfc4648.base64 (seqZ 200 16); bytes_of_string "127.0.0.1"; bytes_of_string "60001"; []; []].

Definition relay_started : Base64Key.t * Z * @CellRelay.t ConnectionTheorems.still_model DelayQueue.t :=
  ltac:(let r := eval vm_compute in (@CellRelay.start ConnectionTheorems.still_model KeyTheorems.Rfc4648.base64 DelayQueue.t cellsim_queue 3 4 SetupTheorems.busy
          SetupTheorems.busy tt (50, 0) relay_argv ([5; 22; 40], [0; 30])) in
        lazymatch r with Ok ?r => exact r end).

(** A datagram of the server before the client's first, the client's, and a
    later round *)
Definition relay_rounds : list CellRelay.world :=
  let round fds sec ms := CellRelay.mkWorld (Select.Ready 1 fds ∅, []) (Some (sec, ms * 1000000)) (Some ([1; 2; 3], (7, 8)))
    (Some ([4; 5], (9, 10))) in
  [round {[4]} 50 1; round {[3]} 50 3; round ∅ 50 30].

Lemma cellsim_relays_witness :
  let r := snd relay_started in
  ∃ up down r', CellRelay.loop 3 4 relay_rounds r = Ok (up, down, r')
    ∧ up = [(1030, [1; 2; 3])] ∧ down = [(1030, [4; 5])]
    ∧ link_promise 1030 [1005; 1022; 1040] [(1003, [1; 2; 3])] up (CellRelay.uplink r').
Proof.
  intros r. destruct (@cellsim_relays ConnectionTheorems.still_model KeyTheorems.Rfc4648.base64 3 4 SetupTheorems.busy
    SetupTheorems.busy tt (50, 0) relay_argv ([5; 22; 40], [0; 30]) (fst (fst relay_started)) (snd (fst relay_started))
    r relay_rounds) as (up & down & r' & Hrun & Hup & _).
  - vm_compute. reflexivity.
  - repeat split; try (vm_compute; intros; discriminate); try (by constructor); eexists _, _; (split; [reflexivity|]); by vm_compute.
  - repeat constructor.
  - exists up, down, r'. split; [exact Hrun|].
    assert (up = [(1030, [1; 2; 3])] ∧ down = [(1030, [4; 5])]) as [Eu Ed].
    { clear Hup. vm_compute in Hrun. injection Hrun as <- <- _. split; reflexivity. }
    split; [exact Eu|]. split; [exact Ed|exact Hup].
Defined.
End CellRelayTheorems.
