(* ===== verification/PacketSocket.v ===== *)
(** * Packet sockets

    Classes [MACAddress] and [PacketSocket] of
    [src/alfalfa/src/network/packetsocket.{hh,cc}]: packets of an interface,
    filtered by the addresses of sender and receiver.  What [recvfrom] finds
    is an argument. *)

From S2P Require Import Prelude Octets TerminalDispatcher DispatcherProps NetworkBind.

(** ** [sscanf] of the C library *)

Module Sscanf.
Import Strtol InetAddr.

(** [%x] into an [unsigned int]: white space, a sign, [0x], at least one digit; the
    value of [strtoul], cut to 32 bits, and the rest of the input *)
Definition scan_hex (s : list Z) : option (Z * list Z) :=
  let s := drop (length (take_while is_space s)) s in
  let '(neg, s) :=
    match s with
    | 45 :: r => (true, r)
    | 43 :: r => (false, r)
    | _ => (false, s)
    end in
  let s :=
    match s with
    | 48 :: x :: r => if (x =? 120) || (x =? 88) then r else s
    | _ => s
    end in
  match take_while is_hex s with
  | [] => None
  | d =>
      let v := number 16 d in
      let v := if 2 ^ 64 <=? v then 2 ^ 64 - 1 else if (neg : bool) then u64 (- v) else v in
      Some (u32 v, drop (length d) s)
  end.

(** [%x] and, [n] times, [:%x]: the values up to the first that does not
    match *)
Fixpoint scan_colons (n : nat) (s : list Z) : list Z :=
  match scan_hex s with
  | None => []
  | Some (v, s) =>
      v :: match n, s with
           | S n, 58 :: s => scan_colons n s
           | _, _ => []
           end
  end.
End Sscanf.

(** ** Class [MACAddress]: six octets *)

Module MACAddress.
Import Sscanf.

Definition t : Set := list Z.

Definition make (s_addr : list Z) : result t :=
  assert_that (zlen s_addr =? 6) "s_addr.size() == 6";;
  Ok (map u8 s_addr).

Definition is_broadcast (a : t) : bool := forallb (fun o => o =? 255) a.

Definition matches (a other : t) : bool := is_broadcast a || is_broadcast other || bool_decide (a = other).

(** The string is read up to its first null character. *)
Definition parse_human (with_colons : list Z) : result (list Z) :=
  octets ←
    match with_colons with
    | [] => Ok (replicate 6 255)
    | _ =>
        let octets := scan_colons 5 (Strtol.take_while (fun c => negb (c =? 0)) with_colons) in
        assert_that (zlen octets =? 6) "items_matched == 6";;
        Ok octets
    end;
  assert_that (forallb (fun o => o <=? 255) octets) "octets[ i ] <= 255";;
  Ok (map u8 octets).

(** [%x] of an octet *)
Definition digit (n : Z) : Z := if n <? 10 then 48 + n else 87 + n.
Definition hex (o : Z) : list Z := if o <? 16 then [digit o] else [digit (o / 16); digit (o mod 16)].

Fixpoint join (l : list (list Z)) : list Z :=
  match l with
  | [] => []
  | [s] => s
  | s :: l => s ++ [58] ++ join l
  end.

Definition pp (a : t) : list Z := snprintf 64 (join (map hex a)).
End MACAddress.

(** ** Class [PacketSocket] *)

Module PacketSocket.

Record t : Set := mk { from_filter : MACAddress.t; to_filter : MACAddress.t }.

Definition BUFFER_SIZE : Z := 2048.

(** The filters of the constructors; the default one has no texts. *)
Definition make (s_from_filter s_to_filter : list Z) : result t :=
  f ← MACAddress.parse_human s_from_filter;
  f ← MACAddress.make f;
  t ← MACAddress.parse_human s_to_filter;
  t ← MACAddress.make t;
  Ok (mk f t).

(** [recvfrom] with [MSG_TRUNC] gives the size of the whole packet. *)
Definition recv_raw (recvfrom : option (list Z)) (s : t) : result (list (list Z)) :=
  match recvfrom with
  | None => Fault (Thrown "exit")
  | Some packet =>
      if BUFFER_SIZE <? zlen packet then Fault (Thrown "exit")
      else
        assert_that (12 <? zlen packet) "packet.size() > 12";;
        destination_address ← MACAddress.make (take 6 packet);
        source_address ← MACAddress.make (take 6 (drop 6 packet));
        Ok (if MACAddress.matches (to_filter s) destination_address
               && MACAddress.matches (from_filter s) source_address
            then [packet] else [])
  end.
End PacketSocket.

(** ** Properties *)

Module PacketSocketTheorems.
Import InetAddr Sscanf MACAddress.

Definition mac (a : list Z) : Prop := length a = 6%nat ∧ Forall octet a.

Lemma scan_octet o : octet o → (∀ s, scan_hex (hex o ++ 58 :: s) = Some (o, 58 :: s)) ∧ scan_hex (hex o) = Some (o, []).
Proof.
  intros Ho. assert (Forall (fun o => (∀ s, scan_hex (hex o ++ 58 :: s) = Some (o, 58 :: s)) ∧ scan_hex (hex o) = Some (o, [])) (seqZ 0 256)) as Hall.
  { let l := eval vm_compute in (seqZ 0 256) in change (seqZ 0 256) with l.
    repeat (constructor; [split; [intros s|]; reflexivity|]). constructor. }
  rewrite Forall_forall in Hall. apply Hall, elem_of_seqZ. unfold octet in Ho. lia.
Qed.

Lemma scan_join a o : Forall octet (o :: a) → scan_colons (length a) (join (map hex (o :: a))) = o :: a.
Proof.
  revert o. induction a as [|o' a IH]; intros o [Ho Ha]%Forall_cons.
  - cbn. by rewrite (proj2 (scan_octet o Ho)).
  - change (join (map hex (o :: o' :: a))) with (hex o ++ 58 :: join (map hex (o' :: a))). cbn [length scan_colons].
    rewrite (proj1 (scan_octet o Ho)). f_equal. by apply IH.
Qed.

Lemma hex_shape o : octet o → (1 ≤ length (hex o) ≤ 2)%nat ∧ Forall (fun c => c ≠ 0) (hex o).
Proof.
  intros Ho. unfold hex, digit, octet in *. split; [split_ifs; cbn; lia|].
  split_ifs; repeat constructor; Z.div_mod_to_equations; lia.
Qed.

Lemma join_shape a : Forall octet a →
  (length (join (map hex a)) ≤ 3 * length a)%nat ∧ Forall (fun c => c ≠ 0) (join (map hex a)).
Proof.
  induction a as [|o [|o' a] IH]; intros Ha; [split; [cbn; lia|constructor]|..]; apply Forall_cons in Ha as [Ho Ha];
    destruct (hex_shape o Ho) as [Hl Hn].
  - cbn. split; [lia|done].
  - destruct (IH Ha) as [Hl' Hn']. change (join (map hex (o :: o' :: a))) with (hex o ++ 58 :: join (map hex (o' :: a))).
    rewrite length_app, Forall_app, Forall_cons. cbn [length] in *. split; [lia|done].
Qed.

Lemma take_while_nonzero s : Forall (fun c => c ≠ 0) s → Strtol.take_while (fun c => negb (c =? 0)) s = s.
Proof. induction 1 as [|c s Hc _ IH]; [done|]. cbn. rewrite (proj2 (Z.eqb_neq _ _)) by done. cbn. by rewrite IH. Qed.

Lemma map_u8 a : Forall octet a → map u8 a = a.
Proof. induction 1 as [|o a Ho _ IH]; [done|]. cbn. rewrite IH, uwrap_small; [done|exact Ho]. Qed.

(** The printed form is read back. *)
Lemma parse_pp a : mac a → parse_human (pp a) = Ok a.
Proof.
  intros [Hl Ha]. destruct (join_shape a Ha) as [Hlen Hn]. unfold pp. rewrite snprintf_short by (unfold zlen; lia).
  unfold parse_human. rewrite take_while_nonzero by done.
  assert (scan_colons 5 (join (map hex a)) = a) as ->.
  { destruct a as [|o a]; [done|]. injection Hl as Hl. rewrite <- Hl. by apply scan_join. }
  destruct (join (map hex a)) as [|c s] eqn:Hj.
  { destruct a as [|o [|o' a]]; [done|done|]. change (join _) with (hex o ++ 58 :: join (map hex (o' :: a))) in Hj. by destruct (hex o). }
  unfold zlen. rewrite Hl. change (Z.of_nat 6 =? 6) with true. cbn [assert_that mbind result_bind].
  assert (forallb (fun o => o <=? 255) a = true) as ->.
  { apply forallb_forall. intros o Ho%list_elem_of_In. rewrite Forall_forall in Ha. specialize (Ha o Ho). unfold octet in Ha. lia. }
  cbn [assert_that mbind result_bind]. by rewrite map_u8.
Qed.

Lemma make_mac a : mac a → MACAddress.make a = Ok a.
Proof. intros [Hl Ha]. unfold MACAddress.make, zlen. rewrite Hl. cbn. by rewrite map_u8. Qed.

Lemma broadcast_spec a : mac a → is_broadcast a = bool_decide (a = replicate 6 255).
Proof.
  intros [Hl _]. do 7 (destruct a as [|? a]; try done). unfold is_broadcast. cbn [forallb].
  apply eq_bool_prop_intro. rewrite bool_decide_spec, !andb_True, !Is_true_true, !Z.eqb_eq.
  cbn. split; [by intros (-> & -> & -> & -> & -> & -> & _)|by intros [= -> -> -> -> -> ->]].
Qed.

(** Packet sockets.  A socket for two printed addresses passes on exactly
    the packets whose receiver and sender each match their filter, unchanged;
    an address matches a filter when they are equal or one of them is the
    broadcast address.  A socket without filters passes on every packet.
    Larger packets than the buffer end the program, and only they do. *)
Theorem packet_filter from to packet : mac from → mac to → 12 < zlen packet → Forall octet packet →
  ∃ s, PacketSocket.make (pp from) (pp to) = Ok s
    ∧ PacketSocket.make [] [] = Ok (PacketSocket.mk (replicate 6 255) (replicate 6 255))
    ∧ (let broadcast := replicate 6 255 in
       let receiver := take 6 packet in
       let sender := take 6 (drop 6 packet) in
       let fits filter a := filter = broadcast ∨ a = broadcast ∨ a = filter in
       if PacketSocket.BUFFER_SIZE <? zlen packet
       then PacketSocket.recv_raw (Some packet) s = Fault (Thrown "exit")
       else PacketSocket.recv_raw (Some packet) (PacketSocket.mk broadcast broadcast) = Ok [packet]
         ∧ ∃ l, PacketSocket.recv_raw (Some packet) s = Ok l
             ∧ (fits to receiver ∧ fits from sender ∧ l = [packet]
                ∨ ¬ (fits to receiver ∧ fits from sender) ∧ l = [])).
Proof.
  intros Hf Ht Hlen Hp. exists (PacketSocket.mk from to). unfold PacketSocket.make. rewrite !parse_pp by done.
  cbn [mbind result_bind]. rewrite !make_mac by done. conjs; [done|done|]. cbv zeta. unfold PacketSocket.recv_raw.
  destruct (PacketSocket.BUFFER_SIZE <? zlen packet); [done|]. rewrite (proj2 (Z.ltb_lt _ _)) by done. cbn [assert_that mbind result_bind].
  assert (mac (take 6 packet)) as Hr.
  { split; [rewrite length_take; unfold zlen in Hlen; lia|by apply Forall_take]. }
  assert (mac (take 6 (drop 6 packet))) as Hs.
  { split; [rewrite length_take, length_drop; unfold zlen in Hlen; lia|by apply Forall_take, Forall_drop]. }
  rewrite !make_mac by done. cbn [mbind result_bind PacketSocket.to_filter PacketSocket.from_filter]. split; [done|].
  eexists. split; [done|]. unfold matches. rewrite !broadcast_spec by done.
  destruct (_ && _) eqn:Hb; [left|right].
  - rewrite andb_true_iff, !orb_true_iff, !bool_decide_eq_true in Hb. naive_solver.
  - split; [|done]. intros [H1 H2]. apply (f_equal negb) in Hb. cbn in Hb.
    rewrite negb_andb, !negb_orb, orb_true_iff, !andb_true_iff, !negb_true_iff, !bool_decide_eq_false in Hb. naive_solver.
Qed.

Lemma packet_filter_witness :
  ∃ s, PacketSocket.make (pp [0; 27; 33; 1; 2; 254]) (pp (replicate 6 255)) = Ok s
    ∧ PacketSocket.recv_raw (Some ([9; 9; 9; 9; 9; 9] ++ [0; 27; 33; 1; 2; 254] ++ [8; 0; 69])) s
      = Ok [[9; 9; 9; 9; 9; 9] ++ [0; 27; 33; 1; 2; 254] ++ [8; 0; 69]].
Proof.
  destruct (packet_filter [0; 27; 33; 1; 2; 254] (replicate 6 255) ([9; 9; 9; 9; 9; 9] ++ [0; 27; 33; 1; 2; 254] ++ [8; 0; 69]))
    as (s & Hs & _ & Hrun).
  - split; [reflexivity|by repeat constructor].
  - split; [reflexivity|by repeat constructor].
  - reflexivity.
  - by repeat constructor.
  - exists s. split; [exact Hs|]. destruct Hrun as (_ & l & Hl & [(_ & _ & ->)|[Hno _]]); [exact Hl|].
    destruct Hno. split; [left; reflexivity|right; right; reflexivity].
Defined.
End PacketSocketTheorems.
