(* ===== verification/CryptoTools.v ===== *)
(** * The programs encrypt and decrypt

    [src/alfalfa/src/examples/encrypt.cc] and [decrypt.cc]: a message with a
    nonce from the command line, under a new key, and back.  What [read] finds
    on the standard input is an argument. *)

From S2P Require Import Prelude TransportFragment Octets TerminalDispatcher DispatcherProps CryptoOcb CryptoProps CryptoRoundtrip CryptoKeys NetworkConnection ConnectionProps.

Module CryptoTools.

Inductive read_result : Set := ReadEnd | ReadError | ReadOctets (buf : list Z).

(** The loop that reads the input; behind the list is the end of the file. *)
Fixpoint read_input (reads : list read_result) (input : list Z) : result (list Z) :=
  match reads with
  | [] | ReadEnd :: _ => Ok input
  | ReadError :: _ => Fault (Thrown "exit")
  | ReadOctets buf :: reads => read_input reads (input ++ buf)
  end.

(** Conversion to [long] *)
Definition to_long (x : Z) : Z := (x + 2 ^ 63) mod 2 ^ 64 - 2 ^ 63.

Section tools.
Context (little : bool) `{AES, Base64}.

(** What is printed: the key and the message.  [buffer], the memory of the
    session's context *)
Definition encrypt (urandom : bool * option (list Z) * bool) (buffer : Ocb.ae_ctx) (argv : list (list Z))
    (reads : list read_result) : result (list Z * list Z) :=
  match argv with
  | [arg] =>
      let '(opened, octets, closed) := urandom in
      key ← Base64Key.random opened octets closed;
      session ← KeySession.make little buffer key;
      number ← myatoi arg;
      let nonce := Nonce.make number in
      plaintext ← read_input reads [];
      let ciphertext := Session.encrypt (mkMessage nonce plaintext) in
      printed ← Base64Key.printable_key key;
      Ok (printed, ciphertext)
  | _ => Fault (Thrown "Usage")
  end.

(** The nonce, as a [long], and the text *)
Definition decrypt (buffer : Ocb.ae_ctx) (argv : list (list Z)) (reads : list read_result) : result (Z * list Z) :=
  match argv with
  | [arg] =>
      key ← Base64Key.make arg;
      session ← KeySession.make little buffer key;
      ciphertext ← read_input reads [];
      message ← Session.decrypt ciphertext;
      Ok (to_long (Nonce.val (nonce message)), text message)
  | _ => Fault (Thrown "Usage")
  end.
End tools.
End CryptoTools.

(** ** Properties *)

Module ToolsTheorems.
Import CryptoTools KeyTheorems CryptoMessages Ocb.

Lemma myatoi_range s n : myatoi s = Ok n → - 2 ^ 63 ≤ n < 2 ^ 63.
Proof.
  unfold myatoi, Strtol.strtol, Strtol.LONG_MAX, Strtol.LONG_MIN. cbv zeta. destruct (match drop _ s with [] => _ | _ => _ end) as [neg s2].
  destruct (Strtol.take_while _ s2) as [|d l].
  - destruct (_ || _); [done|]. intros [= <-]. lia.
  - set (v := if neg then _ else _). destruct (_ <? v) eqn:H1; [|destruct (v <? _) eqn:H2];
      (destruct (_ || _); [done|]); intros [= <-]; lia.
Qed.

Lemma to_long_u64 n : - 2 ^ 63 ≤ n < 2 ^ 63 → to_long (u64 n) = n.
Proof. intros Hn. unfold to_long, uwrap. rewrite Zplus_mod_idemp_l, Z.mod_small by lia. lia. Qed.

Lemma decrypt_long x : Session.RECEIVE_MTU + 8 < zlen x → zlen x < 2 ^ 31 →
  Session.decrypt x = Fault (AssertFailed "(size_t)body_len <= ciphertext_buffer.len()").
Proof.
  unfold Session.RECEIVE_MTU. intros H1 H2. unfold Session.decrypt, Session.RECEIVE_MTU.
  rewrite (uwrap_small 64 (zlen x - 8)), to_int_small, uwrap_small by lia. by rewrite (proj2 (Z.leb_gt _ _)) by lia.
Qed.

Lemma read_pieces pieces input : read_input (ReadOctets <$> pieces) input = Ok (input ++ concat pieces).
Proof.
  revert input. induction pieces as [|p l IH]; intros input; cbn; [by rewrite app_nil_r|]. by rewrite IH, app_assoc.
Qed.

Section tools.
Context (little : bool) `{aes : AES, !AESLaws, Base64, !Base64Laws}.

Lemma session_ok buffer key : block_octets key → ∃ s, KeySession.make little buffer key = Ok s.
Proof.
  intros Hk. destruct (CryptoTheorems.ae_init_ok little key Hk buffer 16) as (c & Hc & _). unfold KeySession.make. rewrite Hc. by eexists.
Qed.

(** C39.  The programs encrypt and decrypt.  The first prints a key of 22
    letters and a message; given that key and the message, in pieces of any
    size, the second prints the nonce and the text, if the text has at most
    2048 octets, and stops at an assertion if it has more.  It does the same with
    every other well-formed key: the session does not use it. *)
Theorem tools_roundtrip key buffer buffer' arg pieces n :
  let text := concat pieces in
  block_octets key → myatoi arg = Ok n → zlen text < 2 ^ 31 - 8 →
  ∃ printed out, encrypt little (true, Some key, true) buffer [arg] (ReadOctets <$> pieces) = Ok (printed, out)
    ∧ zlen printed = 22 ∧ Base64Key.make printed = Ok key
    ∧ ∀ k pieces', concat pieces' = out →
        decrypt little buffer' [k] (ReadOctets <$> pieces') =
          match Base64Key.make k with
          | Ok _ => if zlen text <=? Session.RECEIVE_MTU then Ok (n, text)
                    else Fault (AssertFailed "(size_t)body_len <= ciphertext_buffer.len()")
          | Fault f => Fault f
          end.
Proof.
  intros text Hk Hn Hlen. destruct (session_ok buffer key Hk) as [s Hs].
  exists (letters key), (be_bytes 8 (u64 n) ++ text). conjs.
  - unfold encrypt, Base64Key.random. cbn [negb mbind result_bind]. rewrite Hs. cbn [mbind result_bind]. rewrite Hn.
    cbn [mbind result_bind]. rewrite read_pieces. cbn [mbind result_bind app]. by rewrite printable_letters.
  - by apply encoding.
  - by apply make_letters.
  - intros k pieces' Hr'. unfold decrypt. rewrite read_pieces. cbn [app]. rewrite Hr'. pose proof (make_cases k) as Hmk. destruct (Base64Key.make k) as [key'|f]; [|done].
    destruct Hmk as [Hk' _]. destruct (session_ok buffer' key' Hk') as [s' Hs']. cbn [mbind result_bind]. rewrite Hs'.
    cbn [mbind result_bind].
    assert (length (be_bytes 8 (u64 n)) = 8%nat) as H8 by apply be_bytes_length.
    assert (zlen (be_bytes 8 (u64 n) ++ text) = 8 + zlen text) as Hz by (rewrite zlen_app; unfold zlen; lia).
    pose proof (zlen_nonneg text). destruct (zlen text <=? Session.RECEIVE_MTU) eqn:Hm; cycle 1.
    + by rewrite decrypt_long by lia.
    + rewrite ConnectionTheorems.decrypt_spec by lia. rewrite Hz, (proj2 (Z.ltb_ge _ _)) by lia. cbn [mbind result_bind nonce NetworkConnection.text].
      rewrite take_app_length', drop_app_length' by done. do 2 f_equal.
      change (to_long (be_value (be_bytes 8 (u64 n))) = n). rewrite be_value_bytes by (apply uwrap_range; lia).
      apply to_long_u64. by eapply myatoi_range.
Qed.
End tools.

Lemma tools_roundtrip_witness :
  ∃ printed out, @encrypt false toy Rfc4648.base64 (true, Some (seqZ 200 16), true) blank [bytes_of_string "-5"] [ReadOctets [1; 2]; ReadOctets [3]]
      = Ok (printed, out)
    ∧ @decrypt false toy Rfc4648.base64 blank [@letters Rfc4648.base64 (seqZ 7 16)] [ReadOctets (take 4 out); ReadOctets (drop 4 out)]
      = Ok (-5, [1; 2; 3]).
Proof.
  destruct (@tools_roundtrip false toy toy_laws Rfc4648.base64 Rfc4648.base64_laws (seqZ 200 16) blank blank (bytes_of_string "-5")
    [[1; 2]; [3]] (-5)) as (printed & out & He & _ & _ & Hd).
  - split; [reflexivity|by repeat constructor].
  - reflexivity.
  - reflexivity.
  - exists printed, out. split; [exact He|].
    specialize (Hd (@letters Rfc4648.base64 (seqZ 7 16)) [take 4 out; drop 4 out]). cbn [fmap list_fmap] in Hd. rewrite Hd.
    + reflexivity.
    + cbn [concat]. rewrite app_nil_r. apply take_drop.
Defined.
End ToolsTheorems.
