(* ===== verification/BulkSender.v ===== *)
(** * The bulk sender as a program

    The main program of [src/alfalfa/src/examples/sproutbt2.cc]: a Sprout
    connection, the wait of the server for its client, and the loop that
    keeps the connection filled.  The answers of the system are the members of
    a [world]. *)

From S2P Require Import Prelude Double TerminalDispatcher CryptoKeys NetworkConnection ConnectionProps SproutConnection SproutProps Utilities SelectLoop NetworkBind.

Module BulkSender.

(** What a round meets: the answer of [pselect] and the clock that it
    freezes, the datagram that [recvfrom] finds, and whether [sendto] takes a
    datagram *)
Record world : Type := mkWorld {
  pselect : Select.outcome * list Z;
  frozen : option (Z * Z);
  datagram : option (list Z * (Z * Z));
  sendto : list Z → bool }.

Section program.
Context `{DeliveryModel, ForecastCodec, Base64}.

Record t : Type := mk {
  net : SproutConnection.t;
  sel : Select.t;
  time_of_next_transmission : Z }.

Definition timestamp (sl : Select.t) : Z := Timestamp.timestamp (Select.clock sl).

(** [select] for a time, and [recv] if there is something *)
Definition wait_and_recv (fd : Z) (w : world) (wait_time : Z) (r : t) : result t :=
  '(active_fds, sl) ← Select.select (fun _ _ _ _ => pselect w) (frozen w) wait_time (sel r);
  if active_fds <? 0 then Fault (Thrown "exit")
  else
    ready ← Select.read fd sl;
    if (ready : bool) then
      match datagram w with
      | None => Fault (Thrown "recvfrom")
      | Some (x, from) =>
          '(_, net) ← SproutConnection.recv (timestamp sl) x from (net r);
          Ok (mk net sl (time_of_next_transmission r))
      end
    else Ok (mk (net r) sl (time_of_next_transmission r)).

(** "wait to get attached": the worlds that are left, or nothing while the
    server waits *)
Fixpoint attach (fd : Z) (ws : list world) (r : t) : result (option (list world * t)) :=
  match ws with
  | [] => Ok None
  | w :: ws =>
      r ← wait_and_recv fd w (-1) r;
      if Connection.has_remote_addr (SproutConnection.conn (net r)) then Ok (Some (ws, r)) else attach fd ws r
  end.

(** A round of the loop: the sizes of the packets sent with their times to
    the next, and the time to wait *)
Definition round (fd : Z) (server : bool) (w : world) (r : t) : result (list (Z * Z) * Z * t) :=
  let now := timestamp (sel r) in
  '(packets, next, net) ← Sproutbt2.send_round now (sendto w) server (time_of_next_transmission r) (net r);
  let wait := Sproutbt2.wait_time now next in
  r ← wait_and_recv fd w wait (mk net (sel r) next);
  Ok (packets, wait, r).

(** The rounds, with the time of each *)
Fixpoint loop (fd : Z) (server : bool) (ws : list world) (r : t) : result (list (Z * list (Z * Z) * Z) * t) :=
  match ws with
  | [] => Ok ([], r)
  | w :: ws =>
      '(packets, wait, r') ← round fd server w r;
      '(log, r'') ← loop fd server ws r';
      Ok ((timestamp (sel r), packets, wait) :: log, r'')
  end.

(** Up to the loops; [argv] are the arguments behind the name of the
    program. *)
Definition start (fd : Z) (sys : ConnectionSetup.system) (p : process) (clock : Z * Z) (argv : list (list Z))
    : result (bool * t) :=
  let '(now, ts) := Timestamp.frozen_timestamp (Some clock) Timestamp.initial in
  '(server, conn) ←
    match argv with
    | [] => '(_, _, c) ← ConnectionSetup.server sys p now None None; Ok (true, c)
    | [_] => Fault NullDeref
    | ip :: port :: _ =>
        '(_, c) ← ConnectionSetup.client sys p now (bytes_of_string "4h/Td1v//4jkYhqhLGgegw") ip
                    (to_int (fst (fst (Strtol.strtol port))));
        Ok (false, c)
    end;
  net ← SproutConnection.make now conn;
  sl ← Select.add_fd fd (Select.make ts);
  Ok (server, mk net sl 0).

(** The program for the worlds of a list: nothing while the server waits for
    a client *)
Definition run (fd : Z) (server : bool) (ws : list world) (r : t) : result (option (list (Z * list (Z * Z) * Z) * t)) :=
  attached ← (if server then attach fd ws r else Ok (Some (ws, r)));
  match attached with
  | None => Ok None
  | Some (ws, r) =>
      let r := mk (net r) (sel r) (u64 (timestamp (sel r) + Sproutbt2.fallback server)) in
      '(log, r) ← loop fd server ws r;
      Ok (Some (log, r))
  end.
End program.
End BulkSender.
