(* ===== verification/BulkSenderProps.v ===== *)
(** * What the bulk sender promises

    Every round ends, and the other side hears of the sender at least once in
    every fallback interval in which there are rounds. *)

From S2P Require Import Prelude Double TerminalDispatcher CryptoKeys NetworkConnection ConnectionProps SproutConnection SproutProps Utilities SelectLoop NetworkBind BulkSender.

Module BulkSenderTheorems.
Import ConnectionTheorems SproutTheorems UtilitiesTheorems SelectTheorems SetupTheorems.

Abbreviation time := Timestamp.timestamp.
Abbreviation after w ts := (Timestamp.freeze_timestamp (BulkSender.frozen w) ts).

(** Only signals that exist are delivered, and the clock does not run
    backwards. *)
Fixpoint worlds_ok (ts : Timestamp.t) (ws : list BulkSender.world) : Prop :=
  match ws with
  | [] => True
  | w :: ws => Forall signum_ok (snd (BulkSender.pselect w)) ∧ time ts ≤ time (after w ts) < 2 ^ 63 - 50 ∧ worlds_ok (after w ts) ws
  end.

(** The rounds of a log, the last transmission having been at [last]: in a round
    without one the interval since then has not passed, and the wait is no longer
    than what is left of it; a transmission fills the window, and that of the
    server is one empty packet *)
Fixpoint steady (server : bool) (last : Z) (log : list (Z * list (Z * Z) * Z)) : Prop :=
  match log with
  | [] => True
  | (now, packets, wait) :: log =>
      0 ≤ wait ≤ 10
      ∧ if decide (packets = []) then now + wait ≤ last + Sproutbt2.fallback server ∧ now < last + Sproutbt2.fallback server ∧ steady server last log
        else (∃ bytes, (server = true → bytes = 0) ∧ burst_shape (Sproutbt2.fallback server) bytes packets) ∧ steady server now log
  end.

Section program.
Context `{model : DeliveryModel, !DeliveryLaws, ForecastCodec}.
Implicit Types (r : BulkSender.t).

Definition sender_ok r : Prop :=
  wf (BulkSender.sel r) ∧ clock_ok (BulkSender.net r) ∧ 0 ≤ time (Select.clock (BulkSender.sel r)) < 2 ^ 63 - 50.

Lemma wait_and_recv_spec fd w wait r : 0 ≤ fd < Select.FD_SETSIZE → sender_ok r →
  let ts := Select.clock (BulkSender.sel r) in
  Forall signum_ok (snd (BulkSender.pselect w)) → time ts ≤ time (after w ts) < 2 ^ 63 - 50 →
  wp not_fuel (BulkSender.wait_and_recv fd w wait r) (fun r' => sender_ok r' ∧ Select.clock (BulkSender.sel r') = after w ts
    ∧ BulkSender.time_of_next_transmission r' = BulkSender.time_of_next_transmission r).
Proof.
  intros Hfd (Hwf & Hclk & Hnow) ts Hsig Ht. fold ts in Hnow. unfold BulkSender.wait_and_recv. apply wp_bind.
  pose proof (select_reports (fun _ _ _ _ => BulkSender.pselect w) (BulkSender.frozen w) wait (BulkSender.sel r) Hwf) as Hrep.
  destruct (BulkSender.pselect w) as [o signals] eqn:Ep. destruct (Hrep Hsig) as (_ & _ & Hsafe).
  eapply safe_wp; [exact Hsafe|]. intros [n sl] (Hwf' & _ & Hck & _). destruct (n <? 0); [done|].
  unfold Select.read, Select.fd_ok. rewrite (proj2 (Z.leb_le _ _)), (proj2 (Z.ltb_lt _ _)) by lia. cbn [andb mbind result_bind].
  fold ts in Hck. destruct (bool_decide (fd ∈ Select.read_fds sl)).
  - destruct (BulkSender.datagram w) as [[x from]|]; [|done]. apply wp_bind. unfold BulkSender.timestamp. rewrite Hck.
    eapply wp_weaken; [apply recv_spec; [lia|done]|]. intros [d net] Hnet. apply wp_ok. unfold sender_ok. cbn. rewrite Hck.
    by split_and!; try lia.
  - apply wp_ok. unfold sender_ok. cbn. rewrite Hck. by split_and!; try lia.
Qed.

Lemma attach_spec fd ws r : 0 ≤ fd < Select.FD_SETSIZE → sender_ok r → worlds_ok (Select.clock (BulkSender.sel r)) ws →
  wp not_fuel (BulkSender.attach fd ws r) (fun res => match res with
    | None => True
    | Some (ws', r') => sender_ok r' ∧ worlds_ok (Select.clock (BulkSender.sel r')) ws'
        ∧ Connection.has_remote_addr (SproutConnection.conn (BulkSender.net r')) = true
    end).
Proof.
  intros Hfd. revert r. induction ws as [|w ws IH]; intros r Hr Hws; cbn [BulkSender.attach]; [done|].
  destruct Hws as (Hs & Ht & Hws). apply wp_bind. eapply wp_weaken; [by apply wait_and_recv_spec|]. intros r' (Hr' & Hck & _).
  destruct (Connection.has_remote_addr _) eqn:Hrem.
  - apply wp_ok. by rewrite Hck.
  - apply IH; [done|]. by rewrite Hck.
Qed.

Lemma wait_time_spec now next : 0 ≤ now → next < 2 ^ 63 → now - 2 ^ 30 < next < now + 2 ^ 30 →
  0 ≤ Sproutbt2.wait_time now next ≤ 10 ∧ (now ≤ next → now + Sproutbt2.wait_time now next ≤ next).
Proof.
  intros Hn Hm Hr. unfold Sproutbt2.wait_time. destruct (decide (now ≤ next)) as [Hle|Hgt].
  - rewrite uwrap_small, to_int_small by lia. split_ifs; lia.
  - split; [|lia]. destruct (_ <? 0) eqn:H1; [lia|]. destruct (10 <? _) eqn:H2; lia.
Qed.

Lemma bulk_loop_spec fd server ws : 0 ≤ fd < Select.FD_SETSIZE → ∀ r last, sender_ok r → worlds_ok (Select.clock (BulkSender.sel r)) ws →
  0 ≤ last ≤ time (Select.clock (BulkSender.sel r)) →
  BulkSender.time_of_next_transmission r = last + Sproutbt2.fallback server →
  wp not_fuel (BulkSender.loop fd server ws r) (fun '(log, r') =>
    steady server last log ∧ match log with [] => True | (t0, _, _) :: _ => t0 = time (Select.clock (BulkSender.sel r)) end).
Proof.
  intros Hfd. induction ws as [|w ws IH]; intros r last Hr Hws Hl Hnext; cbn [BulkSender.loop]; [done|].
  destruct Hws as (Hs & Ht & Hws). pose proof Hr as (Hwf & Hclk & Hnow). unfold BulkSender.round, BulkSender.timestamp.
  set (now := time (Select.clock (BulkSender.sel r))) in *. apply wp_bind, wp_bind.
  assert (0 < Sproutbt2.fallback server ≤ 50) as Hfb by (unfold Sproutbt2.fallback; destruct server; lia).
  eapply wp_weaken; [apply (sproutbt2_fills_window now (BulkSender.sendto w) server (BulkSender.time_of_next_transmission r)); [lia|done]|].
  intros [[packets next] net] (Hnet & wnd & _ & Hsent). cbv zeta in Hsent.
  assert (next = last + Sproutbt2.fallback server ∧ packets = [] ∧ now < next
    ∨ next = now + Sproutbt2.fallback server ∧ packets ≠ [] ∧ ∃ bytes, (server = true → bytes = 0) ∧ burst_shape (Sproutbt2.fallback server) bytes packets) as Hcase.
  { destruct ((0 <? _) || _) eqn:Hd in Hsent.
    - right. destruct Hsent as [Hb ->]. split; [lia|]. split; [by destruct Hb as ([|] & size & -> & _)|].
      eexists. split; [|exact Hb]. by intros ->.
    - left. destruct Hsent as [-> ->]. split_and!; [done|done|]. lia. }
  set (wt := Sproutbt2.wait_time now next).
  apply wp_bind. eapply wp_weaken; [apply (wait_and_recv_spec fd w wt (BulkSender.mk net (BulkSender.sel r) next)); [done|done|done|done]|].
  intros r1 (Hr1 & Hck & Hnx). cbn [BulkSender.sel BulkSender.time_of_next_transmission] in Hck, Hnx. apply wp_ok.
  assert (0 ≤ wt ≤ 10 ∧ (now ≤ next → now + wt ≤ next)) as [Hw10 Hwn] by (apply wait_time_spec; lia).
  cbn zeta. apply wp_bind.
  destruct Hcase as [(-> & -> & Hlt)|(-> & Hne & Hb)].
  - eapply wp_weaken; [apply (IH r1 last); [done|by rewrite Hck|rewrite Hck; lia|done]|]. intros [log r'] [Hlog _].
    apply wp_ok. split; [|done]. cbn [steady]. split; [done|]. rewrite decide_True by done. split_and!; [lia|lia|done].
  - eapply wp_weaken; [apply (IH r1 now); [done|by rewrite Hck|rewrite Hck; lia|done]|]. intros [log r'] [Hlog _].
    apply wp_ok. split; [|done]. cbn [steady]. split; [done|]. by rewrite decide_False.
Qed.

Lemma start_ok `{Base64} fd sys p clock argv server r : BulkSender.start fd sys p clock argv = Ok (server, r) →
  0 ≤ fd < Select.FD_SETSIZE ∧ sender_ok r.
Proof.
  unfold BulkSender.start. destruct (first_timestamp clock) as (ts & -> & Hts). set (m := match argv with [] => _ | _ => _ end).
  assert (match m with Ok (_, c) => Receiver.time (Connection.forecastr c) = 0 | Fault _ => True end) as Hm.
  { unfold m. destruct argv as [|ip [|port argv]]; [|done|].
    - destruct (ConnectionSetup.server _ _ _ _ _) as [[[k b] c]|] eqn:Es; [|done]. cbn [mbind result_bind].
      by rewrite (server_eq _ _ _ _ _ _ _ _ Es).
    - destruct (ConnectionSetup.client _ _ _ _ _ _) as [[k c]|] eqn:Es; [|done]. cbn [mbind result_bind].
      by destruct (client_eq _ _ _ _ _ _ _ _ Es) as [a ->]. }
  clearbody m. destruct m as [[server' c]|]; [|done]. cbn [mbind result_bind]. unfold SproutConnection.make.
  pose proof (forecast_spec 1000 c ltac:(lia) ltac:(lia)) as Hf. destruct (Connection.forecast 1000 c) as [[f c']|]; [|done].
  cbn [mbind result_bind] in *. destruct (Select.add_fd _ _) as [sl|] eqn:Ea; [|done]. cbn [mbind result_bind]. intros [= <- <-].
  apply add_fd_inv in Ea as (Hwf & Hfd & Hck); [|apply wf_make]. split; [done|]. unfold sender_ok. cbn.
  rewrite Hck. cbn. rewrite Hts. by split_and!.
Qed.

End program.

(** ** A run for the witness *)

#[local] Existing Instance still_model.
#[local] Existing Instance still_laws.
#[local] Existing Instance forecast_codec.
#[local] Existing Instance KeyTheorems.Rfc4648.base64.

Definition client_argv : list (list Z) := [bytes_of_string "127.0.0.1"; bytes_of_string "60001"].

Definition client_started : BulkSender.t :=
  ltac:(let r := eval vm_compute in (BulkSender.start 3 busy tt (50, 0) client_argv) in
        lazymatch r with Ok (false, ?r) => exact r end).

(** The clock after every round *)
Definition idle (ms : Z) : BulkSender.world :=
  BulkSender.mkWorld (Select.Interrupted, []) (Some (50, ms * 1000000)) None (fun _ => true).

Definition idle_rounds : list BulkSender.world := [idle 10; idle 20; idle 49; idle 60].

Definition idle_log : list (Z * list (Z * Z) * Z) := [(1000, [], 10); (1010, [], 10); (1020, [], 10); (1049, [], 1)].

End BulkSenderTheorems.
