(* ===== verification/VerusArgs.v ===== *)
(** * The command lines of the Verus programs

    The first part of [main] in [src/verus/src/verus_server.cpp] and
    [verus_client.cpp]: the same loop over options with a value, with
    different options.  [argv] is the array with the name of the program;
    behind its end is a null pointer. *)

From S2P Require Import Prelude Double TerminalDispatcher NatcpServer.

Module VerusArgs.
Import CString.

(** [std::stod], which throws for what is not a number *)
Class Stod := stod : list Z → result Double.double.

(** [argv[ i ]]: null at the end, and nothing the program may read behind *)
Definition arg (argv : list (list Z)) (i : Z) : result (option (list Z)) :=
  if i =? zlen argv then Ok None else s ← vec_get argv i; Ok (Some s).

Section loop.
Context {A : Type}.

(** What an option does with its value, if it is one *)
Variable option_of : list Z → option (option (list Z) → A → result A).

(** The loop: [i] is the index of the last argument that was used. *)
Fixpoint loop (fuel : nat) (argv : list (list Z)) (i : Z) (a : A) : result A :=
  if negb (i =? zlen argv - 1) then
    match fuel with
    | O => Fault OutOfFuel
    | S fuel =>
        let i := i + 1 in
        s ← arg argv i;
        match s with
        | None => Fault NullDeref
        | Some s =>
            match option_of s with
            | None => Fault (Thrown "exit")
            | Some set =>
                let i := i + 1 in
                v ← arg argv i;
                a ← set v a;
                loop fuel argv i a
            end
        end
    end
  else Ok a.
End loop.

(** ** The server *)

Record server_config : Set := mkServer {
  name : option (list Z);
  port : Z;
  timeToRun : Double.double }.

Definition server_option `{Stod} (s : list Z) : option (option (list Z) → server_config → result server_config) :=
  if bool_decide (s = bytes_of_string "-name") then Some (fun v c => Ok (mkServer v (port c) (timeToRun c)))
  else if bool_decide (s = bytes_of_string "-p") then
    Some (fun v c => n ← atoi_ptr v; Ok (mkServer (name c) n (timeToRun c)))
  else if bool_decide (s = bytes_of_string "-t") then
    Some (fun v c =>
      match v with
      | None => Fault NullDeref
      | Some v => t ← stod v; Ok (mkServer (name c) (port c) t)
      end)
  else None.

(** The globals are zero before. *)
Definition server_main `{Stod} (argv : list (list Z)) : result server_config :=
  if zlen argv <? 7 then Fault (Thrown "exit")
  else loop server_option (length argv) argv 0 (mkServer None 0 (Double.of_Z 0)).

(** ** The client *)

Record client_config : Set := mkClient {
  srvr_addr : list Z;
  client_port : option (list Z);
  delay : Z }.

Definition client_option (s : list Z) : option (option (list Z) → client_config → result client_config) :=
  if bool_decide (s = bytes_of_string "-p") then Some (fun v c => Ok (mkClient (srvr_addr c) v (delay c)))
  else if bool_decide (s = bytes_of_string "-d") then
    Some (fun v c => n ← atoi_ptr v; Ok (mkClient (srvr_addr c) (client_port c) n))
  else None.

(** [main] up to the port number, which goes through [atoi] as well *)
Definition client_main (argv : list (list Z)) : result (client_config * Z) :=
  if zlen argv <? 4 then Fault (Thrown "exit")
  else
    addr ← vec_get argv 1;
    c ← loop client_option (length argv) argv 1 (mkClient addr None 0);
    n ← atoi_ptr (client_port c);
    Ok (c, u16 n).
End VerusArgs.

(** ** Properties *)

Module VerusArgsTheorems.
Import VerusArgs.

Section loop.
Context {A : Type} (option_of : list Z → option (option (list Z) → A → result A)).

(** Options with their values, applied one after the other *)
Fixpoint apply_all (opts : list (list Z * list Z)) (a : A) : result A :=
  match opts with
  | [] => Ok a
  | (s, v) :: opts =>
      match option_of s with
      | None => Fault (Thrown "exit")
      | Some set => a ← set (Some v) a; apply_all opts a
      end
  end.

Definition words (opts : list (list Z * list Z)) : list (list Z) := opts ≫= fun '(s, v) => [s; v].

Lemma arg_app pre x l : arg (pre ++ x :: l) (zlen pre) = Ok (Some x).
Proof.
  unfold arg. rewrite zlen_app, zlen_cons. pose proof (zlen_nonneg l). rewrite (proj2 (Z.eqb_neq _ _)) by lia.
  unfold vec_get. pose proof (zlen_nonneg pre). rewrite (proj2 (Z.ltb_ge _ _)) by lia. unfold zlen. rewrite Nat2Z.id.
  by rewrite list_lookup_middle.
Qed.

Lemma words_length opts : zlen (words opts) = 2 * zlen opts.
Proof. induction opts as [|[s v] l IH]; [done|]. change (words ((s, v) :: l)) with (s :: v :: words l). rewrite !zlen_cons. lia. Qed.

(** The options in front are applied. *)
Lemma loop_words opts : ∀ fuel pre rest a, (length opts ≤ fuel)%nat → 0 < zlen pre →
  loop option_of fuel (pre ++ words opts ++ rest) (zlen pre - 1) a =
    a' ← apply_all opts a;
    loop option_of (fuel - length opts) (pre ++ words opts ++ rest) (zlen (pre ++ words opts) - 1) a'.
Proof.
  induction opts as [|[s v] opts IH]; intros fuel pre rest a Hf Hpre.
  - cbn [words apply_all length mbind list_bind result_bind app]. by rewrite Nat.sub_0_r, app_nil_r.
  - destruct fuel as [|fuel]; [cbn in Hf; lia|]. cbn [length] in Hf.
    change (words ((s, v) :: opts)) with ([s; v] ++ words opts).
    assert (loop option_of (S fuel) (pre ++ ([s; v] ++ words opts) ++ rest) (zlen pre - 1) a =
      match option_of s with
      | None => Fault (Thrown "exit")
      | Some set => a ← set (Some v) a; loop option_of fuel ((pre ++ [s; v]) ++ words opts ++ rest) (zlen (pre ++ [s; v]) - 1) a
      end) as ->.
    { cbn [loop]. rewrite (proj2 (Z.eqb_neq _ _)) by (rewrite !zlen_app; change (zlen [s; v]) with 2;
        pose proof (zlen_nonneg (words opts)); pose proof (zlen_nonneg rest); lia). cbn [negb].
      replace (zlen pre - 1 + 1) with (zlen pre) by lia. cbn [app]. rewrite arg_app. cbn [mbind result_bind].
      destruct (option_of s) as [set|]; [|done].
      replace (pre ++ s :: v :: words opts ++ rest) with ((pre ++ [s]) ++ v :: words opts ++ rest) by by rewrite <- app_assoc.
      replace (zlen pre + 1) with (zlen (pre ++ [s])) by (rewrite zlen_app; done). rewrite arg_app. cbn [mbind result_bind].
      replace (zlen (pre ++ [s; v]) - 1) with (zlen (pre ++ [s])) by (rewrite !zlen_app; change (zlen [s; v]) with 2; change (zlen [s]) with 1; lia).
      by rewrite <- !app_assoc. }
    cbn [apply_all]. destruct (option_of s) as [set|]; [|done]. destruct (set (Some v) a) as [a1|]; [|done]. cbn [mbind result_bind].
    rewrite IH by (rewrite ?zlen_app; change (zlen [s; v]) with 2; lia). cbn [length Nat.sub].
    by rewrite <- !app_assoc.
Qed.

Lemma loop_end fuel argv a : loop option_of fuel argv (zlen argv - 1) a = Ok a.
Proof. destruct fuel; cbn [loop]; by rewrite Z.eqb_refl. Qed.

(** An option without a value: its effect with the null pointer, and then a
    read behind the array *)
Lemma loop_missing fuel pre s set a : (2 ≤ fuel)%nat → 0 < zlen pre → option_of s = Some set →
  loop option_of fuel (pre ++ [s]) (zlen pre - 1) a = (_ ← set None a; Fault OutOfRange).
Proof.
  intros Hf Hpre Hs. destruct fuel as [|[|fuel]]; [lia|lia|]. cbn [loop].
  rewrite zlen_app. change (zlen [s]) with 1. rewrite (proj2 (Z.eqb_neq _ _)) by lia. cbn [negb].
  replace (zlen pre - 1 + 1) with (zlen pre) by lia. rewrite arg_app. cbn [mbind result_bind]. rewrite Hs.
  assert (arg (pre ++ [s]) (zlen pre + 1) = Ok None) as ->.
  { unfold arg. rewrite zlen_app. change (zlen [s]) with 1. by rewrite Z.eqb_refl. }
  cbn [mbind result_bind]. destruct (set None a) as [a'|]; [|done]. cbn [mbind result_bind].
  rewrite (proj2 (Z.eqb_neq _ _)) by lia. cbn [negb].
  assert (arg (pre ++ [s]) (zlen pre + 1 + 1) = Fault OutOfRange) as ->; [|done].
  unfold arg. rewrite zlen_app. change (zlen [s]) with 1. rewrite (proj2 (Z.eqb_neq _ _)) by lia.
  unfold vec_get. rewrite (proj2 (Z.ltb_ge _ _)) by lia. rewrite lookup_ge_None_2; [done|].
  rewrite length_app. unfold zlen in *. cbn. lia.
Qed.

Lemma loop_all prog opts a : 0 < zlen prog →
  loop option_of (length (prog ++ words opts)) (prog ++ words opts) (zlen prog - 1) a = apply_all opts a.
Proof.
  intros Hp. pose proof (words_length opts) as Hw. rewrite <- (app_nil_r (words opts)) at 2.
  rewrite loop_words; [|rewrite length_app; unfold zlen in Hw; lia|done].
  destruct (apply_all opts a); [|done]. cbn [mbind result_bind]. rewrite app_nil_r. apply loop_end.
Qed.

Lemma loop_all_missing prog opts s set a a' : 0 < zlen prog → apply_all opts a = Ok a' → option_of s = Some set →
  loop option_of (length (prog ++ words opts ++ [s])) (prog ++ words opts ++ [s]) (zlen prog - 1) a = (_ ← set None a'; Fault OutOfRange).
Proof.
  intros Hp Ha Hs. pose proof (words_length opts) as Hw.
  rewrite loop_words; [|rewrite !length_app; unfold zlen in Hw; lia|done]. rewrite Ha. cbn [mbind result_bind].
  rewrite (app_assoc prog). apply loop_missing; [|rewrite zlen_app; pose proof (zlen_nonneg (words opts)); lia|done].
  rewrite !length_app. unfold zlen in Hw, Hp. cbn [length]. lia.
Qed.
End loop.

(** The command lines.  Both programs apply their options one after the
    other, the last value of an option counts, and an unknown option ends
    the program with the usage.  An option at the end that lacks its value is not
    noticed: the program reads through a null pointer or, when it only keeps the
    pointer, goes on behind the end of the array. *)
Theorem verus_arguments `{Stod} prog addr (opts : list (list Z * list Z)) :
  (3 ≤ zlen opts →
     let init := mkServer None 0 (Double.of_Z 0) in
     server_main (prog :: words opts) = apply_all server_option opts init
     ∧ ∀ c, apply_all server_option opts init = Ok c →
         server_main (prog :: words opts ++ [bytes_of_string "-name"]) = Fault OutOfRange
         ∧ server_main (prog :: words opts ++ [bytes_of_string "-p"]) = Fault NullDeref
         ∧ server_main (prog :: words opts ++ [bytes_of_string "-t"]) = Fault NullDeref)
  ∧ (1 ≤ zlen opts →
     let init := mkClient addr None 0 in
     client_main (prog :: addr :: words opts)
       = (c ← apply_all client_option opts init; n ← CString.atoi_ptr (client_port c); Ok (c, u16 n))
     ∧ ∀ c, apply_all client_option opts init = Ok c →
         client_main (prog :: addr :: words opts ++ [bytes_of_string "-p"]) = Fault OutOfRange
         ∧ client_main (prog :: addr :: words opts ++ [bytes_of_string "-d"]) = Fault NullDeref).
Proof.
  pose proof (words_length opts) as Hw. split; intros Hl init.
  - assert (∀ l, 0 ≤ zlen l → server_main (prog :: words opts ++ l)
      = loop server_option (length (prog :: words opts ++ l)) (prog :: words opts ++ l) 0 init) as Hm.
    { intros l Hn. unfold server_main. rewrite zlen_cons, zlen_app. by rewrite (proj2 (Z.ltb_ge _ _)) by lia. }
    split.
    + pose proof (Hm [] ltac:(done)) as Hm0. rewrite app_nil_r in Hm0. rewrite Hm0. by apply (loop_all _ [prog]).
    + intros c Hc. rewrite !Hm by done. split_and!; (etransitivity; [by eapply (loop_all_missing _ [prog] opts)|done]).
  - assert (∀ l, 0 ≤ zlen l → client_main (prog :: addr :: words opts ++ l)
      = (c ← loop client_option (length (prog :: addr :: words opts ++ l)) (prog :: addr :: words opts ++ l) 1 init;
         n ← CString.atoi_ptr (client_port c); Ok (c, u16 n))) as Hm.
    { intros l Hn. unfold client_main. rewrite !zlen_cons, zlen_app. by rewrite (proj2 (Z.ltb_ge _ _)) by lia. }
    split.
    + pose proof (Hm [] ltac:(done)) as Hm0. rewrite app_nil_r in Hm0. rewrite Hm0.
      pose proof (loop_all client_option [prog; addr] opts init ltac:(done)) as Hall.
      change (zlen [prog; addr] - 1) with 1 in Hall. change ([prog; addr] ++ words opts) with (prog :: addr :: words opts) in Hall.
      by rewrite Hall.
    + intros c Hc. rewrite !Hm by done.
      assert (∀ o set, client_option o = Some set →
        loop client_option (length (prog :: addr :: words opts ++ [o])) (prog :: addr :: words opts ++ [o]) 1 init
        = (_ ← set None c; Fault OutOfRange)) as Hone.
      { intros o set Ho. exact (loop_all_missing client_option [prog; addr] opts o set init c eq_refl Hc Ho). }
      split; [rewrite (Hone (bytes_of_string "-p") _ eq_refl)|rewrite (Hone (bytes_of_string "-d") _ eq_refl)]; done.
Qed.

#[local] Instance seconds : Stod := fun s => Ok (Double.of_Z (CString.atoi s)).

Lemma verus_arguments_witness :
  let opts := [(bytes_of_string "-name", [97]); (bytes_of_string "-p", bytes_of_string "60001"); (bytes_of_string "-t", bytes_of_string "9");
               (bytes_of_string "-p", bytes_of_string "60002")] in
  server_main ([47] :: words opts) = Ok (mkServer (Some [97]) 60002 (Double.of_Z 9))
  ∧ server_main ([47] :: words opts ++ [bytes_of_string "-t"]) = Fault NullDeref.
Proof.
  intros opts. destruct (verus_arguments [47] [48] opts) as [Hserver _]. destruct Hserver as [Hrun Hmissing]; [by vm_compute|].
  split.
  - rewrite Hrun. vm_compute. reflexivity.
  - destruct (Hmissing (mkServer (Some [97]) 60002 (Double.of_Z 9))) as (_ & _ & Ht); [vm_compute; reflexivity|exact Ht].
Defined.
End VerusArgsTheorems.
