(* ===== verification/TermEmu.v ===== *)
(** * The terminal emulator as a program

    [src/alfalfa/src/examples/termemu.cc]: a terminal inside a terminal.
    Octets of the user and of the child's pseudo-terminal are given to a
    [Complete], and at most fifty times a second the frame is drawn on the
    user's terminal as a difference to the last one.  The model joins
    [Select], [Complete], [Display] and [swrite]; the answers of the system
    are the members of a [world]. *)

From S2P Require Import Prelude Double VtParser Utf8 TerminalFramebuffer TerminalDispatcher TerminalEmulator TerminalDisplay Utilities SelectLoop.

Module TermEmu.

Definition STDIN_FILENO : Z := 0.
Definition SIGWINCH : Z := 28.

(** The result of [read]: end of file, an error, or some octets *)
Inductive read_result : Set := ReadEnd | ReadError | ReadOctets (buf : list Z).

(** What one round of the loop meets: [pselect] and the clock it freezes,
    [read] of the two descriptors, [TIOCGWINSZ] (columns and rows) and
    [TIOCSWINSZ], [gettimeofday], and [write] to the user and to the host *)
Record world : Type := mkWorld {
  pselect : Select.kernel;
  frozen : option (Z * Z);
  read_user : read_result;
  read_host : read_result;
  winsize : option (Z * Z);
  tell_child : bool;
  now : Z * Z;
  write_user : Swrite.kernel;
  write_host : Swrite.kernel }.

(** The variables of [emulate_terminal] and the static ones of [tick] *)
Record t : Set := mk {
  sel : Select.t;
  complete : Complete.t;
  state : Framebuffer.t;
  initialized : bool;
  last_time : Z * Z;
  timeout : Z }.

Definition get_fb (c : Complete.t) : Framebuffer.t := Emulator.fb (Complete.terminal c).

(** A string passed with [c_str()] and the length that [strlen] finds *)
Fixpoint c_str (s : list Z) : list Z :=
  match s with
  | [] => []
  | c :: s' => if c =? 0 then [] else c :: c_str s'
  end.

(** ** [tick]: "Print a frame if the last frame was more than 1/50 seconds ago" *)

Definition due (this_time : Z * Z) (s : t) : bool :=
  let diff :=
    Double.add (Double.of_Z (fst this_time - fst (last_time s)))
      (Double.mul (Double.of_ratio 1 1000000) (Double.of_Z (snd this_time - snd (last_time s)))) in
  negb (initialized s) || Double.leb (Double.of_ratio 1 50) diff.

(** Whether there was a frame, and what was written to the user *)
Definition tick (display : Display.t) (this_time : Z * Z) (write : Swrite.kernel) (new_frame : Framebuffer.t) (s : t)
    : result (bool * list Z * t) :=
  if due this_time s then
    new_frame ← Display.downgrade display new_frame;
    update ← Display.new_frame display (initialized s) (state s) new_frame;
    '(_, out) ← Swrite.swrite write (c_str update) (-1);
    Ok (true, out, mk (sel s) (complete s) new_frame true this_time (timeout s))
  else Ok (false, [], s).

(** ** [emulate_terminal] *)

(** How a round goes on: with the next, behind the loop, or out of the
    function *)
Inductive next : Set := Again | Break | Return.

Section loop.
Context `{Mbrtowc, Wcwidth}.

Definition user_bytes (buf : list Z) (c : Complete.t) : result (list Z * Complete.t) :=
  for_each buf (fun b '(terminal_to_host, c) =>
    '(reply, c) ← Complete.act_action (Parser.new_action (Parser.UserByte b)) c;
    Ok (terminal_to_host ++ reply, c)) ([], c).

Definition set_complete (c : Complete.t) (s : t) : t :=
  mk (sel s) c (state s) (initialized s) (last_time s) (timeout s).

(** The octets for the host are written; a failure ends the loop. *)
Definition to_host (w : world) (terminal_to_host : list Z) (s : t) : result (next * list Z * t) :=
  '(ret, sent) ← Swrite.swrite (write_host w) terminal_to_host (zlen terminal_to_host);
  Ok (if ret <? 0 then Break else Again, sent, s).

Definition from_user (w : world) (s : t) : result (next * list Z * t) :=
  match read_user w with
  | ReadOctets buf => '(reply, c) ← user_bytes buf (complete s); to_host w reply (set_complete c s)
  | _ => Ok (Return, [], s)
  end.

Definition from_host (w : world) (s : t) : result (next * list Z * t) :=
  match read_host w with
  | ReadOctets buf => '(reply, c) ← Complete.act buf (complete s); to_host w reply (set_complete c s)
  | _ => Ok (Return, [], s)
  end.

Definition resized (w : world) (s : t) : result (next * list Z * t) :=
  match winsize w with
  | Some (ws_col, ws_row) =>
      '(_, c) ← Complete.act_action (Parser.new_action (Parser.Resize ws_col ws_row)) (complete s);
      Ok (if tell_child w then Again else Return, [], set_complete c s)
  | None => Ok (Return, [], s)
  end.

(** The part of a round up to the frame: how it goes on and what the host
    is sent *)
Definition input_round (fd : Z) (w : world) (s : t) : result (next * list Z * t) :=
  '(active_fds, sl) ← Select.select (pselect w) (frozen w) (timeout s) (sel s);
  let s := mk sl (complete s) (state s) (initialized s) (last_time s) (timeout s) in
  if active_fds <? 0 then Ok (Break, [], s)
  else
    user ← Select.read STDIN_FILENO sl;
    if (user : bool) then from_user w s
    else
      host ← Select.read fd sl;
      if (host : bool) then from_host w s
      else
        winch ← Select.signal SIGWINCH sl;
        if (winch : bool) then resized w s
        else
          user ← Select.error STDIN_FILENO sl;
          failed ← (if (user : bool) then Ok true else Select.error fd sl);
          Ok (if (failed : bool) then Break else Again, [], s).

(** A round: also what the user's terminal is sent *)
Definition round (fd : Z) (display : Display.t) (w : world) (s : t) : result (next * list Z * list Z * t) :=
  '(n, host, s) ← input_round fd w s;
  match n with
  | Again =>
      '(frame, out, s) ← tick display (now w) (write_user w) (get_fb (complete s)) s;
      Ok (Again, host, out,
          mk (sel s) (complete s) (state s) (initialized s) (last_time s) (if (frame : bool) then -1 else 20))
  | _ => Ok (n, host, [], s)
  end.

(** Behind the loop: the last frame and the string that restores the user's
    terminal *)
Definition finish (display : Display.t) (write : Swrite.kernel) (s : t) : result (list Z * list Z) :=
  update ← Display.new_frame display true (state s) (get_fb (complete s));
  '(_, out) ← Swrite.swrite write (c_str update) (-1);
  '(_, restore) ← Swrite.swrite write (c_str Emulator.close) (-1);
  Ok (out, restore).

(** Before the loop; nothing when the window's size is not to be had or not
    to be set.  [installed]: whether the signal's handler was *)
Definition start (fd : Z) (env : Display.environment) (clock : Timestamp.t) (window : option (Z * Z))
    (tell_child installed : bool) (write : Swrite.kernel) : result (option (Display.t * list Z * t)) :=
  match window with
  | Some (ws_col, ws_row) =>
      if tell_child then
        c ← Complete.make ws_col ws_row;
        f ← Framebuffer.make ws_col ws_row;
        display ← Display.make (Some env);
        sl ← Select.add_fd STDIN_FILENO (Select.make clock);
        sl ← Select.add_fd fd sl;
        Select.add_signal SIGWINCH installed installed;;
        '(_, out) ← Swrite.swrite write (c_str Emulator.open) (-1);
        Ok (Some (display, out, mk sl c f false (0, 0) (-1)))
      else Ok None
  | None => Ok None
  end.

(** The loop over the rounds of a list of worlds: what the user's terminal
    and the host are sent *)
Fixpoint loop (fd : Z) (display : Display.t) (ws : list world) (s : t) : result (next * list Z * list Z * t) :=
  match ws with
  | [] => Ok (Again, [], [], s)
  | w :: ws =>
      '(n, host, out, s) ← round fd display w s;
      match n with
      | Again =>
          '(n, host', out', s) ← loop fd display ws s;
          Ok (n, host ++ host', out ++ out', s)
      | Break =>
          '(last, restore) ← finish display (write_user w) s;
          Ok (Break, host, out ++ last ++ restore, s)
      | Return => Ok (Return, host, out, s)
      end
  end.
End loop.
End TermEmu.
