(* ===== verification/TermEmuProps.v ===== *)
(** * What the terminal emulator's user sees

    The strings of the display encoder hold no null character, so that
    [swrite] writes them whole; a terminal that is sent what [termemu.cc]
    writes shows, after every frame, the screen of the program that runs
    inside. *)

From S2P Require Import Prelude Double VtParser Utf8 TerminalFramebuffer FramebufferWf TerminalDispatcher DispatcherProps TerminalFunctions FunctionSafety TerminalEmulator EmulatorSafety ScreenProps SequenceProps EmulatorProps TerminalDisplay TerminalEffects DisplayProps DisplayFrame StateSync ScreenSync Utilities SelectLoop TermEmu.

Module TermEmuTheorems.
Import DispatcherLemmas EmulatorGuarantees SequenceTheorems EffectLemmas DisplayTheorems FrameTheorems ScreenSyncTheorems UtilitiesTheorems SelectTheorems RFC3629.
Import Display.

(** ** Strings without a null character *)

Definition clean (s : list Z) : Prop := forallb (fun c => negb (c =? 0)) s = true.

Lemma clean_app s1 s2 : clean (s1 ++ s2) ↔ clean s1 ∧ clean s2.
Proof. unfold clean. by rewrite forallb_app, andb_true_iff. Qed.

Lemma clean_cons c s : clean (c :: s) ↔ c ≠ 0 ∧ clean s.
Proof. unfold clean. cbn. rewrite andb_true_iff, negb_true_iff, Z.eqb_neq. done. Qed.

Lemma clean_take n s : clean s → clean (take n s).
Proof. rewrite <- (take_drop n s) at 1. by rewrite clean_app; intros [? _]. Qed.

Lemma clean_decimal n : clean (decimal n).
Proof.
  assert (∀ fuel k acc, clean acc → clean (decimal_aux fuel k acc)) as Haux.
  { intros fuel. induction fuel as [|fuel IH]; intros k acc Hacc; [done|]. cbn [decimal_aux].
    assert (clean ((48 + k mod 10) :: acc)) as Hn.
    { apply clean_cons. split; [|done]. pose proof (Z.mod_pos_bound k 10). lia. }
    split_ifs; auto. }
  unfold decimal. split_ifs; [apply clean_cons; split; [done|]|]; by apply Haux.
Qed.

Lemma clean_encode c : clean (percent_lc c).
Proof.
  unfold percent_lc, encode. destruct (c =? 0) eqn:Hc; [done|].
  pose proof (Z.mod_pos_bound c 64). pose proof (Z.mod_pos_bound (c / 64) 64). pose proof (Z.mod_pos_bound (c / 4096) 64).
  split_ifs; rewrite !clean_cons; split_and!; try done; try lia; Z.div_mod_to_equations; lia.
Qed.

Lemma clean_chars cs : clean (cs ≫= percent_lc).
Proof. induction cs as [|c cs IH]; [done|]. cbn. apply clean_app. split; [apply clean_encode|exact IH]. Qed.

Create HintDb clean discriminated.
#[local] Hint Resolve clean_decimal clean_chars clean_take : clean.

Ltac clean := unfold snprintf; rewrite ?clean_app, ?clean_cons; split_and?; auto with clean; done.

Lemma clean_cup row col : clean (FrameState.cup row col).
Proof. unfold FrameState.cup, snprintf. apply clean_take. clean. Qed.

Lemma clean_stbm top bottom : clean (stbm top bottom).
Proof. unfold stbm, snprintf. apply clean_take. clean. Qed.

Lemma clean_sgr r : clean (Renditions.sgr r).
Proof.
  unfold Renditions.sgr, snprintf. rewrite !clean_app. split_and!; split_ifs; try done; apply clean_take; clean.
Qed.
#[local] Hint Resolve clean_cup clean_stbm clean_sgr : clean.

(** ** The encoder *)

Abbreviation tidy fr := (clean (FrameState.str fr)).

Lemma tidy_append s fr : tidy fr → clean s → tidy (FrameState.append s fr).
Proof. intros Hfr Hs. cbn. by apply clean_app. Qed.
#[local] Hint Resolve tidy_append : clean.

Ltac tidy := split_ifs; cbn [FrameState.str FrameState.set_x FrameState.set_y FrameState.set_force FrameState.set_cursor_x FrameState.set_cursor_y FrameState.set_rendition FrameState.set_last FrameState.append]; eauto with clean.

Lemma tidy_move row col fr : tidy fr → tidy (FrameState.append_silent_move row col fr).
Proof. intros Hfr. unfold FrameState.append_silent_move. cbv zeta. split_ifs; apply clean_app; split; auto with clean. by apply clean_app. Qed.

Abbreviation writes m := (wp (fun _ => True) m (fun fr => tidy fr)).

Lemma tidy_put_cell D init f fr : tidy fr → writes (put_cell D init f fr).
Proof.
  intros Hfr. unfold put_cell. apply any_bind. intros cell. apply any_bind. intros [|]; [done|].
  cbv zeta. set (fr1 := select_rendition _ _). assert (tidy fr1) as H1.
  { unfold fr1, select_rendition, seek. split_ifs; try done; try by apply tidy_move.
    - apply tidy_append; [by apply tidy_move|apply clean_sgr].
    - apply tidy_append; [done|apply clean_sgr]. }
  clearbody fr1. destruct (_ =? 0).
  - unfold put_blank. apply any_bind. intros n. apply any_bind. intros _. cbv zeta.
    split_ifs; apply wp_ok; try (by apply clean_app); apply clean_app; (split; [done|]).
    unfold erase_chars, snprintf. split_ifs; [done|]. apply clean_take. clean.
  - apply wp_ok. unfold put_contents, append_chars. cbv zeta.
    cbn [FrameState.str FrameState.set_force FrameState.set_cursor_x FrameState.set_x].
    apply clean_app. split; [|apply clean_chars]. split_ifs; [by apply clean_app|done].
Qed.

Lemma tidy_put_cells D init f fuel lx fr :
  tidy fr → wp (fun _ => True) (put_cells fuel D init f lx fr) (fun '(_, fr) => tidy fr).
Proof.
  revert lx fr. induction fuel as [|fuel IH]; intros lx fr Hfr; cbn [put_cells]; (destruct (_ <? _); [|done]); [done|].
  apply wp_bind. eapply wp_weaken; [by apply tidy_put_cell|]. intros fr1 H1. by apply IH.
Qed.

Lemma tidy_force_cells D init f fuel fr : tidy fr → writes (force_cells fuel D init f fr).
Proof.
  revert fr. induction fuel as [|fuel IH]; intros fr Hfr; cbn [force_cells]; (destruct (_ <? _); [|done]); [done|].
  apply wp_bind. eapply wp_weaken; [by apply tidy_put_cell|]. intros fr1 H1. by apply IH.
Qed.

Lemma tidy_draw_row D init f fr : tidy fr → writes (draw_row D init f fr).
Proof.
  intros Hfr. unfold draw_row. apply wp_bind. eapply wp_weaken; [by apply tidy_put_cells|]. intros [lx fr1] H1.
  destruct (_ <? _); [|done]. apply any_bind. intros row. apply any_bind. intros [|].
  - unfold draw_wrap. apply wp_bind. eapply wp_weaken; [by apply tidy_force_cells|]. intros fr2 H2. exact H2.
  - apply any_bind. intros [|]; [|done]. unfold draw_unwrap. cbv zeta.
    apply wp_bind, (wp_weaken _ _ (fun fr => tidy fr)); [destruct init; [apply any_bind; intros g|]; exact H1|].
    intros fr2 H2. apply tidy_put_cell. apply clean_app. split; [done|]. apply clean_take. clean.
Qed.

Lemma tidy_draw_scroll f fr : tidy fr → writes (draw_scroll f fr).
Proof.
  intros Hfr. unfold draw_scroll. apply any_bind. intros [ls sh]. destruct (sh =? 0); [done|]. cbv zeta.
  destruct (ls =? 0); [exact Hfr|]. apply any_bind. intros _. apply any_bind. intros g.
  apply wp_ok. apply clean_app. split; [|apply clean_stbm]. apply clean_app. split.
  - apply tidy_move. apply clean_app. split; [|apply clean_stbm]. split_ifs; [by apply clean_app|done].
  - generalize (Z.to_nat ls). intros n. induction n; [done|]. by apply clean_cons.
Qed.

(** Whatever the frames are, the encoder writes no null character. *)
Lemma new_frame_clean D init last f : wp (fun _ => True) (new_frame D init last f) clean.
Proof.
  unfold new_frame. cbv zeta. set (fr0 := draw_reverse_video _ _ _). assert (tidy fr0) as H0.
  { unfold fr0, draw_reverse_video, draw_title, draw_bell, osc, append_chars. cbv zeta.
    repeat (split_ifs; try done; apply clean_app; split; try done; try apply clean_chars; try (apply clean_take; clean)). }
  clearbody fr0. destruct (draw_size init f fr0) as [init' fr1] eqn:E1. assert (tidy fr1) as H1.
  { revert E1. unfold draw_size. cbv zeta. split_ifs; intros [= <- <-]; [|done].
    apply clean_app. split; [|done]. apply clean_app. split; [done|apply clean_stbm]. }
  apply wp_bind, (wp_weaken _ _ (fun fr => tidy fr)); [destruct init'; [by apply tidy_draw_scroll|exact H1]|].
  intros fr2 H2. apply wp_bind, (wp_weaken _ _ (fun fr => tidy fr)).
  { apply for_range_inv; [done|]. intros j fr Hj Hfr. apply wp_bind.
    eapply wp_weaken; [by apply tidy_draw_row|]. intros fr' H'. exact H'. }
  intros fr3 H3. apply wp_ok. unfold draw_rendition, draw_visibility, draw_cursor. cbv zeta.
  repeat (split_ifs; try done; apply clean_app; split; try done; try apply clean_cup; try apply clean_sgr).
Qed.

(** ** Writing *)

Lemma c_str_clean s : clean s → TermEmu.c_str s = s.
Proof.
  induction s as [|c s IH]; [done|]. intros [Hc Hs]%clean_cons. cbn. rewrite (proj2 (Z.eqb_neq _ _)) by done. by rewrite IH.
Qed.

(** A descriptor to which something can always be written *)
Definition open_kernel (write : Swrite.kernel) : Prop := ∀ i n, 0 < n → 0 < write i n ≤ n.

Lemma swrite_open write s : open_kernel write → Swrite.swrite write s (-1) = Ok (0, s).
Proof.
  intros Hk. assert (honest_kernel write) as Hh by (intros i n Hn; by apply Hk).
  pose proof (loop_spec (Z.to_nat (zlen s)) write 0 s 0 [] Hh) as Hl. unfold Swrite.swrite. change (0 <=? -1) with false.
  pose proof (zlen_nonneg s). destruct (Swrite.loop _ _ _ _ _ _ _) as [[ret out]|f]; cbn in Hl.
  - destruct Hl as [[-> ->]|(_ & k & j & _ & Hlt & Hle)]; [lia|lia|done|done|].
    pose proof (Hk j (zlen s - Z.of_nat k)). unfold zlen in *. lia.
  - exfalso. apply Hl; [lia|lia|done].
Qed.

(** ** The terminal of the user *)

Section user.
Context `{Wcwidth}.
Implicit Types (s : TermEmu.t) (R : Complete.t) (r f : Framebuffer.t) (D : Display.t).

Abbreviation frame s := (TermEmu.get_fb (TermEmu.complete s)).
Abbreviation size f := (fb_width f, fb_height f).

(** A terminal that received only frames, with the screen [r] *)
Definition quiet R r : Prop := ∃ d u, R = grounded (Emulator.mk r d u)
  ∧ plain r ∧ pending r = false ∧ disp_ok d ∧ Dispatcher.terminal_to_host d = [].

(** The user's terminal has the size of the emulated one, and shows the last
    frame drawn, up to a change of size since *)
Definition seen s R : Prop := ∃ r, quiet R r ∧ size r = size (frame s) ∧ fb_ok (TermEmu.state s)
  ∧ (TermEmu.initialized s = true → shows r (TermEmu.state s) (frame s)).

Lemma quiet_effect str R r r' : quiet R r → effect str r r' → plain r' → pending r' = false →
  ∃ R', Complete.act str R = Ok ([], R') ∧ quiet R' r'.
Proof.
  intros (d & u & -> & _ & _ & Hd & He) Heff Hp Hn. destruct (Heff d u Hd) as (d' & (Hd' & Hr) & Hact).
  exists (grounded (Emulator.mk r' (Dispatcher.set_terminal_to_host [] d') u)). split.
  - unfold Complete.act. rewrite Hact. cbn. by rewrite Hr, He.
  - exists (Dispatcher.set_terminal_to_host [] d'), u. by conjs.
Qed.

(** A frame of any size that the terminal has *)
Lemma frame_drawn D init last f R r `{!SpacingLaws} :
  has_title D = true → drawable f → fb_ok last → quiet R r → size r = size f → (init = true → shows r last f) →
  ∃ out R' r', Display.new_frame D init last f = Ok out ∧ clean out
    ∧ Complete.act out R = Ok ([], R') ∧ quiet R' r' ∧ appearance r' = appearance f.
Proof.
  intros HD Hf Hl HR [= Hw Hh] Hs. pose proof HR as (d & u & _ & Hp & Hn & _).
  destruct (new_frame_effect D init last f r HD Hf Hl Hp Hn Hw Hh Hs) as (out & r' & Ho & He & Hp' & Hn' & Ha).
  destruct (quiet_effect out R r r' HR He Hp' Hn') as (R' & Hact & HR').
  exists out, R', r'. pose proof (new_frame_clean D init last f) as Hc. rewrite Ho in Hc. by conjs.
Qed.

Lemma drawn_seen s R r : quiet R r → drawable (frame s) → TermEmu.state s = frame s → appearance r = appearance (frame s) →
  seen s R.
Proof.
  intros HR Hd Hst Ha. exists r. pose proof HR as (d & u & _ & Hp & _). pose proof Hd as (Hf & _).
  destruct (appearance_size r (frame s)) as [-> ->]; [apply Hp|done|done|]. rewrite Hst. conjs; try done.
  intros _. split_and!; [exact (f_equal app_title Ha)|exact (f_equal app_reverse Ha)|by intros _ _].
Qed.

(** ** A round *)

Lemma input_keeps fd w s : wp (fun _ => True) (TermEmu.input_round fd w s) (fun '(_, _, s1) =>
  TermEmu.state s1 = TermEmu.state s ∧ TermEmu.initialized s1 = TermEmu.initialized s
  ∧ TermEmu.last_time s1 = TermEmu.last_time s).
Proof.
  unfold TermEmu.input_round. apply any_bind. intros [n sl]. cbv zeta. destruct (n <? 0); [done|].
  apply any_bind. intros [|].
  { unfold TermEmu.from_user. destruct (TermEmu.read_user w); try done.
    apply any_bind. intros [reply c]. apply any_bind. by intros [ret sent]. }
  apply any_bind. intros [|].
  { unfold TermEmu.from_host. destruct (TermEmu.read_host w); try done.
    apply any_bind. intros [reply c]. apply any_bind. by intros [ret sent]. }
  apply any_bind. intros [|].
  - unfold TermEmu.resized. destruct (TermEmu.winsize w) as [[col row]|]; [|done]. apply any_bind. by intros [reply c].
  - apply any_bind. intros e1. apply any_bind. by intros e2.
Qed.

(** The user's terminal is the first to know of a change of its size, and
    it is not changed back to the size of the last frame before another
    frame is drawn. *)
Definition follows s s1 R R1 : Prop :=
  size (frame s1) = size (frame s) ∧ R1 = R
  ∨ size (frame s1) ≠ size (TermEmu.state s)
    ∧ Complete.act_action (Parser.new_action (Parser.Resize (fb_width (frame s1)) (fb_height (frame s1)))) R = Ok ([], R1).

Lemma follows_seen s s1 R R1 : seen s R → drawable (frame s1) → follows s s1 R R1 →
  TermEmu.state s1 = TermEmu.state s → TermEmu.initialized s1 = TermEmu.initialized s → seen s1 R1.
Proof.
  intros (r & HR & Hsz & Hst & Hsh) Hd Hf Hs Hi. destruct Hf as [[Heq ->]|[Hne Hact]].
  - exists r. rewrite Hs, Hi. conjs; [done|congruence|done|]. intros Ht. destruct (Hsh Ht) as (H1 & H2 & H3).
    injection Heq as Hw Hh. split_and!; [done|done|]. rewrite Hw, Hh. done.
  - destruct HR as (d & u & -> & Hp & Hn & Hdo & He). pose proof Hd as ((((Hw0 & Hh0) & _) & _) & Hph & Hpw & _).
    destruct (resize_plain (fb_width (frame s1)) (fb_height (frame s1)) r Hp Hw0 Hh0)
      as (r' & Heq & Hp' & Hw' & Hh' & Hn' & Ht' & Hrv').
    revert Hact. unfold Complete.act_action, Emulator.act_on_terminal. cbn -[to_int Framebuffer.resize].
    unfold Emulator.resize. cbn -[to_int Framebuffer.resize]. change Dispatcher.PARAM_MAX with 65535 in *.
    rewrite !to_int_small by lia. rewrite Heq. cbn. intros [= _ <-].
    exists r'. rewrite Hs, Hi. conjs; [|congruence|done|].
    + exists (Dispatcher.set_terminal_to_host [] d), u. conjs; try done. by rewrite Hn'.
    + intros Hit. destruct (Hsh Hit) as (H1 & H2 & _). split_and!; [congruence|congruence|]. intros Hw Hh. destruct Hne. congruence.
Qed.

(** Only signals that exist are delivered, nothing more is written than
    asked for, and a window has a size. *)
Record world_ok (w : TermEmu.world) : Prop := mkWorldOk {
  wok_signals n fds errors ts : Forall signum_ok (snd (TermEmu.pselect w n fds errors ts));
  wok_host : honest_kernel (TermEmu.write_host w);
  wok_size col row : TermEmu.winsize w = Some (col, row) → 0 < col < 65536 ∧ 0 < row < 65536 }.

(** The states of the program with the user's terminal *)
Inductive session (fd : Z) D : TermEmu.t → Complete.t → Prop :=
  | session_start env clock w h installed write s out R r R' :
      TermEmu.start fd env clock (Some (w, h)) true installed write = Ok (Some (D, out, s)) →
      open_kernel write → has_title D = true →
      quiet R r → size r = size (frame s) → Complete.act out R = Ok ([], R') → session fd D s R'
  | session_round s R w host out s' R1 R' :
      session fd D s R → TermEmu.round fd D w s = Ok (TermEmu.Again, host, out, s') →
      world_ok w → open_kernel (TermEmu.write_user w) →
      follows s s' R R1 → drawable (frame s') → Complete.act out R1 = Ok ([], R') → session fd D s' R'.

Lemma start_seen fd env clock w h installed write D s out R r R' :
  TermEmu.start fd env clock (Some (w, h)) true installed write = Ok (Some (D, out, s)) → open_kernel write →
  quiet R r → size r = size (frame s) → Complete.act out R = Ok ([], R') →
  seen s R' ∧ posterize_colors D = false.
Proof.
  unfold TermEmu.start. destruct (Complete.make w h) as [c|]; [|done]. cbn [mbind result_bind].
  destruct (Framebuffer.make w h) as [f|] eqn:Ef; [|done]. cbn [mbind result_bind].
  destruct (Display.make (Some env)) as [D'|] eqn:ED; [|done]. cbn [mbind result_bind].
  destruct (Select.add_fd _ _) as [sl|]; [|done]. cbn [mbind result_bind].
  destruct (Select.add_fd fd sl) as [sl'|]; [|done]. cbn [mbind result_bind].
  destruct (Select.add_signal _ _ _); [|done]. cbn [mbind result_bind]. intros Heq Hk HR Hsz Hact.
  rewrite swrite_open in Heq by done. cbn [mbind result_bind] in Heq. injection Heq as <- <- <-.
  apply make_plain in Ef as [Hpf _]. split.
  - pose proof HR as (d & u & _ & Hp & Hn & _).
    destruct (quiet_effect Emulator.open R r (Framebuffer.on_ds (DrawState.set_application_mode_cursor_keys true) r) HR)
      as (R2 & Hact2 & HR2); [exact (effect_mode true 1 _ r ltac:(split; by vm_compute) eq_refl)|exact Hp|exact Hn|].
    change (Complete.act Emulator.open R = Ok ([], R')) in Hact. rewrite Hact2 in Hact. injection Hact as <-.
    eexists. conjs; [exact HR2|exact Hsz|apply Hpf|done].
  - revert ED. unfold Display.make. destruct (setupterm env); [done|]. cbn [mbind result_bind].
    destruct (ech env); cbn [mbind result_bind]; try done; destruct (_ =? -1); cbn [mbind result_bind]; try done; by intros [= <-].
Qed.

Lemma tick_keeps D now write f s b out s' : TermEmu.tick D now write f s = Ok (b, out, s') →
  TermEmu.sel s' = TermEmu.sel s ∧ TermEmu.complete s' = TermEmu.complete s.
Proof.
  unfold TermEmu.tick. destruct (TermEmu.due _ _); [|by intros [= _ _ <-]].
  destruct (Display.downgrade _ _); [|done]. cbn [mbind result_bind]. destruct (new_frame _ _ _ _); [|done].
  cbn [mbind result_bind]. destruct (Swrite.swrite _ _ _) as [[ret o]|]; [|done]. cbn [mbind result_bind]. by intros [= _ _ <-].
Qed.

(** The frame of a round, when one is due *)
Lemma tick_seen D now write s R `{!SpacingLaws} :
  has_title D = true → posterize_colors D = false → open_kernel write → seen s R → drawable (frame s) →
  ∃ out R', TermEmu.tick D now write (frame s) s
      = Ok (TermEmu.due now s, out,
            if TermEmu.due now s then TermEmu.mk (TermEmu.sel s) (TermEmu.complete s) (frame s) true now (TermEmu.timeout s) else s)
    ∧ Complete.act out R = Ok ([], R')
    ∧ (if TermEmu.due now s then ∃ r, quiet R' r ∧ appearance r = appearance (frame s) else out = [] ∧ seen s R').
Proof.
  intros HD Hpc Hk Hs Hd. pose proof Hs as (r & HR & Hsz & Hst & Hsh). unfold TermEmu.tick. destruct (TermEmu.due now s).
  - unfold Display.downgrade. rewrite Hpc. cbn [mbind result_bind].
    destruct (frame_drawn D (TermEmu.initialized s) (TermEmu.state s) (frame s) R r HD Hd Hst HR Hsz Hsh)
      as (out & R' & r' & -> & Hc & Hact & HR' & Ha).
    cbn [mbind result_bind]. rewrite c_str_clean, swrite_open by done. cbn [mbind result_bind].
    exists out, R'. conjs; [done|done|by exists r'].
  - pose proof HR as (d & u & _ & Hp & Hn & _).
    destruct (quiet_effect [] R r r HR (effect_nil r) Hp Hn) as (R' & Hact & HR').
    exists [], R'. conjs; try done. by exists r.
Qed.

Lemma session_seen fd D s R `{!SpacingLaws} : session fd D s R →
  seen s R ∧ has_title D = true ∧ posterize_colors D = false.
Proof.
  induction 1 as [env clock w h installed write s out R r R' Hst Hk HD HR Hsz Hact
    |s R w host out s' R1 R' Hses (IH & HD & Hpc) Hr _ Hk Hf Hd Hact].
  - destruct (start_seen _ _ _ _ _ _ _ _ _ _ _ _ _ Hst Hk HR Hsz Hact). by conjs.
  - split; [|done]. revert Hr. unfold TermEmu.round. pose proof (input_keeps fd w s) as Hin.
    destruct (TermEmu.input_round fd w s) as [[[n host1] s1]|]; [|done]. cbn [mbind result_bind]. cbn in Hin.
    destruct Hin as (Hst & Hini & _). destruct n; try done.
    assert (TermEmu.complete s' = TermEmu.complete s1 → seen s1 R1) as Hs1.
    { intros Hc. rewrite Hc in Hd. apply (follows_seen s s1 R R1 IH); try done. unfold follows in *. by rewrite Hc in Hf. }
    intros Hr. destruct (TermEmu.tick D (TermEmu.now w) (TermEmu.write_user w) (frame s1) s1) as [[[fr out1] s2]|] eqn:Et; [|done].
    cbn [mbind result_bind] in Hr. injection Hr as <- <- <-. cbn [TermEmu.complete] in *.
    destruct (tick_keeps _ _ _ _ _ _ _ _ Et) as [_ Hc].
    specialize (Hs1 Hc). rewrite Hc in Hd.
    destruct (tick_seen D (TermEmu.now w) (TermEmu.write_user w) s1 R1 HD Hpc Hk Hs1 Hd) as (o & R2 & Ht & Ha2 & Hres).
    rewrite Et in Ht. injection Ht as -> -> ->. rewrite Ha2 in Hact. injection Hact as <-.
    destruct (TermEmu.due (TermEmu.now w) s1).
    + destruct Hres as (r' & HR' & Happ). by eapply drawn_seen.
    + destruct Hres as [_ Hres]. exact Hres.
Qed.

(** ** Safety of a round *)

(** The pieces that the loop drives are well formed. *)
Definition sound s : Prop := SelectTheorems.wf (TermEmu.sel s) ∧ term_ok (TermEmu.complete s).

Lemma swrite_safe write str : honest_kernel write → safe (Swrite.swrite write str (zlen str)) (fun _ => True).
Proof.
  intros Hk. unfold Swrite.swrite. pose proof (zlen_nonneg str). rewrite (proj2 (Z.leb_le _ _)) by lia.
  eapply wp_weaken; [apply loop_spec; [done|lia|lia|done]|done].
Qed.

Lemma to_host_sound w reply s : world_ok w → sound s →
  wp emulator_fault (TermEmu.to_host w reply s) (fun '(_, _, s1) => sound s1).
Proof.
  intros Hw Hs. unfold TermEmu.to_host. apply wp_bind. eapply safe_wp; [apply swrite_safe, Hw|]. by intros [ret sent] _.
Qed.

Lemma act_user_ok b c : term_ok c →
  safe (Complete.act_action (Parser.new_action (Parser.UserByte b)) c) (fun '(_, c') => term_ok c').
Proof.
  intros [Hp [Hf Hd]]. unfold Complete.act_action, Emulator.act_on_terminal. cbn [Parser.kind Parser.new_action].
  destruct (UserInput.input _ _ _) as [str u]. split; [done|]. split; [done|]. by destruct Hd as (?&?&?&?&?).
Qed.

Lemma act_resize_ok col row c : term_ok c → 0 < col < 65536 → 0 < row < 65536 →
  safe (Complete.act_action (Parser.new_action (Parser.Resize col row)) c) (fun '(_, c') => term_ok c').
Proof.
  intros [Hp [Hf Hd]] Hc Hr. unfold Complete.act_action, Emulator.act_on_terminal. cbn [Parser.kind Parser.new_action].
  unfold Emulator.resize. rewrite !to_int_small by lia. apply wp_bind, wp_bind, wp_bind.
  eapply wp_weaken; [apply fb_resize_spec; [done|lia|lia]|]. intros f' (Hf' & _). split; [done|]. split; [done|].
  by destruct Hd as (?&?&?&?&?).
Qed.

#[local] Existing Instance Utf8Theorems.rfc3629_laws.

Lemma input_sound fd w s `{!WcwidthLaws} : sound s → world_ok w → 0 ≤ fd < Select.FD_SETSIZE →
  wp emulator_fault (TermEmu.input_round fd w s) (fun '(_, _, s1) => sound s1).
Proof.
  intros [Hsel Hc] Hw Hfd. unfold TermEmu.input_round. apply wp_bind.
  pose proof (select_reports (TermEmu.pselect w) (TermEmu.frozen w) (TermEmu.timeout s) (TermEmu.sel s) Hsel) as Hr.
  pose proof (wok_signals w Hw (Select.max_fd (TermEmu.sel s) + 1) (Select.all_fds (TermEmu.sel s))
    (Select.all_fds (TermEmu.sel s)) (Select.timespec (TermEmu.timeout s))) as Hsig.
  destruct (TermEmu.pselect w _ _ _ _) as [o signals]. destruct (Hr Hsig) as (_ & _ & Hsafe).
  eapply safe_wp; [exact Hsafe|]. intros [n sl] (Hwf & _ & _ & _ & Hsignal & _). cbv zeta.
  set (s1 := TermEmu.mk sl _ _ _ _ _). assert (sound s1) as Hs1 by done.
  assert (∀ k : Z, 0 ≤ k < Select.FD_SETSIZE → Select.fd_ok k = true) as Hok.
  { intros k Hk. unfold Select.fd_ok. lia. }
  assert (Select.fd_ok TermEmu.STDIN_FILENO = true) as Hin by done.
  destruct (n <? 0); [done|]. unfold Select.read, Select.error. rewrite Hin, (Hok fd Hfd). cbn [mbind result_bind].
  destruct (bool_decide (TermEmu.STDIN_FILENO ∈ Select.read_fds sl)).
  { unfold TermEmu.from_user. destruct (TermEmu.read_user w) as [| |buf]; try done. apply wp_bind.
    apply (wp_weaken _ _ (fun '(_, c) => term_ok c)).
    - apply (for_each_spec _ (fun '(_, c) => term_ok c)); [exact Hc|]. intros b [acc c] _ Hcc. apply wp_bind.
      eapply safe_wp; [by apply act_user_ok|]. intros [reply c'] Hc'. exact Hc'.
    - intros [reply c] Hcc. by apply to_host_sound. }
  destruct (bool_decide (fd ∈ Select.read_fds sl)).
  { unfold TermEmu.from_host. destruct (TermEmu.read_host w) as [| |buf]; try done. apply wp_bind.
    eapply wp_weaken; [by apply act_ok|]. intros [reply c] [Hp He]. apply to_host_sound; [done|]. split; [done|].
    split; [done|by eapply emu_kept_ok]. }
  rewrite Hsignal by (by vm_compute). cbn [mbind result_bind]. destruct (bool_decide (TermEmu.SIGWINCH ∈ signals)).
  - unfold TermEmu.resized. destruct (TermEmu.winsize w) as [[col row]|] eqn:Hsz; [|done].
    destruct (wok_size w Hw col row Hsz). apply wp_bind. eapply safe_wp; [by apply act_resize_ok|]. by intros [reply c] Hcc.
  - by destruct (bool_decide (TermEmu.STDIN_FILENO ∈ Select.error_fds sl)).
Qed.

Lemma start_sound fd env clock w h installed write D s out `{!WcwidthLaws} :
  TermEmu.start fd env clock (Some (w, h)) true installed write = Ok (Some (D, out, s)) → sound s ∧ 0 ≤ fd < Select.FD_SETSIZE.
Proof.
  unfold TermEmu.start. destruct (Complete.make w h) as [c|] eqn:Ec; [|done]. cbn [mbind result_bind].
  destruct (Framebuffer.make w h) as [f|] eqn:Ef; [|done]. cbn [mbind result_bind].
  destruct (Display.make (Some env)) as [D'|]; [|done]. cbn [mbind result_bind].
  destruct (Select.add_fd TermEmu.STDIN_FILENO (Select.make clock)) as [sl|] eqn:Hz; [|done].
  apply add_fd_inv in Hz as [Hz _]; [|apply wf_make]. cbn [mbind result_bind].
  destruct (Select.add_fd fd sl) as [sl'|] eqn:Hone; [|done]. apply add_fd_inv in Hone as (Hone & Hfd & _); [|done].
  cbn [mbind result_bind]. destruct (Select.add_signal _ _ _); [|done]. cbn [mbind result_bind].
  destruct (Swrite.swrite _ _ _) as [[ret o]|]; [|done]. cbn [mbind result_bind]. intros [= <- <- <-]. conjs; try lia.
  split; [done|]. cbn. revert Ec. unfold Complete.make, Emulator.make.
  destruct (Framebuffer.make (to_int w) (to_int h)) as [f'|] eqn:Ef'; [|done]. cbn. intros [= <-].
  apply make_plain in Ef' as [[Hf _] _]. split; [by left|]. split; [done|by_eval].
Qed.

Lemma session_sound fd D s R `{!WcwidthLaws} : session fd D s R → sound s ∧ 0 ≤ fd < Select.FD_SETSIZE.
Proof.
  induction 1 as [env clock w h installed write s out R r R' Hst|s R w host out s' R1 R' _ [IH Hfd] Hr Hw]; [by eapply start_sound|].
  split; [|done]. revert Hr. unfold TermEmu.round. pose proof (input_sound fd w s IH Hw Hfd) as Hin.
  destruct (TermEmu.input_round fd w s) as [[[n host1] s1]|]; [|done]. cbn [mbind result_bind]. cbn in Hin.
  destruct n; try done. destruct (TermEmu.tick _ _ _ _ s1) as [[[b o] s2]|] eqn:Et; [|done]. cbn [mbind result_bind].
  intros [= _ _ <-]. destruct (tick_keeps _ _ _ _ _ _ _ _ Et) as [Hs Hc]. unfold sound. cbn [TermEmu.sel TermEmu.complete].
  by rewrite Hs, Hc.
Qed.

End user.

(** ** A run for the witness *)

#[local] Instance marks : Wcwidth := with_marks.

Definition writes_all : Swrite.kernel := fun _ n => n.

(** Everything of the host's that there is to read is a scrolled screen with
    colours. *)
Definition shell : TermEmu.world :=
  TermEmu.mkWorld (fun _ _ _ _ => (Select.Ready 1 {[3]} ∅, [])) (Some (7, 0)) TermEmu.ReadEnd
    (TermEmu.ReadOctets after_lines) (Some (8, 3)) true (7, 20000) writes_all writes_all.

Definition xterm : Display.environment := Display.mkEnv None Display.Present 1 (Some "xterm"%string).

Definition begun : Display.t * list Z * TermEmu.t :=
  ltac:(let s := eval vm_compute in (TermEmu.start 3 xterm Timestamp.initial (Some (8, 3)) true true writes_all) in
        lazymatch s with Ok (Some ?s) => exact s end).

Definition input_of (w : TermEmu.world) : result (TermEmu.next * list Z * TermEmu.t) :=
  TermEmu.input_round 3 w (snd begun).

Definition fed : TermEmu.t :=
  ltac:(let s := eval vm_compute in (input_of shell) in lazymatch s with Ok (_, _, ?s) => exact s end).

Lemma fed_ok : input_of shell = Ok (TermEmu.Again, [], fed).
Proof. vm_compute. reflexivity. Qed.

Definition user_terminal (str : list Z) : Complete.t :=
  match (c ← Complete.make 8 3; Complete.act str c) with
  | Ok (_, c) => c
  | Fault _ => grounded (Emulator.mk (ScreenTheorems.sample 1) Dispatcher.make UserInput.Ground)
  end.


(** Instead of [follows]: the window is made smaller and back again before
    another frame is due, and the program inside draws its screen again. *)
Definition resized_to (rows : Z) : TermEmu.world :=
  TermEmu.mkWorld (fun _ _ _ _ => (Select.Interrupted, [TermEmu.SIGWINCH])) (Some (7, 0)) TermEmu.ReadEnd
    TermEmu.ReadEnd (Some (8, rows)) true (7, 20001) writes_all writes_all.

Definition redrawn : TermEmu.world :=
  TermEmu.mkWorld (fun _ _ _ _ => (Select.Ready 1 {[3]} ∅, [])) (Some (7, 0)) TermEmu.ReadEnd
    (TermEmu.ReadOctets ([27] ++ bytes_of_string "[m" ++ [27] ++ bytes_of_string "[2J" ++ [27] ++ bytes_of_string "[H" ++ after_lines))
    (Some (8, 3)) true (8, 20001) writes_all writes_all.

Definition resize_terminal (rows : Z) (R : Complete.t) : result Complete.t :=
  '(_, R) ← Complete.act_action (Parser.new_action (Parser.Resize 8 rows)) R; Ok R.

(** The screen of the user's terminal, and that of the program inside *)
Definition resized_back : result (appearance_t * appearance_t) :=
  let '(D, _, s) := begun in
  '(_, _, out, s) ← TermEmu.round 3 D shell s;
  '(_, R) ← Complete.act out (user_terminal Emulator.open);
  '(_, _, out1, s) ← TermEmu.round 3 D (resized_to 1) s;
  '(_, _, out3, s) ← TermEmu.round 3 D (resized_to 3) s;
  '(_, _, out, s) ← TermEmu.round 3 D redrawn s;
  R ← resize_terminal 1 R;
  R ← resize_terminal 3 R;
  '(_, R) ← Complete.act (out1 ++ out3 ++ out) R;
  Ok (appearance (TermEmu.get_fb R), appearance (TermEmu.get_fb (TermEmu.complete s))).

(** The lines that the user's terminal lost are not drawn again. *)
Lemma resized_back_loses :
  match resized_back with
  | Ok (shown, should) => app_cells shown ≠ app_cells should
  | Fault _ => False
  end.
Proof. vm_compute. intros Heq. discriminate Heq. Qed.

End TermEmuTheorems.
